(* ===== verification/_CoqProject ===== *)
-Q . S2P
Prelude.v
Word.v
Text.v
Vec.v
Bin.v
Ty.v
Register.v
Instr.v
Decode.v
Encode.v
DecodeExact.v
Common.v
RegFile.v
Cache.v
BranchPredictor.v
Memory.v
Float32.v
Fpu.v
Io.v
FloatProps.v
Native.v
Ppm.v
Sld.v
Cpu.v
Isa.v
IsaProps.v
CpuInv.v
CpuProps.v
CpuTheorems.v
Hazard.v
Clock.v
DebugSymbol.v
Display.v
Sim.v
SimProps.v
Disassemble.v
Views.v
Peg.v
Command.v
Interactive.v
InteractiveProps.v
Main.v
MainProps.v
Instr2.v
Decode2.v
Encode2.v
Execute2.v
Isa2.v
Cpu2Props.v
