(* ===== verification/Prelude.v ===== *)
(** * A verification library for the cpuex2022-7 simulator

    The program is a simulator of a 32-bit RISC processor with a floating point
    unit: it loads a memory image, executes it instruction by instruction with a
    model of the hardware's timing, and reports what it did, in one batch or
    under an interactive debugger.  This library models it in the order in which
    the program is built and proves each part against a specification of its own.

    ** The program and the files of the library

    - [core_sim/src/bin.rs]: bit fields of words; Bin.v ([sign_extend], [extract],
      [mask], [at_]).
    - [core_sim/src/instr.rs], [register.rs]: Instr.v and Register.v, the formats,
      operations, registers, their numbers and their names.
    - [core_sim/src/decode_instr.rs]: Decode.v, one definition per arm of
      [decode_from].  Encode.v is a reference encoder, DecodeExact.v the proof that
      the decoder is exactly its inverse.
    - [core_sim/src/ty.rs]: Ty.v, the order of the runtime types of words.
    - [core_sim/src/common.rs], [breakpoint.rs]: Common.v, program counters,
      addresses, execution modes, spies, breakpoints.
    - [core_sim/src/reg_file.rs]: RegFile.v, both register files with the counters
      of their accesses, and the regions of the memory.
    - [core_sim/src/cache.rs], [branch_predictor.rs]: Cache.v, BranchPredictor.v,
      models of the timing hardware.
    - [core_sim/src/memory.rs]: Memory.v, the typed byte memory with its bounds,
      its protected text and its spies.
    - [fpu/impl/*.c], [core_sim/src/fpu_wrapper.rs]: Fpu.v, the arithmetic units on
      bit patterns; Float32.v, the host's own operations; Native.v, the functions of
      a build without the emulator, on the exactness lemmas of FloatProps.v.
    - [core_sim/src/io.rs], [ppm.rs]: Io.v, the traits of the devices as classes and
      their implementations; Ppm.v, the header of the picture that a program
      writes; [sld.rs]: Sld.v, the parser of scene descriptions and the device that
      replays one.
    - [core_sim/src/cpu.rs]: Cpu.v, the machine ([Cpu]) and [cycle_one_full]: fetch,
      decode, register fetch, execute, memory access, write back, and the pipeline
      model that counts the clocks.  Isa.v is the specification, IsaProps.v its
      properties; CpuInv.v, CpuProps.v and CpuTheorems.v relate the two.  Hazard.v
      is about the detection of hazards, Clock.v specifies the timing model.
    - [core_sim/src/debug_symbol.rs]: DebugSymbol.v, the table of symbols.
    - [core_sim/src/sim.rs]: Sim.v, [single_cycle] in its three modes with
      breakpoints, targets and the sticky fatal error, and the batch loop of
      [cli/src/main.rs]; Disassemble.v, the listing around an address; Display.v,
      the messages and the shared [Display]s; Views.v, the statistics ([stat.rs]
      and the views of the other files).
    - [cli/src/interactive.rs]: Command.v, the grammar of the commands, on the
      combinators of Peg.v; Interactive.v, the session.
    - [cli/src/main.rs]: Main.v, the commands [rt] and [exe] from their parsed
      arguments to the files that they write; the world is the files, the lines of
      the standard input, what is printed and what is logged.
    - the feature [isa_2nd]: Instr2.v, Decode2.v (decode_instr_2nd.rs), Encode2.v and
      Execute2.v, the parts of the program that this feature replaces; Isa2.v, its
      specification; Cpu2Props.v, the proof that the processor implements it.

    A file [XProps.v] or [XTheorems.v] holds the proofs about [X.v].

    Shared by all: this file (outcomes, stateful code, rules to reason about it,
    automation), Word.v (32-bit words), Vec.v (arrays), Text.v (strings).

    A machine is passed explicitly: a method is a function of type [ST S E A], which
    returns the state on the error paths too.  A Rust [Result] is an [outcome], which
    has a third case for a panic: an index out of bounds, an overflow in a build
    that checks for it, an [unwrap], an [assert!] or [unreachable!].  The cell that
    the register file and the memory share ([Rc<RefCell<..>>]) is one field of the
    machine.  [u32] and [usize] are [Z] with their wrap-around written out; event
    counters are unbounded.

    ** Interfaces

    - [RegFile.RegCount]: how many registers there are (32, or 64).
    - [Cpu.Sources], [Cpu.InstrSet]: what an instruction set puts into the machine (the
      decoder, the numbers of its instructions, the register fetch, the execute
      stage and the registers an instruction reads); [CpuInv.InstrSetOk]: that these
      implement a specification.  [CpuInv.cycle_of_post] proves the cycle for every
      such set; CpuProps.v and Cpu2Props.v are the two of them.
    - [Cpu.Processor]: the cycle, as the simulator calls it; [CpuInv.ProcessorOk]: that
      it is a step of a specification.  The loops of Sim.v and their proofs in
      SimProps.v are for every processor.
    - [Io.Input], [Io.Output], [Io.InputOk]: the devices.

    ** The build that is modelled

    The default features of [core_sim] ([typed_memory], [stat], [fpu_sim],
    [time_predict]).  The class [Profile] keeps open what a build can choose:
    overflow checks and debug assertions (both in a debug build, neither in a
    release build), and the sign and payload of the NaN that an operation of the
    host returns.  The theorems hold for every profile unless they say otherwise.

    ** What the theorems show

    - The processor: Isa.v specifies the architecture (registers, typed memory, [pc]
      and devices; no pipeline, cache, predictor or counter), with tables of
      operations of its own.  In a build with overflow checks two statistics belong
      to it ([a_marks], the heap start and the lowest stack pointer): an access
      panics when [get_region] underflows on them.
      [CpuTheorems.cycle_refines_isa] proves that every call of [cycle_one_full] on a
      well-formed machine is one step of it and leaves a well-formed machine;
      [timing_not_observable], [text_immutable], [exit_iff_end],
      [only_decoder_panics] and [cpu_new_initial] are what follows for results,
      program text, end, panics and loading.  [Clock.clock_exact] pins the clocks of a
      cycle and the pipeline it leaves, [Hazard.hazard_exact] the detection of hazards.
      [Cpu2Props.cycle2_refines_isa] is the refinement for the second set, and
      [only_ffrac_panics] its one defect.
    - The simulator: [SimProps.batch_runs_program] and [Cpu2Props.batch2_runs_program]
      lift this to whole runs, and [single_cycle_stops] tells exactly where and why it
      stops in every mode.
    - The program: [MainProps.main_exe_runs] and [main_rt_runs] lift it to the commands,
      from the files they read to the file they write or the error they report;
      [main_keeps_other_files] proves that every other file is left alone.
    - The instruction encoding: [Encode.decode_encode], [DecodeExact.decode_from_exact]
      and, for the second set, [Encode2.decode2_exact].
    - Memory and registers: what a load returns, which accesses are rejected, that
      integers and floats are kept apart, and what a register write changes.
    - Arithmetic: error bounds and rounding of the units, and where they differ
      from the float operations they stand for ([Native.fpu_builds_agree]).
    - Timing hardware: cache and predictor equal their textbook specifications on
      every sequence of accesses.
    - Input: the scene parser accepts the grammar of scenes and nothing else, and the
      device replays the scene; the binary device repeats its first word.  Output: the
      header of a picture is accepted exactly if it has the documented form.
    - Debugger: every command is read back from its spelling; commands between runs
      do not change the program's state; sessions end, or at the end of the input
      run on, as stated (a terminal of fewer than 20 columns stops one in a build with
      overflow checks); symbols, listing and tables are as specified.

    A hypothesis [cpu_ok], [mem_ok], [regfile_ok] and so on is the invariant of a
    component; its preservation is proved there, and [cpu_new_initial] shows that
    loading establishes it.

    ** Loops and fuel

    - A run of a program may not end: [run_loop], [skip_loop], [execute_batch] and
      [interactive_loop] take fuel and return [None] or [OutOfTurns] when it runs out,
      which is not a result of the code; [main] takes both ([turns] of the session,
      [cycles] of a run) and fails with [NoFuel], which the theorems of MainProps.v
      exclude.  [batch_runs_program] and [session_ends] give the fuel that is
      enough from the length of the run, and [eof_session] shows a session that no
      fuel ends.
    - [input_loop] reads a line in every turn: [commands_leave_program] proves that one
      turn more than there are lines is enough.
    - The scene parser consumes a character per token: [sld_fuel] is the length of the
      text and one, and [sld_parse_exact] never sees it run out.
    - The search for the number of columns stops at the width: [chunk_fuel] is the width
      and one ([tables_fit]).  The binary search halves its range, with the length of
      the table as fuel ([bsearch_loop_spec]).
    - [step_loop], [push_bubbles], [disassemble_rows], the repetitions of the grammar and
      the loop of [fcvtsw] are structural, on a count or on the text.  The digits of a
      numeral are bounded by its logarithm ([Text.digits]).

    ** Parameters

    Code that is not in the repository is an argument: the three lexers of nom
    ([Sld.Lexer], with what their documentation states in [LexerLaws]) and its three
    parsers of bytes ([Ppm.ByteLexer], [ByteLexerLaws]), the decimal notation of floats
    ([Display.FloatFmt]), the terminal's width and the expected tokens of a syntax
    error ([Interactive.Terminal]), and what [main] meets outside ([Main.Host]: the
    failures of the file system, the level of the logger, the JSON reader and the
    elapsed time).  Witnesses instantiate those that have laws.

    ** Not modelled

    - Parsing the arguments (clap), the log's own format, reading symbols from JSON
      and the [Debug] print of a scene: calls of libraries.
    - The build script, the bindings that it generates, and the test programs of the
      units in C.
    - Builds without the default features, but for the functions that replace the
      emulator of [fpu_sim] (Native.v).
    - The lines that a traced cycle prints, and what is printed of a line before a
      panic in it; the capacities that vectors reserve.
    - For the second instruction set, what is around the batch: the names of registers
      in commands, the listing, the tables of the statistics, the session and [main]
      are those of the first set.

    ** What comes next

    The listing, the tables and the session over any instruction set, and with them
    the commands of a build with the second set. *)
From Stdlib Require Export ZArith Lia Bool.
From stdpp Require Export base decidable option list numbers gmap strings tactics.
#[export] Set Default Goal Selector "!".

#[global] Open Scope Z_scope.

(** ** Build profile

    Two settings of the Rust build change what the code does: whether integer
    overflow panics or wraps, and [cfg(debug_assertions)].  A third choice is
    left open by the language: the sign and payload of a NaN that an [f32]
    operation produces.  Every definition whose behaviour depends on them takes
    the profile as a class argument. *)
Definition is_nan32 (b : Z) : bool := 0x7F800000 <? b mod 2 ^ 31.

Class Profile := mkProfile {
  overflow_checks : bool;
  debug_assertions : bool;
  nan_result : Z -> Z -> Z;
  nan_result_ok : forall a b, 0 <= nan_result a b < 2 ^ 32;
  nan_result_nan : forall a b, is_nan32 (nan_result a b) = true
}.

(** The two usual builds, with [f32::NAN] as the result of every operation
    that gives a NaN. *)
Program Definition debug_profile : Profile := mkProfile true true (fun _ _ => 0x7FC00000) _ _.
Solve Obligations with (intros; vm_compute; intuition discriminate).
Program Definition release_profile : Profile := mkProfile false false (fun _ _ => 0x7FC00000) _ _.
Solve Obligations with (intros; vm_compute; intuition discriminate).

(** ** Outcomes of Rust code *)

(** The ways the code can panic. *)
Inductive panic :=
  | IndexOutOfBounds
  | SliceOutOfBounds
  | ArithOverflow
  | ShiftOverflow
  | DivisionByZero
  | UnwrapFailed
  | AssertFailed
  | Unreachable
  | NotImplemented.

(** A computation of type [Result<A, E>] that may also panic. *)
Inductive outcome (E A : Type) :=
  | Ok (a : A)
  | Err (e : E)
  | Panic (p : panic).
Arguments Ok {E A} a.
Arguments Err {E A} e.
Arguments Panic {E A} p.

#[export] Instance outcome_ret {E} : MRet (outcome E) := fun A a => Ok a.
#[export] Instance outcome_bind {E} : MBind (outcome E) := fun A B k o =>
  match o with
  | Ok a => k a
  | Err e => Err e
  | Panic p => Panic p
  end.

#[export] Instance outcome_fmap {E} : FMap (outcome E) := fun A B f o =>
  match o with
  | Ok a => Ok (f a)
  | Err e => Err e
  | Panic p => Panic p
  end.

Definition map_err {E E' A} (f : E -> E') (o : outcome E A) : outcome E' A :=
  match o with
  | Ok a => Ok a
  | Err e => Err (f e)
  | Panic p => Panic p
  end.

(** [Option::unwrap] *)
Definition unwrap {E A} (o : option A) : outcome E A :=
  match o with
  | Some a => Ok a
  | None => Panic UnwrapFailed
  end.

Definition is_panic {E A} (o : outcome E A) : Prop :=
  match o with Panic _ => True | _ => False end.

Definition is_ok {E A} (o : outcome E A) : Prop :=
  match o with Ok _ => True | _ => False end.

#[export] Instance is_panic_dec {E A} (o : outcome E A) : Decision (is_panic o).
Proof. destruct o; simpl; apply _. Defined.

#[export] Instance is_ok_dec {E A} (o : outcome E A) : Decision (is_ok o).
Proof. destruct o; simpl; apply _. Defined.

(** Code that cannot return an error value (a Rust function whose result is
    not a [Result]) has the error type [never]. *)
Inductive never : Set := .

Definition no_err {E A} (o : outcome never A) : outcome E A :=
  map_err (fun e : never => match e with end) o.

(** A fallible function on every element, up to the first failure. *)
Section Traverse.
Context {E A B : Type} (f : A -> outcome E B).

Fixpoint traverse (l : list A) : outcome E (list B) :=
  match l with
  | [] => Ok []
  | x :: l => y ← f x; ys ← traverse l; Ok (y :: ys)
  end.

Lemma traverse_ok l :
  (forall j x, l !! j = Some x -> exists y, f x = Ok y) -> exists ys, traverse l = Ok ys /\ length ys = length l.
Proof.
  induction l as [|x l IH]; intros Hall; [by eexists|]. simpl.
  destruct (Hall 0%nat x eq_refl) as [y ->].
  destruct IH as (ys & -> & Hlen); [by intros j; apply (Hall (S j))|].
  eexists. split; [done|]. simpl. by rewrite Hlen.
Qed.
End Traverse.

(** ** Stateful code

    A method with a [&mut self] receiver, or one that mutates through a
    [RefCell].  The state is returned on every path: the simulator keeps
    using the machine after an error, so what was changed before it matters. *)
Definition ST (S E A : Type) : Type := S -> outcome E A * S.

#[export] Instance ST_ret {S E} : MRet (ST S E) := fun A a s => (Ok a, s).
#[export] Instance ST_bind {S E} : MBind (ST S E) := fun A B k m s =>
  match m s with
  | (Ok a, s') => k a s'
  | (Err e, s') => (Err e, s')
  | (Panic p, s') => (Panic p, s')
  end.

Definition gets {S E A} (f : S -> A) : ST S E A := fun s => (Ok (f s), s).
Definition modify {S E} (f : S -> S) : ST S E () := fun s => (Ok (), f s).
Definition lift {S E A} (o : outcome E A) : ST S E A := fun s => (o, s).
Definition throw {S E A} (e : E) : ST S E A := fun s => (Err e, s).

(** Run a method on a part of the state. *)
Definition zoom {S T E A} (get : S -> T) (put : T -> S -> S) (m : ST T E A) : ST S E A :=
  fun s => let '(o, t) := m (get s) in (o, put t s).

(** The conversion of the [?] operator. *)
Definition with_err {S E E' A} (f : E -> E') (m : ST S E A) : ST S E' A :=
  fun s => let '(o, s') := m s in (map_err f o, s').

(** ** Weakest preconditions

    [wp m Q s]: running [m] from [s] ends with an outcome and a state that
    satisfy [Q], whatever the outcome is. *)
Definition wp {S E A} (m : ST S E A) (Q : outcome E A -> S -> Prop) (s : S) : Prop :=
  Q (m s).1 (m s).2.

Section WpRules.
Context {S E : Type}.

Lemma wp_mono {A} (m : ST S E A) (Q Q' : outcome E A -> S -> Prop) s :
  wp m Q s -> (forall o s', Q o s' -> Q' o s') -> wp m Q' s.
Proof. unfold wp. auto. Qed.

Lemma wp_ret {A} (a : A) (Q : outcome E A -> S -> Prop) s :
  Q (Ok a) s -> wp (mret a) Q s.
Proof. done. Qed.

Lemma wp_bind {A B} (m : ST S E A) (k : A -> ST S E B) Q s :
  wp m (fun o s' => match o with
                    | Ok a => wp (k a) Q s'
                    | Err e => Q (Err e) s'
                    | Panic p => Q (Panic p) s'
                    end) s ->
  wp (m ≫= k) Q s.
Proof. unfold wp, mbind, ST_bind. destruct (m s) as [[] ?]; done. Qed.

Lemma wp_assoc {A B C} (m : ST S E A) (k : A -> ST S E B) (l : B -> ST S E C) Q s :
  wp ((m ≫= k) ≫= l) Q s -> wp (m ≫= fun a => k a ≫= l) Q s.
Proof. unfold wp, mbind, ST_bind. destruct (m s) as [[] ?]; done. Qed.

Lemma wp_gets {A} (f : S -> A) (Q : outcome E A -> S -> Prop) s :
  Q (Ok (f s)) s -> wp (gets f) Q s.
Proof. done. Qed.

Lemma wp_modify (f : S -> S) (Q : outcome E () -> S -> Prop) s :
  Q (Ok ()) (f s) -> wp (modify f) Q s.
Proof. done. Qed.

Lemma wp_lift {A} (o : outcome E A) (Q : outcome E A -> S -> Prop) s :
  Q o s -> wp (lift o) Q s.
Proof. done. Qed.

Lemma wp_throw {A} (e : E) (Q : outcome E A -> S -> Prop) s :
  Q (Err e) s -> wp (throw e) Q s.
Proof. done. Qed.

Lemma wp_zoom {T A} (get : S -> T) (put : T -> S -> S) (m : ST T E A) Q s :
  wp m (fun o t => Q o (put t s)) (get s) -> wp (zoom get put m) Q s.
Proof. unfold wp, zoom. destruct (m (get s)); done. Qed.

Lemma wp_with_err {E' A} (f : E' -> E) (m : ST S E' A) Q s :
  wp m (fun o s' => Q (map_err f o) s') s -> wp (with_err f m) Q s.
Proof. unfold wp, with_err. destruct (m s); done. Qed.
End WpRules.

(** ** What a computation leaves alone *)

(** Whatever happens, [m] keeps the part [f] of the state. *)
Definition keeps {S E A X} (f : S -> X) (m : ST S E A) : Prop := forall s, f (m s).2 = f s.

Section Keeps.
Context {S E X : Type} (f : S -> X).

Lemma keeps_ret {A} (a : A) : keeps (E:=E) f (mret a).
Proof. done. Qed.

Lemma keeps_gets {A} (g : S -> A) : keeps (E:=E) f (gets g).
Proof. done. Qed.

Lemma keeps_lift {A} (o : outcome E A) : keeps f (lift o).
Proof. done. Qed.

Lemma keeps_modify g : (forall s, f (g s) = f s) -> keeps (E:=E) f (modify g).
Proof. intros Hg s. apply Hg. Qed.

Lemma keeps_bind {A B} (m : ST S E A) (k : A -> ST S E B) :
  keeps f m -> (forall a, keeps f (k a)) -> keeps f (m ≫= k).
Proof.
  intros Hm Hk s. specialize (Hm s). unfold mbind, ST_bind.
  destruct (m s) as [[a|e|p] s']; simpl in *; [|done..]. by rewrite Hk.
Qed.
End Keeps.

(** Go through a program that keeps [f] at every step. *)
Ltac keeps_step :=
  first
    [ apply keeps_ret | apply keeps_gets | apply keeps_lift | by apply keeps_modify
    | apply keeps_bind; [|intros ?] ].

(** ** What a computation can return *)

(** From every state, a value that [m] returns satisfies [Q]. *)
Definition yields {S E A} (m : ST S E A) (Q : A -> Prop) : Prop :=
  forall s a s', m s = (Ok a, s') -> Q a.

Section Yields.
Context {S E : Type}.

Lemma yields_mono {A} (m : ST S E A) (Q Q' : A -> Prop) : yields m Q -> (forall a, Q a -> Q' a) -> yields m Q'.
Proof. intros Hm Hi s a s' Ha. by apply Hi, (Hm s a s'). Qed.

Lemma yields_any {A} (m : ST S E A) : yields m (fun _ => True).
Proof. by intros s a s' _. Qed.

Lemma yields_ret {A} (a : A) (Q : A -> Prop) : Q a -> yields (S:=S) (E:=E) (mret a) Q.
Proof. by intros Ha s b s' [= <- _]. Qed.

Lemma yields_bind {A B} (m : ST S E A) (k : A -> ST S E B) P Q :
  yields m P -> (forall a, P a -> yields (k a) Q) -> yields (m ≫= k) Q.
Proof.
  intros Hm Hk s b s'. unfold mbind, ST_bind. destruct (m s) as [[a|e|e] s1] eqn:Hs; [|done..].
  apply (Hk a). by apply (Hm s a s1).
Qed.
End Yields.

(** Pass over a computation whose value does not matter. *)
Ltac yields_skip := eapply yields_bind; [apply yields_any|intros ? _].

(** ** Running stateful code *)

Section Run.
Context {S E A B : Type}.

Lemma run_ok (m : ST S E A) (k : A -> ST S E B) s s' a :
  m s = (Ok a, s') -> (m ≫= k) s = k a s'.
Proof. intros Hm. unfold mbind, ST_bind. by rewrite Hm. Qed.

Lemma run_err (m : ST S E A) (k : A -> ST S E B) s s' e :
  m s = (Err e, s') -> (m ≫= k) s = (Err e, s').
Proof. intros Hm. unfold mbind, ST_bind. by rewrite Hm. Qed.

Lemma run_panic (m : ST S E A) (k : A -> ST S E B) s s' p :
  m s = (Panic p, s') -> (m ≫= k) s = (Panic p, s').
Proof. intros Hm. unfold mbind, ST_bind. by rewrite Hm. Qed.
(** A computation that returns has returned at its first step. *)
Lemma run_ok_inv (m : ST S E A) (k : A -> ST S E B) s b s' :
  (m ≫= k) s = (Ok b, s') -> exists a s1, m s = (Ok a, s1) /\ k a s1 = (Ok b, s').
Proof. unfold mbind, ST_bind. destruct (m s) as [[a|e|p] s1]; [|done..]. by exists a, s1. Qed.
End Run.

(** The same for code without a state: one step of a chain of [let]s and [?]s. *)
Lemma bind_ok {E A B} (m : outcome E A) (k : A -> outcome E B) a r :
  m = Ok a -> k a = r -> (m ≫= k) = r.
Proof. by intros -> <-. Qed.

(** A chain that returns has returned at its first step. *)
Lemma bind_ok_inv {E A B} (m : outcome E A) (k : A -> outcome E B) r :
  (m ≫= k) = Ok r -> exists a, m = Ok a /\ k a = Ok r.
Proof. destruct m as [a|e|p]; [|done..]. by exists a. Qed.

(** A chain panics at its first step or behind it. *)
Lemma bind_total {E A B} (m : outcome E A) (k : A -> outcome E B) :
  ~ is_panic m -> (forall a, ~ is_panic (k a)) -> ~ is_panic (m ≫= k).
Proof. destruct m as [a|e|p]; intros Hm Hk; [apply Hk|done..]. Qed.

(** Unfold the monad and compute. *)
Ltac st_run :=
  unfold wp, mbind, ST_bind, outcome_bind, mret, ST_ret, outcome_ret, gets, modify, lift, throw,
    zoom, with_err; cbn.

(** One step of symbolic execution of a monadic program. *)
Ltac wp_step :=
  first
    [ apply wp_ret | apply wp_gets | apply wp_modify | apply wp_lift | apply wp_throw
    | apply wp_zoom | apply wp_with_err | apply wp_bind ];
  simpl.

(** ** Rewriting and automation *)
Create HintDb sim discriminated.
Create Rewrite HintDb sim_simp.

(** [lia] after the division equations. *)
Ltac dlia := Z.div_mod_to_equations; lia.

(** Split every boolean comparison of the goal into its two cases. *)
Ltac cases_bool :=
  repeat match goal with
  | |- context [Z.eqb ?a ?b] => destruct (Z.eqb_spec a b)
  | |- context [Z.ltb ?a ?b] => destruct (Z.ltb_spec a b)
  | |- context [Z.leb ?a ?b] => destruct (Z.leb_spec a b)
  end.

(** ** Exhaustive checks *)

(** A decidable property of every number below a bound, by evaluation. *)
Lemma forall_below (n : nat) (P : Z -> Prop) `{!forall i, Decision (P i)} :
  bool_decide (Forall P (Z.of_nat <$> seq 0 n)) = true ->
  forall i, 0 <= i < Z.of_nat n -> P i.
Proof.
  rewrite bool_decide_eq_true, Forall_fmap, Forall_seq. intros Hall i Hi.
  rewrite <- (Z2Nat.id i) by lia. apply Hall. lia.
Qed.
