(* ===== verification/Word.v ===== *)
(** * 32-bit machine words

    A [u32] is a [Z] between 0 and [2^32]; [as i32] reads it in two's
    complement.  [wrapping_*] are Rust's methods; [add_u32], [sub_u32],
    [shl_u32] and [shr_u32] are the operators [+], [-], [<<] and [>>], which
    panic or wrap according to the build profile. *)
From S2P Require Import Prelude.

Definition u32_modulus : Z := 2 ^ 32.
Definition u32_ok (x : Z) : Prop := 0 <= x < 2 ^ 32.
Definition u8_ok (x : Z) : Prop := 0 <= x < 2 ^ 8.
Definition i32_ok (x : Z) : Prop := - 2 ^ 31 <= x < 2 ^ 31.

#[export] Instance u32_ok_dec x : Decision (u32_ok x).
Proof. unfold u32_ok. apply _. Defined.
#[export] Instance u8_ok_dec x : Decision (u8_ok x).
Proof. unfold u8_ok. apply _. Defined.
#[export] Instance i32_ok_dec x : Decision (i32_ok x).
Proof. unfold i32_ok. apply _. Defined.

Definition wrap32 (x : Z) : Z := x mod 2 ^ 32.
Definition wrapping_add (x y : Z) : Z := wrap32 (x + y).
Definition wrapping_sub (x y : Z) : Z := wrap32 (x - y).

(** [x as i32] for [x : u32], and [x as u32] for [x : i32]. *)
Definition as_i32 (x : Z) : Z := if x <? 2 ^ 31 then x else x - 2 ^ 32.
Definition i32_as_u32 (x : Z) : Z := wrap32 x.
(** [x as u8] for [x : u32]. *)
Definition as_u8 (x : Z) : Z := x mod 2 ^ 8.

Section Checked.
Context `{Profile}.

Definition add_u32 {E} (x y : Z) : outcome E Z :=
  if x + y <? 2 ^ 32 then Ok (x + y)
  else if overflow_checks then Panic ArithOverflow else Ok (wrap32 (x + y)).

Definition sub_u32 {E} (x y : Z) : outcome E Z :=
  if y <=? x then Ok (x - y)
  else if overflow_checks then Panic ArithOverflow else Ok (wrap32 (x - y)).

Definition mul_u32 {E} (x y : Z) : outcome E Z :=
  if x * y <? 2 ^ 32 then Ok (x * y)
  else if overflow_checks then Panic ArithOverflow else Ok (wrap32 (x * y)).

(** The unary minus of [i32]. *)
Definition neg_i32 {E} (x : Z) : outcome E Z :=
  if x =? - 2 ^ 31 then if overflow_checks then Panic ArithOverflow else Ok x else Ok (- x).

(** A shift by 32 or more panics with overflow checks; without them the
    amount is reduced modulo 32. *)
Definition shl_u32 {E} (x n : Z) : outcome E Z :=
  if n <? 32 then Ok (wrap32 (Z.shiftl x n))
  else if overflow_checks then Panic ShiftOverflow
  else Ok (wrap32 (Z.shiftl x (Z.land n 31))).

Definition shr_u32 {E} (x n : Z) : outcome E Z :=
  if n <? 32 then Ok (Z.shiftr x n)
  else if overflow_checks then Panic ShiftOverflow
  else Ok (Z.shiftr x (Z.land n 31)).
End Checked.

(** [u32::to_le_bytes] and [u32::from_le_bytes] *)
Definition to_le_bytes (x : Z) : list Z :=
  [x mod 256; (x / 2 ^ 8) mod 256; (x / 2 ^ 16) mod 256; (x / 2 ^ 24) mod 256].

Definition from_le_bytes (b0 b1 b2 b3 : Z) : Z :=
  b0 + b1 * 2 ^ 8 + b2 * 2 ^ 16 + b3 * 2 ^ 24.

(** ** Facts *)

Lemma wrap32_ok x : u32_ok (wrap32 x).
Proof. unfold u32_ok, wrap32. dlia. Qed.

Lemma wrap32_small x : u32_ok x -> wrap32 x = x.
Proof. unfold u32_ok, wrap32. intros. by apply Z.mod_small. Qed.

Lemma wrapping_add_ok x y : u32_ok (wrapping_add x y).
Proof. apply wrap32_ok. Qed.

Lemma wrapping_sub_ok x y : u32_ok (wrapping_sub x y).
Proof. apply wrap32_ok. Qed.

Lemma as_i32_ok x : u32_ok x -> i32_ok (as_i32 x).
Proof. unfold u32_ok, i32_ok, as_i32. case_match; lia. Qed.

Lemma i32_as_u32_ok x : u32_ok (i32_as_u32 x).
Proof. apply wrap32_ok. Qed.

Lemma as_i32_as_u32 x : u32_ok x -> i32_as_u32 (as_i32 x) = x.
Proof.
  unfold u32_ok, i32_as_u32, as_i32, wrap32. intros.
  case_match; dlia.
Qed.

Lemma as_i32_inj x y : u32_ok x -> u32_ok y -> as_i32 x = as_i32 y -> x = y.
Proof.
  intros Hx Hy He. rewrite <- (as_i32_as_u32 x), <- (as_i32_as_u32 y) by done. by rewrite He.
Qed.

Lemma as_u32_as_i32 x : i32_ok x -> as_i32 (i32_as_u32 x) = x.
Proof.
  unfold i32_ok, i32_as_u32, as_i32, wrap32. intros.
  destruct (Z.ltb_spec (x mod 2 ^ 32) (2 ^ 31)); dlia.
Qed.

(** Two's complement addition: [wrapping_add] adds the signed values. *)
Lemma wrapping_add_signed x y : wrapping_add x (i32_as_u32 y) = wrap32 (x + y).
Proof. unfold wrapping_add, i32_as_u32, wrap32. by rewrite Zplus_mod_idemp_r. Qed.

Lemma to_le_bytes_ok x : Forall u8_ok (to_le_bytes x).
Proof. repeat constructor; dlia. Qed.

Lemma length_to_le_bytes x : length (to_le_bytes x) = 4%nat.
Proof. done. Qed.

Lemma from_le_bytes_ok b0 b1 b2 b3 :
  u8_ok b0 -> u8_ok b1 -> u8_ok b2 -> u8_ok b3 -> u32_ok (from_le_bytes b0 b1 b2 b3).
Proof. unfold u8_ok, u32_ok, from_le_bytes. lia. Qed.

Lemma from_to_le_bytes x :
  u32_ok x ->
  from_le_bytes (x mod 256) ((x / 2 ^ 8) mod 256) ((x / 2 ^ 16) mod 256)
    ((x / 2 ^ 24) mod 256) = x.
Proof. unfold u32_ok, from_le_bytes. intros. dlia. Qed.

Lemma to_from_le_bytes b0 b1 b2 b3 :
  u8_ok b0 -> u8_ok b1 -> u8_ok b2 -> u8_ok b3 ->
  to_le_bytes (from_le_bytes b0 b1 b2 b3) = [b0; b1; b2; b3].
Proof.
  unfold u8_ok, to_le_bytes, from_le_bytes. intros.
  repeat f_equal; dlia.
Qed.

#[export] Hint Resolve wrap32_ok wrapping_add_ok wrapping_sub_ok as_i32_ok i32_as_u32_ok
  to_le_bytes_ok from_le_bytes_ok : sim.

(** ** Bitwise operations stay in range *)

Lemma bits_below n x :
  0 <= n -> 0 <= x -> (forall i, n <= i -> Z.testbit x i = false) -> x < 2 ^ n.
Proof.
  intros Hn Hx Hbits. destruct (Z.eq_dec x 0) as [->|]; [lia|].
  apply Z.log2_lt_pow2; [lia|].
  destruct (Z.lt_ge_cases (Z.log2 x) n) as [|Hge]; [done|].
  specialize (Hbits _ Hge). rewrite Z.bit_log2 in Hbits by lia. done.
Qed.

Lemma testbit_high n x i : 0 <= x < 2 ^ n -> n <= i -> Z.testbit x i = false.
Proof.
  intros [H0 H1] Hi. destruct (Z.eq_dec x 0) as [->|]; [apply Z.testbit_0_l|].
  apply Z.bits_above_log2; [done|].
  apply Z.log2_lt_pow2 in H1; lia.
Qed.

Lemma lor_ok x y : u32_ok x -> u32_ok y -> u32_ok (Z.lor x y).
Proof.
  unfold u32_ok. intros Hx Hy. split; [apply Z.lor_nonneg; lia|].
  apply bits_below; [lia|apply Z.lor_nonneg; lia|]. intros i Hi.
  by rewrite Z.lor_spec, !(testbit_high 32).
Qed.

Lemma lxor_ok x y : u32_ok x -> u32_ok y -> u32_ok (Z.lxor x y).
Proof.
  unfold u32_ok. intros Hx Hy. split; [apply Z.lxor_nonneg; lia|].
  apply bits_below; [lia|apply Z.lxor_nonneg; lia|]. intros i Hi.
  by rewrite Z.lxor_spec, !(testbit_high 32).
Qed.

Lemma land_ok x y : u32_ok x -> u32_ok (Z.land x y).
Proof.
  unfold u32_ok. intros Hx. split; [apply Z.land_nonneg; lia|].
  apply bits_below; [lia|apply Z.land_nonneg; lia|]. intros i Hi.
  by rewrite Z.land_spec, (testbit_high 32).
Qed.

Lemma shiftr_ok x n : u32_ok x -> 0 <= n -> u32_ok (Z.shiftr x n).
Proof.
  unfold u32_ok. intros Hx Hn. rewrite Z.shiftr_div_pow2 by done.
  assert (0 < 2 ^ n) by lia. split; [apply Z.div_pos; lia|].
  apply Z.div_lt_upper_bound; nia.
Qed.

Lemma b2u_ok (b : bool) : u32_ok (if b then 1 else 0).
Proof. unfold u32_ok. destruct b; lia. Qed.

Section CheckedFacts.
Context `{Profile}.

Lemma shl_u32_small {E} x n : 0 <= n < 32 -> @shl_u32 _ E x n = Ok (x * 2 ^ n mod 2 ^ 32).
Proof.
  intros. unfold shl_u32, wrap32.
  destruct (Z.ltb_spec n 32); [|lia]. by rewrite Z.shiftl_mul_pow2 by lia.
Qed.

Lemma shr_u32_small {E} x n : 0 <= n < 32 -> @shr_u32 _ E x n = Ok (x / 2 ^ n).
Proof.
  intros. unfold shr_u32.
  destruct (Z.ltb_spec n 32); [|lia]. by rewrite Z.shiftr_div_pow2 by lia.
Qed.
End CheckedFacts.

#[export] Hint Resolve lor_ok lxor_ok land_ok b2u_ok : sim.
