(* ===== verification/Text.v ===== *)
(** * Text

    Strings as the program reads and prints them: the longest prefix of
    characters of a class, numerals in a base, padding.  Rust's formatting of
    numbers ([{:#010x}], [{:>7}]) and its number parsers are modelled by them. *)
From Stdlib Require Import Ascii.
From S2P Require Import Prelude.

(** ** Prefixes *)

(** The longest prefix of characters that satisfy [p], and the rest. *)
Fixpoint span (p : ascii -> bool) (s : string) : string * string :=
  match s with
  | String c s' => if p c then let '(t, r) := span p s' in (String c t, r) else (EmptyString, s)
  | EmptyString => (EmptyString, s)
  end.

Fixpoint all_chars (p : ascii -> bool) (s : string) : bool :=
  match s with EmptyString => true | String c s => p c && all_chars p s end.

(** The text does not go on with a character of the class. *)
Definition stops (p : ascii -> bool) (s : string) : bool :=
  match s with EmptyString => true | String c _ => negb (p c) end.

Definition is_digit (c : ascii) : bool :=
  let n := Z.of_nat (nat_of_ascii c) in (48 <=? n) && (n <=? 57).
Definition digit_value (c : ascii) : Z := Z.of_nat (nat_of_ascii c) - 48.

(** ** Numerals *)

(** The digits 0-9, a-f and their values; upper-case letters count as well. *)
Definition digit_char (d : Z) : ascii := ascii_of_nat (Z.to_nat (if d <? 10 then 48 + d else 87 + d)).
Definition digit_val (c : ascii) : Z :=
  let n := Z.of_nat (nat_of_ascii c) in if n <? 58 then n - 48 else if n <? 97 then n - 55 else n - 87.

Fixpoint num_acc (base acc : Z) (s : string) : Z :=
  match s with EmptyString => acc | String c s => num_acc base (acc * base + digit_val c) s end.
Definition num_of (base : Z) (s : string) : Z := num_acc base 0 s.

Fixpoint digits_acc (fuel : nat) (base n : Z) (acc : string) : string :=
  match fuel with
  | O => acc
  | S fuel =>
      let acc := String (digit_char (n mod base)) acc in
      if n <? base then acc else digits_acc fuel base (n / base) acc
  end.
Definition digits (base n : Z) : string := digits_acc (S (Z.to_nat (Z.log2 n))) base n EmptyString.

Fixpoint repeat_char (c : ascii) (n : nat) : string :=
  match n with O => EmptyString | S n => String c (repeat_char c n) end.

(** [{:>w$}] and [{:#0w$x}] *)
Definition pad_left (c : ascii) (w : nat) (s : string) : string := repeat_char c (w - String.length s) +:+ s.
Definition hex8 (n : Z) : string := "0x" +:+ pad_left "0" 8 (digits 16 n).

(** [{:c^w$}]: the smaller half of the padding first; [{:c<w$}] *)
Definition pad_center (c : ascii) (w : nat) (s : string) : string :=
  let n := (w - String.length s)%nat in
  repeat_char c (n / 2) +:+ s +:+ repeat_char c (n - n / 2).

(** A line of output. *)
Definition line (s : string) : string := s +:+ String "010"%char EmptyString.

(** [slice::chunks(n)], for a positive [n]: at most [length l] chunks. *)
Fixpoint chunks_fuel {A} (fuel : nat) (n : nat) (l : list A) : list (list A) :=
  match fuel, l with
  | O, _ | _, [] => []
  | S fuel, l => take n l :: chunks_fuel fuel n (drop n l)
  end.
Definition chunks {A} (n : nat) (l : list A) : list (list A) := chunks_fuel (length l) n l.

(** ** Facts *)

Lemma span_app p s : s = (span p s).1 +:+ (span p s).2.
Proof.
  induction s as [|c s IH]; simpl; [done|]. destruct (p c); [|done].
  destruct (span p s) as [t r]. simpl in *. by rewrite IH at 1.
Qed.

Lemma span_all p t r : all_chars p t = true -> stops p r = true -> span p (t +:+ r) = (t, r).
Proof.
  induction t as [|c t IH]; simpl.
  - intros _. destruct r as [|c r]; simpl; [done|]. by destruct (p c).
  - intros [-> Ht]%andb_true_iff Hr. by rewrite IH.
Qed.

Lemma span_none p r : stops p r = true -> span p r = (EmptyString, r).
Proof. intros. by apply (span_all p EmptyString). Qed.

Lemma length_app_string a b : String.length (a +:+ b) = (String.length a + String.length b)%nat.
Proof. induction a as [|c a IH]; simpl; [done|]. by rewrite IH. Qed.

Lemma app_string_assoc a b c : a +:+ (b +:+ c) = (a +:+ b) +:+ c.
Proof. induction a as [|x a IH]; [done|]. by apply (f_equal (String x)). Qed.

Lemma app_string_nil a : a +:+ EmptyString = a.
Proof. induction a as [|x a IH]; [done|]. by apply (f_equal (String x)). Qed.

Lemma all_chars_app p a b : all_chars p (a +:+ b) = all_chars p a && all_chars p b.
Proof. induction a as [|c a IH]; simpl; [done|]. rewrite IH. apply andb_assoc. Qed.

Lemma all_chars_impl (p q : ascii -> bool) s :
  (forall c, p c = true -> q c = true) -> all_chars p s = true -> all_chars q s = true.
Proof.
  intros Hpq. induction s as [|c s IH]; simpl; [done|].
  intros [Hc Hs]%andb_true_iff. by rewrite Hpq, IH.
Qed.

(** A property of the sixteen digits. *)
Lemma digit_cases (P : Z -> Prop) `{!forall i, Decision (P i)} :
  bool_decide (Forall P (Z.of_nat <$> seq 0 16)) = true -> forall d, 0 <= d < 16 -> P d.
Proof. intros Hb. exact (forall_below 16 P Hb). Qed.

Lemma digit_val_char d : 0 <= d < 16 -> digit_val (digit_char d) = d.
Proof. revert d. refine (digit_cases _ _). by vm_compute. Qed.

Section Digits.
Context (base : Z) (Hbase : 2 <= base <= 16).

Lemma num_digits_acc fuel n acc :
  0 <= n < base ^ Z.of_nat fuel -> num_acc base 0 (digits_acc fuel base n acc) = num_acc base n acc.
Proof.
  revert n acc. induction fuel as [|fuel IH]; intros n acc Hn.
  - simpl in Hn. by replace n with 0 by lia.
  - cbn [digits_acc]. assert (digit_val (digit_char (n mod base)) = n mod base) as Hd.
    { apply digit_val_char. pose proof (Z.mod_pos_bound n base). lia. }
    destruct (Z.ltb_spec n base) as [Hlt|Hge].
    + cbn [num_acc]. by rewrite Hd, Z.mod_small by lia.
    + rewrite IH.
      * cbn [num_acc]. rewrite Hd. f_equal. rewrite (Z.div_mod n base) at 3 by lia. lia.
      * rewrite Nat2Z.inj_succ, Z.pow_succ_r in Hn by lia. split; [apply Z.div_pos; lia|].
        apply Z.div_lt_upper_bound; lia.
Qed.

Lemma log2_fuel n : 0 <= n -> n < base ^ Z.of_nat (S (Z.to_nat (Z.log2 n))).
Proof.
  intros Hn. rewrite Nat2Z.inj_succ, Z2Nat.id by apply Z.log2_nonneg.
  destruct (decide (n = 0)) as [->|]; [apply Z.pow_pos_nonneg; simpl; lia|].
  apply Z.lt_le_trans with (2 ^ Z.succ (Z.log2 n)); [apply Z.log2_spec; lia|].
  apply Z.pow_le_mono_l. lia.
Qed.

(** A number is read back from its numeral. *)
Lemma num_digits n : 0 <= n -> num_of base (digits base n) = n.
Proof.
  intros Hn. unfold num_of, digits. rewrite num_digits_acc; [done|]. split; [done|by apply log2_fuel].
Qed.

Lemma digits_acc_chars (p : ascii -> bool) fuel n acc :
  (forall d, 0 <= d < base -> p (digit_char d) = true) ->
  all_chars p acc = true -> all_chars p (digits_acc fuel base n acc) = true.
Proof.
  intros Hp. revert n acc. induction fuel as [|fuel IH]; intros n acc Hacc; [done|]. cbn [digits_acc].
  assert (all_chars p (String (digit_char (n mod base)) acc) = true) as Hc.
  { simpl. rewrite Hp, Hacc; [done|]. apply Z.mod_pos_bound. lia. }
  destruct (n <? base); [done|by apply IH].
Qed.

Lemma digits_chars (p : ascii -> bool) n :
  (forall d, 0 <= d < base -> p (digit_char d) = true) -> all_chars p (digits base n) = true.
Proof. intros Hp. by apply digits_acc_chars. Qed.

Lemma digits_acc_nonempty fuel n acc : acc <> EmptyString -> digits_acc fuel base n acc <> EmptyString.
Proof.
  revert n acc. induction fuel as [|fuel IH]; intros n acc Ha; cbn [digits_acc]; [done|].
  destruct (n <? base); [done|by apply IH].
Qed.

Lemma length_digits_acc fuel n k acc :
  0 <= n < base ^ Z.of_nat k -> (0 < k)%nat ->
  (String.length (digits_acc fuel base n acc) <= String.length acc + k)%nat.
Proof.
  revert n k acc. induction fuel as [|fuel IH]; intros n k acc Hn Hk; cbn [digits_acc]; [lia|].
  destruct (Z.ltb_spec n base) as [Hlt|Hge]; [simpl; lia|].
  destruct k as [|[|k]]; [lia|rewrite Z.pow_1_r in Hn; lia|].
  assert (0 <= n / base < base ^ Z.of_nat (S k)) as Hq.
  { rewrite (Nat2Z.inj_succ (S k)), Z.pow_succ_r in Hn by lia.
    split; [apply Z.div_pos; lia|]. apply Z.div_lt_upper_bound; lia. }
  pose proof (IH (n / base) (S k) (String (digit_char (n mod base)) acc) Hq ltac:(lia)) as Hl.
  simpl in Hl. lia.
Qed.

(** A number below [base ^ k] has at most [k] digits. *)
Lemma length_digits n k :
  0 <= n < base ^ Z.of_nat k -> (0 < k)%nat -> (String.length (digits base n) <= k)%nat.
Proof. intros Hn Hk. unfold digits. by pose proof (length_digits_acc (S (Z.to_nat (Z.log2 n))) n k EmptyString Hn Hk). Qed.

Lemma digits_nonempty n : digits base n <> EmptyString.
Proof. unfold digits. cbn [digits_acc]. destruct (n <? base); [done|by apply digits_acc_nonempty]. Qed.
End Digits.

Lemma length_pad_left c w s : String.length (pad_left c w s) = Nat.max w (String.length s).
Proof.
  unfold pad_left. rewrite length_app_string.
  assert (forall n, String.length (repeat_char c n) = n) as -> by (induction n; simpl; lia). lia.
Qed.

(** Chunks of at most [n] elements that make up the list again. *)
Lemma chunks_spec {A} n (l : list A) :
  (0 < n)%nat -> concat (chunks n l) = l /\ Forall (fun c => (0 < length c <= n)%nat) (chunks n l).
Proof.
  intros Hn. unfold chunks. remember (length l) as fuel eqn:Hf.
  assert (length l <= fuel)%nat as Hle by lia. clear Hf. revert l Hle.
  induction fuel as [|fuel IH]; intros [|x l] Hle; simpl in *; [by split|lia|by split|].
  destruct n as [|n]; [lia|]. simpl. destruct (IH (drop n l)) as [Hc Hall].
  { rewrite length_drop. lia. }
  split.
  - rewrite Hc. simpl. by rewrite take_drop.
  - constructor; [|done]. simpl. rewrite length_take. lia.
Qed.

Lemma length_concat_string sep l :
  String.length (String.concat sep l) =
  (sum_list (String.length <$> l) + String.length sep * (length l - 1))%nat.
Proof.
  induction l as [|x l IH]; [simpl; lia|]. destruct l as [|y l]; [simpl; lia|].
  change (String.concat sep (x :: y :: l)) with (x +:+ sep +:+ String.concat sep (y :: l)).
  rewrite !length_app_string, IH, !fmap_cons. cbn [sum_list length].
  rewrite !Nat.sub_succ, !Nat.sub_0_r. unfold id. nia.
Qed.
