(* ===== verification/Vec.v ===== *)
(** * Fixed-size arrays

    A Rust [Vec] or array that is created as [vec![x; n]] and then only read
    and written by index.  The representation is sparse: the fill value and
    the cells written since.  [vlist] is the list it stands for, and the
    operations are proved to be the list operations. *)
From S2P Require Import Prelude.

Record vec (A : Type) := Vec {
  vlen : Z;
  vfill : A;
  vcells : gmap Z A
}.
Arguments Vec {A} vlen vfill vcells.
Arguments vlen {A} v.
Arguments vfill {A} v.
Arguments vcells {A} v.

Definition vnew {A} (x : A) (n : Z) : vec A := Vec n x ∅.

Definition in_bounds {A} (v : vec A) (i : Z) : bool := (0 <=? i) && (i <? vlen v).

(** The cell at [i], whatever the length. *)
Definition vcell {A} (v : vec A) (i : Z) : A := default (vfill v) (vcells v !! i).

(** [v[i]] *)
Definition vget {E A} (v : vec A) (i : Z) : outcome E A :=
  if in_bounds v i then Ok (vcell v i) else Panic IndexOutOfBounds.

Definition vput {A} (i : Z) (x : A) (v : vec A) : vec A :=
  Vec (vlen v) (vfill v) (<[i:=x]> (vcells v)).

(** [v[i] = x] *)
Definition vset {E A} (i : Z) (x : A) (v : vec A) : outcome E (vec A) :=
  if in_bounds v i then Ok (vput i x v) else Panic IndexOutOfBounds.

(** [v[i..i+n].copy_from_slice(xs)] with [n = xs.len()]. *)
Fixpoint vput_list {A} (i : Z) (xs : list A) (v : vec A) : vec A :=
  match xs with
  | [] => v
  | x :: xs => vput_list (i + 1) xs (vput i x v)
  end.

Definition vset_slice {E A} (i : Z) (xs : list A) (v : vec A) : outcome E (vec A) :=
  if (0 <=? i) && (i + Z.of_nat (length xs) <=? vlen v) then Ok (vput_list i xs v)
  else Panic SliceOutOfBounds.

(** The list the array stands for. *)
Definition vlist {A} (v : vec A) : list A :=
  (fun i => vcell v (Z.of_nat i)) <$> seq 0 (Z.to_nat (vlen v)).

Section Facts.
Context {A : Type}.
Implicit Types (v : vec A) (x : A).

Lemma in_bounds_true v i : in_bounds v i = true <-> 0 <= i < vlen v.
Proof. unfold in_bounds. rewrite andb_true_iff, Z.leb_le, Z.ltb_lt. done. Qed.

Lemma vget_ok {E} v i : 0 <= i < vlen v -> vget (E:=E) v i = Ok (vcell v i).
Proof. intros Hi. unfold vget. by rewrite (proj2 (in_bounds_true v i)). Qed.

Lemma vset_ok {E} v i x : 0 <= i < vlen v -> vset (E:=E) i x v = Ok (vput i x v).
Proof. intros Hi. unfold vset. by rewrite (proj2 (in_bounds_true v i)). Qed.

Lemma vget_out {E} v i : ~ 0 <= i < vlen v -> vget (E:=E) v i = Panic IndexOutOfBounds.
Proof.
  intros Hi. unfold vget. destruct (in_bounds v i) eqn:Hb; [|done].
  by apply in_bounds_true in Hb.
Qed.

Lemma vcell_vnew n x i : vcell (vnew x n) i = x.
Proof. done. Qed.

Lemma vcell_vput_eq v i x : vcell (vput i x v) i = x.
Proof. unfold vcell, vput. simpl. by rewrite lookup_insert_eq. Qed.

Lemma vcell_vput_ne v i j x : i <> j -> vcell (vput i x v) j = vcell v j.
Proof. intros. unfold vcell, vput. simpl. by rewrite lookup_insert_ne. Qed.

Lemma vlen_vput v i x : vlen (vput i x v) = vlen v.
Proof. done. Qed.

Lemma vlen_vput_list xs v i : vlen (vput_list i xs v) = vlen v.
Proof. revert i v. induction xs as [|x xs IH]; intros i v; simpl; [done|]. by rewrite IH. Qed.

Lemma vcell_vput_list_out xs v i j :
  ~ i <= j < i + Z.of_nat (length xs) -> vcell (vput_list i xs v) j = vcell v j.
Proof.
  revert i v. induction xs as [|x xs IH]; intros i v Hj; simpl in *; [done|].
  rewrite IH by lia. apply vcell_vput_ne. lia.
Qed.

Lemma vcell_vput_list_in xs v i k x :
  xs !! k = Some x -> vcell (vput_list i xs v) (i + Z.of_nat k) = x.
Proof.
  revert i v k. induction xs as [|y xs IH]; intros i v k Hk; simpl in *; [done|].
  destruct k as [|k]; simpl in Hk; simplify_eq.
  - rewrite vcell_vput_list_out by lia. rewrite Z.add_0_r. apply vcell_vput_eq.
  - replace (i + Z.of_nat (S k)) with (i + 1 + Z.of_nat k) by lia. by apply IH.
Qed.

Lemma vset_slice_ok {E} v i xs :
  0 <= i -> i + Z.of_nat (length xs) <= vlen v ->
  vset_slice (E:=E) i xs v = Ok (vput_list i xs v).
Proof.
  intros. unfold vset_slice.
  destruct (Z.leb_spec 0 i); [|lia]. by destruct (Z.leb_spec (i + Z.of_nat (length xs)) (vlen v)); [|lia].
Qed.

(** The sparse array is a list. *)
Lemma length_vlist v : length (vlist v) = Z.to_nat (vlen v).
Proof. unfold vlist. by rewrite length_fmap, length_seq. Qed.

Lemma vlist_lookup v i :
  0 <= i < vlen v -> vlist v !! Z.to_nat i = Some (vcell v i).
Proof.
  intros Hi. unfold vlist. rewrite list_lookup_fmap.
  rewrite lookup_seq_lt by lia. simpl. by rewrite Z2Nat.id by lia.
Qed.

Lemma vlist_vnew x n : vlist (vnew x n) = replicate (Z.to_nat n) x.
Proof.
  apply list_eq_same_length with (n := Z.to_nat n).
  - by rewrite length_replicate.
  - by rewrite length_vlist.
  - intros i y y' Hi H1 H2.
    rewrite lookup_replicate in H2. destruct H2 as [-> _].
    unfold vlist in H1. simpl in H1. rewrite list_lookup_fmap, lookup_seq_lt in H1 by done.
    simpl in H1. by simplify_eq.
Qed.

Lemma vlist_vput v i x :
  0 <= i < vlen v -> vlist (vput i x v) = <[Z.to_nat i := x]> (vlist v).
Proof.
  intros Hi. apply list_eq. intros j.
  destruct (decide (j = Z.to_nat i)) as [->|Hne].
  - rewrite list_lookup_insert_eq by (rewrite length_vlist; lia).
    rewrite vlist_lookup by (rewrite vlen_vput; lia). by rewrite vcell_vput_eq.
  - rewrite list_lookup_insert_ne by done.
    unfold vlist. rewrite !list_lookup_fmap, vlen_vput.
    destruct (seq 0 (Z.to_nat (vlen v)) !! j) as [k|] eqn:Hk; simpl; [|done].
    apply lookup_seq in Hk. rewrite vcell_vput_ne; [done|lia].
Qed.
End Facts.

#[export] Hint Rewrite @vcell_vnew @vcell_vput_eq @vlen_vput @vlen_vput_list : sim_simp.
