(* ===== verification/Bin.v ===== *)
(** * Bit fields of instruction words ([core_sim/src/bin.rs]) *)
From S2P Require Import Prelude Word.

(** [1 << n] on [u32]; every range in the code ends at bit 31 at most, so the
    shift amount is below 32. *)
Definition one_shl (n : Z) : Z := wrap32 (Z.shiftl 1 n).

(** The mask of the bits [start ..= last]. *)
Definition bit_range (start last : Z) : Z :=
  let large := if negb (last =? 31) then one_shl (last + 1) else 0 in
  wrapping_sub large (one_shl start).

Definition bit_range_lower (index : Z) : Z :=
  let large := if negb (index =? 31) then one_shl (index + 1) else 0 in
  wrapping_sub large 1.

Definition mask (bin start last : Z) : Z := Z.land bin (bit_range start last).
Definition mask_lower (bin index : Z) : Z := Z.land bin (bit_range_lower index).
Definition extract (bin start last : Z) : Z := Z.shiftr (mask bin start last) start.
Definition at_ (bin index : Z) : Z := Z.land (Z.shiftr bin index) 1.

(** [sign_extend::<BIT>(sign, imm)] *)
Definition sign_extend (BIT sign imm : Z) : Z :=
  if negb (sign =? 0) then Z.lor (bit_range BIT 31) imm else imm.

(** The unit tests of the file. *)
Example test_bit_range :
  bit_range 0 0 = 0x1 /\ bit_range 4 5 = 0x30 /\ bit_range 0 6 = 0x7f.
Proof. by vm_compute. Qed.

Example test_sign_extend :
  as_i32 (sign_extend 12 1 0xffc) = -4 /\ as_i32 (sign_extend 12 1 0x1ffc) = -4.
Proof. by vm_compute. Qed.

(** ** Facts *)

Lemma one_shl_pow n : 0 <= n < 32 -> one_shl n = 2 ^ n.
Proof.
  intros. unfold one_shl. rewrite Z.shiftl_1_l. apply wrap32_small.
  split; [lia|]. apply Z.pow_lt_mono_r; lia.
Qed.

Lemma bit_range_eq s l : 0 <= s <= l -> l <= 31 -> bit_range s l = 2 ^ (l + 1) - 2 ^ s.
Proof.
  intros Hs Hl. unfold bit_range.
  assert (0 < 2 ^ s < 2 ^ (l + 1)) by (split; [lia|apply Z.pow_lt_mono_r; lia]).
  assert (2 ^ (l + 1) <= 2 ^ 32) by (apply Z.pow_le_mono_r; lia).
  rewrite (one_shl_pow s) by lia. unfold wrapping_sub, wrap32.
  destruct (Z.eqb_spec l 31) as [->|]; simpl.
  - change (31 + 1) with 32 in *. rewrite <- (Z_mod_plus_full _ 1), Z.mod_small; lia.
  - rewrite one_shl_pow by lia. rewrite Z.mod_small; lia.
Qed.

Lemma bit_range_ones s l :
  0 <= s <= l -> l <= 31 -> bit_range s l = Z.shiftl (Z.ones (l - s + 1)) s.
Proof.
  intros. rewrite bit_range_eq by done.
  rewrite Z.shiftl_mul_pow2, Z.ones_equiv by lia.
  replace (l + 1) with (l - s + 1 + s) by lia. rewrite Z.pow_add_r by lia. lia.
Qed.

Lemma bit_range_lower_eq i : 0 <= i <= 31 -> bit_range_lower i = Z.ones (i + 1).
Proof.
  intros Hi. transitivity (bit_range 0 i).
  - done.
  - rewrite bit_range_ones, Z.shiftl_0_r by lia. f_equal. lia.
Qed.

(** [extract] reads a bit field. *)
Lemma extract_eq bin s l :
  0 <= s <= l -> l <= 31 -> extract bin s l = (bin / 2 ^ s) mod 2 ^ (l - s + 1).
Proof.
  intros. unfold extract, mask. rewrite bit_range_ones by done.
  rewrite Z.shiftr_land, Z.shiftr_shiftl_l, Z.sub_diag, Z.shiftl_0_r by lia.
  by rewrite Z.land_ones, Z.shiftr_div_pow2 by lia.
Qed.

(** Evaluate the widths that [extract_eq] leaves behind. *)
Ltac eval_widths :=
  repeat match goal with
  | |- context [2 ^ (?l - ?s + 1)] =>
      let n := eval vm_compute in (l - s + 1) in progress change (l - s + 1) with n
  end.

Lemma extract_bound bin s l :
  0 <= s <= l -> l <= 31 -> 0 <= extract bin s l < 2 ^ (l - s + 1).
Proof. intros. rewrite extract_eq by done. apply Z.mod_pos_bound. lia. Qed.

Lemma mask_lower_eq bin i : 0 <= i <= 31 -> mask_lower bin i = bin mod 2 ^ (i + 1).
Proof. intros. unfold mask_lower. by rewrite bit_range_lower_eq, Z.land_ones by lia. Qed.

Lemma mask_0_eq bin l : 0 <= l <= 31 -> mask bin 0 l = bin mod 2 ^ (l + 1).
Proof. intros. change (mask bin 0 l) with (mask_lower bin l). by apply mask_lower_eq. Qed.

Lemma at_eq bin i : 0 <= i -> at_ bin i = (bin / 2 ^ i) mod 2.
Proof. intros. unfold at_. rewrite Z.shiftr_div_pow2 by done. by rewrite (Z.land_ones _ 1). Qed.

Lemma at_bound bin i : 0 <= i -> 0 <= at_ bin i <= 1.
Proof. intros. rewrite at_eq by done. dlia. Qed.

(** Disjoint bit fields: [|] adds. *)
Lemma lor_add a b n : 0 <= n -> 0 <= b < 2 ^ n -> Z.lor (a * 2 ^ n) b = a * 2 ^ n + b.
Proof.
  intros Hn Hb. rewrite <- Z.shiftl_mul_pow2 by done.
  symmetry. apply Z.add_nocarry_lor.
  apply Z.bits_inj'; intros i Hi; rewrite Z.land_spec, Z.bits_0;
    destruct (Z.lt_ge_cases i n);
    [rewrite Z.shiftl_spec_low by done; done
    |rewrite (testbit_high n b) by lia; apply andb_false_r].
Qed.

Lemma lor_add_r a b n : 0 <= n -> 0 <= b < 2 ^ n -> Z.lor b (a * 2 ^ n) = b + a * 2 ^ n.
Proof. intros. rewrite Z.lor_comm, lor_add by done. lia. Qed.

(** [sign_extend] reads its field in two's complement, given that [sign] is
    the top bit of the field as its comment says. *)
Lemma sign_extend_spec BIT sign imm :
  1 <= BIT <= 31 -> 0 <= imm < 2 ^ BIT -> sign = imm / 2 ^ (BIT - 1) ->
  u32_ok (sign_extend BIT sign imm) /\
  as_i32 (sign_extend BIT sign imm) = (if imm <? 2 ^ (BIT - 1) then imm else imm - 2 ^ BIT).
Proof.
  intros HB Himm Hsign.
  assert (2 ^ BIT = 2 * 2 ^ (BIT - 1)) as Hpow by (rewrite <- Z.pow_succ_r by lia; f_equal; lia).
  assert (0 < 2 ^ (BIT - 1)) by lia.
  assert (2 ^ BIT <= 2 ^ 31) by (apply Z.pow_le_mono_r; lia).
  unfold sign_extend. destruct (Z.ltb_spec imm (2 ^ (BIT - 1))).
  - rewrite Z.div_small in Hsign by lia. subst sign. simpl.
    unfold u32_ok, as_i32. destruct (Z.ltb_spec imm (2 ^ 31)); lia.
  - assert (sign = 1) as ->.
    { subst sign. symmetry. apply Z.div_unique with (imm - 2 ^ (BIT - 1)); lia. }
    simpl. rewrite bit_range_eq by lia. change (31 + 1) with 32.
    replace (2 ^ 32 - 2 ^ BIT) with ((2 ^ (32 - BIT) - 1) * 2 ^ BIT).
    2: { rewrite Z.mul_sub_distr_r, <- Z.pow_add_r by lia. do 2 f_equal; lia. }
    rewrite lor_add by lia.
    replace ((2 ^ (32 - BIT) - 1) * 2 ^ BIT) with (2 ^ 32 - 2 ^ BIT).
    2: { rewrite Z.mul_sub_distr_r, <- Z.pow_add_r by lia. do 2 f_equal; lia. }
    unfold u32_ok, as_i32. destruct (Z.ltb_spec (2 ^ 32 - 2 ^ BIT + imm) (2 ^ 31)); lia.
Qed.

(** Sign extension restores a word whose signed value fits in [BIT] bits. *)
Lemma sign_extend_field BIT imm :
  1 <= BIT <= 31 -> u32_ok imm -> - 2 ^ (BIT - 1) <= as_i32 imm < 2 ^ (BIT - 1) ->
  sign_extend BIT ((imm mod 2 ^ BIT) / 2 ^ (BIT - 1)) (imm mod 2 ^ BIT) = imm.
Proof.
  intros HB Hu Hr.
  assert (2 ^ BIT = 2 * 2 ^ (BIT - 1)) as Hpow by (rewrite <- Z.pow_succ_r by lia; f_equal; lia).
  assert (0 < 2 ^ (BIT - 1)) by lia.
  assert (0 <= imm mod 2 ^ BIT < 2 ^ BIT) as Hm by (apply Z.mod_pos_bound; lia).
  destruct (sign_extend_spec BIT _ _ HB Hm eq_refl) as [Hok Hs].
  apply as_i32_inj; [done..|]. rewrite Hs.
  assert (imm mod 2 ^ BIT = if as_i32 imm <? 0 then as_i32 imm + 2 ^ BIT else as_i32 imm) as Hmod.
  { transitivity (as_i32 imm mod 2 ^ BIT).
    - unfold as_i32. destruct (Z.ltb_spec imm (2 ^ 31)); [done|].
      replace (2 ^ 32) with (2 ^ (32 - BIT) * 2 ^ BIT) by (rewrite <- Z.pow_add_r by lia; f_equal; lia).
      rewrite <- (Z_mod_plus_full (imm - _) (2 ^ (32 - BIT))). f_equal. lia.
    - destruct (Z.ltb_spec (as_i32 imm) 0).
      + rewrite <- (Z_mod_plus_full _ 1), Z.mul_1_l. apply Z.mod_small. lia.
      + apply Z.mod_small. lia. }
  rewrite Hmod. destruct (Z.ltb_spec (as_i32 imm) 0).
  - destruct (Z.ltb_spec (as_i32 imm + 2 ^ BIT) (2 ^ (BIT - 1))); lia.
  - destruct (Z.ltb_spec (as_i32 imm) (2 ^ (BIT - 1))); lia.
Qed.

(** The signed value of a sign-extended field fits in [BIT] bits. *)
Lemma sign_extend_range BIT sign imm :
  1 <= BIT <= 31 -> 0 <= imm < 2 ^ BIT -> sign = imm / 2 ^ (BIT - 1) ->
  u32_ok (sign_extend BIT sign imm) /\
  - 2 ^ (BIT - 1) <= as_i32 (sign_extend BIT sign imm) < 2 ^ (BIT - 1).
Proof.
  intros HB Hi Hs. destruct (sign_extend_spec BIT sign imm HB Hi Hs) as [Hok ->].
  split; [done|].
  assert (2 ^ BIT = 2 * 2 ^ (BIT - 1)) by (rewrite <- Z.pow_succ_r by lia; f_equal; lia).
  destruct (Z.ltb_spec imm (2 ^ (BIT - 1))); lia.
Qed.

(** Sign extension keeps the low bit. *)
Lemma sign_extend_even BIT sign imm :
  1 <= BIT <= 31 -> 0 <= imm < 2 ^ BIT -> sign = imm / 2 ^ (BIT - 1) -> imm mod 2 = 0 ->
  sign_extend BIT sign imm mod 2 = 0.
Proof.
  intros HB Hi Hs He. destruct (sign_extend_spec BIT sign imm HB Hi Hs) as [Hok Hv].
  rewrite <- (as_i32_as_u32 (sign_extend BIT sign imm)), Hv by done.
  unfold i32_as_u32, wrap32.
  assert (2 ^ BIT = 2 * 2 ^ (BIT - 1)) by (rewrite <- Z.pow_succ_r by lia; f_equal; lia).
  destruct (Z.ltb_spec imm (2 ^ (BIT - 1))).
  - rewrite Z.mod_mod_divide; [done|]. by exists (2 ^ 31).
  - rewrite Z.mod_mod_divide by (by exists (2 ^ 31)).
    replace (2 ^ BIT) with (2 ^ (BIT - 1) * 2) by lia.
    rewrite <- (Z_mod_plus_full _ (2 ^ (BIT - 1))).
    by replace (imm - 2 ^ (BIT - 1) * 2 + 2 ^ (BIT - 1) * 2) with imm by lia.
Qed.
