(* ===== verification/Ty.v ===== *)
(** * Runtime type information ([core_sim/src/ty.rs])

    The precision order on the types of memory cells, and typed words. *)
From S2P Require Import Prelude Word.

Inductive Ty := I32 | Usize | I32OrUsize | F32 | Unknown.

#[export] Instance Ty_eq_dec : EqDecision Ty.
Proof. solve_decision. Defined.

(** [PartialOrd::partial_cmp]: the first matching arm decides. *)
Definition partial_cmp (self other : Ty) : option comparison :=
  if decide (self = other) then Some Eq
  else match self, other with
  | I32, I32OrUsize | Usize, I32OrUsize => Some Gt
  | I32OrUsize, I32 | I32OrUsize, Usize => Some Lt
  | _, Unknown => Some Gt
  | Unknown, _ => Some Lt
  | _, _ => None
  end.

(** The operators [<] and [>=] that [PartialOrd] derives from it. *)
Definition ty_lt (a b : Ty) : bool :=
  match partial_cmp a b with Some Lt => true | _ => false end.
Definition ty_ge (a b : Ty) : bool :=
  match partial_cmp a b with Some (Gt | Eq) => true | _ => false end.

(** [fmt::Display for Ty] *)
Definition fmt_ty (t : Ty) : string :=
  match t with
  | I32 => "i32"
  | Usize => "usize"
  | I32OrUsize => "i32 | usize"
  | F32 => "f32"
  | Unknown => "?"
  end.

Record TypedU32 := mkTyped { ty : Ty; value : Z }.

#[export] Instance TypedU32_eq_dec : EqDecision TypedU32.
Proof. solve_decision. Defined.

(** [Typed::typed] for [u32] *)
Definition typed (self : Z) (t : Ty) : TypedU32 := mkTyped t self.

Definition as_i (v : TypedU32) : option Z :=
  if ty_ge (ty v) I32OrUsize then Some (as_i32 (value v)) else None.
(** [TypedU32::as_i32] *)
Definition typed_as_i32 (v : TypedU32) : option Z :=
  if decide (ty v = I32) then Some (as_i32 (value v)) else None.
(** [TypedU32::as_f32]; an [f32] is its bit pattern. *)
Definition typed_as_f32 (v : TypedU32) : option Z :=
  if decide (ty v = F32) then Some (value v) else None.
Definition get_unchecked (v : TypedU32) : Z := value v.

(** ** The precision order *)

Definition ty_le (a b : Ty) : Prop := a = b \/ ty_lt a b = true.

#[export] Instance ty_le_dec a b : Decision (ty_le a b).
Proof. unfold ty_le. apply _. Defined.

#[export] Instance ty_le_po : PartialOrder ty_le.
Proof.
  repeat split.
  - intros []; by left.
  - intros [] [] []; unfold ty_le, ty_lt, ty_ge, partial_cmp; intros; repeat (case_decide || simpl in * ); intuition congruence.
  - intros [] []; unfold ty_le, ty_lt, ty_ge, partial_cmp; intros; repeat (case_decide || simpl in * ); intuition congruence.
Qed.

Lemma ty_lt_spec a b : ty_lt a b = true <-> ty_le a b /\ a <> b.
Proof. destruct a, b; unfold ty_le, ty_lt, ty_ge, partial_cmp; intros; repeat (case_decide || simpl in * ); intuition congruence. Qed.

Lemma ty_ge_spec a b : ty_ge a b = true <-> ty_le b a.
Proof. destruct a, b; unfold ty_le, ty_lt, ty_ge, partial_cmp; intros; repeat (case_decide || simpl in * ); intuition congruence. Qed.

(** [partial_cmp] is antisymmetric in its arguments. *)
Lemma partial_cmp_opp a b : partial_cmp b a = CompOpp <$> partial_cmp a b.
Proof. by destruct a, b. Qed.
