(* ===== verification/Register.v ===== *)
(** * Register names ([core_sim/src/register.rs], first instruction set) *)
From S2P Require Import Prelude Word Ty.

Definition REG_BIT_WIDTH : Z := 5.
Definition MAX_REG_ID : Z := Z.shiftl 1 REG_BIT_WIDTH.

(** [struct RegId(u8)] and [struct FRegId(u8)] *)
Record RegId := mkRegId { reg_no : Z }.
Record FRegId := mkFRegId { freg_no : Z }.

#[export] Instance RegId_eq_dec : EqDecision RegId.
Proof. solve_decision. Defined.
#[export] Instance FRegId_eq_dec : EqDecision FRegId.
Proof. solve_decision. Defined.
#[export] Instance RegId_countable : Countable RegId.
Proof. apply (inj_countable' reg_no mkRegId). by intros []. Defined.
#[export] Instance FRegId_countable : Countable FRegId.
Proof. apply (inj_countable' freg_no mkFRegId). by intros []. Defined.

(** [RegId::inner], [RegId::is_zero] and [RegId::ty] *)
Definition inner (r : RegId) : Z := reg_no r.
Definition is_zero (r : RegId) : bool := reg_no r =? 0.
Definition reg_ty (r : RegId) : Ty := if reg_no r =? 1 then Usize else I32.

(** [FRegId::inner] and [FRegId::is_zero] *)
Definition f_inner (r : FRegId) : Z := freg_no r.
Definition f_is_zero (r : FRegId) : bool := freg_no r =? 0.

Open Scope string_scope.

Definition ABINAME_TABLE : list string :=
  ["zero"; "ra"; "sp"; "gp"; "hp"; "t0"; "t1"; "t2"; "s0"; "s1"; "a0"; "a1"; "a2"; "a3";
   "a4"; "a5"; "a6"; "a7"; "s2"; "s3"; "s4"; "s5"; "s6"; "s7"; "s8"; "s9"; "s10"; "s11";
   "t3"; "t4"; "t5"; "t6"].

Definition F_ABINAME_TABLE : list string :=
  ["fzero"; "fone"; "ft2"; "ft3"; "ft4"; "ft5"; "ft6"; "ft7"; "fs0"; "fs1"; "fa0"; "fa1";
   "fa2"; "fa3"; "fa4"; "fa5"; "fa6"; "fa7"; "fs2"; "fs3"; "fs4"; "fs5"; "fs6"; "fs7"; "fs8";
   "fs9"; "fs10"; "fs11"; "ft8"; "ft9"; "ft10"; "ft11"].

Close Scope string_scope.

(** Collecting [(name, id)] pairs into a [HashMap], in table order. *)
Definition collect_names {R} (mk : Z -> R) (table : list string) : gmap string R :=
  foldl (fun m '(i, n) => <[n := mk (Z.of_nat i)]> m) ∅ (zip (seq 0 (length table)) table).

Definition ABINAME_LOOKUP : gmap string RegId := collect_names mkRegId ABINAME_TABLE.
Definition F_ABINAME_LOOKUP : gmap string FRegId := collect_names mkFRegId F_ABINAME_TABLE.

(** [Display]: indexing the table panics out of range. *)
Definition table_name (table : list string) (i : Z) : outcome never string :=
  match table !! Z.to_nat i with Some s => Ok s | None => Panic IndexOutOfBounds end.
Definition fmt_reg (r : RegId) : outcome never string := table_name ABINAME_TABLE (reg_no r).
Definition fmt_freg (r : FRegId) : outcome never string := table_name F_ABINAME_TABLE (freg_no r).

(** The [anyhow] error of the conversion from [u32]. *)
Inductive RegisterError := RegisterTooWide (rs : Z) | FRegisterTooWide (rs : Z).

Section TryFrom.
Context `{Profile}.

(** [TryFrom<u32>]: the width test is compiled in debug builds only. *)
Definition RegId_try_from (rs : Z) : outcome RegisterError RegId :=
  if debug_assertions && (Z.shiftl 1 (REG_BIT_WIDTH + 1) <=? rs) then Err (RegisterTooWide rs)
  else Ok (mkRegId (as_u8 rs)).

Definition FRegId_try_from (rs : Z) : outcome RegisterError FRegId :=
  if debug_assertions && (Z.shiftl 1 (REG_BIT_WIDTH + 1) <=? rs) then Err (FRegisterTooWide rs)
  else Ok (mkFRegId (as_u8 rs)).
End TryFrom.

(** [TryFrom<&str>] *)
Definition RegId_try_from_str (rs : string) : outcome () RegId :=
  match ABINAME_LOOKUP !! rs with Some r => Ok r | None => Err () end.
Definition FRegId_try_from_str (rs : string) : outcome () FRegId :=
  match F_ABINAME_LOOKUP !! rs with Some r => Ok r | None => Err () end.

(** ** Facts *)

(** A register number that exists. *)
Definition reg_ok (r : RegId) : Prop := 0 <= reg_no r < 32.
Definition freg_ok (r : FRegId) : Prop := 0 <= freg_no r < 32.

#[export] Instance reg_ok_dec r : Decision (reg_ok r).
Proof. unfold reg_ok. apply _. Defined.
#[export] Instance freg_ok_dec r : Decision (freg_ok r).
Proof. unfold freg_ok. apply _. Defined.

Section TryFromFacts.
Context `{Profile}.

(** A five-bit field converts to the register of that number. *)
Lemma RegId_try_from_field rs : 0 <= rs < 32 -> RegId_try_from rs = Ok (mkRegId rs).
Proof.
  intros. unfold RegId_try_from. change (Z.shiftl 1 (REG_BIT_WIDTH + 1)) with 64.
  destruct (Z.leb_spec 64 rs); [lia|]. rewrite andb_false_r.
  unfold as_u8. by rewrite Z.mod_small by lia.
Qed.

Lemma FRegId_try_from_field rs : 0 <= rs < 32 -> FRegId_try_from rs = Ok (mkFRegId rs).
Proof.
  intros. unfold FRegId_try_from. change (Z.shiftl 1 (REG_BIT_WIDTH + 1)) with 64.
  destruct (Z.leb_spec 64 rs); [lia|]. rewrite andb_false_r.
  unfold as_u8. by rewrite Z.mod_small by lia.
Qed.
End TryFromFacts.

(** The two tables are inverse to the two dictionaries. *)
Lemma abi_names_inverse :
  forall i, 0 <= i < 32 ->
    (match fmt_reg (mkRegId i) with Ok s => RegId_try_from_str s = Ok (mkRegId i) | _ => False end) /\
    (match fmt_freg (mkFRegId i) with Ok s => FRegId_try_from_str s = Ok (mkFRegId i) | _ => False end).
Proof.
  intros i Hi. split; revert i Hi.
  - assert (Forall (fun i => fmt_reg (mkRegId i) ≫= (fun s => Ok (RegId_try_from_str s))
      = Ok (Ok (mkRegId i))) (Z.of_nat <$> seq 0 32)) as Hall by (by repeat constructor).
    rewrite Forall_fmap, Forall_seq in Hall. intros i Hi. specialize (Hall (Z.to_nat i)).
    unfold compose in Hall. rewrite Z2Nat.id in Hall by lia. specialize (Hall ltac:(lia)).
    destruct (fmt_reg (mkRegId i)); [|done..]. unfold mbind, outcome_bind in Hall. congruence.
  - assert (Forall (fun i => fmt_freg (mkFRegId i) ≫= (fun s => Ok (FRegId_try_from_str s))
      = Ok (Ok (mkFRegId i))) (Z.of_nat <$> seq 0 32)) as Hall by (by repeat constructor).
    rewrite Forall_fmap, Forall_seq in Hall. intros i Hi. specialize (Hall (Z.to_nat i)).
    unfold compose in Hall. rewrite Z2Nat.id in Hall by lia. specialize (Hall ltac:(lia)).
    destruct (fmt_freg (mkFRegId i)); [|done..]. unfold mbind, outcome_bind in Hall. congruence.
Qed.

(** Every register prints, and its ABI name parses back to it. *)
Lemma register_names r f :
  reg_ok r -> freg_ok f ->
  (exists s, fmt_reg r = Ok s /\ RegId_try_from_str s = Ok r) /\
  (exists s, fmt_freg f = Ok s /\ FRegId_try_from_str s = Ok f).
Proof.
  destruct r as [r], f as [f]. intros Hr Hf.
  destruct (abi_names_inverse r Hr) as [H1 _]. destruct (abi_names_inverse f Hf) as [_ H2].
  split.
  - destruct (fmt_reg _); [by eexists|done..].
  - destruct (fmt_freg _); [by eexists|done..].
Qed.

(** The dictionaries hold the tables and nothing else. *)
Lemma lookup_sound s r : RegId_try_from_str s = Ok r -> reg_ok r /\ fmt_reg r = Ok s.
Proof.
  unfold RegId_try_from_str. destruct (ABINAME_LOOKUP !! s) as [q|] eqn:Hq; [|done]. intros [= <-].
  assert (map_Forall (fun s q => reg_ok q /\ ABINAME_TABLE !! Z.to_nat (reg_no q) = Some s) ABINAME_LOOKUP) as Hall
    by (apply (bool_decide_unpack _); by vm_compute).
  destruct (Hall s q Hq) as [Hok Hs]. split; [done|]. unfold fmt_reg, table_name. by rewrite Hs.
Qed.

Lemma f_lookup_sound s r : FRegId_try_from_str s = Ok r -> freg_ok r /\ fmt_freg r = Ok s.
Proof.
  unfold FRegId_try_from_str. destruct (F_ABINAME_LOOKUP !! s) as [q|] eqn:Hq; [|done]. intros [= <-].
  assert (map_Forall (fun s q => freg_ok q /\ F_ABINAME_TABLE !! Z.to_nat (freg_no q) = Some s) F_ABINAME_LOOKUP) as Hall
    by (apply (bool_decide_unpack _); by vm_compute).
  destruct (Hall s q Hq) as [Hok Hs]. split; [done|]. unfold fmt_freg, table_name. by rewrite Hs.
Qed.

(** A number behind the table has no name. *)
Lemma table_name_out table n : Z.of_nat (length table) <= n -> table_name table n = Panic IndexOutOfBounds.
Proof.
  intros Hn. unfold table_name. destruct (table !! Z.to_nat n) eqn:Hl; [|done].
  apply lookup_lt_Some in Hl. lia.
Qed.

(** C32: Register names: every register prints, and a text is read as a register if and
    only if it is the name that the register prints as, for the integer and the
    float registers.  The conversion from a number fails exactly in debug builds
    for 64 and above, and otherwise takes the number modulo 256: its width test is
    off by one bit and only made in debug builds, so that in every build the
    numbers 32 to 63, which are not registers, are converted, and printing them
    panics. *)
Theorem register_names_round_trip `{Profile} :
  (forall r, reg_ok r -> is_ok (fmt_reg r)) /\
  (forall r, freg_ok r -> is_ok (fmt_freg r)) /\
  (forall s r, RegId_try_from_str s = Ok r <-> reg_ok r /\ fmt_reg r = Ok s) /\
  (forall s r, FRegId_try_from_str s = Ok r <-> freg_ok r /\ fmt_freg r = Ok s) /\
  (forall n, RegId_try_from n =
     if debug_assertions && (64 <=? n) then Err (RegisterTooWide n) else Ok (mkRegId (n mod 256))) /\
  (forall n, FRegId_try_from n =
     if debug_assertions && (64 <=? n) then Err (FRegisterTooWide n) else Ok (mkFRegId (n mod 256))) /\
  (forall n, 32 <= n < 64 ->
     RegId_try_from n = Ok (mkRegId n) /\ fmt_reg (mkRegId n) = Panic IndexOutOfBounds /\
     FRegId_try_from n = Ok (mkFRegId n) /\ fmt_freg (mkFRegId n) = Panic IndexOutOfBounds).
Proof.
  split_and!; try done.
  - intros r Hr. by destruct (register_names r (mkFRegId 0) Hr ltac:(done)) as [(s & -> & _) _].
  - intros r Hr. by destruct (register_names (mkRegId 0) r ltac:(done) Hr) as [_ (s & -> & _)].
  - intros s r. split; [apply lookup_sound|]. intros [Hr Hs].
    destruct (register_names r (mkFRegId 0) Hr ltac:(done)) as [(s' & Hs' & Hl) _]. congruence.
  - intros s r. split; [apply f_lookup_sound|]. intros [Hr Hs].
    destruct (register_names (mkRegId 0) r ltac:(done) Hr) as [_ (s' & Hs' & Hl)]. congruence.
  - intros n Hn. unfold RegId_try_from, FRegId_try_from. change (Z.shiftl 1 (REG_BIT_WIDTH + 1)) with 64.
    destruct (Z.leb_spec 64 n); [lia|]. rewrite andb_false_r. unfold as_u8. rewrite Z.mod_small by lia.
    unfold fmt_reg, fmt_freg. by rewrite !table_name_out by (simpl; lia).
Qed.
