(* ===== verification/Instr.v ===== *)
(** * Instructions ([core_sim/src/instr.rs], first instruction set)

    The instruction type, generic in what stands for a register operand: the
    decoder produces [DecodedInstr] (register numbers), the register fetch
    stage an instruction whose sources are values.  [InstrId] is the dense
    numbering the instruction statistics are indexed by. *)
From stdpp Require Import pretty.
From S2P Require Import Prelude Word Register.

(** ** Operations *)

Inductive RInstr := Add | Sub | Xor | Or | And | Sll | Sra | Slt.
Inductive IInstr := Addi | Xori | Ori | Andi | Slli | Slti | Lw | Jalr.
Inductive SInstr := Sw.
Inductive BInstr := Beq | Bne | Blt | Bge.
Inductive JInstr := Jal.
Inductive EInstr := Fadd | Fsub | Fmul | Fdiv | Fsgnj | Fsgnjn | Fsgnjx.
Inductive HInstr := Fsqrt | Fhalf | Ffloor.
Inductive KInstr := Flt.
Inductive XInstr := Fitof.
Inductive YInstr := Fiszero | Fispos | Fisneg | Fftoi.
Inductive WInstr := Fblt | Fbge.
Inductive VInstr := Fbeqz | Fbnez.
(** No instruction of this set has the [P] or [G] format. *)
Inductive PInstr := .
Inductive GInstr := .
Inductive MiscInstr := MiscEnd.

#[export] Instance RInstr_eq_dec : EqDecision RInstr.
Proof. solve_decision. Defined.
#[export] Instance IInstr_eq_dec : EqDecision IInstr.
Proof. solve_decision. Defined.
#[export] Instance SInstr_eq_dec : EqDecision SInstr.
Proof. solve_decision. Defined.
#[export] Instance BInstr_eq_dec : EqDecision BInstr.
Proof. solve_decision. Defined.
#[export] Instance JInstr_eq_dec : EqDecision JInstr.
Proof. solve_decision. Defined.
#[export] Instance EInstr_eq_dec : EqDecision EInstr.
Proof. solve_decision. Defined.
#[export] Instance HInstr_eq_dec : EqDecision HInstr.
Proof. solve_decision. Defined.
#[export] Instance KInstr_eq_dec : EqDecision KInstr.
Proof. solve_decision. Defined.
#[export] Instance XInstr_eq_dec : EqDecision XInstr.
Proof. solve_decision. Defined.
#[export] Instance YInstr_eq_dec : EqDecision YInstr.
Proof. solve_decision. Defined.
#[export] Instance WInstr_eq_dec : EqDecision WInstr.
Proof. solve_decision. Defined.
#[export] Instance VInstr_eq_dec : EqDecision VInstr.
Proof. solve_decision. Defined.

Section Instr.
Context (IR IW FR FW : Type).

Inductive IOInstr :=
  | Outb (rs : IR)
  | Inw (rd : IW)
  | Finw (rd : FW).

Inductive FInstr :=
  | FE (instr : EInstr) (rd : FW) (rs1 rs2 : FR)
  | FG (instr : GInstr) (rd : FW) (rs1 rs2 rs3 : FR)
  | FH (instr : HInstr) (rd : FW) (rs1 : FR)
  | FK (instr : KInstr) (rd : IW) (rs1 rs2 : FR)
  | FX (instr : XInstr) (rd : FW) (rs1 : IR)
  | FY (instr : YInstr) (rd : IW) (rs1 : FR)
  | FWb (instr : WInstr) (rs1 rs2 : FR) (imm : Z)
  | FV (instr : VInstr) (rs1 : FR) (imm : Z)
  | Flw (rd : FW) (rs1 : IR) (imm : Z)
  | Fsw (rs2 : FR) (rs1 : IR) (imm : Z).

Inductive Instr :=
  | InstrR (instr : RInstr) (rd : IW) (rs1 rs2 : IR)
  | InstrI (instr : IInstr) (rd : IW) (rs1 : IR) (imm : Z)
  | InstrS (instr : SInstr) (rs1 rs2 : IR) (imm : Z)
  | InstrB (instr : BInstr) (rs1 rs2 : IR) (imm : Z)
  | InstrP (instr : PInstr) (rs1 : IR) (imm imm2 : Z)
  | InstrJ (instr : JInstr) (rd : IW) (imm : Z)
  | InstrIO (io : IOInstr)
  | InstrF (f : FInstr)
  | InstrMisc (m : MiscInstr).
End Instr.
Arguments Outb {IR IW FW} _.
Arguments Inw {IR IW FW} _.
Arguments Finw {IR IW FW} _.
Arguments FE {IR IW FR FW} _ _ _ _.
Arguments FG {IR IW FR FW} _ _ _ _ _.
Arguments FH {IR IW FR FW} _ _ _.
Arguments FK {IR IW FR FW} _ _ _ _.
Arguments FX {IR IW FR FW} _ _ _.
Arguments FY {IR IW FR FW} _ _ _.
Arguments FWb {IR IW FR FW} _ _ _ _.
Arguments FV {IR IW FR FW} _ _ _.
Arguments Flw {IR IW FR FW} _ _ _.
Arguments Fsw {IR IW FR FW} _ _ _.
Arguments InstrR {IR IW FR FW} _ _ _ _.
Arguments InstrI {IR IW FR FW} _ _ _ _.
Arguments InstrS {IR IW FR FW} _ _ _ _.
Arguments InstrB {IR IW FR FW} _ _ _ _.
Arguments InstrP {IR IW FR FW} _ _ _ _.
Arguments InstrJ {IR IW FR FW} _ _ _.
Arguments InstrIO {IR IW FR FW} _.
Arguments InstrF {IR IW FR FW} _.
Arguments InstrMisc {IR IW FR FW} _.

Definition DecodedInstr : Type := Instr RegId RegId FRegId FRegId.

(** ** Instruction numbers *)

(** [RInstr as u8] *)
Definition RInstr_as_u8 (i : RInstr) : Z :=
  match i with Add => 0 | Sub => 1 | Xor => 2 | Or => 3 | And => 4 | Sll => 5 | Sra => 6 | Slt => 7 end.
(** [IInstr as u8] *)
Definition IInstr_as_u8 (i : IInstr) : Z :=
  match i with Addi => 0 | Xori => 1 | Ori => 2 | Andi => 3 | Slli => 4 | Slti => 5 | Lw => 6 | Jalr => 7 end.
(** [SInstr as u8] *)
Definition SInstr_as_u8 (i : SInstr) : Z :=
  match i with Sw => 0 end.
(** [BInstr as u8] *)
Definition BInstr_as_u8 (i : BInstr) : Z :=
  match i with Beq => 0 | Bne => 1 | Blt => 2 | Bge => 3 end.
(** [JInstr as u8] *)
Definition JInstr_as_u8 (i : JInstr) : Z :=
  match i with Jal => 0 end.
(** [EInstr as u8] *)
Definition EInstr_as_u8 (i : EInstr) : Z :=
  match i with Fadd => 0 | Fsub => 1 | Fmul => 2 | Fdiv => 3 | Fsgnj => 4 | Fsgnjn => 5 | Fsgnjx => 6 end.
(** [HInstr as u8] *)
Definition HInstr_as_u8 (i : HInstr) : Z :=
  match i with Fsqrt => 0 | Fhalf => 1 | Ffloor => 2 end.
(** [KInstr as u8] *)
Definition KInstr_as_u8 (i : KInstr) : Z :=
  match i with Flt => 0 end.
(** [XInstr as u8] *)
Definition XInstr_as_u8 (i : XInstr) : Z :=
  match i with Fitof => 0 end.
(** [YInstr as u8] *)
Definition YInstr_as_u8 (i : YInstr) : Z :=
  match i with Fiszero => 0 | Fispos => 1 | Fisneg => 2 | Fftoi => 3 end.
(** [WInstr as u8] *)
Definition WInstr_as_u8 (i : WInstr) : Z :=
  match i with Fblt => 0 | Fbge => 1 end.
(** [VInstr as u8] *)
Definition VInstr_as_u8 (i : VInstr) : Z :=
  match i with Fbeqz => 0 | Fbnez => 1 end.

Record InstrId := mkInstrId { instr_id_inner : Z }.

(** [InstrId::MAX]: the upper bound of the numbers. *)
Definition INSTR_ID_MAX : Z := Z.shiftl 15 3 + 3.

Definition id_of (upper lower : Z) : InstrId := mkInstrId (Z.shiftl upper 3 + lower).

Section Id.
Context {IR IW FR FW : Type}.

(** [Instr::id] *)
Definition id (self : Instr IR IW FR FW) : InstrId :=
  match self with
  | InstrR instr _ _ _ => id_of 0 (RInstr_as_u8 instr)
  | InstrI instr _ _ _ => id_of 1 (IInstr_as_u8 instr)
  | InstrS instr _ _ _ => id_of 2 (SInstr_as_u8 instr)
  | InstrB instr _ _ _ => id_of 3 (BInstr_as_u8 instr)
  | InstrP instr _ _ _ => match instr with end
  | InstrJ instr _ _ => id_of 5 (JInstr_as_u8 instr)
  | InstrIO io => id_of 6 (match io with Outb _ => 0 | Inw _ => 1 | Finw _ => 2 end)
  | InstrF f =>
      match f with
      | FE instr _ _ _ => id_of 7 (EInstr_as_u8 instr)
      | FG instr _ _ _ _ => match instr with end
      | FH instr _ _ => id_of 9 (HInstr_as_u8 instr)
      | FK instr _ _ _ => id_of 10 (KInstr_as_u8 instr)
      | FX instr _ _ => id_of 11 (XInstr_as_u8 instr)
      | FY instr _ _ => id_of 12 (YInstr_as_u8 instr)
      | FWb instr _ _ _ => id_of 13 (WInstr_as_u8 instr)
      | FV instr _ _ => id_of 14 (VInstr_as_u8 instr)
      | Flw _ _ _ => id_of 15 0
      | Fsw _ _ _ => id_of 15 1
      end
  | InstrMisc MiscEnd => id_of 15 2
  end.
End Id.

(** The number of variants of the operation type of each format, in the order
    of the upper bits of an instruction number ([mem::variant_count]). *)
Definition variant_counts : list Z := [8; 8; 1; 4; 0; 1; 3; 7; 0; 3; 1; 1; 4; 2; 2; 3].

(** [TryFrom<u8> for InstrId] *)
Definition InstrId_try_from (v : Z) : outcome () InstrId :=
  let upper := Z.shiftr v 3 in
  let lower := Z.land v 7 in
  let b := match variant_counts !! Z.to_nat upper with
           | Some n => lower <? n
           | None => false
           end in
  if b then Ok (mkInstrId v) else Err ().

(** ** Printing *)

Open Scope string_scope.

Definition fmt_RInstr (i : RInstr) : string :=
  match i with Add => "add" | Sub => "sub" | Xor => "xor" | Or => "or" | And => "and" | Sll => "sll" | Sra => "sra" | Slt => "slt" end.
Definition fmt_IInstr (i : IInstr) : string :=
  match i with Addi => "addi" | Xori => "xori" | Ori => "ori" | Andi => "andi" | Slli => "slli" | Slti => "slti" | Lw => "lw" | Jalr => "jalr" end.
Definition fmt_SInstr (i : SInstr) : string :=
  match i with Sw => "sw" end.
Definition fmt_BInstr (i : BInstr) : string :=
  match i with Beq => "beq" | Bne => "bne" | Blt => "blt" | Bge => "bge" end.
Definition fmt_JInstr (i : JInstr) : string :=
  match i with Jal => "jal" end.
Definition fmt_EInstr (i : EInstr) : string :=
  match i with Fadd => "fadd" | Fsub => "fsub" | Fmul => "fmul" | Fdiv => "fdiv" | Fsgnj => "fsgnj" | Fsgnjn => "fsgnjn" | Fsgnjx => "fsgnjx" end.
Definition fmt_HInstr (i : HInstr) : string :=
  match i with Fsqrt => "fsqrt" | Fhalf => "fhalf" | Ffloor => "ffloor" end.
Definition fmt_KInstr (i : KInstr) : string :=
  match i with Flt => "flt" end.
Definition fmt_XInstr (i : XInstr) : string :=
  match i with Fitof => "fitof" end.
Definition fmt_YInstr (i : YInstr) : string :=
  match i with Fiszero => "fiszero" | Fispos => "fispos" | Fisneg => "fisneg" | Fftoi => "fftoi" end.
Definition fmt_WInstr (i : WInstr) : string :=
  match i with Fblt => "fblt" | Fbge => "fbge" end.
Definition fmt_VInstr (i : VInstr) : string :=
  match i with Fbeqz => "fbeqz" | Fbnez => "fbnez" end.

(** [T::unchecked_transmute_from(lower)]: the variant of that discriminant;
    any other number is undefined behaviour, here [None]. *)
Definition nth_name (names : list string) (lower : Z) : option string := names !! Z.to_nat lower.

(** The names of the variants of each format, as [InstrId]'s [Display] prints
    them after transmuting the lower bits. *)
Definition id_names (upper : Z) : list string :=
  match upper with
  | 0 => fmt_RInstr <$> [Add; Sub; Xor; Or; And; Sll; Sra; Slt]
  | 1 => fmt_IInstr <$> [Addi; Xori; Ori; Andi; Slli; Slti; Lw; Jalr]
  | 2 => fmt_SInstr <$> [Sw]
  | 3 => fmt_BInstr <$> [Beq; Bne; Blt; Bge]
  | 5 => fmt_JInstr <$> [Jal]
  | 6 => ["outb"; "inw"; "finw"]
  | 7 => fmt_EInstr <$> [Fadd; Fsub; Fmul; Fdiv; Fsgnj; Fsgnjn; Fsgnjx]
  | 9 => fmt_HInstr <$> [Fsqrt; Fhalf; Ffloor]
  | 10 => fmt_KInstr <$> [Flt]
  | 11 => fmt_XInstr <$> [Fitof]
  | 12 => fmt_YInstr <$> [Fiszero; Fispos; Fisneg; Fftoi]
  | 13 => fmt_WInstr <$> [Fblt; Fbge]
  | 14 => fmt_VInstr <$> [Fbeqz; Fbnez]
  | 15 => ["flw"; "fsw"; "end"]
  | _ => []
  end.

(** [Display for InstrId] *)
Definition fmt_id (i : InstrId) : outcome never string :=
  match nth_name (id_names (Z.shiftr (instr_id_inner i) 3)) (Z.land (instr_id_inner i) 7) with
  | Some s => Ok s
  | None => Panic Unreachable
  end.

(** [{imm}] of a [u32] and of [imm as i32]. *)
Definition fmt_u32 (x : Z) : string := pretty x.
Definition fmt_i32 (x : Z) : string := pretty (as_i32 x).

Definition words (op : string) (args : list string) : string :=
  op +:+ " " +:+ String.concat ", " args.

(** [Display] of the floating-point formats. *)
Definition fmt_FInstr (f : FInstr RegId RegId FRegId FRegId) : outcome never string :=
  match f with
  | FE i rd rs1 rs2 =>
      d ← fmt_freg rd; a ← fmt_freg rs1; b ← fmt_freg rs2; mret (words (fmt_EInstr i) [d; a; b])
  | FG i _ _ _ _ => match i with end
  | FH i rd rs1 => d ← fmt_freg rd; a ← fmt_freg rs1; mret (words (fmt_HInstr i) [d; a])
  | FK i rd rs1 rs2 =>
      d ← fmt_reg rd; a ← fmt_freg rs1; b ← fmt_freg rs2; mret (words (fmt_KInstr i) [d; a; b])
  | FX i rd rs1 => d ← fmt_freg rd; a ← fmt_reg rs1; mret (words (fmt_XInstr i) [d; a])
  | FY i rd rs1 => d ← fmt_reg rd; a ← fmt_freg rs1; mret (words (fmt_YInstr i) [d; a])
  | FWb i rs1 rs2 imm =>
      a ← fmt_freg rs1; b ← fmt_freg rs2; mret (words (fmt_WInstr i) [a; b; fmt_u32 imm])
  | FV i rs1 imm => a ← fmt_freg rs1; mret (words (fmt_VInstr i) [a; fmt_u32 imm])
  | Flw rd rs1 imm =>
      d ← fmt_freg rd; a ← fmt_reg rs1; mret (words "flw" [d; fmt_u32 imm +:+ "(" +:+ a +:+ ")"])
  | Fsw rs2 rs1 imm =>
      b ← fmt_freg rs2; a ← fmt_reg rs1; mret (words "fsw" [b; fmt_u32 imm +:+ "(" +:+ a +:+ ")"])
  end.

(** [Display for Instr] *)
Definition fmt_instr (self : DecodedInstr) : outcome never string :=
  match self with
  | InstrR i rd rs1 rs2 =>
      d ← fmt_reg rd; a ← fmt_reg rs1; b ← fmt_reg rs2; mret (words (fmt_RInstr i) [d; a; b])
  | InstrI Lw rd rs1 imm =>
      d ← fmt_reg rd; a ← fmt_reg rs1;
      mret (words (fmt_IInstr Lw) [d; fmt_i32 imm +:+ "(" +:+ a +:+ ")"])
  | InstrI i rd rs1 imm =>
      d ← fmt_reg rd; a ← fmt_reg rs1; mret (words (fmt_IInstr i) [d; a; fmt_i32 imm])
  | InstrS i rs1 rs2 imm =>
      b ← fmt_reg rs2; a ← fmt_reg rs1;
      mret (words (fmt_SInstr i) [b; fmt_i32 imm +:+ "(" +:+ a +:+ ")"])
  | InstrB i rs1 rs2 imm =>
      a ← fmt_reg rs1; b ← fmt_reg rs2; mret (words (fmt_BInstr i) [a; b; fmt_i32 imm])
  | InstrP i _ _ _ => match i with end
  | InstrJ i rd imm => d ← fmt_reg rd; mret (words (fmt_JInstr i) [d; fmt_i32 imm])
  | InstrIO (Outb rs) => a ← fmt_reg rs; mret (words "outb" [a])
  | InstrIO (Inw rd) => d ← fmt_reg rd; mret (words "inw" [d])
  | InstrIO (Finw rd) => d ← fmt_freg rd; mret (words "finw" [d])
  | InstrF f => fmt_FInstr f
  | InstrMisc MiscEnd => mret "end"
  end.

(** The operation name of an instruction. *)
Definition mnemonic {IR IW FR FW} (self : Instr IR IW FR FW) : string :=
  match self with
  | InstrR i _ _ _ => fmt_RInstr i
  | InstrI i _ _ _ => fmt_IInstr i
  | InstrS i _ _ _ => fmt_SInstr i
  | InstrB i _ _ _ => fmt_BInstr i
  | InstrP i _ _ _ => match i with end
  | InstrJ i _ _ => fmt_JInstr i
  | InstrIO (Outb _) => "outb"
  | InstrIO (Inw _) => "inw"
  | InstrIO (Finw _) => "finw"
  | InstrF f =>
      match f with
      | FE i _ _ _ => fmt_EInstr i
      | FG i _ _ _ _ => match i with end
      | FH i _ _ => fmt_HInstr i
      | FK i _ _ _ => fmt_KInstr i
      | FX i _ _ => fmt_XInstr i
      | FY i _ _ => fmt_YInstr i
      | FWb i _ _ _ => fmt_WInstr i
      | FV i _ _ => fmt_VInstr i
      | Flw _ _ _ => "flw"
      | Fsw _ _ _ => "fsw"
      end
  | InstrMisc MiscEnd => "end"
  end.

Close Scope string_scope.

(** ** Facts *)

(** Split an instruction into its operations. *)
Ltac case_op i :=
  destruct i as [[]|[]|[]|[]|[]|[]|[]|[[]|[]|[]|[]|[]|[]|[]|[]|?|?]|[]].

Section Facts.
Context {IR IW FR FW : Type}.
Implicit Types i : Instr IR IW FR FW.

Lemma id_bound i : 0 <= instr_id_inner (id i) < INSTR_ID_MAX.
Proof. case_op i; vm_compute; intuition congruence. Qed.

Lemma id_try_from i : InstrId_try_from (instr_id_inner (id i)) = Ok (id i).
Proof. by case_op i. Qed.

Lemma id_fmt i : fmt_id (id i) = Ok (mnemonic i).
Proof. by case_op i. Qed.
End Facts.

(** The numbers [TryFrom<u8>] accepts are those [Display] can print. *)
Lemma InstrId_try_from_printable v :
  0 <= v < 256 -> is_ok (InstrId_try_from v) <-> is_ok (fmt_id (mkInstrId v)).
Proof.
  revert v. refine (forall_below 256 _ _). by vm_compute.
Qed.

(** Instruction numbers: the number of an instruction indexes the statistics array,
    converts back to itself, and prints as the mnemonic of the instruction; and the
    table that prints the statistics agrees with the conversion from a byte: a byte
    is the number of an instruction if and only if it can be printed. *)
Theorem instr_id_round_trip {IR IW FR FW} (i : Instr IR IW FR FW) v :
  0 <= v < 256 ->
  0 <= instr_id_inner (id i) < INSTR_ID_MAX /\
  InstrId_try_from (instr_id_inner (id i)) = Ok (id i) /\
  fmt_id (id i) = Ok (mnemonic i) /\
  (is_ok (InstrId_try_from v) <-> is_ok (fmt_id (mkInstrId v))).
Proof.
  intros Hv. split_and!; [apply id_bound|apply id_bound|apply id_try_from|apply id_fmt|..];
    by apply InstrId_try_from_printable.
Qed.

Lemma instr_id_round_trip_witness :
  is_ok (InstrId_try_from 8) <-> is_ok (fmt_id (mkInstrId 8)).
Proof.
  apply (instr_id_round_trip (IR:=RegId) (IW:=RegId) (FR:=FRegId) (FW:=FRegId) (InstrMisc MiscEnd) 8). lia.
Defined.
