(* ===== verification/Decode.v ===== *)
(** * The instruction decoder ([core_sim/src/decode_instr.rs], first instruction set)

    [decode_from] is split by opcode: one definition per arm of the source's
    [match opcode], in the source's order.  Encode.v and DecodeExact.v relate it to
    a reference encoder. *)
From S2P Require Import Prelude Word Bin Register Instr.

(** The [anyhow] errors of the decoder: its own [DecodeError::Invalid], and
    the errors of the register conversions. *)
Inductive DecodeFail :=
  | DecodeInvalid (bin : Z)
  | DecodeRegister (e : RegisterError).

Definition j_imm (bin sign : Z) : Z :=
  let part1 := extract bin 12 19 in
  let part2 := at_ bin 20 in
  let part3 := extract bin 21 30 in
  let part4 := sign in
  let imm := Z.lor (Z.lor (Z.lor (Z.shiftl part1 12) (Z.shiftl part2 11)) (Z.shiftl part3 1))
                   (Z.shiftl part4 20) in
  sign_extend 21 sign imm.

Definition i_imm (sign imm : Z) : Z := sign_extend 12 sign imm.

Definition s_imm (bin sign : Z) : Z :=
  let imm := Z.lor (Z.shiftl (extract bin 25 31) 5) (extract bin 7 11) in
  sign_extend 12 sign imm.

Definition b_imm (bin sign : Z) : Z :=
  let at_7 := at_ bin 7 in
  let lower := extract bin 8 11 in
  let upper := extract bin 25 30 in
  let imm := Z.lor (Z.lor (Z.lor (Z.shiftl lower 1) (Z.shiftl upper 5)) (Z.shiftl at_7 11))
                   (Z.shiftl sign 12) in
  sign_extend 13 sign imm.

Section Decode.
Context `{Profile}.

(** [x.try_into()?] *)
Definition to_reg (rs : Z) : outcome DecodeFail RegId := map_err DecodeRegister (RegId_try_from rs).
Definition to_freg (rs : Z) : outcome DecodeFail FRegId :=
  map_err DecodeRegister (FRegId_try_from rs).

Definition invalid {A} (bin : Z) : outcome DecodeFail A := Err (DecodeInvalid bin).

(** 0b0110011: R format *)
Definition decode_r (bin rd funct3 rs1 rs2 funct7 : Z) : outcome DecodeFail DecodedInstr :=
  instr ← match funct3, funct7 with
          | 0x0, 0x00 => Ok Add
          | 0x0, 0x20 => Ok Sub
          | 0x4, 0x00 => Ok Xor
          | 0x6, 0x00 => Ok Or
          | 0x7, 0x00 => Ok And
          | 0x1, 0x00 => Ok Sll
          | 0x5, 0x20 => Ok Sra
          | 0x2, 0x00 => Ok Slt
          | _, _ => invalid bin
          end;
  rd ← to_reg rd;
  rs1 ← to_reg rs1;
  rs2 ← to_reg rs2;
  mret (InstrR instr rd rs1 rs2).

(** 0b0010011: I format; the shift masks its immediate first *)
Definition decode_i (bin rd funct3 rs1 funct7 imm sign : Z) : outcome DecodeFail DecodedInstr :=
  '(instr, imm) ← match funct3, funct7 with
                  | 0x0, _ => Ok (Addi, imm)
                  | 0x4, _ => Ok (Xori, imm)
                  | 0x6, _ => Ok (Ori, imm)
                  | 0x7, _ => Ok (Andi, imm)
                  | 0x1, 0x00 => Ok (Slli, mask imm 0 4)
                  | _, _ => invalid bin
                  end;
  rd ← to_reg rd;
  rs1 ← to_reg rs1;
  mret (InstrI instr rd rs1 (i_imm sign imm)).

(** 0b0000011 *)
Definition decode_lw (bin rd funct3 rs1 imm sign : Z) : outcome DecodeFail DecodedInstr :=
  instr ← match funct3 with 0x2 => Ok Lw | _ => invalid bin end;
  rd ← to_reg rd;
  rs1 ← to_reg rs1;
  mret (InstrI instr rd rs1 (i_imm sign imm)).

(** 0b1100111 *)
Definition decode_jalr (bin rd funct3 rs1 imm sign : Z) : outcome DecodeFail DecodedInstr :=
  instr ← match funct3 with 0x0 => Ok Jalr | _ => invalid bin end;
  rd ← to_reg rd;
  rs1 ← to_reg rs1;
  mret (InstrI instr rd rs1 (i_imm sign imm)).

(** 0b0100011: S format *)
Definition decode_s (bin funct3 rs1 rs2 sign : Z) : outcome DecodeFail DecodedInstr :=
  instr ← match funct3 with 0x2 => Ok Sw | _ => invalid bin end;
  rs1 ← to_reg rs1;
  rs2 ← to_reg rs2;
  mret (InstrS instr rs1 rs2 (s_imm bin sign)).

(** 0b1100011: B format *)
Definition decode_b (bin funct3 rs1 rs2 sign : Z) : outcome DecodeFail DecodedInstr :=
  let imm := b_imm bin sign in
  instr ← match funct3 with
          | 0x0 => Ok Beq
          | 0x1 => Ok Bne
          | 0x4 => Ok Blt
          | 0x5 => Ok Bge
          | _ => invalid bin
          end;
  rs1 ← to_reg rs1;
  rs2 ← to_reg rs2;
  mret (InstrB instr rs1 rs2 imm).

(** 0b1101111 *)
Definition decode_jal (bin rd sign : Z) : outcome DecodeFail DecodedInstr :=
  let imm := j_imm bin sign in
  rd ← to_reg rd;
  mret (InstrJ Jal rd imm).

(** 0b0001011, 0b0101011 and 0b0001111 *)
Definition decode_inw (rd : Z) : outcome DecodeFail DecodedInstr :=
  rd ← to_reg rd; mret (InstrIO (Inw rd)).
Definition decode_outb (rs1 : Z) : outcome DecodeFail DecodedInstr :=
  rs ← to_reg rs1; mret (InstrIO (Outb rs)).
Definition decode_finw (rd : Z) : outcome DecodeFail DecodedInstr :=
  rd ← to_freg rd; mret (InstrIO (Finw rd)).

(** 0b1010011 with [funct3 = 0]: the operation is in [funct7] *)
Definition decode_f_arith (bin rd rs1 rs2 funct7 : Z) : outcome DecodeFail DecodedInstr :=
  let e instr := rd ← to_freg rd; rs1 ← to_freg rs1; rs2 ← to_freg rs2;
                 mret (InstrF (FE instr rd rs1 rs2)) in
  let h instr := rd ← to_freg rd; rs1 ← to_freg rs1; mret (InstrF (FH instr rd rs1)) in
  match funct7 with
  | 0x00 => e Fadd
  | 0x04 => e Fsub
  | 0x08 => e Fmul
  | 0x0c => e Fdiv
  | 0x18 => e Fsgnj
  | 0x1c => e Fsgnjn
  | 0x20 => e Fsgnjx
  | 0x10 => h Fsqrt
  | 0x14 => h Fhalf
  | 0x40 => h Ffloor
  | 0x45 => rd ← to_reg rd; rs1 ← to_freg rs1; mret (InstrF (FY Fftoi rd rs1))
  | 0x26 => rd ← to_freg rd; rs1 ← to_reg rs1; mret (InstrF (FX Fitof rd rs1))
  | _ => invalid bin
  end.

(** 0b1010011 with [funct3 <> 0]: the comparisons.  The source asserts the
    value of [funct7] here instead of returning an error. *)
Definition decode_f_cmp (bin rd funct3 rs1 rs2 funct7 : Z) : outcome DecodeFail DecodedInstr :=
  if negb (funct7 =? 0x51) then Panic AssertFailed
  else if Z.land funct3 4 =? 0 then
    rd ← to_reg rd;
    rs1 ← to_freg rs1;
    rs2 ← to_freg rs2;
    match funct3 with
    | 0x1 => mret (InstrF (FK Flt rd rs1 rs2))
    | _ => invalid bin
    end
  else
    rd ← to_reg rd;
    rs1 ← to_freg rs1;
    instr ← match funct3 with
            | 0x4 => Ok Fiszero
            | 0x5 => Ok Fispos
            | 0x6 => Ok Fisneg
            | _ => invalid bin
            end;
    mret (InstrF (FY instr rd rs1)).

(** 0b1010111: floating-point branches, against a register or against zero *)
Definition decode_vw (bin funct3 rs1 rs2 sign : Z) : outcome DecodeFail DecodedInstr :=
  if Z.land funct3 4 =? 0 then
    rs1 ← to_freg rs1;
    rs2 ← to_freg rs2;
    let imm := b_imm bin sign in
    instr ← match funct3 with 0x1 => Ok Fblt | 0x2 => Ok Fbge | _ => invalid bin end;
    mret (InstrF (FWb instr rs1 rs2 imm))
  else
    rs1 ← to_freg rs1;
    let imm := b_imm bin sign in
    instr ← match funct3 with 0x4 => Ok Fbeqz | 0x7 => Ok Fbnez | _ => invalid bin end;
    mret (InstrF (FV instr rs1 imm)).

(** 0b0000111 and 0b0100111 *)
Definition decode_flw (rd rs1 imm sign : Z) : outcome DecodeFail DecodedInstr :=
  rd ← to_freg rd;
  rs1 ← to_reg rs1;
  mret (InstrF (Flw rd rs1 (i_imm sign imm))).
Definition decode_fsw (bin rs1 rs2 sign : Z) : outcome DecodeFail DecodedInstr :=
  rs1 ← to_reg rs1;
  rs2 ← to_freg rs2;
  mret (InstrF (Fsw rs2 rs1 (s_imm bin sign))).

(** The [match opcode]. *)
Definition decode_opcode (bin opcode rd funct3 rs1 rs2 funct7 imm sign : Z)
    : outcome DecodeFail DecodedInstr :=
  match opcode with
  | 0x33 => decode_r bin rd funct3 rs1 rs2 funct7
  | 0x13 => decode_i bin rd funct3 rs1 funct7 imm sign
  | 0x03 => decode_lw bin rd funct3 rs1 imm sign
  | 0x67 => decode_jalr bin rd funct3 rs1 imm sign
  | 0x23 => decode_s bin funct3 rs1 rs2 sign
  | 0x63 => decode_b bin funct3 rs1 rs2 sign
  | 0x6f => decode_jal bin rd sign
  | 0x0b => decode_inw rd
  | 0x2b => decode_outb rs1
  | 0x0f => decode_finw rd
  | 0x53 => if funct3 =? 0 then decode_f_arith bin rd rs1 rs2 funct7
            else decode_f_cmp bin rd funct3 rs1 rs2 funct7
  | 0x57 => decode_vw bin funct3 rs1 rs2 sign
  | 0x07 => decode_flw rd rs1 imm sign
  | 0x27 => decode_fsw bin rs1 rs2 sign
  | _ => invalid bin
  end.

Definition decode_from (bin : Z) : outcome DecodeFail DecodedInstr :=
  if bin =? 0 then Ok (InstrMisc MiscEnd) else
  let opcode := mask_lower bin 6 in
  let rd := extract bin 7 11 in
  let funct3 := extract bin 12 14 in
  let rs1 := extract bin 15 19 in
  let rs2 := extract bin 20 24 in
  let funct7 := extract bin 25 31 in
  let imm := extract bin 20 31 in
  let sign := at_ bin 31 in
  decode_opcode bin opcode rd funct3 rs1 rs2 funct7 imm sign.
End Decode.

(** The unit test of the file: [addi sp, ra, 2000]. *)
Example test_decode :
  decode_from (H := debug_profile) 0x7d008113
  = Ok (InstrI Addi (mkRegId 2) (mkRegId 1) 2000).
Proof. by vm_compute. Qed.
