(* ===== verification/Encode.v ===== *)
(** * A reference encoder, and the round trip with the decoder

    The source has no encoder.  [encode] is the RV32-style layout that the
    decoder's field positions describe, written field by field; [instr_ok] says
    which instructions have an encoding. *)
From S2P Require Import Prelude Word Bin Register Instr Decode.

(** A 32-bit word from its six fields. *)
Definition word_of (opcode rd funct3 rs1 rs2 funct7 : Z) : Z :=
  opcode + rd * 2 ^ 7 + funct3 * 2 ^ 12 + rs1 * 2 ^ 15 + rs2 * 2 ^ 20 + funct7 * 2 ^ 25.

Definition enc_i (opcode rd funct3 rs1 imm : Z) : Z :=
  let v := imm mod 2 ^ 12 in
  word_of opcode rd funct3 rs1 (v mod 2 ^ 5) (v / 2 ^ 5).

Definition enc_s (opcode funct3 rs1 rs2 imm : Z) : Z :=
  let v := imm mod 2 ^ 12 in
  word_of opcode (v mod 2 ^ 5) funct3 rs1 rs2 (v / 2 ^ 5).

Definition enc_b (opcode funct3 rs1 rs2 imm : Z) : Z :=
  let v := imm mod 2 ^ 13 in
  word_of opcode (v mod 2 ^ 5 + (v / 2 ^ 11) mod 2) funct3 rs1 rs2
    ((v / 2 ^ 5) mod 2 ^ 6 + v / 2 ^ 12 * 2 ^ 6).

Definition enc_j (opcode rd imm : Z) : Z :=
  let v := imm mod 2 ^ 21 in
  word_of opcode rd ((v / 2 ^ 12) mod 2 ^ 3) ((v / 2 ^ 15) mod 2 ^ 5)
    ((v / 2) mod 2 ^ 4 * 2 + (v / 2 ^ 11) mod 2)
    ((v / 2 ^ 5) mod 2 ^ 6 + v / 2 ^ 20 * 2 ^ 6).

#[global] Arguments word_of : simpl never.
#[global] Arguments enc_i : simpl never.
#[global] Arguments enc_s : simpl never.
#[global] Arguments enc_b : simpl never.
#[global] Arguments enc_j : simpl never.

Definition r_funct (i : RInstr) : Z * Z :=
  match i with
  | Add => (0, 0) | Sub => (0, 0x20) | Xor => (4, 0) | Or => (6, 0) | And => (7, 0)
  | Sll => (1, 0) | Sra => (5, 0x20) | Slt => (2, 0)
  end.
Definition b_funct (i : BInstr) : Z := match i with Beq => 0 | Bne => 1 | Blt => 4 | Bge => 5 end.
Definition e_funct (i : EInstr) : Z :=
  match i with
  | Fadd => 0 | Fsub => 4 | Fmul => 8 | Fdiv => 0xc | Fsgnj => 0x18 | Fsgnjn => 0x1c
  | Fsgnjx => 0x20
  end.
Definition h_funct (i : HInstr) : Z := match i with Fsqrt => 0x10 | Fhalf => 0x14 | Ffloor => 0x40 end.

Definition encode_f (f : FInstr RegId RegId FRegId FRegId) : Z :=
  match f with
  | FE i rd rs1 rs2 => word_of 0x53 (freg_no rd) 0 (freg_no rs1) (freg_no rs2) (e_funct i)
  | FG i _ _ _ _ => match i with end
  | FH i rd rs1 => word_of 0x53 (freg_no rd) 0 (freg_no rs1) 0 (h_funct i)
  | FK Flt rd rs1 rs2 => word_of 0x53 (reg_no rd) 1 (freg_no rs1) (freg_no rs2) 0x51
  | FX Fitof rd rs1 => word_of 0x53 (freg_no rd) 0 (reg_no rs1) 0 0x26
  | FY Fiszero rd rs1 => word_of 0x53 (reg_no rd) 4 (freg_no rs1) 0 0x51
  | FY Fispos rd rs1 => word_of 0x53 (reg_no rd) 5 (freg_no rs1) 0 0x51
  | FY Fisneg rd rs1 => word_of 0x53 (reg_no rd) 6 (freg_no rs1) 0 0x51
  | FY Fftoi rd rs1 => word_of 0x53 (reg_no rd) 0 (freg_no rs1) 0 0x45
  | FWb Fblt rs1 rs2 imm => enc_b 0x57 1 (freg_no rs1) (freg_no rs2) imm
  | FWb Fbge rs1 rs2 imm => enc_b 0x57 2 (freg_no rs1) (freg_no rs2) imm
  | FV Fbeqz rs1 imm => enc_b 0x57 4 (freg_no rs1) 0 imm
  | FV Fbnez rs1 imm => enc_b 0x57 7 (freg_no rs1) 0 imm
  | Flw rd rs1 imm => enc_i 0x07 (freg_no rd) 0 (reg_no rs1) imm
  | Fsw rs2 rs1 imm => enc_s 0x27 0 (reg_no rs1) (freg_no rs2) imm
  end.

Definition encode (i : DecodedInstr) : Z :=
  match i with
  | InstrR i rd rs1 rs2 =>
      word_of 0x33 (reg_no rd) (r_funct i).1 (reg_no rs1) (reg_no rs2) (r_funct i).2
  | InstrI Addi rd rs1 imm => enc_i 0x13 (reg_no rd) 0 (reg_no rs1) imm
  | InstrI Xori rd rs1 imm => enc_i 0x13 (reg_no rd) 4 (reg_no rs1) imm
  | InstrI Ori rd rs1 imm => enc_i 0x13 (reg_no rd) 6 (reg_no rs1) imm
  | InstrI Andi rd rs1 imm => enc_i 0x13 (reg_no rd) 7 (reg_no rs1) imm
  | InstrI Slli rd rs1 imm => word_of 0x13 (reg_no rd) 1 (reg_no rs1) imm 0
  | InstrI Slti _ _ _ => 0
  | InstrI Lw rd rs1 imm => enc_i 0x03 (reg_no rd) 2 (reg_no rs1) imm
  | InstrI Jalr rd rs1 imm => enc_i 0x67 (reg_no rd) 0 (reg_no rs1) imm
  | InstrS Sw rs1 rs2 imm => enc_s 0x23 2 (reg_no rs1) (reg_no rs2) imm
  | InstrB i rs1 rs2 imm => enc_b 0x63 (b_funct i) (reg_no rs1) (reg_no rs2) imm
  | InstrP i _ _ _ => match i with end
  | InstrJ Jal rd imm => enc_j 0x6f (reg_no rd) imm
  | InstrIO (Inw rd) => word_of 0x0b (reg_no rd) 0 0 0 0
  | InstrIO (Outb rs) => word_of 0x2b 0 0 (reg_no rs) 0 0
  | InstrIO (Finw rd) => word_of 0x0f (freg_no rd) 0 0 0 0
  | InstrF f => encode_f f
  | InstrMisc MiscEnd => 0
  end.

(** ** Well-formed instructions *)

(** A [u32] whose signed value fits in [bits] bits. *)
Definition imm_ok (bits imm : Z) : Prop :=
  u32_ok imm /\ - 2 ^ (bits - 1) <= as_i32 imm < 2 ^ (bits - 1).
(** A branch or jump displacement: even as well. *)
Definition disp_ok (bits imm : Z) : Prop := imm_ok bits imm /\ imm mod 2 = 0.

Definition finstr_ok (f : FInstr RegId RegId FRegId FRegId) : Prop :=
  match f with
  | FE _ rd rs1 rs2 => freg_ok rd /\ freg_ok rs1 /\ freg_ok rs2
  | FG i _ _ _ _ => False
  | FH _ rd rs1 => freg_ok rd /\ freg_ok rs1
  | FK _ rd rs1 rs2 => reg_ok rd /\ freg_ok rs1 /\ freg_ok rs2
  | FX _ rd rs1 => freg_ok rd /\ reg_ok rs1
  | FY _ rd rs1 => reg_ok rd /\ freg_ok rs1
  | FWb _ rs1 rs2 imm => freg_ok rs1 /\ freg_ok rs2 /\ disp_ok 13 imm
  | FV _ rs1 imm => freg_ok rs1 /\ disp_ok 13 imm
  | Flw rd rs1 imm => freg_ok rd /\ reg_ok rs1 /\ imm_ok 12 imm
  | Fsw rs2 rs1 imm => freg_ok rs2 /\ reg_ok rs1 /\ imm_ok 12 imm
  end.

Definition instr_ok (i : DecodedInstr) : Prop :=
  match i with
  | InstrR _ rd rs1 rs2 => reg_ok rd /\ reg_ok rs1 /\ reg_ok rs2
  | InstrI Slti _ _ _ => False
  | InstrI Slli rd rs1 imm => reg_ok rd /\ reg_ok rs1 /\ 0 <= imm < 32
  | InstrI _ rd rs1 imm => reg_ok rd /\ reg_ok rs1 /\ imm_ok 12 imm
  | InstrS _ rs1 rs2 imm => reg_ok rs1 /\ reg_ok rs2 /\ imm_ok 12 imm
  | InstrB _ rs1 rs2 imm => reg_ok rs1 /\ reg_ok rs2 /\ disp_ok 13 imm
  | InstrP _ _ _ _ => False
  | InstrJ _ rd imm => reg_ok rd /\ disp_ok 21 imm
  | InstrIO (Inw rd) => reg_ok rd
  | InstrIO (Outb rs) => reg_ok rs
  | InstrIO (Finw rd) => freg_ok rd
  | InstrF f => finstr_ok f
  | InstrMisc MiscEnd => True
  end.

(** ** The fields of an encoded word *)

Section Fields.
Context (opcode rd funct3 rs1 rs2 funct7 : Z).
Context (Hop : 0 < opcode < 2 ^ 7) (Hrd : 0 <= rd < 2 ^ 5) (Hf3 : 0 <= funct3 < 2 ^ 3).
Context (Hrs1 : 0 <= rs1 < 2 ^ 5) (Hrs2 : 0 <= rs2 < 2 ^ 5) (Hf7 : 0 <= funct7 < 2 ^ 7).

Let w := word_of opcode rd funct3 rs1 rs2 funct7.

Lemma word_of_ok : u32_ok w.
Proof. unfold u32_ok, w, word_of. lia. Qed.

Lemma word_of_nonzero : (w =? 0) = false.
Proof. apply Z.eqb_neq. unfold w, word_of. lia. Qed.

Lemma word_opcode : mask_lower w 6 = opcode.
Proof. rewrite mask_lower_eq by lia. unfold w, word_of. dlia. Qed.
Lemma word_rd : extract w 7 11 = rd.
Proof. rewrite extract_eq by lia. unfold w, word_of. simpl. dlia. Qed.
Lemma word_funct3 : extract w 12 14 = funct3.
Proof. rewrite extract_eq by lia. unfold w, word_of. simpl. dlia. Qed.
Lemma word_rs1 : extract w 15 19 = rs1.
Proof. rewrite extract_eq by lia. unfold w, word_of. simpl. dlia. Qed.
Lemma word_rs2 : extract w 20 24 = rs2.
Proof. rewrite extract_eq by lia. unfold w, word_of. simpl. dlia. Qed.
Lemma word_funct7 : extract w 25 31 = funct7.
Proof. rewrite extract_eq by lia. unfold w, word_of. simpl. dlia. Qed.
Lemma word_imm : extract w 20 31 = rs2 + funct7 * 2 ^ 5.
Proof. rewrite extract_eq by lia. unfold w, word_of. simpl. dlia. Qed.
Lemma word_sign : at_ w 31 = funct7 / 2 ^ 6.
Proof. rewrite at_eq by lia. unfold w, word_of. dlia. Qed.
End Fields.

(** Every 32-bit word is the word of its fields. *)
Lemma word_of_fields bin :
  u32_ok bin ->
  word_of (mask_lower bin 6) (extract bin 7 11) (extract bin 12 14) (extract bin 15 19)
    (extract bin 20 24) (extract bin 25 31) = bin.
Proof.
  unfold u32_ok. intros. rewrite mask_lower_eq, !extract_eq by lia. unfold word_of. simpl. dlia.
Qed.

(** ** The immediates, as numbers *)

Definition s_field (bin : Z) : Z := (bin / 2 ^ 25) mod 2 ^ 7 * 2 ^ 5 + (bin / 2 ^ 7) mod 2 ^ 5.
Definition b_field (bin : Z) : Z :=
  (bin / 2 ^ 8) mod 2 ^ 4 * 2 + (bin / 2 ^ 25) mod 2 ^ 6 * 2 ^ 5
  + (bin / 2 ^ 7) mod 2 * 2 ^ 11 + (bin / 2 ^ 31) mod 2 * 2 ^ 12.
Definition j_field (bin : Z) : Z :=
  (bin / 2 ^ 12) mod 2 ^ 8 * 2 ^ 12 + (bin / 2 ^ 20) mod 2 * 2 ^ 11
  + (bin / 2 ^ 21) mod 2 ^ 10 * 2 + (bin / 2 ^ 31) mod 2 * 2 ^ 20.

Lemma s_imm_eq bin : s_imm bin (at_ bin 31) = sign_extend 12 (at_ bin 31) (s_field bin).
Proof.
  unfold s_imm, s_field. rewrite !extract_eq by lia. eval_widths.
  rewrite Z.shiftl_mul_pow2, lor_add by dlia. done.
Qed.

Lemma b_imm_eq bin : b_imm bin (at_ bin 31) = sign_extend 13 (at_ bin 31) (b_field bin).
Proof.
  unfold b_imm, b_field. rewrite !extract_eq, !at_eq by lia. eval_widths.
  rewrite !Z.shiftl_mul_pow2 by lia. change (2 ^ 1) with 2.
  rewrite (lor_add_r _ _ 5), (lor_add_r _ _ 11), (lor_add_r _ _ 12) by dlia. done.
Qed.

Lemma j_imm_eq bin : j_imm bin (at_ bin 31) = sign_extend 21 (at_ bin 31) (j_field bin).
Proof.
  unfold j_imm, j_field. rewrite !extract_eq, !at_eq by lia. eval_widths.
  rewrite !Z.shiftl_mul_pow2 by lia. change (2 ^ 1) with 2.
  rewrite (lor_add _ _ 12) by dlia.
  replace ((bin / 2 ^ 12) mod 2 ^ 8 * 2 ^ 12 + (bin / 2 ^ 20) mod 2 * 2 ^ 11)
    with (((bin / 2 ^ 12) mod 2 ^ 8 * 2 + (bin / 2 ^ 20) mod 2) * 2 ^ 11) by lia.
  rewrite (lor_add _ _ 11) by dlia. rewrite (lor_add_r _ _ 20) by dlia. lia.
Qed.

(** Each field is below its width, its top bit is bit 31, and displacements
    are even. *)
Lemma i_field_ok bin :
  u32_ok bin -> 0 <= extract bin 20 31 < 2 ^ 12 /\ at_ bin 31 = extract bin 20 31 / 2 ^ (12 - 1).
Proof. unfold u32_ok. intros. rewrite extract_eq, at_eq by lia. eval_widths. dlia. Qed.

Lemma s_field_ok bin :
  u32_ok bin -> 0 <= s_field bin < 2 ^ 12 /\ at_ bin 31 = s_field bin / 2 ^ (12 - 1).
Proof. unfold u32_ok, s_field. intros. rewrite at_eq by lia. dlia. Qed.

Lemma b_field_ok bin :
  u32_ok bin ->
  0 <= b_field bin < 2 ^ 13 /\ at_ bin 31 = b_field bin / 2 ^ (13 - 1) /\ b_field bin mod 2 = 0.
Proof. unfold u32_ok, b_field. intros. rewrite at_eq by lia. dlia. Qed.

Lemma j_field_ok bin :
  u32_ok bin ->
  0 <= j_field bin < 2 ^ 21 /\ at_ bin 31 = j_field bin / 2 ^ (21 - 1) /\ j_field bin mod 2 = 0.
Proof. unfold u32_ok, j_field. intros. rewrite at_eq by lia. dlia. Qed.

(** The same fields, from the fields of the word. *)
Lemma s_field_eq bin :
  u32_ok bin -> s_field bin = extract bin 25 31 * 2 ^ 5 + extract bin 7 11.
Proof. intros. unfold s_field. rewrite !extract_eq by lia. eval_widths. done. Qed.

Lemma b_field_eq bin :
  u32_ok bin ->
  let rd := extract bin 7 11 in
  let f7 := extract bin 25 31 in
  b_field bin = rd / 2 * 2 + f7 mod 2 ^ 6 * 2 ^ 5 + rd mod 2 * 2 ^ 11 + f7 / 2 ^ 6 * 2 ^ 12.
Proof.
  unfold u32_ok, b_field. intros. cbv zeta. rewrite !extract_eq by lia. eval_widths. dlia.
Qed.

Lemma j_field_eq bin :
  u32_ok bin ->
  let rs2 := extract bin 20 24 in
  let f7 := extract bin 25 31 in
  j_field bin = (extract bin 12 14 + extract bin 15 19 * 2 ^ 3) * 2 ^ 12 + rs2 mod 2 * 2 ^ 11
                + (rs2 / 2 + f7 mod 2 ^ 6 * 2 ^ 4) * 2 + f7 / 2 ^ 6 * 2 ^ 20.
Proof.
  unfold u32_ok, j_field. intros. cbv zeta. rewrite !extract_eq by lia. eval_widths. dlia.
Qed.

(** What the decoder computes is a valid immediate. *)
Lemma i_imm_ok bin : u32_ok bin -> imm_ok 12 (i_imm (at_ bin 31) (extract bin 20 31)).
Proof. intros [? ?]%i_field_ok. by apply sign_extend_range. Qed.

Lemma s_imm_ok bin : u32_ok bin -> imm_ok 12 (s_imm bin (at_ bin 31)).
Proof. intros [? ?]%s_field_ok. rewrite s_imm_eq. by apply sign_extend_range. Qed.

Lemma b_imm_ok bin : u32_ok bin -> disp_ok 13 (b_imm bin (at_ bin 31)).
Proof.
  intros (? & ? & ?)%b_field_ok. rewrite b_imm_eq.
  split; [by apply sign_extend_range|by apply sign_extend_even].
Qed.

Lemma j_imm_ok bin : u32_ok bin -> disp_ok 21 (j_imm bin (at_ bin 31)).
Proof.
  intros (? & ? & ?)%j_field_ok. rewrite j_imm_eq.
  split; [by apply sign_extend_range|by apply sign_extend_even].
Qed.

(** ** Encoded immediates decode to themselves *)

Lemma imm_top bits imm : 1 <= bits <= 31 -> 0 <= imm mod 2 ^ bits < 2 ^ bits.
Proof. intros. apply Z.mod_pos_bound. lia. Qed.

Lemma disp_even bits imm : disp_ok bits imm -> 1 <= bits -> (imm mod 2 ^ bits) mod 2 = 0.
Proof.
  intros [_ He] ?. rewrite Z.mod_mod_divide; [done|].
  exists (2 ^ (bits - 1)). rewrite Z.mul_comm, <- Z.pow_succ_r by lia. f_equal. lia.
Qed.

Lemma i_imm_enc imm :
  imm_ok 12 imm ->
  let v := imm mod 2 ^ 12 in
  i_imm (v / 2 ^ 5 / 2 ^ 6) (v mod 2 ^ 5 + v / 2 ^ 5 * 2 ^ 5) = imm.
Proof.
  intros [Hu Hr] v. pose proof (imm_top 12 imm ltac:(lia)) as Hv. fold v in Hv.
  replace (v mod 2 ^ 5 + v / 2 ^ 5 * 2 ^ 5) with v by dlia.
  replace (v / 2 ^ 5 / 2 ^ 6) with (v / 2 ^ (12 - 1)) by (rewrite Z.div_div by lia; done).
  by apply sign_extend_field.
Qed.

Lemma s_imm_enc opcode funct3 rs1 rs2 imm :
  0 < opcode < 2 ^ 7 -> 0 <= funct3 < 2 ^ 3 -> 0 <= rs1 < 2 ^ 5 -> 0 <= rs2 < 2 ^ 5 ->
  imm_ok 12 imm ->
  let w := enc_s opcode funct3 rs1 rs2 imm in s_imm w (at_ w 31) = imm.
Proof.
  intros ???? [Hu Hr] w. pose proof (imm_top 12 imm ltac:(lia)) as Hv.
  rewrite s_imm_eq. unfold w, enc_s. set (v := imm mod 2 ^ 12) in *.
  rewrite word_sign, s_field_eq, word_funct7, word_rd by (apply word_of_ok || idtac; dlia).
  rewrite <- (sign_extend_field 12 imm) by (done || lia). fold v. f_equal; dlia.
Qed.

Lemma b_imm_enc opcode funct3 rs1 rs2 imm :
  0 < opcode < 2 ^ 7 -> 0 <= funct3 < 2 ^ 3 -> 0 <= rs1 < 2 ^ 5 -> 0 <= rs2 < 2 ^ 5 ->
  disp_ok 13 imm ->
  let w := enc_b opcode funct3 rs1 rs2 imm in b_imm w (at_ w 31) = imm.
Proof.
  intros ???? Hd w. pose proof Hd as [[Hu Hr] He]. pose proof (imm_top 13 imm ltac:(lia)) as Hv.
  pose proof (disp_even 13 imm Hd ltac:(lia)) as Hv2.
  rewrite b_imm_eq. unfold w, enc_b. set (v := imm mod 2 ^ 13) in *.
  rewrite word_sign, b_field_eq, word_funct7, word_rd by (apply word_of_ok || idtac; dlia).
  rewrite <- (sign_extend_field 13 imm) by (done || lia). fold v. f_equal; dlia.
Qed.

Lemma j_imm_enc opcode rd imm :
  0 < opcode < 2 ^ 7 -> 0 <= rd < 2 ^ 5 -> disp_ok 21 imm ->
  let w := enc_j opcode rd imm in j_imm w (at_ w 31) = imm.
Proof.
  intros ?? Hd w. pose proof Hd as [[Hu Hr] He]. pose proof (imm_top 21 imm ltac:(lia)) as Hv.
  pose proof (disp_even 21 imm Hd ltac:(lia)) as Hv2.
  rewrite j_imm_eq. unfold w, enc_j. set (v := imm mod 2 ^ 21) in *.
  rewrite word_sign, j_field_eq, word_funct7, word_funct3, word_rs1, word_rs2
    by (apply word_of_ok || idtac; dlia).
  rewrite <- (sign_extend_field 21 imm) by (done || lia). fold v. f_equal; dlia.
Qed.

(** ** The round trip *)

Lemma to_reg_ok `{Profile} r : reg_ok r -> to_reg (reg_no r) = Ok r.
Proof. intros. unfold to_reg. rewrite RegId_try_from_field by done. by destruct r. Qed.

Lemma to_freg_ok `{Profile} r : freg_ok r -> to_freg (freg_no r) = Ok r.
Proof. intros. unfold to_freg. rewrite FRegId_try_from_field by done. by destruct r. Qed.

(** Run the arm of a known opcode on registers that exist. *)
Ltac run_decode :=
  simpl;
  unfold decode_r, decode_i, decode_lw, decode_jalr, decode_s, decode_b, decode_jal, decode_inw,
    decode_outb, decode_finw, decode_f_arith, decode_f_cmp, decode_vw, decode_flw, decode_fsw;
  simpl; rewrite ?to_reg_ok, ?to_freg_ok by done; simpl.

Section RoundTrip.
Context `{Profile}.

Lemma decode_from_word opcode rd funct3 rs1 rs2 funct7 :
  0 < opcode < 2 ^ 7 -> 0 <= rd < 2 ^ 5 -> 0 <= funct3 < 2 ^ 3 -> 0 <= rs1 < 2 ^ 5 ->
  0 <= rs2 < 2 ^ 5 -> 0 <= funct7 < 2 ^ 7 ->
  let w := word_of opcode rd funct3 rs1 rs2 funct7 in
  decode_from w
  = decode_opcode w opcode rd funct3 rs1 rs2 funct7 (rs2 + funct7 * 2 ^ 5) (at_ w 31).
Proof.
  intros. unfold decode_from, w.
  by rewrite word_of_nonzero, word_opcode, word_rd, word_funct3, word_rs1, word_rs2, word_funct7,
    word_imm by done.
Qed.

Lemma decode_enc_i opcode rd funct3 rs1 imm :
  0 < opcode < 2 ^ 7 -> 0 <= rd < 2 ^ 5 -> 0 <= funct3 < 2 ^ 3 -> 0 <= rs1 < 2 ^ 5 -> imm_ok 12 imm ->
  exists w rs2 funct7 imm' sign, i_imm sign imm' = imm /\
  decode_from (enc_i opcode rd funct3 rs1 imm)
  = decode_opcode w opcode rd funct3 rs1 rs2 funct7 imm' sign.
Proof.
  intros. pose proof (imm_top 12 imm ltac:(lia)). unfold enc_i.
  rewrite decode_from_word, word_sign by dlia.
  do 5 eexists. split; [by apply i_imm_enc|done].
Qed.

Lemma decode_enc_s opcode funct3 rs1 rs2 imm :
  0 < opcode < 2 ^ 7 -> 0 <= funct3 < 2 ^ 3 -> 0 <= rs1 < 2 ^ 5 -> 0 <= rs2 < 2 ^ 5 -> imm_ok 12 imm ->
  exists w rd funct7 imm' sign, s_imm w sign = imm /\
  decode_from (enc_s opcode funct3 rs1 rs2 imm)
  = decode_opcode w opcode rd funct3 rs1 rs2 funct7 imm' sign.
Proof.
  intros. pose proof (imm_top 12 imm ltac:(lia)).
  do 5 eexists. split; [by apply (s_imm_enc opcode funct3 rs1 rs2)|].
  unfold enc_s. by rewrite decode_from_word by dlia.
Qed.

Lemma decode_enc_b opcode funct3 rs1 rs2 imm :
  0 < opcode < 2 ^ 7 -> 0 <= funct3 < 2 ^ 3 -> 0 <= rs1 < 2 ^ 5 -> 0 <= rs2 < 2 ^ 5 -> disp_ok 13 imm ->
  exists w rd funct7 imm' sign, b_imm w sign = imm /\
  decode_from (enc_b opcode funct3 rs1 rs2 imm)
  = decode_opcode w opcode rd funct3 rs1 rs2 funct7 imm' sign.
Proof.
  intros ???? Hd. pose proof (imm_top 13 imm ltac:(lia)). pose proof (disp_even 13 imm Hd ltac:(lia)).
  do 5 eexists. split; [by apply (b_imm_enc opcode funct3 rs1 rs2)|].
  unfold enc_b. by rewrite decode_from_word by dlia.
Qed.

Lemma decode_enc_j opcode rd imm :
  0 < opcode < 2 ^ 7 -> 0 <= rd < 2 ^ 5 -> disp_ok 21 imm ->
  exists w funct3 rs1 rs2 funct7 imm' sign, j_imm w sign = imm /\
  decode_from (enc_j opcode rd imm)
  = decode_opcode w opcode rd funct3 rs1 rs2 funct7 imm' sign.
Proof.
  intros. pose proof (imm_top 21 imm ltac:(lia)).
  do 7 eexists. split; [by apply (j_imm_enc opcode rd)|].
  unfold enc_j. by rewrite decode_from_word by dlia.
Qed.

(** Decode an encoded immediate format with its lemma. *)
Ltac with_format lem :=
  let He := fresh in
  pose proof lem as He; unfold reg_ok, freg_ok in *;
  repeat (specialize (He ltac:(first [assumption|lia])));
  repeat match type of He with
         | exists _, _ => destruct He as [? He]
         | _ /\ _ => destruct He as [? He]
         end;
  match goal with Himm : _ = _ |- _ => rewrite He; run_decode; by rewrite Himm end.

Ltac by_format :=
  match goal with
  | |- decode_from (enc_i ?a ?b ?c ?d ?e) = _ => with_format (decode_enc_i a b c d e)
  | |- decode_from (enc_s ?a ?b ?c ?d ?e) = _ => with_format (decode_enc_s a b c d e)
  | |- decode_from (enc_b ?a ?b ?c ?d ?e) = _ => with_format (decode_enc_b a b c d e)
  | |- decode_from (enc_j ?a ?b ?c) = _ => with_format (decode_enc_j a b c)
  | |- decode_from (word_of _ _ _ _ _ _) = _ =>
      unfold reg_ok, freg_ok in *; rewrite decode_from_word by lia; by run_decode
  end.

Lemma decode_encode_r i rd rs1 rs2 :
  instr_ok (InstrR i rd rs1 rs2) -> decode_from (encode (InstrR i rd rs1 rs2)) = Ok (InstrR i rd rs1 rs2).
Proof.
  intros (Hd & H1 & H2). simpl. unfold reg_ok in *.
  rewrite decode_from_word by (destruct i; simpl; lia).
  by destruct i; run_decode.
Qed.

Lemma decode_encode_slli rd rs1 imm :
  instr_ok (InstrI Slli rd rs1 imm) ->
  decode_from (encode (InstrI Slli rd rs1 imm)) = Ok (InstrI Slli rd rs1 imm).
Proof.
  intros (Hd & H1 & H2). simpl. unfold reg_ok in *.
  rewrite decode_from_word, word_sign by lia. run_decode.
  rewrite mask_0_eq, Z.add_0_r by lia. rewrite Z.mod_small by lia. done.
Qed.

Lemma decode_encode_i i rd rs1 imm :
  i <> Slli -> instr_ok (InstrI i rd rs1 imm) ->
  decode_from (encode (InstrI i rd rs1 imm)) = Ok (InstrI i rd rs1 imm).
Proof. destruct i; intros ? Hok; simpl in *; destruct_and?; try done; by_format. Qed.

Lemma decode_encode_f f :
  finstr_ok f -> decode_from (encode (InstrF f)) = Ok (InstrF f).
Proof.
  destruct f as [[]|[]|[]|[]|[]|[]|[]|[]|?|?]; simpl; intros; destruct_and?; by_format.
Qed.

Lemma decode_encode_all i : instr_ok i -> decode_from (encode i) = Ok i.
Proof.
  destruct i as [i| |[]|i|[]|[]|[]|f|[]]; intros Hok.
  - by apply decode_encode_r.
  - destruct (decide (instr = Slli)) as [->|].
    + by apply decode_encode_slli.
    + by apply decode_encode_i.
  - simpl in *; destruct_and?. by_format.
  - destruct i; simpl in *; destruct_and?; by_format.
  - simpl in *; destruct_and?. by_format.
  - simpl in *. by_format.
  - simpl in *. by_format.
  - simpl in *. by_format.
  - by apply decode_encode_f.
  - done.
Qed.
End RoundTrip.

(** ** What the decoder returns *)

(** The words on which the decoder's assertion fails: a floating-point
    comparison opcode with a [funct7] other than 0b1010001. *)
Definition assert_word (bin : Z) : bool :=
  (mask_lower bin 6 =? 0x53) && negb (extract bin 12 14 =? 0) && negb (extract bin 25 31 =? 0x51).

Definition decode_sound (bin : Z) (o : outcome DecodeFail DecodedInstr) : Prop :=
  match o with
  | Ok i => instr_ok i
  | Err e => e = DecodeInvalid bin
  | Panic p => p = AssertFailed /\ assert_word bin = true
  end.

Section Sound.
Context `{Profile}.

Lemma to_reg_field rs : 0 <= rs < 32 -> to_reg rs = Ok (mkRegId rs).
Proof. intros. unfold to_reg. by rewrite RegId_try_from_field. Qed.
Lemma to_freg_field rs : 0 <= rs < 32 -> to_freg rs = Ok (mkFRegId rs).
Proof. intros. unfold to_freg. by rewrite FRegId_try_from_field. Qed.

Section Arms.
Context (bin rd funct3 rs1 rs2 funct7 : Z).
Context (Hrd : 0 <= rd < 32) (Hrs1 : 0 <= rs1 < 32) (Hrs2 : 0 <= rs2 < 32).
Context (Hbin : u32_ok bin).

Let imm := extract bin 20 31.
Let sign := at_ bin 31.

(** Run the arm, then look at each of its results. *)
Ltac arm_cases :=
  unfold decode_r, decode_i, decode_lw, decode_jalr, decode_s, decode_b, decode_jal, decode_inw,
    decode_outb, decode_finw, decode_f_arith, decode_vw, decode_flw, decode_fsw;
  rewrite ?(to_reg_field rd), ?(to_reg_field rs1), ?(to_reg_field rs2),
    ?(to_freg_field rd), ?(to_freg_field rs1), ?(to_freg_field rs2) by done;
  repeat case_match; simpl; try done; split_and?; try done.
Ltac arm :=
  arm_cases; (apply i_imm_ok || apply s_imm_ok || apply b_imm_ok || apply j_imm_ok); done.

Lemma decode_r_sound : decode_sound bin (decode_r bin rd funct3 rs1 rs2 funct7).
Proof. arm. Qed.
Lemma decode_lw_sound : decode_sound bin (decode_lw bin rd funct3 rs1 imm sign).
Proof. arm. Qed.
Lemma decode_jalr_sound : decode_sound bin (decode_jalr bin rd funct3 rs1 imm sign).
Proof. arm. Qed.
Lemma decode_s_sound : decode_sound bin (decode_s bin funct3 rs1 rs2 sign).
Proof. arm. Qed.
Lemma decode_b_sound : decode_sound bin (decode_b bin funct3 rs1 rs2 sign).
Proof. arm. Qed.
Lemma decode_jal_sound : decode_sound bin (decode_jal bin rd sign).
Proof. arm. Qed.
Lemma decode_io_sound :
  decode_sound bin (decode_inw rd) /\ decode_sound bin (decode_outb rs1) /\
  decode_sound bin (decode_finw rd).
Proof. arm. Qed.
Lemma decode_f_arith_sound : decode_sound bin (decode_f_arith bin rd rs1 rs2 funct7).
Proof. arm. Qed.
Lemma decode_vw_sound : decode_sound bin (decode_vw bin funct3 rs1 rs2 sign).
Proof. arm. Qed.
Lemma decode_flw_sound : decode_sound bin (decode_flw rd rs1 imm sign).
Proof. arm. Qed.
Lemma decode_fsw_sound : decode_sound bin (decode_fsw bin rs1 rs2 sign).
Proof. arm. Qed.

(** The shift keeps five bits of its immediate, and [funct7 = 0] makes the sign
    bit zero. *)
Lemma decode_i_sound :
  funct7 = extract bin 25 31 ->
  decode_sound bin (decode_i bin rd funct3 rs1 funct7 imm sign).
Proof.
  intros Hf7.
  assert (funct7 = 0 -> 0 <= i_imm sign (mask imm 0 4) < 32) as Hshift.
  { intros H0. unfold sign. replace (at_ bin 31) with 0.
    - rewrite mask_0_eq by lia. unfold i_imm, sign_extend. simpl. apply Z.mod_pos_bound. lia.
    - rewrite at_eq by lia. rewrite extract_eq in Hf7 by lia. unfold u32_ok in *. eval_widths.
      dlia. }
  arm_cases; simplify_eq/=; try (by apply i_imm_ok); by destruct Hshift.
Qed.

Lemma decode_f_cmp_sound :
  mask_lower bin 6 = 0x53 -> funct3 = extract bin 12 14 -> funct3 <> 0 ->
  funct7 = extract bin 25 31 ->
  decode_sound bin (decode_f_cmp bin rd funct3 rs1 rs2 funct7).
Proof.
  intros Hop -> Hne ->. unfold decode_f_cmp. destruct (Z.eqb_spec (extract bin 25 31) 0x51); simpl.
  - arm.
  - unfold assert_word. rewrite Hop. split; [done|].
    destruct (Z.eqb_spec (extract bin 12 14) 0); [done|].
    by destruct (Z.eqb_spec (extract bin 25 31) 0x51).
Qed.
End Arms.

Lemma decode_from_sound bin : u32_ok bin -> decode_sound bin (decode_from bin).
Proof.
  intros Hbin. unfold decode_from. destruct (Z.eqb_spec bin 0); [done|].
  pose proof (extract_bound bin 7 11 ltac:(lia) ltac:(lia)) as Hrd.
  pose proof (extract_bound bin 15 19 ltac:(lia) ltac:(lia)) as Hrs1.
  pose proof (extract_bound bin 20 24 ltac:(lia) ltac:(lia)) as Hrs2.
  simpl in Hrd, Hrs1, Hrs2.
  unfold decode_opcode. destruct (mask_lower bin 6) as [|op|op] eqn:Hop; [done| |done].
  do 7 (try (destruct op as [op|op|]; try done));
  lazymatch goal with |- context [if ?b then _ else _] => destruct b eqn:Hf3 | _ => idtac end;
  first
    [ by apply decode_r_sound | by apply decode_lw_sound | by apply decode_jalr_sound
    | by apply decode_s_sound | by apply decode_b_sound | by apply decode_jal_sound
    | by eapply decode_io_sound | by apply decode_f_arith_sound | by apply decode_vw_sound
    | by apply decode_flw_sound | by apply decode_fsw_sound | by apply decode_i_sound with (rs2 := extract bin 20 24)
    | (apply decode_f_cmp_sound; try done; by apply Z.eqb_neq) ].
Qed.

Lemma decode_from_assert bin :
  u32_ok bin -> assert_word bin = true -> decode_from bin = Panic AssertFailed.
Proof.
  unfold assert_word. rewrite !andb_true_iff, !negb_true_iff, Z.eqb_eq.
  intros Hbin [[Hop H3] H7]. unfold decode_from. destruct (Z.eqb_spec bin 0) as [->|].
  - by vm_compute in Hop.
  - rewrite Hop. unfold decode_opcode. rewrite H3. unfold decode_f_cmp. by rewrite H7.
Qed.
End Sound.

(** ** Properties of the decoder *)

Section Decoder.
Context `{Profile}.

(** Round trip: every well-formed instruction is decoded from its encoding, in
    all builds: registers, immediates of every format with their sign, and the
    operation are recovered exactly. *)
Theorem decode_encode i : instr_ok i -> decode_from (encode i) = Ok i.
Proof. apply decode_encode_all. Qed.
End Decoder.

Section DecoderWitnesses.
#[local] Existing Instance debug_profile.

Lemma decode_encode_witness :
  decode_from (encode (InstrB Blt (mkRegId 5) (mkRegId 6) (2 ^ 32 - 8)))
  = Ok (InstrB Blt (mkRegId 5) (mkRegId 6) (2 ^ 32 - 8)).
Proof. apply decode_encode. vm_compute. intuition congruence. Defined.
End DecoderWitnesses.
