(* ===== verification/DecodeExact.v ===== *)
(** * The decoder is exactly the inverse of the reference encoder

    The decoder accepts a word if and only if it is, up to the fields that the
    instruction ignores, the encoding of a well-formed instruction, and it
    returns that instruction. *)
From S2P Require Import Prelude Word Bin Register Instr Decode Encode.

(** ** Canonical words

    Some arms do not look at every field: the fields an instruction does not
    fix are cleared before its word is compared with the encoding. *)

(** Which of [rd], [funct3], [rs1], [rs2] and [funct7] are part of the word. *)
Definition kept (i : DecodedInstr) : bool * bool * bool * bool * bool :=
  match i with
  | InstrIO (Inw _) | InstrIO (Finw _) => (true, false, false, false, false)
  | InstrIO (Outb _) => (false, false, true, false, false)
  | InstrF (FH _ _ _) | InstrF (FX _ _ _) | InstrF (FY _ _ _) | InstrF (FV _ _ _) =>
      (true, true, true, false, true)
  | InstrF (Flw _ _ _) | InstrF (Fsw _ _ _) => (true, false, true, true, true)
  | _ => (true, true, true, true, true)
  end.

Definition keep (b : bool) (x : Z) : Z := if b then x else 0.

Definition canonical_fields (i : DecodedInstr) (opcode rd funct3 rs1 rs2 funct7 : Z) : Z :=
  let '(krd, kf3, krs1, krs2, kf7) := kept i in
  word_of opcode (keep krd rd) (keep kf3 funct3) (keep krs1 rs1) (keep krs2 rs2) (keep kf7 funct7).

(** The word with the fields that [i] ignores cleared. *)
Definition canonical (i : DecodedInstr) (bin : Z) : Z :=
  canonical_fields i (mask_lower bin 6) (extract bin 7 11) (extract bin 12 14)
    (extract bin 15 19) (extract bin 20 24) (extract bin 25 31).

(** What [decode_from] should return on a word. *)
Definition decode_spec (bin : Z) (o : outcome DecodeFail DecodedInstr) : Prop :=
  match o with
  | Ok i => instr_ok i /\ encode i = canonical i bin
  | Err e => e = DecodeInvalid bin /\ forall i, instr_ok i -> encode i <> canonical i bin
  | Panic p => p = AssertFailed /\ assert_word bin = true /\
               forall i, instr_ok i -> encode i <> canonical i bin
  end.

Section Exact.
Context `{Profile}.

(** Encoding an immediate that was decoded restores its fields. *)
Lemma sign_extend_mod BIT sign imm :
  1 <= BIT <= 31 -> 0 <= imm < 2 ^ BIT -> sign = imm / 2 ^ (BIT - 1) ->
  sign_extend BIT sign imm mod 2 ^ BIT = imm.
Proof.
  intros HB Hi Hs. destruct (sign_extend_spec BIT sign imm HB Hi Hs) as [Hok Hv].
  rewrite <- (as_i32_as_u32 (sign_extend BIT sign imm)), Hv by done.
  unfold i32_as_u32, wrap32.
  rewrite Z.mod_mod_divide
    by (exists (2 ^ (32 - BIT)); rewrite <- Z.pow_add_r by lia; f_equal; lia).
  destruct (Z.ltb_spec imm (2 ^ (BIT - 1))); [by apply Z.mod_small|].
  rewrite <- (Z_mod_plus_full _ 1), Z.mul_1_l, Z.sub_add. by apply Z.mod_small.
Qed.

Section Imm.
Context (bin : Z) (Hbin : u32_ok bin).
Let rd := extract bin 7 11.
Let f3 := extract bin 12 14.
Let rs1 := extract bin 15 19.
Let rs2 := extract bin 20 24.
Let f7 := extract bin 25 31.

Lemma field_bounds :
  0 <= rd < 32 /\ 0 <= f3 < 8 /\ 0 <= rs1 < 32 /\ 0 <= rs2 < 32 /\ 0 <= f7 < 128.
Proof.
  unfold rd, f3, rs1, rs2, f7.
  split_and!; by match goal with |- context [extract bin ?a ?b] => apply (extract_bound bin a b) end.
Qed.

Lemma enc_i_field op d g s :
  enc_i op d g s (i_imm (at_ bin 31) (extract bin 20 31)) = word_of op d g s rs2 f7.
Proof.
  destruct (i_field_ok bin Hbin) as [Hi Hs]. unfold enc_i, i_imm. rewrite sign_extend_mod by done.
  unfold rs2, f7. rewrite !extract_eq by lia. eval_widths. unfold u32_ok in *. f_equal; dlia.
Qed.

Lemma enc_s_field op g s t :
  enc_s op g s t (s_imm bin (at_ bin 31)) = word_of op rd g s t f7.
Proof.
  destruct (s_field_ok bin Hbin) as [Hi Hs]. rewrite s_imm_eq. unfold enc_s.
  rewrite sign_extend_mod by done. rewrite s_field_eq by done. fold rd f7.
  pose proof field_bounds. f_equal; dlia.
Qed.

Lemma enc_b_field op g s t :
  enc_b op g s t (b_imm bin (at_ bin 31)) = word_of op rd g s t f7.
Proof.
  destruct (b_field_ok bin Hbin) as (Hi & Hs & _). rewrite b_imm_eq. unfold enc_b.
  rewrite sign_extend_mod by done. rewrite b_field_eq by done. cbv zeta. fold rd f7.
  pose proof field_bounds. f_equal; dlia.
Qed.

Lemma enc_j_field op d :
  enc_j op d (j_imm bin (at_ bin 31)) = word_of op d f3 rs1 rs2 f7.
Proof.
  destruct (j_field_ok bin Hbin) as (Hi & Hs & _). rewrite j_imm_eq. unfold enc_j.
  rewrite sign_extend_mod by done. rewrite j_field_eq by done. cbv zeta. fold f3 rs1 rs2 f7.
  pose proof field_bounds. f_equal; dlia.
Qed.
End Imm.

(** The shift amount is its [rs2] field. *)
Lemma shift_imm bin :
  u32_ok bin -> 0 = extract bin 25 31 ->
  i_imm (at_ bin 31) (mask (extract bin 20 31) 0 4) = extract bin 20 24.
Proof.
  unfold u32_ok. intros Hbin Hf7. rewrite extract_eq in Hf7 by lia.
  replace (at_ bin 31) with 0 by (rewrite at_eq by lia; eval_widths; dlia).
  rewrite mask_0_eq, !extract_eq by lia. unfold i_imm, sign_extend. simpl. eval_widths. dlia.
Qed.

(** One arm: its fields are those of the word, and the constant patterns of the
    arm are the constants of the encoding. *)
Section Arm.
Context (bin rd funct3 rs1 rs2 funct7 : Z) (Hbin : u32_ok bin).
Context (Hrd : rd = extract bin 7 11) (Hf3 : funct3 = extract bin 12 14).
Context (Hrs1 : rs1 = extract bin 15 19) (Hrs2 : rs2 = extract bin 20 24).
Context (Hf7 : funct7 = extract bin 25 31).

Let imm := extract bin 20 31.
Let sign := at_ bin 31.

Definition arm_exact (opcode : Z) (o : outcome DecodeFail DecodedInstr) : Prop :=
  match o with
  | Ok i => encode i = canonical_fields i opcode rd funct3 rs1 rs2 funct7
  | _ => True
  end.

Ltac arm_open :=
  pose proof (field_bounds bin); destruct_and?;
  rewrite <- Hrd, <- Hrs1, <- Hrs2, <- Hf3, <- Hf7 in *;
  unfold arm_exact, decode_r, decode_i, decode_lw, decode_jalr, decode_s, decode_b, decode_jal,
    decode_inw, decode_outb, decode_finw, decode_f_arith, decode_f_cmp, decode_vw, decode_flw,
    decode_fsw, invalid;
  rewrite ?(to_reg_field rd), ?(to_reg_field rs1), ?(to_reg_field rs2),
    ?(to_freg_field rd), ?(to_freg_field rs1), ?(to_freg_field rs2) by done;
  unfold mret, mbind, outcome_ret, outcome_bind; cbn beta iota;
  repeat case_match; simplify_eq/=; try done;
  unfold imm, sign;
  rewrite ?(enc_i_field bin), ?(enc_s_field bin), ?(enc_b_field bin), ?(enc_j_field bin) by done;
  try match goal with i : SInstr |- _ => destruct i end;
  unfold canonical_fields; cbn [kept keep].
Ltac arm_run := arm_open; congruence.

Lemma decode_r_exact : arm_exact 0x33 (decode_r bin rd funct3 rs1 rs2 funct7).
Proof. arm_run. Qed.
Lemma decode_lw_exact : arm_exact 0x03 (decode_lw bin rd funct3 rs1 imm sign).
Proof. arm_run. Qed.
Lemma decode_jalr_exact : arm_exact 0x67 (decode_jalr bin rd funct3 rs1 imm sign).
Proof. arm_run. Qed.
Lemma decode_s_exact : arm_exact 0x23 (decode_s bin funct3 rs1 rs2 sign).
Proof. arm_run. Qed.
Lemma decode_b_exact : arm_exact 0x63 (decode_b bin funct3 rs1 rs2 sign).
Proof. arm_run. Qed.
Lemma decode_jal_exact : arm_exact 0x6f (decode_jal bin rd sign).
Proof. arm_run. Qed.
Lemma decode_inw_exact : arm_exact 0x0b (decode_inw rd).
Proof. arm_run. Qed.
Lemma decode_outb_exact : arm_exact 0x2b (decode_outb rs1).
Proof. arm_run. Qed.
Lemma decode_finw_exact : arm_exact 0x0f (decode_finw rd).
Proof. arm_run. Qed.
Lemma decode_f_arith_exact : funct3 = 0 -> arm_exact 0x53 (decode_f_arith bin rd rs1 rs2 funct7).
Proof. intros. arm_run. Qed.
Lemma decode_vw_exact : arm_exact 0x57 (decode_vw bin funct3 rs1 rs2 sign).
Proof. arm_run. Qed.
Lemma decode_flw_exact : arm_exact 0x07 (decode_flw rd rs1 imm sign).
Proof. arm_run. Qed.
Lemma decode_fsw_exact : arm_exact 0x27 (decode_fsw bin rs1 rs2 sign).
Proof. arm_run. Qed.
Lemma decode_f_cmp_exact : funct3 <> 0 -> arm_exact 0x53 (decode_f_cmp bin rd funct3 rs1 rs2 funct7).
Proof.
  intros Hne. destruct (field_bounds bin) as (_ & H3 & _). rewrite <- Hf3 in H3.
  unfold decode_f_cmp. destruct (Z.eqb_spec funct7 0x51) as [H7|]; [|done]. simpl negb. cbn iota.
  assert (funct3 = 1 \/ funct3 = 2 \/ funct3 = 3 \/ funct3 = 4 \/ funct3 = 5 \/ funct3 = 6
    \/ funct3 = 7) as Hcases by lia.
  clear H3 Hne. destruct_or! Hcases; rewrite Hcases, H7 in *; simpl Z.land; simpl Z.eqb;
    cbn iota; arm_run.
Qed.

Lemma decode_i_exact :
  arm_exact 0x13 (decode_i bin rd funct3 rs1 funct7 (extract bin 20 31) (at_ bin 31)).
Proof. arm_open; rewrite ?shift_imm by done; congruence. Qed.
End Arm.

Lemma decode_from_forward bin i : u32_ok bin -> decode_from bin = Ok i -> encode i = canonical i bin.
Proof.
  intros Hbin. unfold decode_from, canonical.
  destruct (Z.eqb_spec bin 0) as [->|_]; [by intros [= <-]|].
  enough (arm_exact (extract bin 7 11) (extract bin 12 14) (extract bin 15 19) (extract bin 20 24)
    (extract bin 25 31) (mask_lower bin 6) (decode_opcode bin (mask_lower bin 6) (extract bin 7 11)
    (extract bin 12 14) (extract bin 15 19) (extract bin 20 24) (extract bin 25 31)
    (extract bin 20 31) (at_ bin 31))) as Ha.
  { intros Hd. by rewrite Hd in Ha. }
  unfold decode_opcode. destruct (mask_lower bin 6) as [|op|op]; [done| |done].
  do 7 (try (destruct op as [op|op|]; try done));
  lazymatch goal with |- context [if ?b then _ else _] => destruct b eqn:Hf3 | _ => idtac end;
  first
    [ by apply (decode_r_exact bin) | by apply (decode_i_exact bin) | by apply (decode_lw_exact bin)
    | by apply (decode_jalr_exact bin) | by apply (decode_s_exact bin) | by apply (decode_b_exact bin)
    | by apply (decode_jal_exact bin) | by apply (decode_inw_exact bin) | by apply (decode_outb_exact bin)
    | by apply (decode_finw_exact bin) | by apply (decode_vw_exact bin) | by apply (decode_flw_exact bin)
    | by apply (decode_fsw_exact bin)
    | (apply (decode_f_arith_exact bin); try done; by apply Z.eqb_eq)
    | (apply (decode_f_cmp_exact bin); try done; by apply Z.eqb_neq) ].
Qed.

(** *** The converse: ignored fields are ignored *)

Lemma word_of_inj op rd f3 rs1 rs2 f7 op' rd' f3' rs1' rs2' f7' :
  0 <= op < 2 ^ 7 -> 0 <= rd < 2 ^ 5 -> 0 <= f3 < 2 ^ 3 -> 0 <= rs1 < 2 ^ 5 -> 0 <= rs2 < 2 ^ 5 ->
  0 <= op' < 2 ^ 7 -> 0 <= rd' < 2 ^ 5 -> 0 <= f3' < 2 ^ 3 -> 0 <= rs1' < 2 ^ 5 ->
  0 <= rs2' < 2 ^ 5 ->
  word_of op rd f3 rs1 rs2 f7 = word_of op' rd' f3' rs1' rs2' f7' ->
  op = op' /\ rd = rd' /\ f3 = f3' /\ rs1 = rs1' /\ rs2 = rs2' /\ f7 = f7'.
Proof. unfold word_of. intros. lia. Qed.

Lemma mask_lower_bound bin : 0 <= mask_lower bin 6 < 2 ^ 7.
Proof. rewrite mask_lower_eq by lia. apply Z.mod_pos_bound. lia. Qed.

Lemma canonical_full i bin :
  u32_ok bin -> kept i = (true, true, true, true, true) -> canonical i bin = bin.
Proof. intros Hbin Hk. unfold canonical, canonical_fields. rewrite Hk. by apply word_of_fields. Qed.

(** An encoded format that equals a word made of fields of [bin]: the fields
    agree and the immediate decodes to itself. *)
Section Formats.
Context (bin : Z) (Hbin : u32_ok bin).
Context (op g s op' g' s' : Z).
Context (Hop : 0 < op < 2 ^ 7) (Hg : 0 <= g < 2 ^ 3) (Hs : 0 <= s < 2 ^ 5).
Context (Hop' : 0 <= op' < 2 ^ 7) (Hg' : 0 <= g' < 2 ^ 3) (Hs' : 0 <= s' < 2 ^ 5).

Lemma enc_i_inv d d' imm :
  0 <= d < 2 ^ 5 -> 0 <= d' < 2 ^ 5 -> imm_ok 12 imm ->
  enc_i op d g s imm = word_of op' d' g' s' (extract bin 20 24) (extract bin 25 31) ->
  op = op' /\ d = d' /\ g = g' /\ s = s' /\ i_imm (at_ bin 31) (extract bin 20 31) = imm.
Proof.
  intros Hd Hd' [Hu Hi] He. pose proof (imm_top 12 imm ltac:(lia)) as Hv.
  destruct (field_bounds bin) as (_ & _ & _ & H2 & H7).
  unfold enc_i in He. apply word_of_inj in He as (-> & -> & -> & -> & H2' & H7'); try dlia.
  split_and!; try done. unfold i_imm. rewrite <- (sign_extend_field 12 imm) by (done || lia).
  destruct (i_field_ok bin Hbin) as [_ ->].
  assert (extract bin 20 31 = extract bin 20 24 + extract bin 25 31 * 2 ^ 5) as ->.
  { rewrite !extract_eq by lia. eval_widths. clear - Hbin. unfold u32_ok in *. dlia. }
  f_equal; dlia.
Qed.

Context (t t' : Z) (Ht : 0 <= t < 2 ^ 5) (Ht' : 0 <= t' < 2 ^ 5).

Lemma enc_s_inv imm :
  imm_ok 12 imm ->
  enc_s op g s t imm = word_of op' (extract bin 7 11) g' s' t' (extract bin 25 31) ->
  op = op' /\ g = g' /\ s = s' /\ t = t' /\ s_imm bin (at_ bin 31) = imm.
Proof.
  intros [Hu Hi] He. rewrite s_imm_eq.
  pose proof (imm_top 12 imm ltac:(lia)) as Hv. destruct (field_bounds bin) as (H1 & _ & _ & _ & H7).
  unfold enc_s in He. apply word_of_inj in He as (-> & H1' & -> & -> & -> & H7'); try dlia.
  split_and!; try done. rewrite <- (sign_extend_field 12 imm) by (done || lia).
  destruct (s_field_ok bin Hbin) as [_ ->]. rewrite s_field_eq, <- H1', <- H7' by done.
  f_equal; dlia.
Qed.

Lemma enc_b_inv imm :
  disp_ok 13 imm ->
  enc_b op g s t imm = word_of op' (extract bin 7 11) g' s' t' (extract bin 25 31) ->
  op = op' /\ g = g' /\ s = s' /\ t = t' /\ b_imm bin (at_ bin 31) = imm.
Proof.
  intros Hdisp He. pose proof Hdisp as [[Hu Hi] _]. rewrite b_imm_eq.
  pose proof (imm_top 13 imm ltac:(lia)) as Hv. pose proof (disp_even 13 imm Hdisp ltac:(lia)).
  destruct (field_bounds bin) as (H1 & _ & _ & _ & H7).
  unfold enc_b in He. apply word_of_inj in He as (-> & H1' & -> & -> & -> & H7'); try dlia.
  split_and!; try done. rewrite <- (sign_extend_field 13 imm) by (done || lia).
  destruct (b_field_ok bin Hbin) as (_ & -> & _). rewrite b_field_eq by done. cbv zeta.
  rewrite <- H1', <- H7'. f_equal; dlia.
Qed.
End Formats.

(** The equation of an encoding with a canonical word, field by field. *)
Ltac same_fields :=
  repeat match goal with
  | He : word_of _ _ _ _ _ _ = word_of _ _ _ _ _ _ |- _ =>
      apply word_of_inj in He; [destruct He as (? & ? & ? & ? & ? & ?)|lia..]
  end.

Lemma decode_by_fields bin op :
  mask_lower bin 6 = op -> 0 < op ->
  decode_from bin
  = decode_opcode bin op (extract bin 7 11) (extract bin 12 14) (extract bin 15 19)
      (extract bin 20 24) (extract bin 25 31) (extract bin 20 31) (at_ bin 31).
Proof.
  intros Hop Hpos. unfold decode_from. destruct (Z.eqb_spec bin 0) as [->|_].
  - vm_compute in Hop. lia.
  - by rewrite Hop.
Qed.

Ltac ignored_open bin Hi He :=
  unfold canonical, canonical_fields in He; cbn [encode encode_f kept keep] in He;
  cbn [instr_ok finstr_ok] in Hi; unfold reg_ok, freg_ok in *;
  pose proof (field_bounds bin) as (Hd & H3 & H1 & H2 & H7);
  pose proof (mask_lower_bound bin) as Hop; destruct_and?.

Ltac ignored_run :=
  erewrite decode_by_fields by (done || lia);
  repeat match goal with Heq : _ = extract _ _ _ |- _ => rewrite <- Heq end; run_decode.

Lemma decode_io_backward io bin :
  let i := InstrIO io in
  u32_ok bin -> instr_ok i -> encode i = canonical i bin -> decode_from bin = Ok i.
Proof.
  intros i Hbin Hi He. unfold i in *. destruct io; ignored_open bin Hi He; same_fields; ignored_run; done.
Qed.
Lemma decode_f_backward f :
  let i := InstrF f in
  forall bin, u32_ok bin -> instr_ok i -> encode i = canonical i bin -> decode_from bin = Ok i.
Proof.
  intros i bin Hbin Hi He. unfold i in *.
  assert (kept (InstrF f) = (true, true, true, true, true) -> decode_from bin = Ok (InstrF f)) as Hfull.
  { intros Hk. rewrite canonical_full in He by done. rewrite <- He. by apply decode_encode_all. }
  destruct f as [op rd rs1 rs2|[]|[] rd rs1|[] rd rs1 rs2|[] rd rs1|[] rd rs1|op rs1 rs2 imm
    |[] rs1 imm|rd rs1 imm|rs2 rs1 imm]; try (by apply Hfull); clear Hfull; ignored_open bin Hi He.
  1-8: cbn [h_funct] in He; same_fields; ignored_run; done.
  - apply enc_b_inv in He as (? & ? & ? & _ & Himm); try lia; try done. ignored_run. by rewrite Himm.
  - apply enc_b_inv in He as (? & ? & ? & _ & Himm); try lia; try done. ignored_run. by rewrite Himm.
  - apply enc_i_inv in He as (? & ? & _ & ? & Himm); try lia; try done. ignored_run. by rewrite Himm.
  - apply enc_s_inv in He as (? & _ & ? & ? & Himm); try lia; try done. ignored_run. by rewrite Himm.
Qed.

Lemma decode_from_backward bin i :
  u32_ok bin -> instr_ok i -> encode i = canonical i bin -> decode_from bin = Ok i.
Proof.
  intros Hbin Hi He. destruct i as [| | | | | |io|f|];
    try (rewrite canonical_full in He by done; rewrite <- He; by apply decode_encode_all).
  - by apply decode_io_backward.
  - by apply decode_f_backward.
Qed.

Lemma decode_from_spec bin : u32_ok bin -> decode_spec bin (decode_from bin).
Proof.
  intros Hbin. pose proof (decode_from_sound bin Hbin) as Hs.
  assert (~ is_ok (decode_from bin) -> forall i, instr_ok i -> encode i <> canonical i bin) as Hno.
  { intros Hnok i Hi He. apply Hnok. by rewrite (decode_from_backward bin i). }
  destruct (decode_from bin) as [i|e|p] eqn:Hd; simpl in *.
  - split; [done|]. by apply decode_from_forward.
  - split; [done|]. apply Hno. tauto.
  - destruct Hs. split_and!; [done..|]. apply Hno. tauto.
Qed.
End Exact.


(** ** The property *)

Section Property.
Context `{Profile}.

(** C7: The decoder is exact on every 32-bit word: it decodes the words that, up to the fields
    the instruction ignores, encode a well-formed instruction, and returns that
    instruction; every other word is reported as invalid, with the word, except
    the words with the opcode of the float operations, a nonzero [funct3] and
    another [funct7] than [0x51], which all panic at the assertion of the
    comparisons. *)
Theorem decode_from_exact bin :
  u32_ok bin ->
  decode_spec bin (decode_from bin) /\
  (decode_from bin = Panic AssertFailed <-> assert_word bin = true).
Proof.
  intros Hbin. pose proof (decode_from_spec bin Hbin) as Hs. split; [exact Hs|]. split.
  - intros Hp. rewrite Hp in Hs. by destruct Hs as (_ & Ha & _).
  - by apply decode_from_assert.
Qed.
End Property.

Section Witness.
#[local] Existing Instance debug_profile.

(** [fsqrt] ignores its [rs2] field. *)
Lemma decode_from_exact_witness :
  encode (InstrF (FH Fsqrt (mkFRegId 3) (mkFRegId 4)))
  = canonical (InstrF (FH Fsqrt (mkFRegId 3) (mkFRegId 4))) 0x20F201D3.
Proof.
  assert (u32_ok 0x20F201D3) as Hu by (by apply (bool_decide_unpack _)).
  destruct (decode_from_exact 0x20F201D3 Hu) as [[_ He] _]. exact He.
Defined.
End Witness.
