(* ===== verification/Common.v ===== *)
(** * Shared data types ([core_sim/src/common.rs], [breakpoint.rs] and the
    address types of [memory.rs]) *)
From S2P Require Import Prelude Word Ty Register.

(** ** Program counter and addresses *)

Record Pc := mkPc { pc_val : Z }.
Record Addr := mkAddr { addr_val : Z }.

#[export] Instance Pc_eq_dec : EqDecision Pc.
Proof. solve_decision. Defined.
#[export] Instance Addr_eq_dec : EqDecision Addr.
Proof. solve_decision. Defined.
#[export] Instance Addr_countable : Countable Addr.
Proof. apply (inj_countable' addr_val mkAddr). by intros []. Defined.

(** [Pc::incr] is [self.0 += 4] on a [u32]. *)
Definition pc_incr `{Profile} {E} (p : Pc) : outcome E Pc := mkPc <$> add_u32 (pc_val p) 4.
Definition pc_into_addr (p : Pc) : Addr := mkAddr (pc_val p).

(** ** Memory regions *)

Inductive MemoryRegion := DataSection | Heap | Stack.

#[export] Instance MemoryRegion_eq_dec : EqDecision MemoryRegion.
Proof. solve_decision. Defined.

(** ** Spies *)

Record SpyUnit := mkSpyUnit { spy_addr : Z; expire_at : option Z }.

(** A set of the flags [Read] and [Write], seen through [contains]. *)
Record SpyWatchKind := mkWatch { contains_read : bool; contains_write : bool }.

Inductive SpyKind :=
  | SpyMemory (u : SpyUnit)
  | SpyRegisterI (r : RegId)
  | SpyRegisterF (r : FRegId).

Record Spy := mkSpy { spy_watch : SpyWatchKind; spy_target : SpyKind }.

(** [SpyKind::ty] *)
Definition spy_kind_ty (k : SpyKind) : Ty :=
  match k with SpyMemory _ => Unknown | SpyRegisterI i => reg_ty i | SpyRegisterF _ => F32 end.

Inductive SpyWatchResultKind :=
  | SpyRead
  | SpyWrite (before after : TypedU32).

Record SpyResult := mkSpyResult { spied_kind : SpyWatchResultKind; spied_target : SpyKind }.

(** [ShowRegFileKind] of reg_file.rs *)
Inductive ShowRegFileKind := RegFileAll | RegFileI | RegFileF.

(** ** Breakpoints and simulation options *)

Inductive OrdChainKind := Less | Greater.
Inductive OrdOpKind := OpEq | OpWeak | OpStrong.

(** An [f32] is its bit pattern. *)
Inductive BreakPointExpr :=
  | BpInt (x : Z)
  | BpFloat (x : Z)
  | BpReg (r : RegId)
  | BpFReg (r : FRegId)
  | BpMem (a : Addr).

Inductive BreakPointExprTy := BpTyInt | BpTyFloat | BpTyNone.

(** [BreakPointExpr::ty] *)
Definition bp_expr_ty (e : BreakPointExpr) : BreakPointExprTy :=
  match e with
  | BpInt _ | BpReg _ => BpTyInt
  | BpFloat _ | BpFReg _ => BpTyFloat
  | BpMem _ => BpTyNone
  end.

Record OrdChain := mkOrdChain {
  chain_kind : OrdChainKind;
  chain_head : BreakPointExpr;
  chain_tail : list (OrdOpKind * BreakPointExpr)
}.

Inductive BreakPointCond :=
  | CondOrdChain (c : OrdChain)
  | CondNotEq (e1 e2 : BreakPointExpr)
  | CondNeg (c : BreakPointCond)
  | CondConj (cs : list BreakPointCond)
  | CondDisj (cs : list BreakPointCond).

(** [OrdOpKind::str] *)
Definition ord_op_str (op : OrdOpKind) (k : OrdChainKind) : string :=
  match k, op with
  | Less, OpEq => "=="
  | Less, OpWeak => "<="
  | Less, OpStrong => "<"
  | Greater, OpEq => "=="
  | Greater, OpWeak => ">="
  | Greater, OpStrong => ">"
  end.

Record BreakPoint := mkBreakPoint { bp_addr : Addr; bp_cond : option BreakPointCond }.

(** [BreakPoint::new] *)
Definition breakpoint_new (a : Addr) : BreakPoint := mkBreakPoint a None.

Record RunStep := mkRunStep { step : option Z }.
Definition get_step (r : RunStep) : Z := default 1 (step r).

Inductive ExecuteMode :=
  | Run
  | SkipUntil (pc : Addr)
  | RunSteps (r : RunStep).

Record Watchings := mkWatchings {
  watch_reg : list RegId;
  watch_freg : list FRegId;
  watch_memory : list Addr
}.

Record SimulationOption := mkOption {
  do_trace : bool;
  mode : ExecuteMode;
  breakpoints : gmap Addr BreakPoint;
  watchings : Watchings
}.

Definition default_option : SimulationOption := mkOption false Run ∅ (mkWatchings [] [] []).

Section PcFacts.
Context `{Profile}.

Lemma pc_incr_small {E} p : pc_val p + 4 < 2 ^ 32 -> pc_incr (E:=E) p = Ok (mkPc (pc_val p + 4)).
Proof. intros. unfold pc_incr, add_u32. by destruct (Z.ltb_spec (pc_val p + 4) (2 ^ 32)); [|lia]. Qed.
End PcFacts.
