(* ===== verification/RegFile.v ===== *)
(** * The register file ([core_sim/src/reg_file.rs])

    Both files of registers (32 of each kind, or 64: [RegCount]) with their access
    counters, and the statistics builder of the memory regions.  In the source the builder is an
    [Rc<RefCell<..>>] shared between the register file, which lowers the stack
    minimum on every write of [sp], and the memory, which classifies each access
    with it.  Here the shared cell is held once, by the machine, and the
    operations that borrow it take it as a part of their state. *)
From S2P Require Import Prelude Word Vec Ty Register Common.

(** ** Memory regions *)

Record MemoryRegionStatBuilder := mkRegion { hp_min : Z; sp_min : Z; sp_max : Z }.

Definition region_default : MemoryRegionStatBuilder := mkRegion 0 0 0.

(** [MemoryRegionStatBuilder::init] *)
Definition region_init (hp_min sp_max : Z) : MemoryRegionStatBuilder :=
  mkRegion hp_min sp_max sp_max.

Definition update_sp (v : Z) (r : MemoryRegionStatBuilder) : MemoryRegionStatBuilder :=
  if v <? sp_min r then mkRegion (hp_min r) v (sp_max r) else r.

Record MemoryRegionStat := mkRegionStat {
  st_hp_min : Z; st_hp_max : Z; st_sp_min : Z; st_sp_max : Z
}.
Definition region_finish (hp_max : Z) (r : MemoryRegionStatBuilder) : MemoryRegionStat :=
  mkRegionStat (hp_min r) hp_max (sp_min r) (sp_max r).

(** [get_region]: the stack is taken to start 1000 words below the lowest [sp]
    seen so far; the subtraction is on [u32]. *)
Definition get_region `{Profile} {E} (addr : Z) (r : MemoryRegionStatBuilder)
    : outcome E MemoryRegion :=
  if addr <? hp_min r then Ok DataSection
  else
    limit ← sub_u32 (sp_min r) 1000;
    if limit <=? addr then Ok Stack else Ok Heap.

(** ** The number of registers

    [MAX_REG_ID], of each kind: 32, or 64 with the second instruction set.  The
    register file is written for both. *)
Class RegCount := { reg_count : Z; reg_count_min : 4 < reg_count }.
#[export] Instance first_reg_count : RegCount := {| reg_count := MAX_REG_ID; reg_count_min := eq_refl |}.

(** ** Access counters

    Event counters are [usize] in the source; they are unbounded here. *)

Record RegFileStat := mkRegFileStat { st_write : vec Z; st_read : vec Z }.

Definition regfilestat_new `{RegCount} : RegFileStat := mkRegFileStat (vnew 0 reg_count) (vnew 0 reg_count).

Definition encounter_write {E} (id : Z) (s : RegFileStat) : outcome E RegFileStat :=
  n ← vget (st_write s) id;
  w ← vset id (n + 1) (st_write s);
  mret (mkRegFileStat w (st_read s)).

Definition encounter_read {E} (id : Z) (s : RegFileStat) : outcome E RegFileStat :=
  n ← vget (st_read s) id;
  r ← vset id (n + 1) (st_read s);
  mret (mkRegFileStat (st_write s) r).

(** ** The register file *)

Record RegFile := mkRegFile {
  rf_inner : vec Z;
  rf_inner_f : vec Z;
  stat_i : RegFileStat;
  stat_f : RegFileStat
}.

Definition regfile_new `{RegCount} : RegFile :=
  mkRegFile (vnew 0 reg_count) (vnew 0 reg_count) regfilestat_new regfilestat_new.

Definition with_inner (v : vec Z) (rf : RegFile) : RegFile :=
  mkRegFile v (rf_inner_f rf) (stat_i rf) (stat_f rf).
Definition with_inner_f (v : vec Z) (rf : RegFile) : RegFile :=
  mkRegFile (rf_inner rf) v (stat_i rf) (stat_f rf).
Definition with_stat_i (s : RegFileStat) (rf : RegFile) : RegFile :=
  mkRegFile (rf_inner rf) (rf_inner_f rf) s (stat_f rf).
Definition with_stat_f (s : RegFileStat) (rf : RegFile) : RegFile :=
  mkRegFile (rf_inner rf) (rf_inner_f rf) (stat_i rf) s.

Section Ops.
Context {E : Type}.

(** [RegFile::get] counts the read, then indexes. *)
Definition get (id : RegId) : ST RegFile E Z :=
  rf ← gets (fun rf => rf);
  st ← lift (encounter_read (inner id) (stat_i rf));
  _ ← modify (with_stat_i st);
  lift (vget (rf_inner rf) (inner id)).

Definition get_f (id : FRegId) : ST RegFile E Z :=
  rf ← gets (fun rf => rf);
  st ← lift (encounter_read (f_inner id) (stat_f rf));
  _ ← modify (with_stat_f st);
  lift (vget (rf_inner_f rf) (f_inner id)).

Definition set_sp (v : Z) (rf : RegFile) : RegFile := with_inner (vput 2 v (rf_inner rf)) rf.
Definition set_hp (v : Z) (rf : RegFile) : RegFile := with_inner (vput 4 v (rf_inner rf)) rf.

(** [RegFile::set] counts the write, lets the shared cell see a new [sp], and
    ignores the value when the register is [zero]. *)
Definition set (id : RegId) (val : Z) : ST (RegFile * MemoryRegionStatBuilder) E () :=
  rf ← gets fst;
  st ← lift (encounter_write (inner id) (stat_i rf));
  _ ← modify (prod_map (with_stat_i st) (fun r => r));
  _ ← (if inner id =? 2 then modify (prod_map (fun rf => rf) (update_sp val)) else mret ());
  if negb (inner id =? 0) then
    v ← lift (vset (inner id) val (rf_inner rf));
    modify (prod_map (with_inner v) (fun r => r))
  else mret ().

Definition set_f (id : FRegId) (val : Z) : ST RegFile E () :=
  rf ← gets (fun rf => rf);
  st ← lift (encounter_write (f_inner id) (stat_f rf));
  _ ← modify (with_stat_f st);
  if negb (f_inner id =? 0) then
    v ← lift (vset (f_inner id) val (rf_inner_f rf));
    modify (with_inner_f v)
  else mret ().

(** [RegFile::end_init] *)
Definition end_init (rf : RegFile) : MemoryRegionStatBuilder :=
  region_init (vcell (rf_inner rf) 4) (vcell (rf_inner rf) 2).
End Ops.

(** ** Well-formedness *)

Definition regfilestat_ok `{RegCount} (s : RegFileStat) : Prop :=
  vlen (st_write s) = reg_count /\ vlen (st_read s) = reg_count.

(** Both files have a word for every register, and their register 0 holds zero. *)
Record regfile_ok `{RegCount} (rf : RegFile) : Prop := {
  rf_len : vlen (rf_inner rf) = reg_count;
  rf_len_f : vlen (rf_inner_f rf) = reg_count;
  rf_words : forall i, u32_ok (vcell (rf_inner rf) i);
  rf_words_f : forall i, u32_ok (vcell (rf_inner_f rf) i);
  rf_zero : vcell (rf_inner rf) 0 = 0;
  rf_zero_f : vcell (rf_inner_f rf) 0 = 0;
  rf_stat_i : regfilestat_ok (stat_i rf);
  rf_stat_f : regfilestat_ok (stat_f rf)
}.

(** The register exists. *)
Definition reg_in `{RegCount} (r : RegId) : Prop := 0 <= inner r < reg_count.
Definition freg_in `{RegCount} (r : FRegId) : Prop := 0 <= f_inner r < reg_count.

(** The values the registers hold, without the counters. *)
Definition regs_of (rf : RegFile) : vec Z * vec Z := (rf_inner rf, rf_inner_f rf).

(** The functional content of a write: register 0 ignores it. *)
Definition wr_reg (id v : Z) (regs : vec Z) : vec Z := if id =? 0 then regs else vput id v regs.

#[global] Arguments encounter_read : simpl never.
#[global] Arguments encounter_write : simpl never.

Lemma regfile_new_ok `{RegCount} : regfile_ok regfile_new.
Proof. split; intros; cbn; by try split. Qed.

Section Facts.
Context `{RegCount} {E : Type}.

Lemma encounter_read_ok id s :
  regfilestat_ok s -> 0 <= id < reg_count ->
  exists s', encounter_read (E:=E) id s = Ok s' /\ regfilestat_ok s' /\
    st_write s' = st_write s /\ st_read s' = vput id (vcell (st_read s) id + 1) (st_read s).
Proof.
  intros [Hw Hr] Hid. unfold encounter_read. rewrite vget_ok by lia. simpl.
  rewrite vset_ok by lia. simpl. eexists. by split_and!.
Qed.

Lemma encounter_write_ok id s :
  regfilestat_ok s -> 0 <= id < reg_count ->
  exists s', encounter_write (E:=E) id s = Ok s' /\ regfilestat_ok s' /\
    st_read s' = st_read s /\ st_write s' = vput id (vcell (st_write s) id + 1) (st_write s).
Proof.
  intros [Hw Hr] Hid. unfold encounter_write. rewrite vget_ok by lia. simpl.
  rewrite vset_ok by lia. simpl. eexists. by split_and!.
Qed.

Lemma wr_reg_words id v regs :
  (forall i, u32_ok (vcell regs i)) -> u32_ok v -> forall i, u32_ok (vcell (wr_reg id v regs) i).
Proof.
  intros Hr Hv i. unfold wr_reg. destruct (Z.eqb_spec id 0); [done|].
  destruct (decide (id = i)) as [->|].
  - by rewrite vcell_vput_eq.
  - by rewrite vcell_vput_ne.
Qed.

Lemma wr_reg_zero id v regs : vcell (wr_reg id v regs) 0 = vcell regs 0.
Proof.
  unfold wr_reg. destruct (Z.eqb_spec id 0); [done|]. by rewrite vcell_vput_ne.
Qed.

Lemma wr_reg_len id v regs : vlen (wr_reg id v regs) = vlen regs.
Proof. unfold wr_reg. by destruct (id =? 0). Qed.

(** Reading a register returns its value and changes only a counter. *)
Lemma get_wp id rf (Q : outcome E Z -> RegFile -> Prop) :
  regfile_ok rf -> reg_in id ->
  (forall rf', regfile_ok rf' -> regs_of rf' = regs_of rf ->
     Q (Ok (vcell (rf_inner rf) (inner id))) rf') ->
  wp (get id) Q rf.
Proof.
  intros Hok Hid HQ.
  destruct (encounter_read_ok (inner id) (stat_i rf) (rf_stat_i _ Hok) Hid) as (s' & Hs & Hs' & _).
  unfold get. st_run. rewrite Hs. cbn. rewrite vget_ok by (rewrite (rf_len _ Hok); done).
  apply HQ; [|done]. destruct Hok. by split.
Qed.

Lemma get_f_wp id rf (Q : outcome E Z -> RegFile -> Prop) :
  regfile_ok rf -> freg_in id ->
  (forall rf', regfile_ok rf' -> regs_of rf' = regs_of rf ->
     Q (Ok (vcell (rf_inner_f rf) (f_inner id))) rf') ->
  wp (get_f id) Q rf.
Proof.
  intros Hok Hid HQ.
  destruct (encounter_read_ok (f_inner id) (stat_f rf) (rf_stat_f _ Hok) Hid) as (s' & Hs & Hs' & _).
  unfold get_f. st_run. rewrite Hs. cbn. rewrite vget_ok by (rewrite (rf_len_f _ Hok); done).
  apply HQ; [|done]. destruct Hok. by split.
Qed.

(** Writing a register. *)
Lemma set_wp id v rf r (Q : outcome E () -> RegFile * MemoryRegionStatBuilder -> Prop) :
  regfile_ok rf -> reg_in id -> u32_ok v ->
  (forall rf', regfile_ok rf' -> regs_of rf' = (wr_reg (inner id) v (rf_inner rf), rf_inner_f rf) ->
     Q (Ok ()) (rf', if inner id =? 2 then update_sp v r else r)) ->
  wp (set id v) Q (rf, r).
Proof.
  intros Hok Hid Hv HQ.
  destruct (encounter_write_ok (inner id) (stat_i rf) (rf_stat_i _ Hok) Hid) as (s' & Hs & Hs' & _).
  set (regs := wr_reg (inner id) v (rf_inner rf)).
  assert (regfile_ok (with_inner regs (with_stat_i s' rf))) as Hok'.
  { destruct Hok. split; try done; unfold regs; simpl.
    - by rewrite wr_reg_len.
    - by apply wr_reg_words.
    - by rewrite wr_reg_zero. }
  specialize (HQ _ Hok' eq_refl). unfold set, regs, wr_reg in *. st_run. rewrite Hs. cbn.
  destruct (inner id =? 2); cbn; destruct (inner id =? 0); cbn; try done;
    rewrite vset_ok by (rewrite (rf_len _ Hok); done); done.
Qed.

Lemma set_f_wp id v rf (Q : outcome E () -> RegFile -> Prop) :
  regfile_ok rf -> freg_in id -> u32_ok v ->
  (forall rf', regfile_ok rf' -> regs_of rf' = (rf_inner rf, wr_reg (f_inner id) v (rf_inner_f rf)) ->
     Q (Ok ()) rf') ->
  wp (set_f id v) Q rf.
Proof.
  intros Hok Hid Hv HQ.
  destruct (encounter_write_ok (f_inner id) (stat_f rf) (rf_stat_f _ Hok) Hid) as (s' & Hs & Hs' & _).
  set (regs := wr_reg (f_inner id) v (rf_inner_f rf)).
  assert (regfile_ok (with_inner_f regs (with_stat_f s' rf))) as Hok'.
  { destruct Hok. split; try done; unfold regs; simpl.
    - by rewrite wr_reg_len.
    - by apply wr_reg_words.
    - by rewrite wr_reg_zero. }
  specialize (HQ _ Hok' eq_refl). unfold set_f, regs, wr_reg in *. st_run. rewrite Hs. cbn.
  destruct (f_inner id =? 0); cbn; [by destruct rf|].
  rewrite vset_ok by (rewrite (rf_len_f _ Hok); done). done.
Qed.

Lemma get_value id rf :
  regfile_ok rf -> reg_in id -> (get (E:=E) id rf).1 = Ok (vcell (rf_inner rf) (inner id)).
Proof. intros Hok Hid. by apply (get_wp id rf (fun o _ => o = Ok (vcell (rf_inner rf) (inner id)))). Qed.

Lemma get_f_value id rf :
  regfile_ok rf -> freg_in id -> (get_f (E:=E) id rf).1 = Ok (vcell (rf_inner_f rf) (f_inner id)).
Proof. intros Hok Hid. by apply (get_f_wp id rf (fun o _ => o = Ok (vcell (rf_inner_f rf) (f_inner id)))). Qed.
End Facts.

(** ** The property of the register file *)

(** C23: A write is seen by every later read: after [set], which never fails, the written
    register reads as the new value, or still as zero when it is [zero]; every
    other integer register and every float register reads as before, and the
    shared stack minimum follows [sp] down. *)
Theorem reg_set_then_get `{RegCount} {E E'} id v rf r :
  regfile_ok rf -> reg_in id -> u32_ok v ->
  wp (set (E:=E) id v) (fun o s =>
    o = Ok () /\ regfile_ok s.1 /\
    sp_min s.2 = (if inner id =? 2 then Z.min v (sp_min r) else sp_min r) /\
    (forall id', reg_in id' -> (get (E:=E') id' s.1).1 =
      if decide (inner id' = inner id /\ is_zero id' = false) then Ok v else (get id' rf).1) /\
    (forall id', freg_in id' -> (get_f (E:=E') id' s.1).1 = (get_f id' rf).1) /\
    (get (E:=E') (mkRegId 0) s.1).1 = Ok 0) (rf, r).
Proof.
  intros Hok Hid Hv. apply set_wp; [done..|]. intros rf' Hok' Hregs. injection Hregs as Hi Hf.
  split; [done|]. split; [done|]. split_and!.
  - simpl. destruct (inner id =? 2); [|done]. unfold update_sp.
    destruct (Z.ltb_spec v (sp_min r)); simpl; lia.
  - intros id' Hid'. rewrite !get_value by done. simpl. rewrite Hi. unfold wr_reg, is_zero, inner.
    destruct (Z.eqb_spec (reg_no id) 0), (decide _) as [[Heq Hnz]|Hne]; try lia; try done.
    + by rewrite Heq, vcell_vput_eq.
    + destruct (decide (reg_no id = reg_no id')) as [Heq|]; [|by rewrite vcell_vput_ne].
      destruct Hne. split; [done|]. lia.
  - intros id' Hid'. rewrite !get_f_value by done. simpl. by rewrite Hf.
  - rewrite get_value; [|done|]; simpl; [by rewrite (rf_zero _ Hok')|].
    unfold reg_in in *. simpl. lia.
Qed.

Lemma reg_set_then_get_witness :
  (set (E:=never) (mkRegId 2) 64 (regfile_new, region_init 0 4096)).1 = Ok ().
Proof.
  destruct (reg_set_then_get (E:=never) (E':=never) (mkRegId 2) 64 regfile_new (region_init 0 4096)
    regfile_new_ok) as [Hs _]; [split; done|split; done|exact Hs].
Defined.
