(* ===== verification/Cache.v ===== *)
(** * The direct-mapped cache model ([core_sim/src/cache.rs])

    [Cache<NLINES>] keeps one tag per line and reports hits; it holds no data.
    The specification is stated on the history of accesses: an access hits when
    the latest earlier access to its line was to the same block, a line that was
    never accessed being taken to hold the block of tag 0. *)
From S2P Require Import Prelude Word Vec.

Definition CACHE_NUM_LINES : Z := 16384.

Record Cache := mkCache { tags : vec Z }.

Section Cache.
Context (NLINES : Z).

Definition cache_new : Cache := mkCache (vnew 0 NLINES).

Definition line_of (addr : Z) : Z := Z.shiftr addr 2 mod NLINES.
Definition tag_of (addr : Z) : Z := Z.shiftr addr 2 / NLINES.

(** [access_cache]: the tag is compared and stored as a [u32]. *)
Definition access_cache {E} (addr : Z) : ST Cache E bool :=
  if NLINES =? 0 then lift (Panic DivisionByZero) else
  let line := line_of addr in
  let tag := tag_of addr in
  c ← gets (fun c => c);
  old ← lift (vget (tags c) line);
  if negb (old =? wrap32 tag) then
    ts ← lift (vset line (wrap32 tag) (tags c));
    _ ← modify (fun _ => mkCache ts);
    mret false
  else mret true.

(** A sequence of accesses and its hits. *)
Fixpoint access_all {E} (addrs : list Z) : ST Cache E (list bool) :=
  match addrs with
  | [] => mret []
  | a :: addrs => h ← access_cache a; hs ← access_all addrs; mret (h :: hs)
  end.

(** ** Specification *)

(** The tag of the latest access to a line; the history is latest first. *)
Fixpoint last_tag (hist : list Z) (line : Z) : Z :=
  match hist with
  | [] => 0
  | a :: hist => if line_of a =? line then tag_of a else last_tag hist line
  end.

Definition spec_hit (hist : list Z) (a : Z) : bool := last_tag hist (line_of a) =? tag_of a.

Fixpoint spec_hits (hist addrs : list Z) : list bool :=
  match addrs with
  | [] => []
  | a :: addrs => spec_hit hist a :: spec_hits (a :: hist) addrs
  end.

(** ** Refinement *)

Definition cache_ok (c : Cache) : Prop := vlen (tags c) = NLINES.

Definition cache_models (hist : list Z) (c : Cache) : Prop :=
  cache_ok c /\ forall line, 0 <= line < NLINES -> vcell (tags c) line = last_tag hist line.

Context (Hlines : 0 < NLINES).

Lemma cache_new_models : cache_models [] cache_new.
Proof. split; [done|]. intros line _. apply vcell_vnew. Qed.

Lemma line_of_bound a : 0 <= line_of a < NLINES.
Proof. unfold line_of. by apply (Z.mod_pos_bound (a ≫ 2) NLINES). Qed.

Lemma tag_of_bound a : u32_ok a -> u32_ok (tag_of a).
Proof.
  unfold u32_ok, tag_of. intros Ha. rewrite Z.shiftr_div_pow2 by lia.
  assert (0 <= a / 2 ^ 2 < 2 ^ 32) by dlia.
  split; [apply Z.div_pos; lia|]. apply Z.div_lt_upper_bound; nia.
Qed.

(** One access: the result, and the history it leaves. *)
Lemma access_models {E} hist c a :
  cache_models hist c -> u32_ok a ->
  exists c', access_cache (E:=E) a c = (Ok (spec_hit hist a), c') /\ cache_models (a :: hist) c'.
Proof.
  intros [Hlen Hcells] Ha. pose proof (line_of_bound a) as Hl.
  unfold access_cache. destruct (Z.eqb_spec NLINES 0); [lia|].
  st_run. rewrite vget_ok, vset_ok by (rewrite Hlen; done). rewrite Hcells by done.
  rewrite wrap32_small by by apply tag_of_bound.
  unfold spec_hit. destruct (Z.eqb_spec (last_tag hist (line_of a)) (tag_of a)) as [He|Hne]; simpl.
  - eexists. split; [done|]. split; [done|]. intros l Hl'. simpl.
    rewrite Hcells by done. destruct (Z.eqb_spec (line_of a) l) as [<-|]; done.
  - eexists. split; [done|]. split; [done|]. intros l Hl'. simpl.
    destruct (Z.eqb_spec (line_of a) l) as [<-|].
    + apply vcell_vput_eq.
    + rewrite vcell_vput_ne by done. by apply Hcells.
Qed.

Lemma access_all_models {E} addrs hist c :
  cache_models hist c -> Forall u32_ok addrs ->
  exists c', access_all (E:=E) addrs c = (Ok (spec_hits hist addrs), c') /\
             cache_models (rev addrs ++ hist) c'.
Proof.
  intros Hc Hall. revert hist c Hc.
  induction Hall as [|a addrs Ha _ IH]; intros hist c Hc; simpl; [by eexists|].
  destruct (access_models (E:=E) hist c a Hc Ha) as (c1 & H1 & Hc1).
  destruct (IH _ _ Hc1) as (c2 & H2 & Hc2).
  exists c2. rewrite (run_ok _ _ _ _ _ H1), (run_ok _ _ _ _ _ H2).
  by rewrite <- app_assoc.
Qed.

(** An access never fails on a well-formed cache. *)
Lemma access_total {E} c a :
  cache_ok c -> exists h c', access_cache (E:=E) a c = (Ok h, c') /\ cache_ok c'.
Proof.
  intros Hlen. pose proof (line_of_bound a) as Hl.
  unfold access_cache. destruct (Z.eqb_spec NLINES 0); [lia|].
  st_run. rewrite vget_ok, vset_ok by (rewrite Hlen; done).
  destruct (negb _); by do 2 eexists.
Qed.

(** The result of an access is the comparison of the tags. *)
Lemma access_hit {E} c a :
  cache_ok c -> u32_ok a -> (access_cache (E:=E) a c).1 = Ok (vcell (tags c) (line_of a) =? tag_of a).
Proof.
  intros Hlen Ha. pose proof (line_of_bound a) as Hl.
  unfold access_cache. destruct (Z.eqb_spec NLINES 0); [lia|].
  st_run. rewrite vget_ok, vset_ok by (rewrite Hlen; done). rewrite wrap32_small by by apply tag_of_bound.
  by destruct (_ =? _).
Qed.

(** C28: The cache is a direct-mapped cache: on any sequence of accesses from a new cache,
    an access hits if and only if the latest earlier access to its line had the
    same tag; a line that was never accessed counts as holding tag 0. *)
Theorem cache_hits_spec {E} addrs :
  Forall u32_ok addrs ->
  (access_all (E:=E) addrs cache_new).1 = Ok (spec_hits [] addrs).
Proof.
  intros Ha. destruct (access_all_models (E:=E) addrs [] cache_new cache_new_models Ha) as (c' & Hr & _).
  by rewrite Hr.
Qed.
End Cache.

Lemma cache_hits_spec_witness :
  (access_all (E:=never) 4 [4; 4; 64; 4; 1] (cache_new 4)).1 = Ok [true; true; false; true; false].
Proof.
  apply (cache_hits_spec 4 ltac:(lia) [4; 4; 64; 4; 1]). by apply (bool_decide_unpack _).
Defined.
