(* ===== verification/BranchPredictor.v ===== *)
(** * The branch predictor ([core_sim/src/branch_predictor.rs])

    A table of two-bit saturating counters, indexed by address.  The
    specification is a clamped sum over the branch outcomes recorded at the
    addresses that share a counter. *)
From S2P Require Import Prelude Vec.

Definition NUM_COUNTERS : Z := 64.

Inductive SaturatingCounter := StronglyUntaken | WeaklyUntaken | WeaklyTaken | StronglyTaken.

#[export] Instance SaturatingCounter_eq_dec : EqDecision SaturatingCounter.
Proof. solve_decision. Defined.

Definition next (c : SaturatingCounter) : SaturatingCounter :=
  match c with
  | StronglyUntaken => WeaklyUntaken
  | WeaklyUntaken => WeaklyTaken
  | WeaklyTaken => StronglyTaken
  | StronglyTaken => StronglyTaken
  end.

Definition prev (c : SaturatingCounter) : SaturatingCounter :=
  match c with
  | StronglyUntaken => StronglyUntaken
  | WeaklyUntaken => StronglyUntaken
  | WeaklyTaken => WeaklyUntaken
  | StronglyTaken => WeaklyTaken
  end.

Record BranchPredictor := mkPredictor { counters : vec SaturatingCounter }.

Section Predictor.
Context (NCOUNTERS : Z).

Definition predictor_new : BranchPredictor := mkPredictor (vnew WeaklyTaken NCOUNTERS).

(** [addr % NCOUNTERS] *)
Definition counter_index {E} (addr : Z) : outcome E Z :=
  if NCOUNTERS =? 0 then Panic DivisionByZero else Ok (addr mod NCOUNTERS).

Definition predict {E} (addr : Z) (p : BranchPredictor) : outcome E bool :=
  i ← counter_index addr;
  counter_state ← vget (counters p) i;
  mret (bool_decide (counter_state = StronglyTaken) || bool_decide (counter_state = WeaklyTaken)).

Definition update_state {E} (addr : Z) (result : bool) : ST BranchPredictor E () :=
  p ← gets (fun p => p);
  i ← lift (counter_index addr);
  c ← lift (vget (counters p) i);
  v ← lift (vset i (if result then next c else prev c) (counters p));
  modify (fun _ => mkPredictor v).

(** A sequence of recorded branches. *)
Fixpoint update_all {E} (hist : list (Z * bool)) : ST BranchPredictor E () :=
  match hist with
  | [] => mret ()
  | (a, taken) :: hist => _ ← update_state a taken; update_all hist
  end.

(** ** Specification *)

(** A counter is a number from 0 to 3. *)
Definition level (c : SaturatingCounter) : Z :=
  match c with StronglyUntaken => 0 | WeaklyUntaken => 1 | WeaklyTaken => 2 | StronglyTaken => 3 end.

Definition clamp_step (n : Z) (taken : bool) : Z :=
  if taken then Z.min 3 (n + 1) else Z.max 0 (n - 1).

(** The outcomes of a history, oldest first, that share the counter of [addr]. *)
Definition outcomes_at (addr : Z) (hist : list (Z * bool)) : list bool :=
  snd <$> filter (fun e => e.1 mod NCOUNTERS = addr mod NCOUNTERS) hist.

Definition spec_level (addr : Z) (hist : list (Z * bool)) : Z :=
  foldl clamp_step 2 (outcomes_at addr hist).

Definition predictor_ok (p : BranchPredictor) : Prop := vlen (counters p) = NCOUNTERS.

Definition counter_at (p : BranchPredictor) (addr : Z) : SaturatingCounter :=
  vcell (counters p) (addr mod NCOUNTERS).

Lemma level_next c : level (next c) = clamp_step (level c) true.
Proof. by destruct c. Qed.

Lemma level_prev c : level (prev c) = clamp_step (level c) false.
Proof. by destruct c. Qed.

Context (HN : 0 < NCOUNTERS).

Lemma counter_index_ok {E} addr : counter_index (E:=E) addr = Ok (addr mod NCOUNTERS).
Proof. unfold counter_index. by destruct (Z.eqb_spec NCOUNTERS 0); [lia|]. Qed.

Lemma predict_level {E} addr p :
  predictor_ok p -> predict (E:=E) addr p = Ok (2 <=? level (counter_at p addr)).
Proof.
  intros Hp. unfold predict. rewrite counter_index_ok. simpl.
  rewrite vget_ok by (rewrite Hp; apply Z.mod_pos_bound; lia). simpl.
  unfold counter_at. by destruct (vcell _ _).
Qed.

Lemma update_state_ok {E} addr taken p :
  predictor_ok p ->
  exists p', update_state (E:=E) addr taken p = (Ok (), p') /\ predictor_ok p' /\
    forall a, level (counter_at p' a)
              = if decide (addr mod NCOUNTERS = a mod NCOUNTERS)
                then clamp_step (level (counter_at p a)) taken else level (counter_at p a).
Proof.
  intros Hp. pose proof (Z.mod_pos_bound addr NCOUNTERS HN) as Hi.
  unfold update_state. st_run. rewrite counter_index_ok. cbn.
  rewrite vget_ok, vset_ok by (rewrite Hp; done).
  eexists. split_and!; [done|done|]. intros a. unfold counter_at. simpl.
  case_decide as He.
  - rewrite He, vcell_vput_eq. destruct taken; [by rewrite level_next|by rewrite level_prev].
  - by rewrite vcell_vput_ne.
Qed.

Lemma update_all_level {E} hist p :
  predictor_ok p ->
  exists p', update_all (E:=E) hist p = (Ok (), p') /\ predictor_ok p' /\
    forall a, level (counter_at p' a) = foldl clamp_step (level (counter_at p a)) (outcomes_at a hist).
Proof.
  revert p. induction hist as [|[b taken] hist IH]; intros p Hp; simpl; [by exists p|].
  destruct (update_state_ok (E:=E) b taken p Hp) as (p1 & H1 & Hp1 & Hl1).
  destruct (IH p1 Hp1) as (p2 & H2 & Hp2 & Hl2).
  exists p2. rewrite (run_ok _ _ _ _ _ H1). split_and!; [done|done|].
  intros a. rewrite Hl2, Hl1. unfold outcomes_at. rewrite filter_cons. simpl.
  by repeat case_decide.
Qed.

Lemma predictor_new_ok : predictor_ok predictor_new.
Proof. done. Qed.

(** C29: The predictor is a table of saturating counters: after any history, the prediction
    for an address is whether the clamped count of the outcomes recorded at the
    addresses that share its counter, started at weakly taken, is at least 2. *)
Theorem prediction_spec {E} hist addr :
  exists p, update_all (E:=E) hist predictor_new = (Ok (), p) /\
    predict (E:=E) addr p = Ok (2 <=? spec_level addr hist).
Proof.
  destruct (update_all_level (E:=E) hist predictor_new predictor_new_ok) as (p & Hp & Hok & Hl).
  exists p. split; [done|]. rewrite predict_level by done. rewrite Hl. done.
Qed.
End Predictor.

Lemma prediction_spec_witness :
  exists p, update_all (E:=never) 64 [(4, false); (68, false); (8, true)] (predictor_new 64) = (Ok (), p) /\
    predict (E:=never) 64 4 p = Ok false.
Proof. exact (prediction_spec 64 ltac:(lia) [(4, false); (68, false); (8, true)] 4). Defined.
