(* ===== verification/Memory.v ===== *)
(** * The data memory ([core_sim/src/memory.rs])

    A byte array addressed by words, with a protected instruction range, a
    runtime type per word, spies and access counters.  The abstraction is an
    array of typed words: [word_at] and [ty_at]. *)
From S2P Require Import Prelude Word Vec Ty Common RegFile.

Definition RAM_BYTE_SIZE : Z := 1000000.

Inductive MemoryAccessError :=
  | OutOfBounds (accessed_address : Z)
  | PcOutOfBounds (pc_address : Z)
  | ViolateTransmutation (expected attempt : Ty).

#[export] Instance MemoryAccessError_eq_dec : EqDecision MemoryAccessError.
Proof. solve_decision. Defined.

(** ** Access counters *)

Record MemoryRegionCount := mkRegionCount { data_section : Z; heap : Z; stack : Z }.

(** [MemoryRegionCount::incr] *)
Definition region_incr (r : MemoryRegion) (c : MemoryRegionCount) : MemoryRegionCount :=
  match r with
  | DataSection => mkRegionCount (data_section c + 1) (heap c) (stack c)
  | Heap => mkRegionCount (data_section c) (heap c + 1) (stack c)
  | Stack => mkRegionCount (data_section c) (heap c) (stack c + 1)
  end.

Record MemoryStat := mkMemoryStat { ms_write : MemoryRegionCount; ms_read : MemoryRegionCount }.

Definition memorystat_default : MemoryStat :=
  mkMemoryStat (mkRegionCount 0 0 0) (mkRegionCount 0 0 0).

Definition stat_on_write (r : MemoryRegion) (s : MemoryStat) : MemoryStat :=
  mkMemoryStat (region_incr r (ms_write s)) (ms_read s).
Definition stat_on_read (r : MemoryRegion) (s : MemoryStat) : MemoryStat :=
  mkMemoryStat (ms_write s) (region_incr r (ms_read s)).

(** ** The memory *)

(** The spies of [struct Spy], by the address they watch. *)
Record Spy := mkSpy { spy_on_read : gmap Z SpyUnit; spy_on_write : gmap Z SpyUnit }.

Record Memory := mkMemory {
  mem_inner : vec Z;
  instr_start : Z;
  instr_end : Z;
  stat_mem : MemoryStat;
  mem_ty : vec Ty;
  mem_spy : Spy
}.

Definition with_bytes (v : vec Z) (m : Memory) : Memory :=
  mkMemory v (instr_start m) (instr_end m) (stat_mem m) (mem_ty m) (mem_spy m).
Definition with_stat (s : MemoryStat) (m : Memory) : Memory :=
  mkMemory (mem_inner m) (instr_start m) (instr_end m) s (mem_ty m) (mem_spy m).
Definition with_types (t : vec Ty) (m : Memory) : Memory :=
  mkMemory (mem_inner m) (instr_start m) (instr_end m) (stat_mem m) t (mem_spy m).
Definition with_spy (s : Spy) (m : Memory) : Memory :=
  mkMemory (mem_inner m) (instr_start m) (instr_end m) (stat_mem m) (mem_ty m) s.

(** [Range::contains] *)
Definition range_contains (lo hi i : Z) : bool := (lo <=? i) && (i <? hi).

(** [addr << 2] on a [usize] *)
Definition byte_index (addr : Z) : Z := Z.shiftl addr 2 mod 2 ^ 64.

Section Memory.
Context `{Profile} (SIZE : Z).

Definition memory_new : Memory :=
  mkMemory (vnew 0xCC SIZE) 0 0 memorystat_default (vnew Unknown (Z.shiftr SIZE 2)) (mkSpy ∅ ∅).

(** [init_from_slice]: [write_all] fails when the image does not fit. *)
Definition init_from_slice {E} (mem : list Z) (start end_ : Z) : ST Memory E () :=
  m ← gets (fun m => m);
  if SIZE <? Z.of_nat (length mem) then lift (Panic UnwrapFailed)
  else modify (fun m => mkMemory (vput_list 0 mem (mem_inner m)) start end_ (stat_mem m)
                          (mem_ty m) (mem_spy m)).

Definition add_spy (k : SpyWatchKind) (u : SpyUnit) (m : Memory) : Memory :=
  let s := mem_spy m in
  let r := if contains_read k then <[spy_addr u := u]> (spy_on_read s) else spy_on_read s in
  let w := if contains_write k then <[spy_addr u := u]> (spy_on_write s) else spy_on_write s in
  with_spy (mkSpy r w) m.

Definition remove_spy (k : SpyWatchKind) (u : SpyUnit) (m : Memory) : Memory :=
  let s := mem_spy m in
  let r := if contains_read k then delete (spy_addr u) (spy_on_read s) else spy_on_read s in
  let w := if contains_write k then delete (spy_addr u) (spy_on_write s) else spy_on_write s in
  with_spy (mkSpy r w) m.

(** The four bytes [inner[addr..4 + addr]], in little-endian order. *)
Definition get_raw_addr {E} (addr : Z) (m : Memory) : outcome E Z :=
  let v := mem_inner m in
  if (0 <=? addr) && (addr + 4 <=? vlen v) then
    Ok (from_le_bytes (vcell v addr) (vcell v (addr + 1)) (vcell v (addr + 2)) (vcell v (addr + 3)))
  else Panic SliceOutOfBounds.

(** The memory, and the slot that an access reports a spy hit in. *)
Definition MemST : Type -> Type := ST (Memory * option SpyResult) MemoryAccessError.

Definition bounds_check (addr : Z) : MemST () :=
  m ← gets fst;
  let index := byte_index addr in
  if (SIZE <=? index) || range_contains (instr_start m) (instr_end m) index
  then throw (OutOfBounds addr) else mret ().

Definition unify (addr : Z) (attempt : Ty) : MemST Ty :=
  m ← gets fst;
  t ← lift (vget (mem_ty m) addr);
  if ty_lt t attempt then
    ts ← lift (vset addr attempt (mem_ty m));
    _ ← modify (prod_map (with_types ts) id);
    mret attempt
  else if ty_ge t attempt then mret t
  else throw (ViolateTransmutation t attempt).

(** The shared region cell is read here. *)
Definition on_read (region : MemoryRegionStatBuilder) (addr : Z) : MemST () :=
  r ← lift (get_region (wrap32 addr) region);
  _ ← modify (prod_map (fun m => with_stat (stat_on_read r (stat_mem m)) m) id);
  m ← gets fst;
  match spy_on_read (mem_spy m) !! addr with
  | Some spy => modify (prod_map id (fun _ => Some (mkSpyResult SpyRead (SpyMemory spy))))
  | None => mret ()
  end.

Definition on_write (region : MemoryRegionStatBuilder) (addr : Z) (val : TypedU32) : MemST () :=
  r ← lift (get_region (wrap32 addr) region);
  _ ← modify (prod_map (fun m => with_stat (stat_on_write r (stat_mem m)) m) id);
  m ← gets fst;
  match spy_on_write (mem_spy m) !! addr with
  | Some spy =>
      raw ← lift (get_raw_addr (byte_index addr) m);
      t ← lift (vget (mem_ty m) addr);
      modify (prod_map id (fun _ =>
        Some (mkSpyResult (SpyWrite (typed raw t) val) (SpyMemory spy))))
  | None => mret ()
  end.

(** [type_check!(self[addr]: ?)] unwraps the unification. *)
Definition unify_unwrap (addr : Z) : MemST Ty := fun s =>
  match unify addr Unknown s with
  | (Err _, s') => (Panic UnwrapFailed, s')
  | r => r
  end.

Definition raw_word (addr : Z) : MemST Z :=
  m ← gets fst; lift (get_raw_addr (byte_index addr) m).

(** [Memory::get] *)
Definition mem_get (region : MemoryRegionStatBuilder) (addr : Z) : MemST TypedU32 :=
  _ ← bounds_check addr;
  t ← unify_unwrap addr;
  _ ← on_read region addr;
  w ← raw_word addr;
  mret (typed w t).

Definition mem_get_i (region : MemoryRegionStatBuilder) (addr : Z) : MemST TypedU32 :=
  _ ← bounds_check addr;
  t ← unify addr I32OrUsize;
  _ ← on_read region addr;
  w ← raw_word addr;
  mret (typed w t).

(** [Memory::get_f]; an [f32] is its bit pattern. *)
Definition mem_get_f (region : MemoryRegionStatBuilder) (addr : Z) : MemST Z :=
  _ ← bounds_check addr;
  _ ← unify addr F32;
  _ ← on_read region addr;
  raw_word addr.

Definition get_from_pc (pc : Pc) (m : Memory) : outcome MemoryAccessError Z :=
  if range_contains (instr_start m) (instr_end m) (pc_val pc) then get_raw_addr (pc_val pc) m
  else Err (PcOutOfBounds (pc_val pc)).

Definition reset_type (addr : Z) (t : Ty) : MemST () :=
  m ← gets fst;
  ts ← lift (vset addr t (mem_ty m));
  modify (prod_map (with_types ts) id).

Definition put_word (addr val : Z) : MemST () :=
  m ← gets fst;
  v ← lift (vset_slice (byte_index addr) (to_le_bytes val) (mem_inner m));
  modify (prod_map (with_bytes v) id).

(** [Memory::set] *)
Definition mem_set (region : MemoryRegionStatBuilder) (addr val : Z) : MemST () :=
  _ ← bounds_check addr;
  _ ← on_write region addr (typed val I32OrUsize);
  _ ← reset_type addr I32OrUsize;
  put_word addr val.

(** [Memory::set_f] *)
Definition mem_set_f (region : MemoryRegionStatBuilder) (addr val : Z) : MemST () :=
  _ ← bounds_check addr;
  _ ← on_write region addr (typed val F32);
  _ ← reset_type addr F32;
  put_word addr val.
End Memory.

(** ** The abstraction: an array of typed words *)

Definition word_at (m : Memory) (a : Z) : Z :=
  let v := mem_inner m in
  from_le_bytes (vcell v (4 * a)) (vcell v (4 * a + 1)) (vcell v (4 * a + 2)) (vcell v (4 * a + 3)).

Definition ty_at (m : Memory) (a : Z) : Ty := vcell (mem_ty m) a.

(** The statistics do not panic: with overflow checks, [sp_min - 1000] must not
    underflow. *)
Definition region_safe `{Profile} (r : MemoryRegionStatBuilder) : Prop :=
  overflow_checks = true -> 1000 <= sp_min r.

(** The statistics of an access to word [a] overflow: only a debug build checks
    the subtraction, and only from the heap start on is it made. *)
Definition underflows `{Profile} (r : MemoryRegionStatBuilder) (a : Z) : bool :=
  overflow_checks && (hp_min r <=? a) && (sp_min r <? 1000).

Lemma safe_underflows `{Profile} r a : region_safe r -> underflows r a = false.
Proof.
  unfold region_safe, underflows. intros Hr. destruct overflow_checks; [|done].
  specialize (Hr eq_refl). destruct (Z.ltb_spec (sp_min r) 1000); [lia|]. by rewrite andb_false_r.
Qed.

(** The parts of a memory that no access changes. *)
Definition same_layout (m m' : Memory) : Prop :=
  instr_start m' = instr_start m /\ instr_end m' = instr_end m /\ mem_spy m' = mem_spy m.

(** The least upper bound of two types in the precision order, when there is one. *)
Definition ty_lub (a b : Ty) : option Ty :=
  if decide (ty_le a b) then Some b else if decide (ty_le b a) then Some a else None.

Lemma ty_lub_upper a b c : ty_lub a b = Some c -> ty_le a c /\ ty_le b c.
Proof.
  unfold ty_lub. repeat case_decide; intros; simplify_eq; split; try done; reflexivity.
Qed.

Lemma ty_lub_least a b c d : ty_lub a b = Some c -> ty_le a d -> ty_le b d -> ty_le c d.
Proof. unfold ty_lub. repeat case_decide; intros; simplify_eq; done. Qed.

(** Two types that are not comparable have no common refinement. *)
Lemma ty_lub_none a b d : ty_lub a b = None -> ty_le a d -> ty_le b d -> False.
Proof.
  destruct a, b, d; vm_compute; intuition discriminate.
Qed.

Section Facts.
Context `{Profile} (SIZE : Z) (Hsize : 0 <= SIZE < 2 ^ 62) (Haligned : SIZE mod 4 = 0).

Record mem_ok (m : Memory) : Prop := {
  mo_len : vlen (mem_inner m) = SIZE;
  mo_ty : vlen (mem_ty m) = SIZE / 4;
  mo_bytes : forall i, u8_ok (vcell (mem_inner m) i);
  mo_start : instr_start m mod 4 = 0;
  mo_end : instr_end m mod 4 = 0
}.

(** The word addresses that data accesses may use. *)
Definition data_addr (m : Memory) (a : Z) : bool :=
  (4 * a <? SIZE) && negb (range_contains (instr_start m) (instr_end m) (4 * a)).

Definition data_ok (m : Memory) (a : Z) : Prop := 0 <= a /\ data_addr m a = true.

Lemma data_ok_lt m a : data_ok m a -> 0 <= a < SIZE / 4.
Proof.
  intros [H0 H1]. unfold data_addr in H1. apply andb_true_iff in H1 as [H1 _].
  apply Z.ltb_lt in H1. dlia.
Qed.

Lemma byte_index_small a : 0 <= a < 2 ^ 62 -> byte_index a = 4 * a.
Proof. intros. unfold byte_index. rewrite Z.shiftl_mul_pow2, Z.mod_small; lia. Qed.

Lemma word_at_ok m a : mem_ok m -> u32_ok (word_at m a).
Proof. intros Hm. apply from_le_bytes_ok; apply Hm. Qed.

Lemma memory_new_ok : mem_ok (memory_new SIZE).
Proof.
  split; simpl; try done.
  by rewrite Z.shiftr_div_pow2.
Qed.

Lemma same_layout_refl m : same_layout m m.
Proof. done. Qed.

Lemma same_layout_trans m1 m2 m3 : same_layout m1 m2 -> same_layout m2 m3 -> same_layout m1 m3.
Proof. unfold same_layout. intuition congruence. Qed.

Lemma same_layout_data m m' a : same_layout m m' -> data_addr m' a = data_addr m a.
Proof. intros (H1 & H2 & _). unfold data_addr. by rewrite H1, H2. Qed.

(** The classification panics exactly where the subtraction overflows. *)
Lemma get_region_run {E} addr r :
  if underflows r addr then get_region (E:=E) addr r = Panic ArithOverflow
  else exists k, get_region (E:=E) addr r = Ok k.
Proof.
  unfold get_region, sub_u32, underflows.
  destruct (Z.ltb_spec addr (hp_min r)), (Z.leb_spec (hp_min r) addr); try lia;
    rewrite ?andb_true_r, ?andb_false_r; [by eexists|].
  destruct (Z.leb_spec 1000 (sp_min r)), (Z.ltb_spec (sp_min r) 1000); try lia;
    rewrite ?andb_true_r, ?andb_false_r; simpl; [by case_match; eexists|].
  destruct overflow_checks; simpl; [done|by case_match; eexists].
Qed.

(** The two outcomes of the bounds check. *)
Lemma bounds_check_wp a s (Q : outcome MemoryAccessError () -> _ -> Prop) :
  u32_ok a ->
  (data_ok s.1 a -> Q (Ok ()) s) ->
  (data_addr s.1 a = false -> Q (Err (OutOfBounds a)) s) ->
  wp (bounds_check SIZE a) Q s.
Proof.
  unfold u32_ok. intros Ha H1 H2. unfold bounds_check. st_run.
  rewrite byte_index_small by lia. unfold data_ok, data_addr in *.
  destruct (Z.leb_spec SIZE (4 * a)); destruct (Z.ltb_spec (4 * a) SIZE); simpl in *; try lia.
  - by apply H2.
  - destruct (range_contains _ _ _); simpl in *; [by apply H2|]. apply H1. split; [lia|done].
Qed.

(** Unification computes the least upper bound, and fails when there is none. *)
Lemma unify_run a t m sp :
  mem_ok m -> data_ok m a ->
  exists m', unify a t (m, sp) =
    (match ty_lub (ty_at m a) t with
     | Some u => Ok u
     | None => Err (ViolateTransmutation (ty_at m a) t)
     end, (m', sp)) /\
    mem_ok m' /\ same_layout m m' /\ mem_inner m' = mem_inner m /\
    forall b, ty_at m' b = if decide (b = a) then default (ty_at m a) (ty_lub (ty_at m a) t)
                           else ty_at m b.
Proof.
  intros Hm Ha. pose proof (data_ok_lt _ _ Ha) as Hlt. unfold unify. st_run.
  rewrite vget_ok by (rewrite (mo_ty _ Hm); done). unfold ty_at, ty_lub.
  destruct (ty_lt (vcell (mem_ty m) a) t) eqn:Hl.
  - rewrite vset_ok by (rewrite (mo_ty _ Hm); done). apply ty_lt_spec in Hl as [Hle _].
    rewrite decide_True by done. eexists. split_and!; [done| |done|done|].
    + destruct Hm. by split.
    + intros b. simpl. case_decide; [subst; apply vcell_vput_eq|]. by rewrite vcell_vput_ne.
  - destruct (ty_ge (vcell (mem_ty m) a) t) eqn:Hg.
    + exists m. assert (ty_lub (vcell (mem_ty m) a) t = Some (vcell (mem_ty m) a)) as Hlub.
      { apply ty_ge_spec in Hg. unfold ty_lub. case_decide; [|by rewrite decide_True].
        f_equal. by apply (anti_symm ty_le). }
      unfold ty_lub in Hlub. rewrite Hlub. split_and!; try done.
      intros b. simpl. by destruct (decide (b = a)) as [->|].
    + exists m. rewrite decide_False, decide_False.
      * split_and!; try done. intros b. simpl. by destruct (decide (b = a)) as [->|].
      * rewrite <- ty_ge_spec. by rewrite Hg.
      * intros Hle. destruct (decide (vcell (mem_ty m) a = t)) as [He|He].
        -- assert (ty_le t (vcell (mem_ty m) a)) as Hge by by left.
           apply ty_ge_spec in Hge. congruence.
        -- assert (ty_lt (vcell (mem_ty m) a) t = true) as Hlt' by by apply ty_lt_spec.
           congruence.
Qed.

(** What a successful load and a successful store do to the memory. *)
Record loaded (m m' : Memory) (a : Z) (u : Ty) : Prop := {
  ld_ok : mem_ok m';
  ld_layout : same_layout m m';
  ld_bytes : mem_inner m' = mem_inner m;
  ld_ty : forall b, ty_at m' b = if decide (b = a) then u else ty_at m b
}.

Record stored (m m' : Memory) (a v : Z) (u : Ty) : Prop := {
  st_ok : mem_ok m';
  st_layout : same_layout m m';
  st_bytes : forall i, i `div` 4 <> a -> vcell (mem_inner m') i = vcell (mem_inner m) i;
  st_word : word_at m' a = v;
  st_ty : forall b, ty_at m' b = if decide (b = a) then u else ty_at m b
}.

Lemma loaded_word m m' a u b : loaded m m' a u -> word_at m' b = word_at m b.
Proof. intros Hl. unfold word_at. by rewrite (ld_bytes _ _ _ _ Hl). Qed.

Lemma stored_word m m' a v u b :
  stored m m' a v u -> word_at m' b = if decide (b = a) then v else word_at m b.
Proof.
  intros Hs. case_decide as Hb; [subst; by destruct Hs|]. unfold word_at.
  rewrite !(st_bytes _ _ _ _ _ Hs) by dlia. done.
Qed.

Lemma get_raw_word {E} m a :
  mem_ok m -> data_ok m a -> get_raw_addr (E:=E) (byte_index a) m = Ok (word_at m a).
Proof.
  intros Hm Ha. pose proof (data_ok_lt _ _ Ha) as Hlt.
  rewrite byte_index_small by dlia. unfold get_raw_addr. rewrite (mo_len _ Hm).
  destruct (Z.leb_spec 0 (4 * a)); [|lia]. destruct (Z.leb_spec (4 * a + 4) SIZE); [done|dlia].
Qed.

(** A change of the counters only. *)
Lemma with_stat_ok m s : mem_ok m -> mem_ok (with_stat s m).
Proof. intros []. by split. Qed.

Lemma on_read_run region a m sp :
  u32_ok a ->
  if underflows region a then on_read region a (m, sp) = (Panic ArithOverflow, (m, sp))
  else exists m' sp', on_read region a (m, sp) = (Ok (), (m', sp')) /\ exists s, m' = with_stat s m.
Proof.
  intros Ha. pose proof (get_region_run (E:=MemoryAccessError) a region) as Hk.
  unfold on_read. rewrite wrap32_small by done.
  destruct (underflows region a); [st_run; by rewrite Hk|]. destruct Hk as [k Hk].
  st_run. rewrite Hk. cbn.
  destruct (spy_on_read _ !! a); cbn; do 2 eexists; (split; [done|by eexists]).
Qed.

Lemma on_write_run region a v m sp :
  u32_ok a -> mem_ok m -> data_ok m a ->
  if underflows region a then on_write region a v (m, sp) = (Panic ArithOverflow, (m, sp))
  else exists m' sp', on_write region a v (m, sp) = (Ok (), (m', sp')) /\ exists s, m' = with_stat s m.
Proof.
  intros Hu Hm Ha. pose proof (get_region_run (E:=MemoryAccessError) a region) as Hk.
  unfold on_write. rewrite wrap32_small by done.
  destruct (underflows region a); [st_run; by rewrite Hk|]. destruct Hk as [k Hk].
  st_run. rewrite Hk. cbn.
  destruct (spy_on_write _ !! a); cbn.
  - rewrite get_raw_word; [|by apply with_stat_ok|done]. cbn.
    rewrite vget_ok by (rewrite (mo_ty _ Hm); by apply (data_ok_lt m)). cbn.
    do 2 eexists. split; [done|by eexists].
  - do 2 eexists. split; [done|by eexists].
Qed.

(** The body shared by the loads. *)
Definition load (region : MemoryRegionStatBuilder) (a : Z) (t : Ty) : MemST TypedU32 :=
  _ ← bounds_check SIZE a;
  u ← unify a t;
  _ ← on_read region a;
  w ← raw_word a;
  mret (typed w u).

Lemma load_wp region a t m sp (Q : outcome MemoryAccessError TypedU32 -> _ -> Prop) :
  mem_ok m -> u32_ok a ->
  (data_addr m a = false -> Q (Err (OutOfBounds a)) (m, sp)) ->
  (data_ok m a -> ty_lub (ty_at m a) t = None ->
   forall m', loaded m m' a (ty_at m a) -> Q (Err (ViolateTransmutation (ty_at m a) t)) (m', sp)) ->
  (data_ok m a -> forall u, ty_lub (ty_at m a) t = Some u -> underflows region a = true ->
   forall m', loaded m m' a u -> Q (Panic ArithOverflow) (m', sp)) ->
  (data_ok m a -> forall u, ty_lub (ty_at m a) t = Some u -> underflows region a = false ->
   forall m' sp', loaded m m' a u -> Q (Ok (typed (word_at m a) u)) (m', sp')) ->
  wp (load region a t) Q (m, sp).
Proof.
  intros Hm Ha HQb HQt HQp HQ. unfold load. apply wp_bind, bounds_check_wp; [done| |done].
  simpl. intros Hd. destruct (unify_run a t m sp Hm Hd) as (m1 & H1 & Hm1 & Hlay & Hin & Hty).
  unfold wp at 1. destruct (ty_lub (ty_at m a) t) as [u|] eqn:Hlub.
  - rewrite (run_ok _ _ _ _ _ H1). pose proof (on_read_run region a m1 sp Ha) as H2.
    destruct (underflows region a) eqn:Hu; [by rewrite (run_panic _ _ _ _ _ H2); eapply HQp|].
    destruct H2 as (m2 & sp2 & H2 & s & ->).
    rewrite (run_ok _ _ _ _ _ H2). unfold raw_word. st_run.
    assert (data_ok (with_stat s m1) a) as Hd'.
    { destruct Hd as [H0 Hd]. split; [done|]. rewrite <- Hd. by apply same_layout_data. }
    rewrite get_raw_word; [|by apply with_stat_ok|done]. cbn.
    replace (word_at (with_stat s m1) a) with (word_at m a)
      by (unfold word_at; simpl; by rewrite Hin).
    apply HQ; [done|done|done|]. split; [by apply with_stat_ok|done|done|done].
  - rewrite (run_err _ _ _ _ _ H1). simpl. by apply HQt.
Qed.

Lemma get_i_load region a : mem_get_i SIZE region a = load region a I32OrUsize.
Proof. done. Qed.

(** A float load is the same with the type forgotten. *)
Lemma get_f_load region a s :
  mem_get_f SIZE region a s =
  match load region a F32 s with
  | (Ok v, s') => (Ok (value v), s')
  | (Err e, s') => (Err e, s')
  | (Panic p, s') => (Panic p, s')
  end.
Proof.
  unfold mem_get_f, load. st_run.
  repeat (case_match; simplify_eq; try done).
Qed.

Lemma ty_lub_unknown t : ty_lub t Unknown = Some t.
Proof. by destruct t. Qed.

(** An untyped load never unwraps an error. *)
Lemma mem_get_load region a m sp :
  mem_ok m -> u32_ok a ->
  mem_get SIZE region a (m, sp) = load region a Unknown (m, sp).
Proof.
  intros Hm Ha. pattern (m, sp). set (R := fun p => _).
  assert (wp (bounds_check SIZE a) (fun o s =>
    s = (m, sp) /\ (o = Ok () -> data_ok m a)) (m, sp)) as Hb.
  { by apply bounds_check_wp. }
  unfold R, mem_get, load. unfold wp in Hb. unfold mbind at 1 5, ST_bind at 1 5.
  destruct (bounds_check SIZE a (m, sp)) as [[[]| |] s]; simpl in Hb; [|done|done].
  destruct Hb as [-> Hd]. destruct (unify_run a Unknown m sp Hm (Hd eq_refl)) as (m1 & H1 & _).
  rewrite ty_lub_unknown in H1. rewrite (run_ok _ _ _ _ _ H1).
  assert (unify_unwrap a (m, sp) = unify a Unknown (m, sp)) as Hu
    by (unfold unify_unwrap; by rewrite H1).
  rewrite H1 in Hu. by rewrite (run_ok _ _ _ _ _ Hu).
Qed.

(** The body shared by the stores. *)
Definition store (region : MemoryRegionStatBuilder) (a v : Z) (t : Ty) : MemST () :=
  _ ← bounds_check SIZE a;
  _ ← on_write region a (typed v t);
  _ ← reset_type a t;
  put_word a v.

Lemma mem_set_store region a v : mem_set SIZE region a v = store region a v I32OrUsize.
Proof. done. Qed.

Lemma mem_set_f_store region a v : mem_set_f SIZE region a v = store region a v F32.
Proof. done. Qed.

Lemma vcell_to_le_bytes (w : vec Z) a v i :
  vcell (vput_list a (to_le_bytes v) w) i =
  if decide (a <= i < a + 4) then default 0 (to_le_bytes v !! Z.to_nat (i - a)) else vcell w i.
Proof.
  case_decide as Hi.
  - replace i with (a + Z.of_nat (Z.to_nat (i - a))) at 1 by lia.
    assert (Z.to_nat (i - a) < length (to_le_bytes v))%nat as Hlt by (rewrite length_to_le_bytes; lia).
    apply lookup_lt_is_Some_2 in Hlt as [x Hx]. rewrite Hx. by apply vcell_vput_list_in.
  - apply vcell_vput_list_out. rewrite length_to_le_bytes. lia.
Qed.

Lemma put_word_stored m a v t ts :
  mem_ok m -> data_ok m a -> u32_ok v -> ts = vput a t (mem_ty m) ->
  stored m (with_bytes (vput_list (4 * a) (to_le_bytes v) (mem_inner m)) (with_types ts m)) a v t.
Proof.
  intros Hm Ha Hv ->. split.
  - destruct Hm. split; try done.
    intros i. cbn [mem_inner with_bytes]. rewrite vcell_to_le_bytes. case_decide; [|done].
    pose proof (to_le_bytes_ok v) as Hb. rewrite Forall_lookup in Hb.
    destruct (to_le_bytes v !! _) eqn:Hl; simpl; [by eapply Hb|unfold u8_ok; lia].
  - done.
  - intros i Hi. cbn [mem_inner with_bytes]. rewrite vcell_to_le_bytes. rewrite decide_False; [done|dlia].
  - unfold word_at. cbn [mem_inner with_bytes]. rewrite !vcell_to_le_bytes, !decide_True by lia.
    replace (4 * a - 4 * a) with 0 by lia. replace (4 * a + 1 - 4 * a) with 1 by lia.
    replace (4 * a + 2 - 4 * a) with 2 by lia. replace (4 * a + 3 - 4 * a) with 3 by lia.
    by apply from_to_le_bytes.
  - intros b. unfold ty_at. simpl. case_decide; [subst; apply vcell_vput_eq|].
    by rewrite vcell_vput_ne.
Qed.

Lemma store_wp region a v t m sp (Q : outcome MemoryAccessError () -> _ -> Prop) :
  mem_ok m -> u32_ok a -> u32_ok v ->
  (data_addr m a = false -> Q (Err (OutOfBounds a)) (m, sp)) ->
  (data_ok m a -> underflows region a = true -> Q (Panic ArithOverflow) (m, sp)) ->
  (data_ok m a -> underflows region a = false -> forall m' sp', stored m m' a v t -> Q (Ok ()) (m', sp')) ->
  wp (store region a v t) Q (m, sp).
Proof.
  intros Hm Ha Hv HQb HQp HQ. unfold store. apply wp_bind, bounds_check_wp; [done| |done].
  simpl. intros Hd. pose proof (data_ok_lt _ _ Hd) as Hlt. unfold wp at 1.
  pose proof (on_write_run region a (typed v t) m sp Ha Hm Hd) as H1.
  destruct (underflows region a) eqn:Hu; [by rewrite (run_panic _ _ _ _ _ H1); apply HQp|].
  destruct H1 as (m1 & sp1 & H1 & s & ->).
  rewrite (run_ok _ _ _ _ _ H1). unfold reset_type, put_word. st_run.
  rewrite vset_ok by (rewrite (mo_ty _ Hm); done). cbn.
  rewrite byte_index_small by dlia.
  rewrite vset_slice_ok; [|lia|rewrite length_to_le_bytes, (mo_len _ Hm); dlia]. cbn.
  apply HQ; [done|done|].
  eassert (stored m _ a v t) as [] by by apply (put_word_stored m a v t _ Hm Hd Hv eq_refl).
  split; try done. destruct st_ok0. by split.
Qed.

(** Fetching an instruction word. *)
Lemma get_from_pc_eq m pc :
  get_from_pc pc m =
  if range_contains (instr_start m) (instr_end m) (pc_val pc) then get_raw_addr (pc_val pc) m
  else Err (PcOutOfBounds (pc_val pc)).
Proof. done. Qed.

(** The text is inside the memory. *)
Definition text_ok (m : Memory) : Prop := 0 <= instr_start m /\ instr_end m <= SIZE.

Definition pc_aligned (pc : Pc) : Prop := pc_val pc mod 4 = 0.

Lemma fetch_aligned m pc :
  mem_ok m -> text_ok m -> pc_aligned pc ->
  get_from_pc pc m =
  if range_contains (instr_start m) (instr_end m) (pc_val pc) then Ok (word_at m (pc_val pc / 4))
  else Err (PcOutOfBounds (pc_val pc)).
Proof.
  intros Hm [Hs He] Hp. unfold get_from_pc. destruct (range_contains _ _ _) eqn:Hc; [|done].
  unfold range_contains in Hc. apply andb_true_iff in Hc as [H1 H2].
  apply Z.leb_le in H1. apply Z.ltb_lt in H2. pose proof (mo_end _ Hm). unfold pc_aligned in Hp.
  unfold get_raw_addr, word_at. rewrite (mo_len _ Hm).
  destruct (Z.leb_spec 0 (pc_val pc)); [|lia].
  destruct (Z.leb_spec (pc_val pc + 4) SIZE); [|dlia]. simpl.
  by replace (4 * (pc_val pc / 4)) with (pc_val pc) by dlia.
Qed.

(** No data access changes a text word. *)
Lemma text_word_kept m m' a v u b :
  mem_ok m -> data_ok m a -> stored m m' a v u ->
  range_contains (instr_start m) (instr_end m) (4 * b) = true -> word_at m' b = word_at m b.
Proof.
  intros Hm [_ Ha] Hst Hb. rewrite (stored_word _ _ _ _ _ _ Hst).
  rewrite decide_False; [done|]. intros ->. unfold data_addr in Ha. rewrite Hb in Ha.
  by rewrite andb_false_r in Ha.
Qed.

Lemma fetch_kept m m' pc :
  mem_ok m -> mem_ok m' -> text_ok m -> same_layout m m' -> pc_aligned pc ->
  (forall b, range_contains (instr_start m) (instr_end m) (4 * b) = true ->
     word_at m' b = word_at m b) ->
  get_from_pc pc m' = get_from_pc pc m.
Proof.
  intros Hm Hm' Ht Hl Hp Hw. pose proof Hl as (H1 & H2 & _).
  assert (text_ok m') as Ht' by (unfold text_ok in *; congruence).
  rewrite !fetch_aligned by done. rewrite H1, H2.
  destruct (range_contains _ _ _) eqn:Hc; [|done]. rewrite Hw; [done|].
  by replace (4 * (pc_val pc / 4)) with (pc_val pc) by (unfold pc_aligned in Hp; dlia).
Qed.
End Facts.

(** ** Properties of the memory *)

Section Properties.
Context `{Profile} (SIZE : Z) (Hsize : 0 <= SIZE < 2 ^ 62) (Haligned : SIZE mod 4 = 0).

(** C10: A load returns what was stored: after a store of an integer at a data address the
    integer load of that address returns it, with the integer type, and every
    other word and every other type of the memory is unchanged. *)
Theorem load_after_store region region' m sp a v :
  region_safe region -> region_safe region' -> mem_ok SIZE m -> u32_ok a -> u32_ok v ->
  data_addr SIZE m a = true ->
  wp (mem_set SIZE region a v) (fun o s =>
    o = Ok () /\ mem_ok SIZE s.1 /\
    (forall b, b <> a -> word_at s.1 b = word_at m b /\ ty_at s.1 b = ty_at m b) /\
    wp (mem_get_i SIZE region' a) (fun o' s' =>
      o' = Ok (typed v I32OrUsize) /\ forall b, word_at s'.1 b = word_at s.1 b) s) (m, sp).
Proof.
  intros Hr Hr' Hm Ha Hv Hd. rewrite mem_set_store.
  apply store_wp; try done; [congruence|by rewrite safe_underflows|]. intros _ _ m1 sp1 Hs. split_and!; [done|apply Hs| |].
  - intros b Hb. simpl. rewrite (stored_word SIZE Hsize _ _ _ _ _ _ Hs), (st_ty SIZE _ _ _ _ _ Hs).
    by rewrite !decide_False.
  - rewrite get_i_load. apply load_wp; try done; [apply Hs| | | |].
    + rewrite (same_layout_data SIZE _ _ _ (st_layout SIZE _ _ _ _ _ Hs)). congruence.
    + intros _. rewrite (st_ty SIZE _ _ _ _ _ Hs), decide_True by done. done.
    + by rewrite safe_underflows.
    + intros _ u. rewrite (st_ty SIZE _ _ _ _ _ Hs), decide_True by done. intros Hu. vm_compute in Hu. injection Hu as <-.
      intros _ m2 sp2 Hl. rewrite (st_word SIZE _ _ _ _ _ Hs). split; [done|]. intros b.
      apply (loaded_word _ _ _ _ _ _ Hl).
Qed.

(** C11: Integers and floats cannot be confused: an integer load of a word stored as a float
    fails with the two types, and so does a float load of a word stored as an
    integer. *)
Theorem no_type_confusion region region' m sp a v :
  region_safe region -> region_safe region' -> mem_ok SIZE m -> u32_ok a -> u32_ok v ->
  data_addr SIZE m a = true ->
  wp (mem_set_f SIZE region a v) (fun _ s =>
    (mem_get_i SIZE region' a s).1 = Err (ViolateTransmutation F32 I32OrUsize)) (m, sp) /\
  wp (mem_set SIZE region a v) (fun _ s =>
    (mem_get_f SIZE region' a s).1 = Err (ViolateTransmutation I32OrUsize F32)) (m, sp).
Proof.
  intros Hr Hr' Hm Ha Hv Hd.
  assert (forall t u m1 sp1, stored SIZE m m1 a v t -> ty_lub t u = None ->
    (load SIZE region' a u (m1, sp1)).1 = Err (ViolateTransmutation t u)) as Hload.
  { intros t u m1 sp1 Hs Hl.
    apply (load_wp SIZE Hsize Haligned region' a u m1 sp1 (fun o s => o = Err (ViolateTransmutation t u)));
      try done; [apply Hs| | | |].
    - rewrite (same_layout_data SIZE _ _ _ (st_layout SIZE _ _ _ _ _ Hs)). congruence.
    - intros _ _ m2 _. by rewrite (st_ty SIZE _ _ _ _ _ Hs), decide_True.
    - by rewrite safe_underflows.
    - intros _ u' Hu'. rewrite (st_ty SIZE _ _ _ _ _ Hs), decide_True in Hu' by done. congruence. }
  split; [rewrite mem_set_f_store|rewrite mem_set_store]; apply store_wp; try done;
    try congruence; try (by rewrite safe_underflows); intros _ _ m1 sp1 Hs.
  - rewrite get_i_load. by apply Hload.
  - rewrite get_f_load. pose proof (Hload _ F32 m1 sp1 Hs eq_refl) as Hf.
    destruct (load _ _ _ _ _) as [[] ?]; simpl in *; congruence.
Qed.

(** What a store does, on every branch. *)
Definition store_spec (region : MemoryRegionStatBuilder) (m : Memory) sp (a v : Z) (t : Ty)
    (o : outcome MemoryAccessError ()) (s : Memory * option SpyResult) : Prop :=
  if (SIZE <=? 4 * a) || range_contains (instr_start m) (instr_end m) (4 * a)
  then o = Err (OutOfBounds a) /\ s = (m, sp)
  else if overflow_checks && (hp_min region <=? a) && (sp_min region <? 1000)
  then o = Panic ArithOverflow /\ s = (m, sp)
  else o = Ok () /\ word_at s.1 a = v /\ ty_at s.1 a = t /\
    forall b, b <> a -> word_at s.1 b = word_at m b /\ ty_at s.1 b = ty_at m b.

(** C12: Bounds: an integer store and a float store report an out-of-bounds access exactly
    for the addresses outside the memory or inside the protected text, and change
    nothing then; at the other addresses they panic exactly in a build with
    overflow checks, from the heap start on, when the lowest [sp] recorded so far is
    below 1000 (the underflow of [sp_min - 1000] in the statistics), and change
    nothing then either; otherwise they write the word with its type, and no other. *)
Theorem store_bounds region m sp a v :
  mem_ok SIZE m -> u32_ok a -> u32_ok v ->
  wp (mem_set SIZE region a v) (store_spec region m sp a v I32OrUsize) (m, sp) /\
  wp (mem_set_f SIZE region a v) (store_spec region m sp a v F32) (m, sp).
Proof.
  intros Hm Ha Hv. rewrite mem_set_store, mem_set_f_store.
  assert (forall t, wp (store SIZE region a v t) (store_spec region m sp a v t) (m, sp)) as Hs; [|by split].
  intros t. unfold store_spec. change (_ && _ && _) with (underflows region a).
  assert ((SIZE <=? 4 * a) || range_contains (instr_start m) (instr_end m) (4 * a) = negb (data_addr SIZE m a)) as ->.
  { unfold data_addr. rewrite negb_andb, negb_involutive. f_equal.
    by destruct (Z.leb_spec SIZE (4 * a)), (Z.ltb_spec (4 * a) SIZE); try lia. }
  apply store_wp; try done.
  - by intros ->.
  - by intros [_ ->] ->.
  - intros [_ ->] ->. intros m' sp' Hs. simpl. split_and!; [done|apply Hs| |].
    + by rewrite (st_ty SIZE _ _ _ _ _ Hs), decide_True.
    + intros b Hb. by rewrite (stored_word SIZE Hsize _ _ _ _ _ _ Hs), (st_ty SIZE _ _ _ _ _ Hs), !decide_False.
Qed.

(** The type inference of loads computes least upper bounds in the precision order:
    a successful unification stores and returns the least type above both the
    recorded and the attempted one, and it fails exactly when they have no common
    refinement. *)
Theorem unify_is_lub a t m sp :
  mem_ok SIZE m -> data_ok SIZE m a ->
  wp (unify a t) (fun o s =>
    match o with
    | Ok u =>
        ty_at s.1 a = u /\ ty_le (ty_at m a) u /\ ty_le t u /\
        forall d, ty_le (ty_at m a) d -> ty_le t d -> ty_le u d
    | Err e =>
        e = ViolateTransmutation (ty_at m a) t /\
        forall d, ty_le (ty_at m a) d -> ty_le t d -> False
    | Panic _ => False
    end) (m, sp).
Proof.
  intros Hm Ha. destruct (unify_run SIZE Hsize Haligned a t m sp Hm Ha) as (m' & Hrun & _ & _ & _ & Hty).
  unfold wp. rewrite Hrun. specialize (Hty a). rewrite decide_True in Hty by done.
  destruct (ty_lub (ty_at m a) t) as [u|] eqn:Hl; simpl in *.
  - destruct (ty_lub_upper _ _ _ Hl). split_and!; try done. intros d. by apply ty_lub_least.
  - split; [done|]. intros d. by apply ty_lub_none.
Qed.
End Properties.

Section MemoryWitnesses.
#[local] Existing Instance debug_profile.

Definition demo_region : MemoryRegionStatBuilder := region_init 0 4096.

Lemma demo_region_safe : region_safe demo_region.
Proof. by intros _. Qed.

Lemma demo_memory_ok : mem_ok 64 (memory_new 64).
Proof. by apply memory_new_ok. Qed.

Lemma load_after_store_witness :
  (mem_set 64 demo_region 3 7 (memory_new 64, None)).1 = Ok ().
Proof.
  destruct (load_after_store 64 ltac:(lia) eq_refl demo_region demo_region (memory_new 64) None 3 7)
    as [Hs _]; [apply demo_region_safe|apply demo_region_safe|apply demo_memory_ok
      |split; done|split; done|reflexivity|exact Hs].
Defined.

Lemma no_type_confusion_witness :
  wp (mem_set_f 64 demo_region 3 7) (fun _ s =>
    (mem_get_i 64 demo_region 3 s).1 = Err (ViolateTransmutation F32 I32OrUsize))
    (memory_new 64, None).
Proof.
  destruct (no_type_confusion 64 ltac:(lia) eq_refl demo_region demo_region (memory_new 64) None 3 7)
    as [Hs _]; [apply demo_region_safe|apply demo_region_safe|apply demo_memory_ok
      |split; done|split; done|reflexivity|exact Hs].
Defined.

(** The store of [sw] with a stack pointer that went down to 8. *)
Lemma store_bounds_witness :
  (mem_set 64 demo_region 16 7 (memory_new 64, None)).1 = Err (OutOfBounds 16) /\
  (mem_set_f 64 (update_sp 8 demo_region) 3 7 (memory_new 64, None)).1 = Panic ArithOverflow.
Proof.
  destruct (store_bounds 64 ltac:(lia) eq_refl demo_region (memory_new 64) None 16 7
    demo_memory_ok) as [[H1 _] _]; [split; done|split; done|].
  destruct (store_bounds 64 ltac:(lia) eq_refl (update_sp 8 demo_region) (memory_new 64) None 3 7
    demo_memory_ok) as [_ [H2 _]]; [split; done|split; done|].
  by split.
Defined.

Lemma unify_is_lub_witness : (unify 3 F32 (memory_new 64, None)).1 <> Panic IndexOutOfBounds.
Proof.
  pose proof (unify_is_lub 64 ltac:(lia) eq_refl 3 F32 (memory_new 64) None demo_memory_ok) as Hu.
  assert (data_ok 64 (memory_new 64) 3) as Hd by (split; [lia|reflexivity]).
  specialize (Hu Hd). unfold wp in Hu. intros He. rewrite He in Hu. exact Hu.
Defined.
End MemoryWitnesses.
