(* ===== verification/Float32.v ===== *)
(** * Single precision floats

    The source's [f32] is a primitive type; here it is its bit pattern, a
    [u32], and the arithmetic is the Standard Library's executable IEEE 754
    specification ([SpecFloat]) between a decoding and an encoding.  The [f64]
    arithmetic that the C code uses internally stays in [spec_float]. *)
From Stdlib Require Import SpecFloat.
From S2P Require Import Prelude Word.

Abbreviation f32_prec := 24 (only parsing).
Abbreviation f32_emax := 128 (only parsing).

(** ** Fields *)

Definition sign_bit (b : Z) : Z := b / 2 ^ 31.
Definition exp_field (b : Z) : Z := b / 2 ^ 23 mod 256.
Definition man_field (b : Z) : Z := b mod 2 ^ 23.

Definition pack (s e m : Z) : Z := s * 2 ^ 31 + e * 2 ^ 23 + m.

(** ** Decoding and encoding *)

Definition decode32 (b : Z) : spec_float :=
  let s := negb (sign_bit b =? 0) in
  let e := exp_field b in
  let m := man_field b in
  if e =? 255 then (if m =? 0 then S754_infinity s else S754_nan)
  else if e =? 0 then
    match m with Zpos p => S754_finite s p (-149) | _ => S754_zero s end
  else
    match m + 2 ^ 23 with Zpos p => S754_finite s p (e - 150) | _ => S754_nan end.

Definition encode32 (nan : Z) (x : spec_float) : Z :=
  match x with
  | S754_zero s => pack (Z.b2z s) 0 0
  | S754_infinity s => pack (Z.b2z s) 255 0
  | S754_nan => nan
  | S754_finite s m e =>
      wrap32 (if Zpos m <? 2 ^ 23 then pack (Z.b2z s) 0 (Zpos m)
              else pack (Z.b2z s) (e + 150) (Zpos m - 2 ^ 23))
  end.

(** ** Arithmetic, comparisons and sign operations *)

Section Ops.
Context `{Profile}.

Definition f32_add (a b : Z) : Z :=
  encode32 (nan_result a b) (SFadd f32_prec f32_emax (decode32 a) (decode32 b)).
Definition f32_sub (a b : Z) : Z :=
  encode32 (nan_result a b) (SFsub f32_prec f32_emax (decode32 a) (decode32 b)).
Definition f32_mul (a b : Z) : Z :=
  encode32 (nan_result a b) (SFmul f32_prec f32_emax (decode32 a) (decode32 b)).

Definition f32_eq (a b : Z) : bool := SFeqb (decode32 a) (decode32 b).
Definition f32_lt (a b : Z) : bool := SFltb (decode32 a) (decode32 b).
Definition f32_ge (a b : Z) : bool := SFleb (decode32 b) (decode32 a).
Definition f32_gt (a b : Z) : bool := SFltb (decode32 b) (decode32 a).

Definition f32_zero : Z := 0.
Definition f32_one : Z := 0x3F800000.
Definition f32_nan : Z := 0x7FC00000.

(** [-x] *)
Definition f32_neg (a : Z) : Z := Z.lxor a (2 ^ 31).
Definition copysign (a b : Z) : Z := Z.lor (Z.land a (2 ^ 31 - 1)) (Z.land b (2 ^ 31)).
Definition signum (a : Z) : Z := if is_nan32 a then f32_nan else copysign f32_one a.
End Ops.

(** ** Double precision, for the C code *)

Definition f64_of_Z (n : Z) : spec_float := binary_normalize 53 1024 n 0 false.
Definition f64_add := SFadd 53 1024.
Definition f64_sub := SFsub 53 1024.
Definition f64_mul := SFmul 53 1024.
Definition f64_div := SFdiv 53 1024.
Definition f64_sqrt := SFsqrt 53 1024.

Definition f64_of_f32 (b : Z) : spec_float := decode32 b.

(** [(float) d] *)
Definition f32_of_f64 `{Profile} (d : spec_float) : Z :=
  encode32 (nan_result 0 0)
    match d with
    | S754_finite s m e => binary_normalize f32_prec f32_emax (cond_Zopp s (Zpos m)) e s
    | _ => d
    end.

(** ** Every result is a bit pattern *)

Lemma encode32_ok n x : u32_ok n -> u32_ok (encode32 n x).
Proof.
  intros Hn. destruct x as [s|s| |s m e]; simpl; [|by destruct s|done|apply wrap32_ok].
  by destruct s.
Qed.

Section OpsOk.
Context `{Profile}.

Lemma nan_result_u32 a b : u32_ok (nan_result a b).
Proof. apply nan_result_ok. Qed.

Lemma f32_add_ok a b : u32_ok (f32_add a b).
Proof. apply encode32_ok, nan_result_u32. Qed.

Lemma f32_sub_ok a b : u32_ok (f32_sub a b).
Proof. apply encode32_ok, nan_result_u32. Qed.

Lemma f32_mul_ok a b : u32_ok (f32_mul a b).
Proof. apply encode32_ok, nan_result_u32. Qed.

Lemma f32_of_f64_ok d : u32_ok (f32_of_f64 d).
Proof. apply encode32_ok, nan_result_u32. Qed.

Lemma copysign_ok a b : u32_ok a -> u32_ok b -> u32_ok (copysign a b).
Proof. intros. apply lor_ok; by apply land_ok. Qed.

Lemma f32_neg_ok a : u32_ok a -> u32_ok (f32_neg a).
Proof. intros. apply lxor_ok; [done|unfold u32_ok; lia]. Qed.
End OpsOk.

#[export] Hint Resolve f32_add_ok f32_sub_ok f32_mul_ok f32_of_f64_ok copysign_ok f32_neg_ok : sim.
