(* ===== verification/Fpu.v ===== *)
(** * The floating point unit emulator ([fpu/impl/*.c], [core_sim/src/fpu_wrapper.rs])

    Bit-level models of the hardware units, on [uint32_t]: every operator
    wraps.  A [union Num] is its bit pattern.  The tables of [fdiv] and [fsqrt]
    are computed in double precision, as in the C code. *)
From Stdlib Require Import SpecFloat.
From S2P Require Import Prelude Word Float32.

(** ** fpulib.c *)

(** [(x<<(32-left)) >> (31-left+right)] *)
Definition slice (x left right : Z) : Z :=
  Z.shiftr (wrap32 (Z.shiftl x (32 - left))) (31 - left + right).

(** [(s<<31) + (e<<23) + m] *)
Definition mkfloat (s e m : Z) : Z :=
  wrap32 (wrap32 (Z.shiftl s 31) + wrap32 (Z.shiftl e 23) + m).

(** ** fmul.c *)

Definition fmul (x1 x2 : Z) : Z :=
  let s1 := Z.shiftr x1 31 in
  let s2 := Z.shiftr x2 31 in
  let e1 := slice x1 31 24 in
  let e2 := slice x2 31 24 in
  let es := slice (wrap32 (e1 + e2 + 129)) 9 1 in
  let h1 := Z.lor (slice x1 23 12) 0x1000 in
  let h2 := Z.lor (slice x2 23 12) 0x1000 in
  let l1 := slice x1 11 1 in
  let l2 := slice x2 11 1 in
  let hh := wrap32 (h1 * h2) in
  let hl := wrap32 (h1 * l2) in
  let lh := wrap32 (l1 * h2) in
  let mm := wrap32 (hh + Z.shiftr hl 11 + Z.shiftr lh 11 + 2) in
  let carry := negb (Z.shiftr mm 25 =? 0) in
  let sy := Z.lxor s1 s2 in
  let ey :=
    if Z.shiftr es 8 =? 0 then 0
    else if carry then slice (wrap32 (es + 1)) 8 1
    else slice es 8 1 in
  let my :=
    if (e1 =? 0) || (e2 =? 0) || (ey =? 0) then 0
    else if carry then slice mm 25 3
    else slice mm 24 2 in
  mkfloat sy ey my.

(** ** fcvtsw.c: [int32_t] to [float] *)

(** The loop over [i] from 31 down to 0 that finds the highest bit. *)
Fixpoint leading_shift (i : nat) (xabs : Z) : Z :=
  if Z.testbit xabs (Z.of_nat i) then 32 - Z.of_nat i
  else match i with O => 0 | S i => leading_shift i xabs end.

Definition fcvtsw (x : Z) : Z :=
  let s := Z.shiftr (i32_as_u32 x) 31 in
  let xabs := if 0 <=? x then x else i32_as_u32 (- x) in
  let sa := leading_shift 31 xabs in
  let xs := if sa =? 32 then 0 else wrap32 (Z.shiftl xabs sa) in
  let ey :=
    if sa =? 0 then 0
    else if (Z.shiftr xs 9 =? 0x7FFFFF) && negb (slice xs 9 9 =? 0) then 127 - sa + 33
    else 127 - sa + 32 in
  let my := slice (wrap32 (Z.shiftr xs 9 + slice xs 9 9)) 23 1 in
  mkfloat s ey my.

(** ** fcvtws.c: [float] to [int32_t] *)

Definition fcvtws (x : Z) : Z :=
  let s := Z.shiftr x 31 in
  let e := slice x 31 24 in
  let sa := wrap32 (157 - e) in
  let sai := wrap32 (sa - 1) in
  let m := slice x 23 1 in
  let me := wrap32 (Z.shiftl 1 30 + wrap32 (Z.shiftl m 7)) in
  let mes := if 31 <? sa then 0 else Z.shiftr me sa in
  let mesi := if 31 <? sai then 0 else Z.shiftr me sai in
  let mesr := if negb (Z.land mesi 1 =? 0) then wrap32 (mes + 1) else mes in
  let mesrc := as_i32 (wrap32 (Z.lor (2 ^ 32 - 1 - mesr) 0x80000000 + 1)) in
  if s =? 0 then as_i32 mesr else mesrc.

Section Fpu.
Context `{Profile}.

(** ** ffloor.c *)

Definition ffloor (x : Z) : Z :=
  if 157 <? slice x 31 24 then x
  else
    let x_int := fcvtws x in
    let x_float := fcvtsw x_int in
    if f32_ge x x_float then x_float
    else f32_of_f64 (f64_sub (f64_of_f32 x_float) (f64_of_Z 1)).

(** ** fdiv.c *)

(** The slope and the intercept of the linear approximation of the reciprocal
    on segment [h]. *)
Definition fdiv_grad (h : Z) : Z :=
  let d := f64_of_Z in
  f32_of_f64
    (f64_mul (d 1024)
       (f64_sub (f64_div (d 1024) (f64_add (d 1024) (d h)))
                (f64_div (d 1024) (f64_add (d 1025) (d h))))).

Definition fdiv_intercept (h : Z) : Z :=
  let d := f64_of_Z in
  f32_of_f64
    (f64_add
       (f64_mul (d 1024)
          (f64_sub (d 1) (f64_div (f64_add (d 1024) (d h)) (f64_add (d 1025) (d h)))))
       (f64_add
          (f64_sub (f64_div (d 768) (f64_add (d 1024) (d h)))
                   (f64_div (d 256) (f64_add (d 1025) (d h))))
          (f64_div (d 1024) (f64_add (d 2049) (d (wrap32 (2 * h))))))).

Definition fdiv (x1 x2 : Z) : Z :=
  let s1 := Z.shiftr x1 31 in
  let s2 := Z.shiftr x2 31 in
  let e1 := slice x1 31 24 in
  let e2 := slice x2 31 24 in
  let m1 := slice x1 23 1 in
  let m2 := slice x2 23 1 in
  let h := slice m2 23 14 in
  let m1n := mkfloat 0 127 m1 in
  let m2n := mkfloat 0 127 m2 in
  let ax := fmul (fdiv_grad h) m2n in
  let m2inv := f32_sub (fdiv_intercept h) ax in
  let mdiv := fmul m1n m2inv in
  let ovf := slice mdiv 31 31 in
  let udf := slice (2 ^ 32 - 1 - mdiv) 24 24 in
  let sy := Z.lxor s1 s2 in
  let ey := slice (wrap32 (e1 - e2 + 127 - udf + ovf)) 8 1 in
  let my := slice mdiv 23 1 in
  mkfloat sy ey my.

(** ** fsqrt.c *)

Definition fsqrt_low (h : Z) : Z * Z :=
  let d := f64_of_Z in
  let s513 := f64_sqrt (f64_div (d (513 + h)) (d 512)) in
  let s512 := f64_sqrt (f64_div (d (512 + h)) (d 512)) in
  let s1025 := f64_sqrt (f64_div (d (1025 + 2 * h)) (d 1024)) in
  (f32_of_f64 (f64_mul (d 512) (f64_sub s513 s512)),
   f32_of_f64
     (f64_sub
        (f64_div (f64_add (f64_add (f64_mul (d 2) s1025) s513) s512) (d 4))
        (f64_mul (f64_div (d (1025 + 2 * h)) (d 2)) (f64_sub s513 s512)))).

Definition fsqrt_high (h : Z) : Z * Z :=
  let d := f64_of_Z in
  let s1 := f64_sqrt (f64_div (d (1 + h)) (d 256)) in
  let s0 := f64_sqrt (f64_div (d h) (d 256)) in
  let sm := f64_sqrt (f64_div (d (1 + 2 * h)) (d 512)) in
  (f32_of_f64 (f64_mul (d 256) (f64_sub s1 s0)),
   f32_of_f64
     (f64_sub
        (f64_div (f64_add (f64_add (f64_mul (d 2) sm) s1) s0) (d 4))
        (f64_mul (f64_div (d (1 + 2 * h)) (d 2)) (f64_sub s1 s0)))).

Definition fsqrt (x : Z) : Z :=
  let s := Z.shiftr x 31 in
  let e := slice x 31 24 in
  let m := slice x 23 1 in
  let h := Z.lxor (slice x 24 15) 0x200 in
  let mn := if negb (Z.land e 1 =? 0) then mkfloat 0 127 m else mkfloat 0 128 m in
  let (grad, intercept) := if h <? 512 then fsqrt_low h else fsqrt_high h in
  let ax := fmul grad mn in
  let msqrt := f32_add intercept ax in
  let ey :=
    if (e =? 255) || (e =? 0) then 0
    else wrap32 (wrap32 (e - 127) / 2 + 127) in
  let my := slice msqrt 23 1 in
  mkfloat s ey my.

(** ** fpu_wrapper.rs *)

Definition fhalf (x : Z) : Z := fmul x 0x3F000000.
Definition ffrac (x : Z) : Z := f32_sub x (ffloor x).
Definition finv (x : Z) : Z := fdiv f32_one x.
End Fpu.

(** ** Bit fields *)

Lemma slice_eq x l r :
  0 <= x -> 1 <= r -> r <= l -> l <= 32 -> slice x l r = x mod 2 ^ l / 2 ^ (r - 1).
Proof.
  intros Hx Hr Hl Hle. unfold slice, wrap32.
  rewrite Z.shiftl_mul_pow2, Z.shiftr_div_pow2 by lia.
  replace 32 with (l + (32 - l)) at 2 by lia. rewrite Z.pow_add_r by lia.
  rewrite Z.mul_mod_distr_r by lia.
  replace (31 - l + r) with ((32 - l) + (r - 1)) by lia. rewrite Z.pow_add_r by lia.
  rewrite <- Z.div_div by lia. by rewrite Z.div_mul by lia.
Qed.

Lemma slice_ok x l r : 0 <= x -> 1 <= r -> r <= l -> l <= 32 -> 0 <= slice x l r < 2 ^ (l - r + 1).
Proof.
  intros. rewrite slice_eq by lia.
  pose proof (Z.mod_pos_bound x (2 ^ l) (Z.pow_pos_nonneg 2 l ltac:(lia) ltac:(lia))) as Hm.
  pose proof (Z.pow_pos_nonneg 2 (r - 1) ltac:(lia) ltac:(lia)) as Hr.
  split; [by apply Z.div_pos; lia|]. apply Z.div_lt_upper_bound; [done|].
  rewrite <- Z.pow_add_r by lia. replace (r - 1 + (l - r + 1)) with l by lia. apply Hm.
Qed.

(** The fields of a packed float. *)
Definition fields_ok (s e m : Z) : Prop := 0 <= s < 2 /\ 0 <= e < 256 /\ 0 <= m < 2 ^ 23.

Lemma pack_ok s e m : fields_ok s e m -> u32_ok (pack s e m).
Proof. unfold fields_ok, u32_ok, pack. lia. Qed.

Lemma mkfloat_pack s e m : fields_ok s e m -> mkfloat s e m = pack s e m.
Proof.
  unfold fields_ok, mkfloat, pack. intros. rewrite !Z.shiftl_mul_pow2 by lia.
  rewrite (wrap32_small (s * _)), (wrap32_small (e * _)) by (unfold u32_ok; lia).
  rewrite wrap32_small; [done|unfold u32_ok; lia].
Qed.

Lemma pack_fields s e m :
  fields_ok s e m ->
  sign_bit (pack s e m) = s /\ exp_field (pack s e m) = e /\ man_field (pack s e m) = m.
Proof.
  unfold fields_ok, pack, sign_bit, exp_field, man_field. intros. split_and!; dlia.
Qed.

Lemma fields_bits b : u32_ok b -> fields_ok (sign_bit b) (exp_field b) (man_field b).
Proof.
  unfold u32_ok, fields_ok, sign_bit, exp_field, man_field. intros. split_and!; dlia.
Qed.

Lemma pack_bits b : u32_ok b -> pack (sign_bit b) (exp_field b) (man_field b) = b.
Proof. unfold u32_ok, pack, sign_bit, exp_field, man_field. intros. dlia. Qed.

Lemma slice_exp b : u32_ok b -> slice b 31 24 = exp_field b.
Proof. unfold u32_ok, exp_field. intros. rewrite slice_eq by lia. dlia. Qed.

Lemma slice_man b : u32_ok b -> slice b 23 1 = man_field b.
Proof. unfold u32_ok, man_field. intros. rewrite slice_eq by lia. change (2 ^ (1 - 1)) with 1. dlia. Qed.

Lemma shiftr_sign b : Z.shiftr b 31 = sign_bit b.
Proof. unfold sign_bit. by rewrite Z.shiftr_div_pow2. Qed.

Lemma lor_pow2 n h : 0 <= n -> 0 <= h < 2 ^ n -> Z.lor h (2 ^ n) = h + 2 ^ n.
Proof.
  intros Hn Hh. assert (Z.land h (2 ^ n) = 0) as He.
  { apply Z.bits_inj'. intros i Hi. rewrite Z.land_spec, Z.bits_0.
    rewrite Z.pow2_bits_eqb by lia.
    destruct (Z.eqb_spec n i) as [<-|]; [|apply andb_false_r]. by rewrite (testbit_high n). }
  pose proof (Z.add_lor_land h (2 ^ n)). lia.
Qed.

Lemma lor_implicit h : 0 <= h < 2 ^ 12 -> Z.lor h 0x1000 = h + 2 ^ 12.
Proof. by apply (lor_pow2 12). Qed.

Lemma lor_top_bit x : 2 ^ 31 <= x < 2 ^ 32 -> Z.lor x 0x80000000 = x.
Proof.
  intros Hx. change 0x80000000 with (2 ^ 31).
  replace x with (Z.lor (x - 2 ^ 31) (2 ^ 31)) by (rewrite lor_pow2; lia).
  by rewrite <- Z.lor_assoc, Z.lor_diag.
Qed.

(** ** Multiplication, on fields *)

(** The 26-bit product of the two significands: the partial products of the
    12-bit halves, without the lowest one, plus 2. *)
Definition mul_mm (m1 m2 : Z) : Z :=
  let h1 := m1 / 2 ^ 11 + 2 ^ 12 in
  let h2 := m2 / 2 ^ 11 + 2 ^ 12 in
  let l1 := m1 mod 2 ^ 11 in
  let l2 := m2 mod 2 ^ 11 in
  h1 * h2 + h1 * l2 / 2 ^ 11 + l1 * h2 / 2 ^ 11 + 2.

Definition mul_exp (e1 e2 mm : Z) : Z :=
  let es := (e1 + e2 + 129) mod 512 in
  if es <? 256 then 0 else if 2 ^ 25 <=? mm then (es + 1) mod 256 else es mod 256.

Definition mul_man (e1 e2 mm : Z) : Z :=
  if (e1 =? 0) || (e2 =? 0) || (mul_exp e1 e2 mm =? 0) then 0
  else if 2 ^ 25 <=? mm then mm mod 2 ^ 25 / 4 else mm mod 2 ^ 24 / 2.

(** The significand of a normal float. *)
Definition sig (m : Z) : Z := 2 ^ 23 + m.

Lemma split_man m :
  0 <= m < 2 ^ 23 ->
  exists a l, m / 2 ^ 11 = a /\ m mod 2 ^ 11 = l /\ m = a * 2 ^ 11 + l /\
    0 <= a < 2 ^ 12 /\ 0 <= l < 2 ^ 11.
Proof.
  intros Hm. exists (m / 2 ^ 11), (m mod 2 ^ 11). split_and!; try done; dlia.
Qed.

Lemma mul_mm_error m1 m2 :
  0 <= m1 < 2 ^ 23 -> 0 <= m2 < 2 ^ 23 ->
  - 2 ^ 22 < mul_mm m1 m2 * 2 ^ 22 - sig m1 * sig m2 <= 2 ^ 23 /\
  2 ^ 24 <= mul_mm m1 m2 < 2 ^ 26.
Proof.
  intros H1 H2. destruct (split_man m1 H1) as (a1 & l1 & Ea1 & El1 & -> & Ha1 & Hl1).
  destruct (split_man m2 H2) as (a2 & l2 & Ea2 & El2 & -> & Ha2 & Hl2).
  unfold mul_mm, sig. rewrite Ea1, Ea2, El1, El2. clear Ea1 Ea2 El1 El2 H1 H2.
  set (h1 := a1 + 2 ^ 12). set (h2 := a2 + 2 ^ 12).
  replace (2 ^ 23 + (a1 * 2 ^ 11 + l1)) with (h1 * 2 ^ 11 + l1) by (unfold h1; lia).
  replace (2 ^ 23 + (a2 * 2 ^ 11 + l2)) with (h2 * 2 ^ 11 + l2) by (unfold h2; lia).
  assert (2 ^ 12 <= h1 <= 2 ^ 13 - 1 /\ 2 ^ 12 <= h2 <= 2 ^ 13 - 1) as [Hh1 Hh2]
    by (unfold h1, h2; lia).
  clearbody h1 h2. clear Ha1 Ha2 a1 a2.
  pose proof (Z.div_mod (h1 * l2) (2 ^ 11) ltac:(lia)) as D1.
  pose proof (Z.mod_pos_bound (h1 * l2) (2 ^ 11) ltac:(lia)) as B1.
  pose proof (Z.div_mod (l1 * h2) (2 ^ 11) ltac:(lia)) as D2.
  pose proof (Z.mod_pos_bound (l1 * h2) (2 ^ 11) ltac:(lia)) as B2.
  assert (0 <= l1 * l2 <= (2 ^ 11 - 1) * (2 ^ 11 - 1)) by nia.
  assert (2 ^ 12 * 2 ^ 12 <= h1 * h2 <= (2 ^ 13 - 1) * (2 ^ 13 - 1)) by nia.
  assert (0 <= h1 * l2 <= (2 ^ 13 - 1) * (2 ^ 11 - 1)) by nia.
  assert (0 <= l1 * h2 <= (2 ^ 13 - 1) * (2 ^ 11 - 1)) by nia.
  replace ((h1 * 2 ^ 11 + l1) * (h2 * 2 ^ 11 + l2))
    with (h1 * h2 * 2 ^ 22 + h1 * l2 * 2 ^ 11 + l1 * h2 * 2 ^ 11 + l1 * l2) by ring.
  generalize dependent (h1 * h2). generalize dependent (h1 * l2).
  generalize dependent (l1 * h2). generalize dependent (l1 * l2). intros.
  lia.
Qed.

Lemma mul_exp_ok e1 e2 mm : 0 <= mul_exp e1 e2 mm < 256.
Proof. unfold mul_exp. repeat case_match; dlia. Qed.

Lemma mul_man_ok e1 e2 mm : 0 <= mm -> 0 <= mul_man e1 e2 mm < 2 ^ 23.
Proof. intros. unfold mul_man. repeat case_match; dlia. Qed.

Lemma sign_xor s1 s2 : 0 <= s1 < 2 -> 0 <= s2 < 2 -> Z.lxor s1 s2 = (s1 + s2) mod 2.
Proof.
  intros. assert (s1 = 0 \/ s1 = 1) as [-> | ->] by lia;
    assert (s2 = 0 \/ s2 = 1) as [-> | ->] by lia; done.
Qed.

Lemma mul_fields_ok s1 e1 m1 s2 e2 m2 :
  fields_ok s1 e1 m1 -> fields_ok s2 e2 m2 ->
  fields_ok (Z.lxor s1 s2) (mul_exp e1 e2 (mul_mm m1 m2)) (mul_man e1 e2 (mul_mm m1 m2)).
Proof.
  intros (? & ? & ?) (? & ? & ?). destruct (mul_mm_error m1 m2) as [_ ?]; [done..|].
  split_and!; try apply mul_exp_ok; try apply mul_man_ok; try lia; rewrite sign_xor by done; dlia.
Qed.

(** None of the partial products wraps. *)
Lemma mul_mm_wrap m1 m2 :
  0 <= m1 < 2 ^ 23 -> 0 <= m2 < 2 ^ 23 ->
  let h1 := m1 / 2 ^ 11 + 2 ^ 12 in let h2 := m2 / 2 ^ 11 + 2 ^ 12 in
  let l1 := m1 mod 2 ^ 11 in let l2 := m2 mod 2 ^ 11 in
  wrap32 (wrap32 (h1 * h2) + Z.shiftr (wrap32 (h1 * l2)) 11 + Z.shiftr (wrap32 (l1 * h2)) 11 + 2)
  = mul_mm m1 m2.
Proof.
  intros H1 H2 h1 h2 l1 l2. destruct (mul_mm_error m1 m2 H1 H2) as [_ Hmm].
  unfold mul_mm in *. fold h1 h2 l1 l2 in Hmm |- *.
  assert (0 <= h1 < 2 ^ 13 /\ 0 <= h2 < 2 ^ 13 /\ 0 <= l1 < 2 ^ 11 /\ 0 <= l2 < 2 ^ 11)
    as (Hh1 & Hh2 & Hl1 & Hl2) by (unfold h1, h2, l1, l2; split_and!; dlia).
  clearbody h1 h2 l1 l2. rewrite !Z.shiftr_div_pow2 by lia.
  rewrite (wrap32_small (h1 * h2)), (wrap32_small (h1 * l2)), (wrap32_small (l1 * h2))
    by (unfold u32_ok; nia).
  apply wrap32_small. unfold u32_ok. lia.
Qed.

(** The C code computes the fields above. *)
Lemma fmul_fields x1 x2 :
  u32_ok x1 -> u32_ok x2 ->
  let e1 := exp_field x1 in let e2 := exp_field x2 in
  let mm := mul_mm (man_field x1) (man_field x2) in
  fmul x1 x2 = pack (Z.lxor (sign_bit x1) (sign_bit x2)) (mul_exp e1 e2 mm) (mul_man e1 e2 mm).
Proof.
  intros H1 H2 e1 e2 mm.
  pose proof (fields_bits x1 H1) as F1. pose proof (fields_bits x2 H2) as F2.
  destruct (F1) as (_ & He1 & Hm1). destruct (F2) as (_ & He2 & Hm2).
  rewrite <- mkfloat_pack by by apply mul_fields_ok.
  unfold fmul. rewrite !shiftr_sign, !slice_exp by done. fold e1 e2. fold e1 in He1. fold e2 in He2.
  assert (forall x, u32_ok x -> slice x 23 12 = man_field x / 2 ^ 11) as Hhi.
  { intros x [Hx _]. rewrite slice_eq by lia. done. }
  assert (forall x, u32_ok x -> slice x 11 1 = man_field x mod 2 ^ 11) as Hlo.
  { intros x [Hx _]. rewrite slice_eq by lia. unfold man_field. change (2 ^ (1 - 1)) with 1. dlia. }
  rewrite !Hhi, !Hlo by done. rewrite !lor_implicit by dlia.
  destruct (mul_mm_error _ _ Hm1 Hm2) as [_ Hmm]. fold mm in Hmm.
  rewrite mul_mm_wrap by done. fold mm.
  rewrite !Z.shiftr_div_pow2 by lia.
  rewrite (wrap32_small (e1 + e2 + 129)) by (unfold u32_ok; lia).
  set (es := slice (e1 + e2 + 129) 9 1).
  assert (es = (e1 + e2 + 129) mod 512) as Hes.
  { unfold es. rewrite slice_eq by lia. apply Z.div_1_r. }
  assert (0 <= es < 512) as Hes' by (rewrite Hes; dlia).
  rewrite (wrap32_small (es + 1)) by (unfold u32_ok; lia).
  rewrite !(slice_eq _ 8 1), !slice_eq by lia.
  change (2 ^ (1 - 1)) with 1. rewrite !Z.div_1_r.
  assert (negb (mm / 2 ^ 25 =? 0) = (2 ^ 25 <=? mm)) as ->.
  { destruct (Z.eqb_spec (mm / 2 ^ 25) 0); destruct (Z.leb_spec (2 ^ 25) mm); simpl; dlia. }
  assert ((es / 2 ^ 8 =? 0) = (es <? 256)) as ->.
  { destruct (Z.eqb_spec (es / 2 ^ 8) 0); destruct (Z.ltb_spec es 256); simpl; dlia. }
  unfold mul_man, mul_exp. rewrite <- Hes. done.
Qed.

Definition normal (x : Z) : Prop := u32_ok x /\ 1 <= exp_field x <= 254.

#[export] Instance normal_dec x : Decision (normal x).
Proof. unfold normal. apply _. Defined.

Lemma fmul_ok x1 x2 : u32_ok x1 -> u32_ok x2 -> u32_ok (fmul x1 x2).
Proof.
  intros H1 H2. rewrite fmul_fields by done. apply pack_ok.
  by apply mul_fields_ok; apply fields_bits.
Qed.

Lemma fmul_split x1 x2 :
  u32_ok x1 -> u32_ok x2 ->
  let mm := mul_mm (man_field x1) (man_field x2) in
  sign_bit (fmul x1 x2) = (sign_bit x1 + sign_bit x2) mod 2 /\
  exp_field (fmul x1 x2) = mul_exp (exp_field x1) (exp_field x2) mm /\
  man_field (fmul x1 x2) = mul_man (exp_field x1) (exp_field x2) mm.
Proof.
  intros H1 H2 mm. pose proof (fields_bits x1 H1) as F1. pose proof (fields_bits x2 H2) as F2.
  rewrite fmul_fields by done.
  rewrite <- sign_xor by (apply F1 || apply F2).
  by apply pack_fields, mul_fields_ok.
Qed.

(** The product is within one unit in the last place. *)
Lemma fmul_ulp x1 x2 :
  normal x1 -> normal x2 ->
  128 <= exp_field x1 + exp_field x2 <= 380 ->
  sign_bit (fmul x1 x2) = (sign_bit x1 + sign_bit x2) mod 2 /\
  exists c, (c = 0 \/ c = 1) /\
    exp_field (fmul x1 x2) = exp_field x1 + exp_field x2 - 127 + c /\
    Z.abs (sig (man_field (fmul x1 x2)) * 2 ^ (23 + c)
           - sig (man_field x1) * sig (man_field x2)) <= 2 ^ (23 + c).
Proof.
  intros [H1 E1] [H2 E2] He. destruct (fmul_split x1 x2 H1 H2) as (Hs & Hexp & Hman).
  split; [done|]. rewrite Hexp, Hman.
  destruct (fields_bits x1 H1) as (_ & _ & Hm1). destruct (fields_bits x2 H2) as (_ & _ & Hm2).
  destruct (mul_mm_error _ _ Hm1 Hm2) as [Herr Hmm].
  set (mm := mul_mm _ _) in *. set (P := sig _ * sig _) in *. clearbody mm P.
  exists (if 2 ^ 25 <=? mm then 1 else 0).
  unfold mul_man, mul_exp, sig.
  destruct (Z.ltb_spec ((exp_field x1 + exp_field x2 + 129) mod 512) 256); [dlia|].
  destruct (Z.eqb_spec (exp_field x1) 0); [lia|]. destruct (Z.eqb_spec (exp_field x2) 0); [lia|].
  destruct (Z.leb_spec (2 ^ 25) mm).
  - destruct (Z.eqb_spec (((exp_field x1 + exp_field x2 + 129) mod 512 + 1) mod 256) 0); [dlia|].
    split_and!; [by right|dlia|]. cbn [orb]. change (2 ^ (23 + 1)) with (2 ^ 24). dlia.
  - destruct (Z.eqb_spec ((exp_field x1 + exp_field x2 + 129) mod 512 mod 256) 0); [dlia|].
    split_and!; [by left|dlia|]. cbn [orb]. change (2 ^ (23 + 0)) with (2 ^ 23). dlia.
Qed.

Lemma fmul_comm x1 x2 : u32_ok x1 -> u32_ok x2 -> fmul x1 x2 = fmul x2 x1.
Proof.
  intros H1 H2. rewrite !fmul_fields by done. rewrite Z.lxor_comm.
  assert (mul_mm (man_field x1) (man_field x2) = mul_mm (man_field x2) (man_field x1)) as <-.
  { unfold mul_mm. rewrite (Z.mul_comm (_ mod _) (_ + _)), (Z.mul_comm (_ + _) (_ mod _)).
    rewrite (Z.mul_comm (_ + _) (_ + _)). lia. }
  unfold mul_man, mul_exp. rewrite (Z.add_comm (exp_field x1)), (orb_comm (exp_field x1 =? 0)).
  done.
Qed.

(** C24: The multiplier is commutative on every pair of bit patterns, and faithful to
    within one unit in the last place: for normal operands whose product stays in
    the normal range, the significand of the result differs from the exact product
    by at most one ulp, and the sign and the exponent are those of the product. *)
Theorem fmul_one_ulp x1 x2 :
  u32_ok x1 -> u32_ok x2 ->
  fmul x1 x2 = fmul x2 x1 /\
  (normal x1 -> normal x2 -> 128 <= exp_field x1 + exp_field x2 <= 380 ->
   sign_bit (fmul x1 x2) = (sign_bit x1 + sign_bit x2) mod 2 /\
   exists c, (c = 0 \/ c = 1) /\
     exp_field (fmul x1 x2) = exp_field x1 + exp_field x2 - 127 + c /\
     Z.abs (sig (man_field (fmul x1 x2)) * 2 ^ (23 + c)
            - sig (man_field x1) * sig (man_field x2)) <= 2 ^ (23 + c)).
Proof. intros H1 H2. split; [by apply fmul_comm|by apply fmul_ulp]. Qed.

Lemma fmul_one_ulp_witness :
  normal 0x40490FDB /\ exp_field (fmul 0x40490FDB 0x402DF854) = 130.
Proof.
  split; [by apply (bool_decide_unpack _)|].
  destruct (fmul_one_ulp 0x40490FDB 0x402DF854) as [_ Hulp]; [by apply (bool_decide_unpack _)..|].
  destruct Hulp as [_ (c & Hc & He & _)]; [by apply (bool_decide_unpack _)..|done|].
  vm_compute. done.
Defined.

(** Both an underflow and an overflow of the product give a signed zero. *)
Lemma fmul_outside x1 x2 :
  u32_ok x1 -> u32_ok x2 ->
  exp_field x1 + exp_field x2 < 127 \/ 383 <= exp_field x1 + exp_field x2 ->
  fmul x1 x2 = pack ((sign_bit x1 + sign_bit x2) mod 2) 0 0.
Proof.
  intros H1 H2 He. rewrite fmul_fields by done.
  destruct (fields_bits x1 H1) as (Hs1 & He1 & _). destruct (fields_bits x2 H2) as (Hs2 & He2 & _).
  rewrite sign_xor by done. set (mm := mul_mm _ _). unfold mul_man, mul_exp.
  destruct (Z.ltb_spec ((exp_field x1 + exp_field x2 + 129) mod 512) 256) as [Hlt|]; [|dlia].
  clear Hlt. by rewrite !orb_true_r.
Qed.

Lemma nonzero_exp_not_zero y : 1 <= exp_field y -> man_field y = 0 -> f32_eq y 0 = false.
Proof.
  intros He Hm. unfold f32_eq, SFeqb, decode32 at 1. rewrite Hm.
  destruct (Z.eqb_spec (exp_field y) 255); [by destruct (sign_bit y =? 0)|].
  destruct (Z.eqb_spec (exp_field y) 0); [lia|]. by destruct (sign_bit y =? 0).
Qed.

Lemma fmul_zero x :
  u32_ok x -> 128 <= exp_field x ->
  exp_field x - 127 <= exp_field (fmul 0 x) /\ man_field (fmul 0 x) = 0 /\
  f32_eq (fmul 0 x) 0 = false.
Proof.
  intros Hx He. destruct (fields_bits x Hx) as (_ & He' & _).
  destruct (fmul_split 0 x) as (_ & Hexp & Hman); [by apply (bool_decide_unpack _)|done|].
  assert (exp_field x - 127 <= exp_field (fmul 0 x)) as Hge.
  { rewrite Hexp. change (exp_field 0) with 0. unfold mul_exp.
    destruct (Z.ltb_spec ((0 + exp_field x + 129) mod 512) 256); [dlia|]. case_match; dlia. }
  assert (man_field (fmul 0 x) = 0) as Hm by by rewrite Hman.
  split_and!; [done|done|]. apply nonzero_exp_not_zero; [lia|done].
Qed.

(** Where the multiplier is not the float product: outside the exponent range it
    does not saturate, both an underflow and an overflow give a signed zero; and
    the product of zero and a number of absolute value 2 or more is not zero,
    because the exponent logic ignores that an operand is zero: it is a power of
    two. *)
Theorem fmul_out_of_range x1 x2 :
  u32_ok x1 -> u32_ok x2 ->
  (exp_field x1 + exp_field x2 < 127 \/ 383 <= exp_field x1 + exp_field x2 ->
   fmul x1 x2 = pack ((sign_bit x1 + sign_bit x2) mod 2) 0 0) /\
  (128 <= exp_field x2 ->
   exp_field x2 - 127 <= exp_field (fmul 0 x2) /\ man_field (fmul 0 x2) = 0 /\
   f32_eq (fmul 0 x2) 0 = false).
Proof. intros H1 H2. split; [by apply fmul_outside|by apply fmul_zero]. Qed.

Lemma fmul_out_of_range_witness :
  fmul 0x7F000000 0x7F000000 = 0 /\ f32_eq (fmul 0 0x40000000) 0 = false.
Proof.
  split.
  - destruct (fmul_out_of_range 0x7F000000 0x7F000000) as [Hm _]; [by apply (bool_decide_unpack _)..|].
    apply Hm. by right.
  - destruct (fmul_out_of_range 0 0x40000000) as [_ Hm]; [by apply (bool_decide_unpack _)..|]. by apply Hm.
Defined.

(** ** Conversions *)

(** The absolute value of a float with exponent field [e] and fraction [m],
    multiplied by [2 ^ 31], rounded to an integer with ties away from zero. *)
Definition round_away (n d : Z) : Z := (2 * n + d) / (2 * d).

(** The rounded value of a normal float below [2 ^ 31], from its fields: the
    significand is [sig m], the unit of the last place is [2 ^ (e - 150)]. *)
Definition round_fields (s e m : Z) : Z :=
  let r := round_away (sig m * 2 ^ 7) (2 ^ (157 - e)) in if s =? 0 then r else - r.

Lemma round_away_exact n d :
  0 < d -> n mod d = 0 -> round_away n d = n / d /\ n / d * d = n.
Proof.
  intros Hd Hn. pose proof (Z.div_mod n d ltac:(lia)) as Hnd. rewrite Hn in Hnd.
  split; [|lia]. unfold round_away. set (q := n / d) in *.
  replace (2 * n + d) with (d + q * (2 * d)) by lia. rewrite Z.div_add by lia.
  by rewrite Z.div_small by lia.
Qed.

Lemma half_bit me sa :
  0 <= me < 2 ^ 31 -> 1 <= sa ->
  me / 2 ^ sa + (if negb (Z.land (me / 2 ^ (sa - 1)) 1 =? 0) then 1 else 0)
  = round_away me (2 ^ sa).
Proof.
  intros Hme Hsa. unfold round_away.
  pose proof (Z.pow_pos_nonneg 2 (sa - 1) ltac:(lia) ltac:(lia)) as Hp.
  replace sa with (sa - 1 + 1) at 1 3 4 by lia. rewrite !Z.pow_add_r by lia.
  set (d := 2 ^ (sa - 1)) in *. clearbody d. change (2 ^ 1) with 2.
  rewrite <- Z.div_div by lia.
  replace (2 * me + d * 2) with (2 * (me + d)) by lia.
  rewrite Z.div_mul_cancel_l by lia. rewrite <- Z.div_div by lia.
  replace (me + d) with (me + 1 * d) by lia. rewrite Z.div_add by lia.
  set (q := me / d). change 1 with (Z.ones 1) at 1. rewrite Z.land_ones by lia.
  change (2 ^ 1) with 2. destruct (Z.eqb_spec (q mod 2) 0); simpl; dlia.
Qed.

Lemma round_away_bound me sa :
  0 <= me < 2 ^ 31 -> 0 <= sa -> 0 <= round_away me (2 ^ sa) < 2 ^ 31.
Proof.
  intros Hme Hsa. unfold round_away. pose proof (Z.pow_pos_nonneg 2 sa ltac:(lia) Hsa) as Hp.
  set (d := 2 ^ sa) in *. clearbody d.
  split; [apply Z.div_pos; lia|]. apply Z.div_lt_upper_bound; nia.
Qed.

(** The sign of the result is applied in two's complement. *)
Lemma negate_bits r :
  0 <= r < 2 ^ 31 -> as_i32 (wrap32 (Z.lor (2 ^ 32 - 1 - r) 0x80000000 + 1)) = - r.
Proof.
  intros Hr. rewrite lor_top_bit by lia. unfold wrap32, as_i32.
  destruct (Z.ltb_spec ((2 ^ 32 - 1 - r + 1) mod 2 ^ 32) (2 ^ 31)); dlia.
Qed.

(** The two shifted significands give the rounded one. *)
Lemma round_bits me sa :
  0 <= me < 2 ^ 31 -> 0 <= sa < 2 ^ 32 ->
  let sai := wrap32 (sa - 1) in
  let mes := if 31 <? sa then 0 else Z.shiftr me sa in
  let mesi := if 31 <? sai then 0 else Z.shiftr me sai in
  (if negb (Z.land mesi 1 =? 0) then wrap32 (mes + 1) else mes) = round_away me (2 ^ sa).
Proof.
  intros Hme Hsa sai mes mesi.
  destruct (Z.eq_dec sa 0) as [->|].
  { unfold mesi, sai, mes. simpl. unfold round_away. rewrite Z.shiftr_0_r. dlia. }
  assert (sai = sa - 1) as Hsai by (apply wrap32_small; unfold u32_ok; lia).
  assert (forall k, 0 <= k -> (if 31 <? k then 0 else Z.shiftr me k) = me / 2 ^ k) as Hsh.
  { intros k Hk. rewrite Z.shiftr_div_pow2 by lia. destruct (Z.ltb_spec 31 k); [|done].
    symmetry. apply Z.div_small. split; [lia|].
    apply Z.lt_le_trans with (2 ^ 31); [lia|]. apply Z.pow_le_mono_r; lia. }
  rewrite <- (half_bit me sa) by lia. unfold mes, mesi. rewrite !Hsh, Hsai by lia.
  case_match; [|lia]. apply wrap32_small.
  pose proof (Z.pow_pos_nonneg 2 sa ltac:(lia) ltac:(lia)). unfold u32_ok.
  assert (0 <= me / 2 ^ sa <= me); [|lia].
  split; [apply Z.div_pos; lia|]. apply Z.div_le_upper_bound; nia.
Qed.

Lemma fcvtws_eq x :
  u32_ok x ->
  fcvtws x = if exp_field x <=? 157
             then round_fields (sign_bit x) (exp_field x) (man_field x) else 0.
Proof.
  intros Hx. destruct (fields_bits x Hx) as (Hs & He & Hm).
  unfold fcvtws. rewrite shiftr_sign, slice_exp, slice_man by done.
  set (s := sign_bit x) in *. set (e := exp_field x) in *. set (m := man_field x) in *.
  clearbody s e m. rewrite !Z.shiftl_mul_pow2 by lia.
  rewrite (wrap32_small (m * _)) by (unfold u32_ok; lia).
  rewrite (wrap32_small (1 * _ + _)) by (unfold u32_ok; lia).
  replace (1 * 2 ^ 30 + m * 2 ^ 7) with (sig m * 2 ^ 7) by (unfold sig; lia).
  assert (0 <= sig m * 2 ^ 7 < 2 ^ 31) as Hme by (unfold sig; lia).
  unfold round_fields. set (me := sig m * 2 ^ 7) in *. clearbody me. clear m Hm Hx x.
  destruct (Z.leb_spec e 157) as [Hle|Hgt].
  - rewrite (wrap32_small (157 - e)) by (unfold u32_ok; lia).
    set (r := round_away me (2 ^ (157 - e))).
    pose proof (round_away_bound me (157 - e) Hme ltac:(lia)) as Hr. fold r in Hr.
    set (mesr := if negb _ then _ else _). assert (mesr = r) as ->.
    { unfold mesr, r. apply round_bits; lia. }
    rewrite negate_bits by done. destruct (s =? 0); [|done]. unfold as_i32.
    by destruct (Z.ltb_spec r (2 ^ 31)); [|lia].
  - assert (wrap32 (157 - e) = 2 ^ 32 + 157 - e) as -> by (unfold wrap32; dlia).
    assert (wrap32 (2 ^ 32 + 157 - e - 1) = 2 ^ 32 + 156 - e) as -> by (unfold wrap32; dlia).
    destruct (Z.ltb_spec 31 (2 ^ 32 + 157 - e)); [|lia].
    destruct (Z.ltb_spec 31 (2 ^ 32 + 156 - e)); [|lia]. by destruct (s =? 0).
Qed.

Lemma leading_shift_log2 n x :
  0 < x < 2 ^ (Z.of_nat n + 1) -> leading_shift n x = 32 - Z.log2 x.
Proof.
  revert x. induction n as [|n IH]; intros x Hx.
  - assert (x = 1) as -> by (simpl in Hx; lia). done.
  - cbn [leading_shift]. destruct (Z.testbit x (Z.of_nat (S n))) eqn:Hb.
    + f_equal. symmetry. apply Z.log2_unique; [lia|]. split; [|apply Hx].
      destruct (Z.lt_ge_cases x (2 ^ Z.of_nat (S n))) as [Hlt|]; [|done].
      rewrite (testbit_high (Z.of_nat (S n))) in Hb by lia. done.
    + apply IH. split; [lia|]. replace (Z.of_nat n + 1) with (Z.of_nat (S n)) by lia.
      apply bits_below; [lia..|]. intros i Hi.
      destruct (Z.eq_dec i (Z.of_nat (S n))) as [->|]; [done|].
      apply (testbit_high (Z.of_nat (S n) + 1)); lia.
Qed.

(** The shifted magnitude [xs]: the bits below the leading one, left aligned. *)
Lemma fcvtsw_shifted xabs :
  0 < xabs <= 2 ^ 31 ->
  let sa := leading_shift 31 xabs in
  (if sa =? 32 then 0 else wrap32 (Z.shiftl xabs sa))
  = (xabs - 2 ^ Z.log2 xabs) * 2 ^ (32 - Z.log2 xabs).
Proof.
  intros Hx sa. assert (sa = 32 - Z.log2 xabs) as -> by (apply leading_shift_log2; simpl; lia).
  destruct (Z.log2_spec xabs) as [H1 H2]; [lia|].
  pose proof (Z.log2_nonneg xabs) as H0. pose proof (Z.log2_le_mono xabs (2 ^ 31) ltac:(lia)) as H3.
  rewrite Z.log2_pow2 in H3 by lia. set (i := Z.log2 xabs) in *. clearbody i.
  destruct (Z.eqb_spec (32 - i) 32) as [Hi|Hi].
  - assert (i = 0) as -> by lia. simpl in *. lia.
  - rewrite Z.shiftl_mul_pow2 by lia. unfold wrap32.
    replace (xabs * 2 ^ (32 - i)) with ((xabs - 2 ^ i) * 2 ^ (32 - i) + 1 * 2 ^ 32).
    + rewrite Z.mod_add by lia. apply Z.mod_small.
      rewrite Z.pow_succ_r in H2 by lia.
      assert (2 ^ i * 2 ^ (32 - i) = 2 ^ 32) as Hp
        by (rewrite <- Z.pow_add_r by lia; f_equal; lia).
      pose proof (Z.pow_pos_nonneg 2 (32 - i) ltac:(lia) ltac:(lia)). nia.
    + assert (2 ^ i * 2 ^ (32 - i) = 2 ^ 32) as Hp
        by (rewrite <- Z.pow_add_r by lia; f_equal; lia). lia.
Qed.

(** Rounding the shifted magnitude rounds the significand. *)
Lemma fcvtsw_round xabs i :
  0 <= i <= 31 -> 2 ^ i <= xabs < 2 ^ (i + 1) ->
  let xs := (xabs - 2 ^ i) * 2 ^ (32 - i) in
  0 <= xs < 2 ^ 32 /\ 2 ^ 23 + (xs + 2 ^ 8) / 2 ^ 9 = round_away (xabs * 2 ^ 23) (2 ^ i).
Proof.
  intros Hi Hx xs. assert (2 ^ i * 2 ^ (32 - i) = 2 ^ 32) as Hp
    by (rewrite <- Z.pow_add_r by lia; f_equal; lia).
  pose proof (Z.pow_pos_nonneg 2 (32 - i) ltac:(lia) ltac:(lia)) as Hp1.
  pose proof (Z.pow_pos_nonneg 2 i ltac:(lia) ltac:(lia)) as Hp2.
  rewrite Z.pow_add_r in Hx by lia. unfold xs. clear xs.
  split; [nia|]. unfold round_away.
  set (d := 2 ^ i) in *. set (c := 2 ^ (32 - i)) in *. clearbody d c.
  replace xabs with (d + (xabs - d)) at 2 by lia. set (y := xabs - d) in *. clearbody y.
  replace (2 * ((d + y) * 2 ^ 23) + d) with (y * 2 ^ 24 + d + 2 ^ 23 * (2 * d)) by lia.
  rewrite Z.div_add by lia. rewrite (Z.add_comm (2 ^ 23)). f_equal.
  rewrite <- (Z.div_mul_cancel_r (y * c + 2 ^ 8) (2 ^ 9) d) by lia.
  rewrite <- (Z.div_mul_cancel_r (y * 2 ^ 24 + d) (2 * d) (2 ^ 8)) by lia.
  f_equal; [|lia].
  replace ((y * c + 2 ^ 8) * d) with (y * (d * c) + 2 ^ 8 * d) by ring. rewrite Hp. lia.
Qed.

Lemma fcvtsw_spec x :
  i32_ok x ->
  if x =? 0 then fcvtsw x = 0 else
  let i := Z.log2 (Z.abs x) in
  u32_ok (fcvtsw x) /\
  sign_bit (fcvtsw x) = (if x <? 0 then 1 else 0) /\
  exists k, (k = 0 \/ k = 1) /\
    exp_field (fcvtsw x) = 127 + i + k /\
    sig (man_field (fcvtsw x)) * 2 ^ k = round_away (Z.abs x * 2 ^ 23) (2 ^ i).
Proof.
  intros Hx. destruct (Z.eqb_spec x 0) as [->|Hne]; [done|]. intros i.
  unfold i32_ok in Hx. destruct (Z.log2_spec (Z.abs x)) as [H1 H2]; [lia|].
  pose proof (Z.log2_nonneg (Z.abs x)) as H0.
  pose proof (Z.log2_le_mono (Z.abs x) (2 ^ 31) ltac:(lia)) as H3.
  rewrite Z.log2_pow2 in H3 by lia. fold i in H0, H1, H2, H3.
  assert ((if 0 <=? x then x else i32_as_u32 (- x)) = Z.abs x) as Habs.
  { destruct (Z.leb_spec 0 x); [lia|]. unfold i32_as_u32. rewrite wrap32_small; [lia|].
    unfold u32_ok. lia. }
  assert (Z.shiftr (i32_as_u32 x) 31 = if x <? 0 then 1 else 0) as Hs.
  { rewrite Z.shiftr_div_pow2 by lia. unfold i32_as_u32, wrap32.
    destruct (Z.ltb_spec x 0); dlia. }
  destruct (fcvtsw_round (Z.abs x) i ltac:(lia) ltac:(done)) as [Hxs Hround].
  rewrite <- Hround. unfold fcvtsw. rewrite Habs, Hs, fcvtsw_shifted by lia. fold i.
  rewrite leading_shift_log2 by (simpl; lia). fold i. clear Hround Habs Hs.
  set (xs := (Z.abs x - 2 ^ i) * 2 ^ (32 - i)) in *. clearbody xs i.
  rewrite !Z.shiftr_div_pow2, !slice_eq by lia. change (2 ^ (9 - 1)) with (2 ^ 8).
  set (r := (xs + 2 ^ 8) / 2 ^ 9).
  assert (xs / 2 ^ 9 + xs mod 2 ^ 9 / 2 ^ 8 = r) as -> by (unfold r; dlia).
  assert ((xs / 2 ^ 9 =? 0x7FFFFF) && negb (xs mod 2 ^ 9 / 2 ^ 8 =? 0) = (r =? 2 ^ 23)) as ->.
  { unfold r. destruct (Z.eqb_spec (xs / 2 ^ 9) 0x7FFFFF);
      destruct (Z.eqb_spec (xs mod 2 ^ 9 / 2 ^ 8) 0);
      destruct (Z.eqb_spec ((xs + 2 ^ 8) / 2 ^ 9) (2 ^ 23)); simpl; dlia. }
  assert (0 <= r <= 2 ^ 23) as Hr by (unfold r; dlia). clearbody r.
  rewrite (wrap32_small r) by (unfold u32_ok; lia).
  rewrite slice_eq by lia. change (2 ^ (1 - 1)) with 1. rewrite Z.div_1_r. destruct (Z.eqb_spec (32 - i) 0); [lia|].
  set (e := if r =? 2 ^ 23 then _ else _).
  assert (fields_ok (if x <? 0 then 1 else 0) e (r mod 2 ^ 23)) as Hf.
  { unfold e. split_and!; try (by destruct (x <? 0)); try (destruct (r =? 2 ^ 23); lia); dlia. }
  rewrite mkfloat_pack by done. destruct (pack_fields _ _ _ Hf) as (-> & -> & ->).
  split_and!; [by apply pack_ok|done|]. exists (if r =? 2 ^ 23 then 1 else 0). unfold e, sig.
  destruct (Z.eqb_spec r (2 ^ 23)) as [->|].
  - split_and!; [by right|lia|done].
  - rewrite Z.mod_small by lia. split_and!; [by left|lia|lia].
Qed.

(** C25: The conversions round to nearest, ties away from zero.  To an integer: for
    every float of absolute value below [2 ^ 31]; above that, and for infinities
    and NaNs, the result is 0.  From an integer: the sign is kept, the exponent
    field is that of the leading bit [i] of the magnitude plus the carry of the
    rounding, and zero gives zero. *)
Theorem conversions_round :
  (forall x, u32_ok x ->
     fcvtws x = if exp_field x <=? 157
                then round_fields (sign_bit x) (exp_field x) (man_field x) else 0) /\
  (forall x, i32_ok x ->
     if x =? 0 then fcvtsw x = 0 else
     let i := Z.log2 (Z.abs x) in
     u32_ok (fcvtsw x) /\
     sign_bit (fcvtsw x) = (if x <? 0 then 1 else 0) /\
     exists k, (k = 0 \/ k = 1) /\
       exp_field (fcvtsw x) = 127 + i + k /\
       sig (man_field (fcvtsw x)) * 2 ^ k = round_away (Z.abs x * 2 ^ 23) (2 ^ i)).
Proof. split; [apply fcvtws_eq|apply fcvtsw_spec]. Qed.

Lemma conversions_round_witness : fcvtws 0xC0200000 = -3 /\ sign_bit (fcvtsw (-16777217)) = 1.
Proof.
  destruct conversions_round as [Hi Hf]. split.
  - rewrite Hi; [done|by apply (bool_decide_unpack _)].
  - pose proof (Hf (-16777217)) as Hx. destruct Hx as (_ & Hs & _); [by apply (bool_decide_unpack _)|exact Hs].
Defined.

(** Round trip: an integer of absolute value at most [2 ^ 24] survives the
    conversion to a float and back. *)
Theorem fcvt_round_trip x : - 2 ^ 24 <= x <= 2 ^ 24 -> fcvtws (fcvtsw x) = x.
Proof.
  intros Hx. pose proof (fcvtsw_spec x ltac:(unfold i32_ok; lia)) as Hs.
  destruct (Z.eqb_spec x 0) as [->|Hne]; [done|]. cbv zeta in Hs.
  destruct Hs as (Hok & Hsign & k & Hk & He & Hm).
  rewrite fcvtws_eq by done. rewrite Hsign, He. set (m := sig (man_field (fcvtsw x))) in *.
  pose proof (Z.log2_nonneg (Z.abs x)) as H0.
  pose proof (Z.log2_le_mono (Z.abs x) (2 ^ 24) ltac:(lia)) as H3.
  rewrite Z.log2_pow2 in H3 by lia. destruct (Z.log2_spec (Z.abs x)) as [H1 H2]; [lia|].
  set (i := Z.log2 (Z.abs x)) in *. destruct (Z.leb_spec (127 + i + k) 157); [|lia].
  assert (round_away (Z.abs x * 2 ^ 23) (2 ^ i) = Z.abs x * 2 ^ 23 / 2 ^ i
    /\ Z.abs x * 2 ^ 23 / 2 ^ i * 2 ^ i = Z.abs x * 2 ^ 23) as [Hr1 Hr2].
  { apply round_away_exact; [lia|]. destruct (Z.eq_dec i 24) as [Hi|].
    - assert (Z.abs x = 2 ^ i) as -> by (rewrite Hi in *; lia).
      rewrite Z.mul_comm. apply Z.mod_mul. lia.
    - replace 23 with (23 - i + i) by lia. rewrite Z.pow_add_r, Z.mul_assoc by lia.
      apply Z.mod_mul. lia. }
  rewrite Hr1 in Hm. unfold round_fields. fold m.
  assert (round_away (m * 2 ^ 7) (2 ^ (157 - (127 + i + k))) = Z.abs x) as ->;
    [|by destruct (Z.ltb_spec x 0); simpl; lia].
  assert (m * 2 ^ 7 = Z.abs x * 2 ^ (157 - (127 + i + k))) as Hm'.
  { apply (Z.mul_reg_r _ _ (2 ^ k * 2 ^ i)); [lia|].
    replace (m * 2 ^ 7 * (2 ^ k * 2 ^ i)) with (m * 2 ^ k * 2 ^ i * 2 ^ 7) by ring.
    rewrite Hm, Hr2, <- !Z.mul_assoc, <- !Z.pow_add_r by lia. do 2 f_equal. lia. }
  rewrite Hm'. assert (0 < 2 ^ (157 - (127 + i + k))) as Hp by (apply Z.pow_pos_nonneg; lia).
  destruct (round_away_exact (Z.abs x * 2 ^ (157 - (127 + i + k))) (2 ^ (157 - (127 + i + k))))
    as [-> _]; [done|apply Z.mod_mul; lia|]. apply Z.div_mul. lia.
Qed.

Lemma fcvt_round_trip_witness : fcvtws (fcvtsw (-12345)) = -12345.
Proof. apply (fcvt_round_trip (-12345)). lia. Defined.

(** ** Ranges of the results *)

Lemma mkfloat_ok s e m : u32_ok (mkfloat s e m).
Proof. apply wrap32_ok. Qed.

Lemma fcvtsw_ok x : u32_ok (fcvtsw x).
Proof. unfold fcvtsw. cbv zeta. apply mkfloat_ok. Qed.

Lemma fcvtws_ok x : u32_ok x -> i32_ok (fcvtws x).
Proof.
  intros Hx. rewrite fcvtws_eq by done. destruct (fields_bits x Hx) as (_ & He & Hm).
  unfold i32_ok. destruct (Z.leb_spec (exp_field x) 157); [|lia].
  pose proof (round_away_bound (sig (man_field x) * 2 ^ 7) (157 - exp_field x)
    ltac:(unfold sig; lia) ltac:(lia)).
  unfold round_fields. case_match; lia.
Qed.

Section Ranges.
Context `{Profile}.

Lemma fdiv_ok x1 x2 : u32_ok (fdiv x1 x2).
Proof. unfold fdiv. cbv zeta. apply mkfloat_ok. Qed.

Lemma fsqrt_ok x : u32_ok (fsqrt x).
Proof.
  unfold fsqrt. cbv zeta. generalize (if Z.lxor (slice x 24 15) 512 <? 512
    then fsqrt_low (Z.lxor (slice x 24 15) 512) else fsqrt_high (Z.lxor (slice x 24 15) 512)).
  intros []. apply mkfloat_ok.
Qed.

Lemma ffloor_ok x : u32_ok x -> u32_ok (ffloor x).
Proof.
  intros Hx. unfold ffloor. destruct (157 <? _); [done|].
  destruct (f32_ge _ _); [apply fcvtsw_ok|apply f32_of_f64_ok].
Qed.

Lemma fmul_range x1 x2 : u32_ok (fmul x1 x2).
Proof. unfold fmul. cbv zeta. apply mkfloat_ok. Qed.
End Ranges.

#[export] Hint Resolve fcvtsw_ok fdiv_ok fsqrt_ok ffloor_ok fmul_range : sim.
