(* ===== verification/Io.v ===== *)
(** * Input and output ([core_sim/src/io.rs], [core_sim/src/ppm.rs])

    The traits [Input] and [Output] are classes, with the laws that the clients
    rely on in [InputOk]; the implementations are instances.  An [anyhow] error
    is its message. *)
From S2P Require Import Prelude Word.

Class Input (I : Type) := {
  inw : ST I string Z;
  finw : ST I string Z
}.

Class Output (O : Type) := { outb : Z -> ST O string () }.

(** The values an input delivers are words (an [f32] is its bit pattern). *)
Class InputOk (I : Type) `{Input I} := {
  in_ok : I -> Prop;
  inw_ok i : in_ok i ->
    in_ok (inw i).2 /\ forall v, (inw i).1 = Ok v -> u32_ok v;
  finw_ok i : in_ok i ->
    in_ok (finw i).2 /\ forall v, (finw i).1 = Ok v -> u32_ok v
}.

(** ** EmptyIO *)

Inductive EmptyIO := emptyio_new.

#[export] Instance EmptyIO_input : Input EmptyIO := {
  inw := throw "inw called";
  finw := throw "finw called"
}.

#[export] Instance EmptyIO_output : Output EmptyIO := { outb _ := throw "outb called" }.

#[export] Program Instance EmptyIO_ok : InputOk EmptyIO := { in_ok _ := True }.
Solve Obligations with done.

(** ** BinaryInput *)

Record BinaryInput := mkBinaryInput { bi_content : list Z; read_index : Z }.

Definition binaryinput_new (content : list Z) : BinaryInput := mkBinaryInput content 0.

(** The word at [read_index]; the index is not advanced. *)
Definition binary_read : ST BinaryInput string Z := fun b =>
  let i := Z.to_nat (read_index b) in
  (match drop i (bi_content b) with
   | b0 :: b1 :: b2 :: b3 :: _ => Ok (from_le_bytes b0 b1 b2 b3)
   | _ => Panic SliceOutOfBounds
   end, b).

#[export] Instance BinaryInput_input : Input BinaryInput := {
  inw := binary_read;
  finw := binary_read
}.

Lemma binary_read_ok b :
  Forall u8_ok (bi_content b) ->
  Forall u8_ok (bi_content (binary_read b).2) /\
  forall v, (binary_read b).1 = Ok v -> u32_ok v.
Proof.
  intros Hb. split; [done|]. intros v. unfold binary_read. simpl.
  pose proof (Forall_drop _ (Z.to_nat (read_index b)) _ Hb) as Hd.
  destruct (drop _ _) as [|b0 [|b1 [|b2 [|b3 l]]]]; intros; simplify_eq.
  decompose_Forall_hyps. by apply from_le_bytes_ok.
Qed.

#[export] Program Instance BinaryInput_ok : InputOk BinaryInput := {
  in_ok b := Forall u8_ok (bi_content b)
}.
Next Obligation. apply binary_read_ok. Qed.
Next Obligation. apply binary_read_ok. Qed.

(** ** BinaryOutput *)

Record BinaryOutput := mkBinaryOutput { bo_content : list Z }.

Definition binaryoutput_new : BinaryOutput := mkBinaryOutput [].

(** [self.content.push(c)] *)
Definition binary_outb {E} (c : Z) : ST BinaryOutput E () :=
  modify (fun o => mkBinaryOutput (bo_content o ++ [c])).

#[export] Instance BinaryOutput_output : Output BinaryOutput := { outb := binary_outb }.

(** ** PPMDataV6 *)

Record PPMData := mkPPM { ppm_inner : list Z }.

Definition ppmdata_new : PPMData := mkPPM [].

Definition ppm_outb {E} (c : Z) : ST PPMData E () :=
  modify (fun o => mkPPM (ppm_inner o ++ [c])).

#[export] Instance PPMData_output : Output PPMData := { outb := ppm_outb }.

(** ** Sequences of calls *)

Fixpoint inw_n {I} `{Input I} (n : nat) : ST I string (list Z) :=
  match n with
  | O => mret []
  | S n => v ← inw; vs ← inw_n n; mret (v :: vs)
  end.

Fixpoint outb_all {O} `{Output O} (cs : list Z) : ST O string () :=
  match cs with
  | [] => mret ()
  | c :: cs => _ ← outb c; outb_all cs
  end.

(** A binary input never advances: every read of a stream delivers its first word,
    however many are made. *)
Theorem binary_input_repeats (n : nat) b0 b1 b2 b3 rest :
  inw_n n (binaryinput_new (b0 :: b1 :: b2 :: b3 :: rest))
  = (Ok (replicate n (from_le_bytes b0 b1 b2 b3)), binaryinput_new (b0 :: b1 :: b2 :: b3 :: rest)).
Proof.
  induction n as [|n IH]; [done|]. cbn [inw_n].
  erewrite run_ok by done. by rewrite (run_ok _ _ _ _ _ IH).
Qed.

Lemma ppm_outb_all cs o : outb_all cs o = (Ok (), mkPPM (ppm_inner o ++ cs)).
Proof.
  revert o. induction cs as [|c cs IH]; intros o; cbn [outb_all].
  - rewrite app_nil_r. by destruct o.
  - erewrite run_ok by done. rewrite IH. simpl. by rewrite <- app_assoc.
Qed.

Lemma binary_outb_all cs o : outb_all cs o = (Ok (), mkBinaryOutput (bo_content o ++ cs)).
Proof.
  revert o. induction cs as [|c cs IH]; intros o; cbn [outb_all].
  - rewrite app_nil_r. by destruct o.
  - erewrite run_ok by done. rewrite IH. simpl. by rewrite <- app_assoc.
Qed.
