(* ===== verification/FloatProps.v ===== *)
(** * Exact results of float arithmetic

    The Standard Library's specification of floats rounds every result; these
    lemmas compute it where nothing is rounded: what is representable is
    delivered as it is, integers are, and finite floats compare as numbers. *)
From Stdlib Require Import SpecFloat.
From S2P Require Import Prelude Word Float32.

(** ** Digits and shifts *)

Lemma digits2_log2 p : Zpos (digits2_pos p) = Z.log2 (Zpos p) + 1.
Proof.
  induction p as [p IH|p IH|]; cbn [digits2_pos]; [| |done]; rewrite Pos2Z.inj_succ, IH.
  - change (Zpos p~1) with (2 * Zpos p + 1). rewrite Z.log2_succ_double; lia.
  - change (Zpos p~0) with (2 * Zpos p). rewrite Z.log2_double; lia.
Qed.

Lemma iter_double m d : Zpos (Pos.iter xO m d) = Zpos m * 2 ^ Zpos d.
Proof.
  revert m. induction d as [|d IH] using Pos.peano_ind; intros m; [simpl; lia|].
  rewrite Pos.iter_succ. rewrite Pos2Z.inj_xO, IH, Pos2Z.inj_succ, Z.pow_succ_r by lia. ring.
Qed.

Definition exact (m : Z) : shr_record := {| shr_m := m; shr_r := false; shr_s := false |}.

Lemma shr_1_even m : shr_1 (exact (2 * m)) = exact m.
Proof. by destruct m as [|[]|[]]. Qed.

Lemma iter_shr n m : SpecFloat.iter_pos shr_1 n (exact (m * 2 ^ Zpos n)) = exact m.
Proof.
  revert m. induction n as [n IH|n IH|]; intros m; cbn [SpecFloat.iter_pos].
  - replace (m * 2 ^ Zpos n~1) with (2 * (m * 2 ^ Zpos n * 2 ^ Zpos n)).
    2: { replace (Zpos n~1) with (Zpos n + Zpos n + 1) by lia. rewrite !Z.pow_add_r by lia. ring. }
    by rewrite shr_1_even, !IH.
  - replace (m * 2 ^ Zpos n~0) with (m * 2 ^ Zpos n * 2 ^ Zpos n).
    2: { replace (Zpos n~0) with (Zpos n + Zpos n) by lia. rewrite Z.pow_add_r by lia. ring. }
    by rewrite !IH.
  - change (2 ^ 1) with 2. rewrite Z.mul_comm. apply shr_1_even.
Qed.

(** ** Rounding what is representable *)

Section Exact.
Context (prec emax : Z).

(** [m * 2 ^ e] in the form in which the format holds it. *)
Definition canonical (m : positive) (e : Z) : Prop :=
  fexp prec emax (Zpos (digits2_pos m) + e) = e /\ e <= emax - prec.

Lemma shr_none m e : fexp prec emax (Zpos (digits2_pos m) + e) = e ->
  shr_fexp prec emax (Zpos m) e loc_Exact = (exact (Zpos m), e).
Proof. intros He. unfold shr_fexp. cbn [Zdigits2]. by rewrite He, Z.sub_diag. Qed.

(** The last rounding, of a number that is a multiple of the unit. *)
Lemma round_aux_exact s m m' e n :
  0 <= n -> Zpos m' = Zpos m * 2 ^ n -> canonical m (e + n) ->
  binary_round_aux prec emax s (Zpos m') e loc_Exact = S754_finite s m (e + n).
Proof.
  intros Hn Hm [Hc He]. unfold binary_round_aux.
  assert (shr_fexp prec emax (Zpos m') e loc_Exact = (exact (Zpos m), e + n)) as ->.
  { unfold shr_fexp. cbn [Zdigits2 shr_record_of_loc]. fold (exact (Zpos m')).
    assert (Zpos (digits2_pos m') + e = Zpos (digits2_pos m) + (e + n)) as ->.
    { rewrite !digits2_log2, Hm, Z.log2_mul_pow2; lia. }
    rewrite Hc. replace (e + n - e) with n by lia. destruct n as [|n|n]; [|by rewrite Hm; unfold shr; rewrite iter_shr|lia].
    rewrite Z.mul_1_r in Hm. by rewrite Hm, Z.add_0_r. }
  cbn [exact loc_of_shr_record shr_m round_nearest_even]. rewrite shr_none by done. cbn [exact shr_m].
  by destruct (Z.leb_spec (e + n) (emax - prec)); [|lia].
Qed.

(** Rounding a number that has a canonical form gives that form. *)
Lemma round_exact s m e m' e' :
  canonical m' e' -> (e' <= e /\ Zpos m' = Zpos m * 2 ^ (e - e')) \/ (e <= e' /\ Zpos m = Zpos m' * 2 ^ (e' - e)) ->
  binary_round prec emax s m e = S754_finite s m' e'.
Proof.
  intros Hc Hm. unfold binary_round.
  assert (Zpos (digits2_pos m) + e = Zpos (digits2_pos m') + e') as ->.
  { rewrite !digits2_log2. destruct Hm as [[He ->]|[He ->]]; rewrite Z.log2_mul_pow2; lia. }
  rewrite (proj1 Hc). unfold shl_align. destruct Hm as [[He Hm]|[He Hm]].
  - destruct (e' - e) as [|d|d] eqn:Hd; [|lia|].
    + assert (e' = e) as -> by lia. rewrite Z.sub_diag, Z.mul_1_r in Hm. injection Hm as ->.
      rewrite (round_aux_exact s m m e 0); [by rewrite Z.add_0_r|lia|lia|by rewrite Z.add_0_r].
    + replace (e - e') with (Zpos d) in Hm by lia. rewrite <- iter_double in Hm. injection Hm as <-.
      rewrite (round_aux_exact s m' m' e' 0); [by rewrite Z.add_0_r|lia|lia|by rewrite Z.add_0_r].
  - assert (match e' - e with Zneg d => (Pos.iter xO m d, e') | _ => (m, e) end = (m, e)) as ->
      by (destruct (e' - e) eqn:Hd; [done|done|lia]).
    rewrite (round_aux_exact s m' m e (e' - e)); [f_equal; lia|lia|done|].
    by replace (e + (e' - e)) with e' by lia.
Qed.

(** The canonical form of an integer: as many digits as the format has. *)
Definition int_mantissa (w : Z) : positive := Z.to_pos (Z.abs w * 2 ^ (prec - 1 - Z.log2 (Z.abs w))).

Context (Hprec : 1 < prec) (Hemax : prec <= emax).

Lemma int_mantissa_eq w :
  w <> 0 -> Z.abs w < 2 ^ prec -> Zpos (int_mantissa w) = Z.abs w * 2 ^ (prec - 1 - Z.log2 (Z.abs w)).
Proof.
  intros Hw Hb. apply Z2Pos.id. pose proof (proj1 (Z.log2_lt_pow2 (Z.abs w) prec ltac:(lia)) Hb).
  assert (0 < 2 ^ (prec - 1 - Z.log2 (Z.abs w))) by (apply Z.pow_pos_nonneg; lia). lia.
Qed.

Lemma int_canonical w :
  w <> 0 -> Z.abs w < 2 ^ prec -> canonical (int_mantissa w) (Z.log2 (Z.abs w) - (prec - 1)).
Proof.
  intros Hw Hb. pose proof (proj1 (Z.log2_lt_pow2 (Z.abs w) prec ltac:(lia)) Hb) as Hl.
  unfold canonical. rewrite digits2_log2, int_mantissa_eq, Z.log2_mul_pow2 by lia.
  pose proof (Z.log2_nonneg (Z.abs w)). unfold fexp, emin. lia.
Qed.

(** An integer is not rounded, whatever the exponent it is written with. *)
Lemma normalize_int w k z :
  w <> 0 -> Z.abs w < 2 ^ prec -> 0 <= k ->
  binary_normalize prec emax (w * 2 ^ k) (- k) z =
  S754_finite (w <? 0) (int_mantissa w) (Z.log2 (Z.abs w) - (prec - 1)).
Proof.
  intros Hw Hb Hk. pose proof (proj1 (Z.log2_lt_pow2 (Z.abs w) prec ltac:(lia)) Hb) as Hl.
  pose proof (Z.pow_pos_nonneg 2 k ltac:(lia) Hk) as Hp.
  assert (forall m s, Zpos m = Z.abs w * 2 ^ k ->
    binary_round prec emax s m (- k) = S754_finite s (int_mantissa w) (Z.log2 (Z.abs w) - (prec - 1))) as Hr.
  { intros m s Hm. apply round_exact; [by apply int_canonical|]. rewrite int_mantissa_eq, Hm by done.
    set (i := Z.log2 (Z.abs w)) in *. destruct (Z.le_gt_cases (i - (prec - 1)) (- k)).
    - left. split; [lia|]. rewrite <- Z.mul_assoc, <- Z.pow_add_r by lia. do 2 f_equal. lia.
    - right. split; [lia|]. rewrite <- Z.mul_assoc, <- Z.pow_add_r by lia. do 2 f_equal. lia. }
  unfold binary_normalize. destruct (w * 2 ^ k) as [|m|m] eqn:Hm.
  - nia.
  - assert (0 < w) by nia. destruct (Z.ltb_spec w 0); [lia|]. apply Hr. rewrite Z.abs_eq; lia.
  - assert (w < 0) by nia. destruct (Z.ltb_spec w 0); [|lia]. apply Hr. rewrite Z.abs_neq by lia. lia.
Qed.
End Exact.

(** ** Floats as numbers *)

(** The mantissa and the exponent of a finite float. *)
Definition f32_form (m : positive) (e : Z) : Prop :=
  Zpos m < 2 ^ 24 /\ - 149 <= e /\ (e = - 149 \/ 2 ^ 23 <= Zpos m).

Lemma form_lt m1 e1 m2 e2 :
  f32_form m1 e1 -> f32_form m2 e2 -> e1 < e2 -> Zpos m1 * 2 ^ (e1 + 149) < Zpos m2 * 2 ^ (e2 + 149).
Proof.
  intros (H1 & He1 & _) (_ & He2 & H2) He. assert (2 ^ 23 <= Zpos m2) as Hm by lia.
  replace (e2 + 149) with (e1 + 149 + (e2 - e1 - 1) + 1) by lia.
  pose proof (Z.pow_pos_nonneg 2 (e1 + 149) ltac:(lia) ltac:(lia)).
  pose proof (Z.pow_pos_nonneg 2 (e2 - e1 - 1) ltac:(lia) ltac:(lia)).
  rewrite (Z.pow_add_r 2 (_ + _)), (Z.pow_add_r 2 (e1 + 149)) by lia.
  apply Z.lt_le_trans with (2 ^ 24 * 2 ^ (e1 + 149)); [nia|].
  replace (2 ^ 24) with (2 ^ 23 * 2) by done. change (2 ^ 1) with 2.
  set (a := 2 ^ (e1 + 149)) in *. set (b := 2 ^ (e2 - e1 - 1)) in *. assert (a <= a * b) by nia.
  trans (2 ^ 23 * (a * b * 2)); [lia|]. apply Z.mul_le_mono_nonneg_r; lia.
Qed.

Lemma form_compare m1 e1 m2 e2 :
  f32_form m1 e1 -> f32_form m2 e2 ->
  (match e1 ?= e2 with Lt => Lt | Gt => Gt | Eq => Pos.compare_cont Eq m1 m2 end) =
  (Zpos m1 * 2 ^ (e1 + 149) ?= Zpos m2 * 2 ^ (e2 + 149)).
Proof.
  intros H1 H2. destruct (Z.compare_spec e1 e2) as [->|He|He]; symmetry.
  - rewrite <- Zmult_compare_compat_r; [done|]. apply Z.lt_gt, Z.pow_pos_nonneg; destruct H2; lia.
  - apply Z.compare_lt_iff. by apply form_lt.
  - apply Z.compare_gt_iff. by apply form_lt.
Qed.

Lemma form_pos m e : f32_form m e -> 0 < Zpos m * 2 ^ (e + 149).
Proof. intros (_ & He & _). apply Z.mul_pos_pos; [lia|]. apply Z.pow_pos_nonneg; lia. Qed.

(** A finite float: a zero, or a number in canonical form. *)
Definition sf_finite (x : spec_float) : Prop :=
  match x with S754_zero _ => True | S754_finite _ m e => f32_form m e | _ => False end.

Lemma decode_finite b : u32_ok b -> exp_field b < 255 -> sf_finite (decode32 b).
Proof.
  intros Hb He. assert (0 <= man_field b < 2 ^ 23) as Hm by (apply Z.mod_pos_bound; lia).
  assert (0 <= exp_field b) as He0 by (apply Z.mod_pos_bound; lia). unfold decode32.
  destruct (Z.eqb_spec (exp_field b) 255); [lia|]. destruct (Z.eqb_spec (exp_field b) 0).
  - destruct (man_field b) as [|p|p]; simpl; [done| |lia]. split_and!; [lia|lia|by left].
  - destruct (man_field b + 2 ^ 23) as [|p|p] eqn:Hp; [lia| |lia]. simpl. split_and!; lia.
Qed.

(** The value of a finite float, in units of the smallest one. *)
Definition sval (x : spec_float) : Z :=
  match x with S754_finite s m e => cond_Zopp s (Zpos m * 2 ^ (e + 149)) | _ => 0 end.

(** The comparison of finite floats is that of their values. *)
Lemma compare_value x y : sf_finite x -> sf_finite y -> SFcompare x y = Some (sval x ?= sval y).
Proof.
  intros Hx Hy. destruct x as [s1|s1| |s1 m1 e1], y as [s2|s2| |s2 m2 e2]; try done;
    cbn [sf_finite] in Hx, Hy; cbn [SFcompare sval];
    try pose proof (form_pos _ _ Hx) as Px; try pose proof (form_pos _ _ Hy) as Py; f_equal; symmetry.
  - destruct s2; cbn [cond_Zopp]; [apply Z.compare_gt_iff|apply Z.compare_lt_iff]; lia.
  - destruct s1; cbn [cond_Zopp]; [apply Z.compare_lt_iff|apply Z.compare_gt_iff]; lia.
  - pose proof (form_compare m1 e1 m2 e2 Hx Hy) as Hc. destruct s1, s2; cbn [cond_Zopp].
    + rewrite Z.compare_opp, Z.compare_antisym, <- Hc. by destruct (e1 ?= e2).
    + apply Z.compare_lt_iff. lia.
    + apply Z.compare_gt_iff. lia.
    + done.
Qed.

Lemma ge_value a b :
  u32_ok a -> u32_ok b -> exp_field a < 255 -> exp_field b < 255 ->
  f32_ge a b = (sval (decode32 b) <=? sval (decode32 a)).
Proof.
  intros Ha Hb Ea Eb. unfold f32_ge, SFleb. rewrite compare_value by (by apply decode_finite).
  unfold Z.leb. by destruct (_ ?= _).
Qed.
