(* ===== verification/Native.v ===== *)
(** * The floating point functions without the emulator ([core_sim/src/fpu_wrapper.rs])

    In a build without the feature [fpu_sim] the functions of [fpu_wrapper.rs] are
    the operations of the host's [f32].  This file proves where the two builds
    compute the same results, and by how much they differ elsewhere. *)
From Stdlib Require Import SpecFloat.
From S2P Require Import Prelude Word Float32 Fpu FloatProps.

(** The float that is nearest to an integer ([as f32]). *)
Definition f32_of_int (z : Z) : Z := encode32 0 (binary_normalize f32_prec f32_emax z 0 false).

Module Native.
Section Native.
Context `{Profile}.

Definition fmul (arg1 arg2 : Z) : Z := f32_mul arg1 arg2.
Definition fdiv (arg1 arg2 : Z) : Z :=
  encode32 (nan_result arg1 arg2) (SFdiv f32_prec f32_emax (decode32 arg1) (decode32 arg2)).
Definition fsqrt (arg1 : Z) : Z :=
  encode32 (nan_result arg1 arg1) (SFsqrt f32_prec f32_emax (decode32 arg1)).
Definition fcvtsw (arg1 : Z) : Z := f32_of_int arg1.

(** [f32::round], which rounds ties away from zero, and the cast to [i32], which
    stops at the ends of the type and takes a NaN to 0. *)
Definition fcvtws (arg1 : Z) : Z :=
  match decode32 arg1 with
  | S754_zero _ | S754_nan => 0
  | S754_infinity s => if s then - 2 ^ 31 else 2 ^ 31 - 1
  | S754_finite s m e =>
      let r := if 0 <=? e then Zpos m * 2 ^ e else round_away (Zpos m) (2 ^ (- e)) in
      Z.max (- 2 ^ 31) (Z.min (if s then - r else r) (2 ^ 31 - 1))
  end.

(** [f32::floor]; a zero keeps the sign of the argument. *)
Definition ffloor (arg1 : Z) : Z :=
  match decode32 arg1 with
  | S754_nan => nan_result arg1 arg1
  | S754_finite s m e =>
      if 0 <=? e then arg1
      else encode32 0 (binary_normalize f32_prec f32_emax (cond_Zopp s (Zpos m) / 2 ^ (- e)) 0 s)
  | _ => arg1
  end.

Definition fhalf (arg1 : Z) : Z := f32_mul arg1 0x3F000000.
End Native.
End Native.

(** ** Integers as floats *)

Lemma f32_of_int_bits z :
  z <> 0 -> Z.abs z < 2 ^ 24 ->
  f32_of_int z =
  pack (Z.b2z (z <? 0)) (127 + Z.log2 (Z.abs z)) (Z.abs z * 2 ^ (23 - Z.log2 (Z.abs z)) - 2 ^ 23).
Proof.
  intros Hz Hb. unfold f32_of_int.
  pose proof (normalize_int 24 128 ltac:(lia) ltac:(lia) z 0 false Hz Hb ltac:(lia)) as Hn.
  rewrite Z.mul_1_r in Hn. change (- 0) with 0 in Hn. rewrite Hn. cbn [encode32].
  rewrite int_mantissa_eq by (lia || done).
  change (24 - 1) with 23. pose proof (Z.log2_nonneg (Z.abs z)).
  pose proof (proj1 (Z.log2_lt_pow2 (Z.abs z) 24 ltac:(lia)) Hb). set (i := Z.log2 (Z.abs z)) in *.
  assert (2 ^ 23 <= Z.abs z * 2 ^ (23 - i) < 2 ^ 24) as Hm.
  { destruct (Z.log2_spec (Z.abs z)) as [H1 H2]; [lia|]. fold i in H1, H2.
    replace (2 ^ 23) with (2 ^ i * 2 ^ (23 - i)) by (rewrite <- Z.pow_add_r by lia; f_equal; lia).
    replace (2 ^ 24) with (2 ^ Z.succ i * 2 ^ (23 - i)) by (rewrite <- Z.pow_add_r by lia; f_equal; lia).
    pose proof (Z.pow_pos_nonneg 2 (23 - i) ltac:(lia) ltac:(lia)). nia. }
  destruct (Z.ltb_spec (Z.abs z * 2 ^ (23 - i)) (2 ^ 23)); [lia|].
  replace (i - 23 + 150) with (127 + i) by lia. apply wrap32_small, pack_ok.
  split_and!; try lia; by destruct (z <? 0).
Qed.

(** The emulator's conversion of a number that a float can hold. *)
Lemma fcvtsw_exact z m :
  i32_ok z -> z <> 0 -> 2 ^ 23 <= m < 2 ^ 24 -> Z.abs z * 2 ^ 23 = m * 2 ^ Z.log2 (Z.abs z) ->
  fcvtsw z = pack (Z.b2z (z <? 0)) (127 + Z.log2 (Z.abs z)) (m - 2 ^ 23).
Proof.
  intros Hz Hne Hm Hv. pose proof (fcvtsw_spec z Hz) as Hs.
  destruct (Z.eqb_spec z 0); [done|]. cbv zeta in Hs. set (i := Z.log2 (Z.abs z)) in *.
  pose proof (Z.log2_nonneg (Z.abs z)) as H0. fold i in H0.
  destruct Hs as (Hu & Hsign & k & Hk & He & Hman).
  assert (round_away (Z.abs z * 2 ^ 23) (2 ^ i) = m) as Hr.
  { destruct (round_away_exact (Z.abs z * 2 ^ 23) (2 ^ i)) as [-> _].
    - apply Z.pow_pos_nonneg; lia.
    - rewrite Hv. apply Z.mod_mul, Z.pow_nonzero; lia.
    - rewrite Hv. apply Z.div_mul, Z.pow_nonzero; lia. }
  rewrite Hr in Hman. destruct (fields_bits _ Hu) as (_ & _ & Hf). unfold sig in Hman.
  destruct Hk as [-> | ->]; [|simpl in Hman; lia].
  rewrite <- (pack_bits _ Hu), Hsign, He, Z.add_0_r. f_equal.
  simpl in Hman. lia.
Qed.

(** ** The two conversions *)

Lemma fcvtsw_native x : - 2 ^ 24 <= x <= 2 ^ 24 -> fcvtsw x = Native.fcvtsw x.
Proof.
  intros Hx. unfold Native.fcvtsw. destruct (Z.eq_dec x 0) as [->|Hne]; [done|].
  destruct (Z.eq_dec (Z.abs x) (2 ^ 24)) as [He|He].
  { assert (x = 2 ^ 24 \/ x = - 2 ^ 24) as [-> | ->] by lia; done. }
  assert (Z.abs x < 2 ^ 24) as Hb by lia. rewrite f32_of_int_bits by done.
  pose proof (Z.log2_nonneg (Z.abs x)). pose proof (proj1 (Z.log2_lt_pow2 (Z.abs x) 24 ltac:(lia)) Hb).
  destruct (Z.log2_spec (Z.abs x)) as [H1 H2]; [lia|]. set (i := Z.log2 (Z.abs x)) in *.
  apply fcvtsw_exact; [unfold i32_ok; lia|done| |fold i].
  - replace (2 ^ 23) with (2 ^ i * 2 ^ (23 - i)) by (rewrite <- Z.pow_add_r by lia; f_equal; lia).
    replace (2 ^ 24) with (2 ^ Z.succ i * 2 ^ (23 - i)) by (rewrite <- Z.pow_add_r by lia; f_equal; lia).
    pose proof (Z.pow_pos_nonneg 2 (23 - i) ltac:(lia) ltac:(lia)). nia.
  - rewrite <- Z.mul_assoc, <- Z.pow_add_r by lia. do 2 f_equal. lia.
Qed.

(** The fields of a float and what they decode to. *)
Lemma decode_normal x :
  u32_ok x -> 1 <= exp_field x <= 254 ->
  exists m, decode32 x = S754_finite (negb (sign_bit x =? 0)) m (exp_field x - 150) /\
    Zpos m = sig (man_field x).
Proof.
  intros Hx He. destruct (fields_bits x Hx) as (_ & _ & Hm). unfold decode32.
  destruct (Z.eqb_spec (exp_field x) 255); [lia|]. destruct (Z.eqb_spec (exp_field x) 0); [lia|].
  unfold sig. destruct (man_field x + 2 ^ 23) as [|p|p] eqn:Hp; [lia| |lia]. exists p. split; [done|lia].
Qed.

Lemma decode_small x :
  u32_ok x -> exp_field x = 0 ->
  decode32 x = S754_zero (negb (sign_bit x =? 0)) /\ man_field x = 0 \/
  exists m, decode32 x = S754_finite (negb (sign_bit x =? 0)) m (- 149) /\ Zpos m = man_field x.
Proof.
  intros Hx He. destruct (fields_bits x Hx) as (_ & _ & Hm). unfold decode32. rewrite He. cbn [Z.eqb].
  destruct (man_field x) as [|p|p]; [by left| |lia]. right. by exists p.
Qed.

(** What is less than a half is rounded to zero. *)
Lemma round_away_small n d : 0 <= n -> 2 * n < d -> round_away n d = 0.
Proof. intros. unfold round_away. apply Z.div_small. lia. Qed.

Lemma round_fields_signed s e m :
  round_fields s e m = cond_Zopp (negb (s =? 0)) (round_away (sig m * 2 ^ 7) (2 ^ (157 - e))).
Proof. unfold round_fields. by destruct (s =? 0). Qed.

(** The units of the emulator are those of the mantissa. *)
Lemma round_away_scale m e :
  e <= 157 ->
  round_away (m * 2 ^ 7) (2 ^ (157 - e)) =
  if 0 <=? e - 150 then m * 2 ^ (e - 150) else round_away m (2 ^ (- (e - 150))).
Proof.
  intros He. destruct (Z.leb_spec 0 (e - 150)).
  - assert (m * 2 ^ 7 = m * 2 ^ (e - 150) * 2 ^ (157 - e)) as ->.
    { rewrite <- Z.mul_assoc, <- Z.pow_add_r by lia. do 2 f_equal. lia. }
    assert (0 < 2 ^ (157 - e)) by (apply Z.pow_pos_nonneg; lia).
    destruct (round_away_exact (m * 2 ^ (e - 150) * 2 ^ (157 - e)) (2 ^ (157 - e))) as [-> _];
      [done|apply Z.mod_mul; lia|apply Z.div_mul; lia].
  - replace (157 - e) with (- (e - 150) + 7) by lia. rewrite Z.pow_add_r by lia. unfold round_away.
    assert (0 < 2 ^ (- (e - 150))) by (apply Z.pow_pos_nonneg; lia). set (d := 2 ^ (- (e - 150))) in *.
    replace (2 * (m * 2 ^ 7) + d * 2 ^ 7) with ((2 * m + d) * 2 ^ 7) by ring.
    replace (2 * (d * 2 ^ 7)) with (2 * d * 2 ^ 7) by ring. apply Z.div_mul_cancel_r; lia.
Qed.

Lemma fcvtws_native x : u32_ok x -> exp_field x <= 157 -> fcvtws x = Native.fcvtws x.
Proof.
  intros Hx He. rewrite fcvtws_eq by done. destruct (Z.leb_spec (exp_field x) 157); [|lia].
  destruct (fields_bits x Hx) as (_ & He0 & Hm). rewrite round_fields_signed.
  pose proof (round_away_bound (sig (man_field x) * 2 ^ 7) (157 - exp_field x)
    ltac:(unfold sig; lia) ltac:(lia)) as Hb.
  unfold Native.fcvtws. destruct (Z.eq_dec (exp_field x) 0) as [E|E].
  - rewrite round_away_small; [|unfold sig; lia|rewrite E; unfold sig; lia].
    destruct (decode_small x Hx E) as [[-> _]|(m & -> & Hm')]; [by destruct (negb _)|].
    change (0 <=? -149) with false. cbv iota.
    rewrite round_away_small; [by destruct (negb _)|lia|lia].
  - destruct (decode_normal x Hx ltac:(lia)) as (m & -> & Hm'). rewrite <- Hm' in *.
    rewrite round_away_scale in * by lia. cbv zeta. set (r := if 0 <=? _ then _ else _) in *.
    destruct (negb _); cbn [cond_Zopp]; lia.
Qed.

(** ** The floor *)

(** The floor, from the rounded number and one comparison. *)
Lemma floor_of_round s m d :
  0 < d -> 0 <= m ->
  let v := cond_Zopp s m in
  let r := cond_Zopp s (round_away m d) in
  v / d = if r * d <=? v then r else r - 1.
Proof.
  intros Hd Hm. cbv zeta. unfold round_away.
  pose proof (Z.div_mod (2 * m + d) (2 * d) ltac:(lia)) as Hq.
  pose proof (Z.mod_pos_bound (2 * m + d) (2 * d) ltac:(lia)) as Hr.
  set (q := (2 * m + d) / (2 * d)) in *. clearbody q. set (k := (2 * m + d) mod (2 * d)) in *. clearbody k.
  assert (2 * m + d = 2 * (q * d) + k) as Hq' by lia. clear Hq.
  destruct s; cbn [cond_Zopp].
  - destruct (Z.leb_spec (- q * d) (- m)); symmetry.
    + apply (Z.div_unique_pos _ _ _ (q * d - m)); lia.
    + apply (Z.div_unique_pos _ _ _ (d + q * d - m)); lia.
  - destruct (Z.leb_spec (q * d) m); symmetry.
    + apply (Z.div_unique_pos _ _ _ (m - q * d)); lia.
    + apply (Z.div_unique_pos _ _ _ (m - q * d + d)); lia.
Qed.

Lemma decode_int z :
  Z.abs z < 2 ^ 24 ->
  decode32 (f32_of_int z) =
  if z =? 0 then S754_zero false
  else S754_finite (z <? 0) (int_mantissa 24 z) (Z.log2 (Z.abs z) - 23).
Proof.
  intros Hb. destruct (Z.eqb_spec z 0) as [->|Hz]; [done|].
  pose proof (int_mantissa_eq 24 ltac:(lia) z Hz Hb) as Hm. change (24 - 1) with 23 in Hm.
  pose proof (Z.log2_nonneg (Z.abs z)). pose proof (proj1 (Z.log2_lt_pow2 (Z.abs z) 24 ltac:(lia)) Hb).
  rewrite f32_of_int_bits by done. rewrite <- Hm. set (i := Z.log2 (Z.abs z)) in *.
  assert (2 ^ 23 <= Zpos (int_mantissa 24 z) < 2 ^ 24) as Hr.
  { rewrite Hm. destruct (Z.log2_spec (Z.abs z)) as [H1 H2]; [lia|]. fold i in H1, H2.
    replace (2 ^ 23) with (2 ^ i * 2 ^ (23 - i)) by (rewrite <- Z.pow_add_r by lia; f_equal; lia).
    replace (2 ^ 24) with (2 ^ Z.succ i * 2 ^ (23 - i)) by (rewrite <- Z.pow_add_r by lia; f_equal; lia).
    pose proof (Z.pow_pos_nonneg 2 (23 - i) ltac:(lia) ltac:(lia)). nia. }
  set (b := pack _ _ _). assert (fields_ok (Z.b2z (z <? 0)) (127 + i) (Zpos (int_mantissa 24 z) - 2 ^ 23)) as Hf
    by (split_and!; try lia; by destruct (z <? 0)).
  destruct (pack_fields _ _ _ Hf) as (Hs & He & Hman). fold b in Hs, He, Hman.
  destruct (decode_normal b) as (m & -> & Hm'); [by apply pack_ok|lia|]. rewrite Hs, He.
  rewrite Hman in Hm'. unfold sig in Hm'. assert (m = int_mantissa 24 z) as -> by lia.
  f_equal; [by destruct (z <? 0)|lia].
Qed.

Lemma value_int z : Z.abs z < 2 ^ 24 -> sval (decode32 (f32_of_int z)) = z * 2 ^ 149.
Proof.
  intros Hb. rewrite decode_int by done. destruct (Z.eqb_spec z 0) as [->|Hz]; [done|].
  pose proof (Z.log2_nonneg (Z.abs z)). pose proof (proj1 (Z.log2_lt_pow2 (Z.abs z) 24 ltac:(lia)) Hb).
  cbn [sval]. rewrite int_mantissa_eq by (lia || done). set (i := Z.log2 (Z.abs z)) in *.
  change (24 - 1) with 23. rewrite <- Z.mul_assoc, <- Z.pow_add_r by lia.
  replace (23 - i + (i - 23 + 149)) with 149 by lia. destruct (Z.ltb_spec z 0); cbn [cond_Zopp]; lia.
Qed.

Lemma f64_one : f64_of_Z 1 = S754_finite false (2 ^ 52)%positive (- 52).
Proof. by vm_compute. Qed.

Section Floor.
Context `{Profile}.

(** The subtraction in double precision, and the conversion back, are exact. *)
Lemma int_minus_one z :
  Z.abs z <= 2 ^ 23 -> f32_of_f64 (f64_sub (f64_of_f32 (f32_of_int z)) (f64_of_Z 1)) = f32_of_int (z - 1).
Proof.
  intros Hz. rewrite f64_one. unfold f64_of_f32, f64_sub. rewrite decode_int by lia.
  destruct (Z.eqb_spec z 0) as [->|Hne]; [by vm_compute|].
  pose proof (Z.log2_nonneg (Z.abs z)). pose proof (proj1 (Z.log2_lt_pow2 (Z.abs z) 24 ltac:(lia)) ltac:(lia)).
  cbn [SFsub]. set (i := Z.log2 (Z.abs z)) in *. rewrite Z.min_r by lia.
  assert (cond_Zopp (z <? 0) (Zpos (shl_align (int_mantissa 24 z) (i - 23) (-52)).1) = z * 2 ^ 52) as ->.
  { unfold shl_align. destruct (-52 - (i - 23)) as [|d|d] eqn:Hd; [lia|lia|]. simpl fst.
    rewrite iter_double, int_mantissa_eq by lia. fold i. change (24 - 1) with 23.
    rewrite <- Z.mul_assoc, <- Z.pow_add_r by lia. replace (23 - i + Zpos d) with 52 by lia.
    destruct (Z.ltb_spec z 0); cbn [cond_Zopp]; lia. }
  change (shl_align (2 ^ 52)%positive (-52) (-52)) with ((2 ^ 52)%positive, -52). cbn [fst cond_Zopp].
  change (Zpos (2 ^ 52)) with (2 ^ 52). replace (z * 2 ^ 52 - 2 ^ 52) with ((z - 1) * 2 ^ 52) by ring.
  destruct (Z.eq_dec z 1) as [->|]; [by vm_compute|].
  pose proof (normalize_int 53 1024 ltac:(lia) ltac:(lia) (z - 1) 52 false ltac:(lia) ltac:(lia) ltac:(lia)) as Hn.
  change (Z.opp 52) with (-52) in Hn. rewrite Hn.
  unfold f32_of_f64, f32_of_int. set (w := z - 1) in *. assert (w <> 0) as Hw by lia.
  pose proof (Z.log2_nonneg (Z.abs w)). pose proof (proj1 (Z.log2_lt_pow2 (Z.abs w) 24 ltac:(lia)) ltac:(lia)).
  pose proof (normalize_int 24 128 ltac:(lia) ltac:(lia) w 0 false Hw ltac:(lia) ltac:(lia)) as H0'.
  rewrite Z.mul_1_r in H0'. change (- 0) with 0 in H0'. rewrite H0'.
  set (j := Z.log2 (Z.abs w)) in *. change (53 - 1) with 52.
  assert (cond_Zopp (w <? 0) (Zpos (int_mantissa 53 w)) = w * 2 ^ (52 - j)) as ->.
  { rewrite int_mantissa_eq by lia. fold j. change (53 - 1) with 52. destruct (Z.ltb_spec w 0); cbn [cond_Zopp]; lia. }
  replace (j - 52) with (- (52 - j)) by lia.
  by rewrite (normalize_int 24 128 ltac:(lia) ltac:(lia) w (52 - j)) by lia.
Qed.
(** The emulator's floor of a float with a fraction, from its mantissa. *)
Lemma ffloor_fraction x m :
  u32_ok x -> 1 <= exp_field x < 150 -> decode32 x = S754_finite (negb (sign_bit x =? 0)) m (exp_field x - 150) ->
  Zpos m = sig (man_field x) ->
  ffloor x = f32_of_int (cond_Zopp (negb (sign_bit x =? 0)) (Zpos m) / 2 ^ (150 - exp_field x)).
Proof.
  intros Hx He Hd Hm. destruct (fields_bits x Hx) as (_ & _ & Hman). set (s := negb _) in *.
  assert (2 <= 2 ^ (150 - exp_field x)) as Hp.
  { replace (150 - exp_field x) with (1 + (149 - exp_field x)) by lia. rewrite Z.pow_add_r by lia.
    pose proof (Z.pow_pos_nonneg 2 (149 - exp_field x) ltac:(lia) ltac:(lia)). lia. }
  pose proof (floor_of_round s (Zpos m) (2 ^ (150 - exp_field x)) ltac:(lia) ltac:(lia)) as Hf.
  cbv zeta in Hf. rewrite Hf. clear Hf.
  assert (fcvtws x = cond_Zopp s (round_away (Zpos m) (2 ^ (150 - exp_field x)))) as Hz.
  { rewrite fcvtws_eq by done. destruct (Z.leb_spec (exp_field x) 157); [|lia].
    rewrite round_fields_signed, <- Hm, round_away_scale by lia.
    destruct (Z.leb_spec 0 (exp_field x - 150)); [lia|].
    by replace (- (exp_field x - 150)) with (150 - exp_field x) by lia. }
  unfold ffloor. rewrite slice_exp, Hz by done. destruct (Z.ltb_spec 157 (exp_field x)); [lia|].
  set (z := cond_Zopp s (round_away (Zpos m) (2 ^ (150 - exp_field x)))) in *.
  assert (Z.abs z <= 2 ^ 23) as Hb.
  { unfold z, round_away. unfold sig in Hm. set (d := 2 ^ (150 - exp_field x)) in *.
    assert (0 <= (2 * Zpos m + d) / (2 * d) <= 2 ^ 23); [|destruct s; cbn [cond_Zopp]; lia].
    split; [apply Z.div_pos; lia|]. apply Z.lt_succ_r, Z.div_lt_upper_bound; nia. }
  rewrite fcvtsw_native by lia. unfold Native.fcvtsw. rewrite int_minus_one by done.
  assert (u32_ok (f32_of_int z) /\ exp_field (f32_of_int z) < 255) as [Hu He'].
  { rewrite <- fcvtsw_native by lia. split; [apply fcvtsw_ok|].
    pose proof (fcvtsw_spec z ltac:(unfold i32_ok; lia)) as Hs. destruct (Z.eqb_spec z 0) as [->|]; [by rewrite Hs|].
    cbv zeta in Hs. destruct Hs as (_ & _ & k & Hk & -> & _).
    pose proof (proj1 (Z.log2_lt_pow2 (Z.abs z) 24 ltac:(lia)) ltac:(lia)). lia. }
  rewrite ge_value, value_int, Hd by (lia || done). cbn [sval].
  assert ((z * 2 ^ 149 <=? cond_Zopp s (Zpos m * 2 ^ (exp_field x - 150 + 149))) =
    (z * 2 ^ (150 - exp_field x) <=? cond_Zopp s (Zpos m))) as ->; [|by case_match].
  replace (exp_field x - 150 + 149) with (exp_field x - 1) by lia.
  replace 149 with (150 - exp_field x + (exp_field x - 1)) by lia. rewrite Z.pow_add_r, Z.mul_assoc by lia.
  assert (0 < 2 ^ (exp_field x - 1)) by (apply Z.pow_pos_nonneg; lia).
  replace (cond_Zopp s (Zpos m * 2 ^ (exp_field x - 1))) with (cond_Zopp s (Zpos m) * 2 ^ (exp_field x - 1))
    by (destruct s; cbn [cond_Zopp]; ring).
  apply eq_bool_prop_intro. rewrite !Is_true_true, !Z.leb_le. by rewrite <- Z.mul_le_mono_pos_r.
Qed.
(** A float without a fraction. *)
Lemma ffloor_whole x : u32_ok x -> 150 <= exp_field x -> ffloor x = x.
Proof.
  intros Hx He. unfold ffloor. rewrite slice_exp by done. destruct (Z.ltb_spec 157 (exp_field x)); [done|].
  destruct (fields_bits x Hx) as (Hs & _ & Hman).
  destruct (decode_normal x Hx ltac:(lia)) as (m & Hd & Hm).
  assert (fcvtsw (fcvtws x) = x) as ->.
  { rewrite (fcvtws_eq x Hx). destruct (Z.leb_spec (exp_field x) 157); [|lia].
    rewrite round_fields_signed, round_away_scale by lia. destruct (Z.leb_spec 0 (exp_field x - 150)); [|lia].
    set (z := cond_Zopp _ _). set (k := exp_field x - 150) in *.
    assert (0 < 2 ^ k) by (apply Z.pow_pos_nonneg; lia). unfold sig in *.
    assert (Z.abs z = (2 ^ 23 + man_field x) * 2 ^ k) as Ha by (unfold z; destruct (negb _); cbn [cond_Zopp]; lia).
    assert (Z.log2 (Z.abs z) = 23 + k) as Hl.
    { rewrite Ha, Z.log2_mul_pow2 by lia. rewrite (Z.log2_unique _ 23); lia. }
    assert (2 ^ k <= 2 ^ 7) by (apply Z.pow_le_mono_r; lia).
    rewrite (fcvtsw_exact z (2 ^ 23 + man_field x)); [|unfold i32_ok; nia|nia|lia|].
    - rewrite Hl. trans (pack (sign_bit x) (exp_field x) (man_field x)); [|by apply pack_bits].
      f_equal; [|lia|lia].
      unfold z. assert (sign_bit x = 0 \/ sign_bit x = 1) as [E|E] by lia; rewrite E; cbn [Z.eqb negb cond_Zopp].
      + destruct (Z.ltb_spec ((2 ^ 23 + man_field x) * 2 ^ k) 0); [nia|done].
      + destruct (Z.ltb_spec (- ((2 ^ 23 + man_field x) * 2 ^ k)) 0); [done|nia].
    - rewrite Hl, Ha, Z.pow_add_r by lia. ring. }
  by rewrite ge_value, Z.leb_refl by (done || lia).
Qed.

Definition is_number (x : Z) : Prop := exp_field x = 255 -> man_field x = 0.

Lemma ffloor_native x : u32_ok x -> is_number x -> x <> 2 ^ 31 -> ffloor x = Native.ffloor x.
Proof.
  intros Hx Hn Hz. destruct (fields_bits x Hx) as (Hs & He & Hman).
  destruct (Z.eq_dec (exp_field x) 255) as [E|].
  { rewrite ffloor_whole by (done || lia). unfold Native.ffloor, decode32. by rewrite E, (Hn E). }
  destruct (Z.eq_dec (exp_field x) 0) as [E|].
  - assert (fcvtws x = 0) as H0.
    { rewrite (fcvtws_eq x Hx), E, round_fields_signed. simpl Z.leb. cbv iota.
      rewrite round_away_small; [by destruct (negb _)|unfold sig; lia|unfold sig; lia]. }
    destruct (decode_small x Hx E) as [[Hd Hm]|(m & Hd & Hm)].
    + assert (x = 0) as ->; [|by vm_compute].
      pose proof (pack_bits x Hx) as Hp. rewrite E, Hm in Hp. unfold pack in Hp. lia.
    + unfold ffloor. rewrite slice_exp, H0, E by done. change (157 <? 0) with false. cbv iota.
      change (fcvtsw 0) with 0. rewrite ge_value by (done || lia). unfold Native.ffloor. rewrite Hd.
      change (sval (decode32 0)) with 0. cbn [sval]. change (0 <=? -149) with false. cbv iota.
      change (-149 + 149) with 0. change (Z.opp (-149)) with 149. rewrite Z.mul_1_r. destruct (negb (sign_bit x =? 0)); cbn [cond_Zopp].
      * destruct (Z.leb_spec 0 (- Zpos m)); [lia|].
        assert (- Zpos m / 2 ^ 149 = -1) as -> by (symmetry; apply (Z.div_unique_pos _ _ _ (2 ^ 149 - Zpos m)); lia).
        by vm_compute.
      * destruct (Z.leb_spec 0 (Zpos m)); [|lia]. by rewrite Z.div_small by lia.
  - destruct (decode_normal x Hx ltac:(lia)) as (m & Hd & Hm). unfold Native.ffloor. rewrite Hd.
    destruct (Z.leb_spec 0 (exp_field x - 150)); [apply ffloor_whole; [done|lia]|].
    rewrite (ffloor_fraction x m) by (done || lia). replace (- (exp_field x - 150)) with (150 - exp_field x) by lia.
    unfold f32_of_int. set (s := negb _). assert (0 < 2 ^ (150 - exp_field x)) by (apply Z.pow_pos_nonneg; lia).
    destruct (cond_Zopp s (Zpos m) / 2 ^ (150 - exp_field x)) eqn:Hq; [|done..].
    destruct s; [|done]. cbn [cond_Zopp] in Hq.
    pose proof (Z.div_lt_upper_bound (- Zpos m) (2 ^ (150 - exp_field x)) 0 ltac:(lia) ltac:(lia)). lia.
Qed.
End Floor.

(** ** Halves *)

Section Half.
Context `{Profile}.

(** The host's half is exact. *)
Lemma native_half x :
  u32_ok x -> 2 <= exp_field x <= 254 ->
  Native.fhalf x = pack (sign_bit x) (exp_field x - 1) (man_field x).
Proof.
  intros Hx He. destruct (fields_bits x Hx) as (Hs & _ & Hman).
  destruct (decode_normal x Hx ltac:(lia)) as (m & Hd & Hm). unfold sig in Hm.
  unfold Native.fhalf, f32_mul. rewrite Hd. change (decode32 0x3F000000) with (S754_finite false (2 ^ 23)%positive (-24)).
  cbn [SFmul]. rewrite (round_aux_exact 24 128 _ m (m * 2 ^ 23)%positive (exp_field x - 150 + -24) 23).
  - cbn [encode32]. rewrite Hm. destruct (Z.ltb_spec (2 ^ 23 + man_field x) (2 ^ 23)); [lia|].
    rewrite wrap32_small.
    + f_equal; [|lia|lia]. rewrite xorb_false_r.
      assert (sign_bit x = 0 \/ sign_bit x = 1) as [-> | ->] by lia; done.
    + apply pack_ok. split_and!; try lia; by destruct (xorb _ _).
  - lia.
  - by rewrite Pos2Z.inj_mul.
  - unfold canonical. rewrite digits2_log2, (Z.log2_unique _ 23) by lia. unfold fexp, emin. lia.
Qed.

(** The emulated multiplier is one unit above it. *)
Lemma fhalf_native x : u32_ok x -> 2 <= exp_field x <= 254 -> fhalf x = Native.fhalf x + 1.
Proof.
  intros Hx He. rewrite native_half by done. unfold fhalf. rewrite fmul_fields; [|done|by apply (bool_decide_unpack _)].
  destruct (fields_bits x Hx) as (Hs & _ & Hman).
  change (sign_bit 0x3F000000) with 0. change (exp_field 0x3F000000) with 126. change (man_field 0x3F000000) with 0.
  rewrite Z.lxor_0_r. set (mm := mul_mm _ _). assert (mm = 2 * man_field x + 2 ^ 24 + 2) as Hmm.
  { unfold mm, mul_mm. dlia. }
  clearbody mm. subst mm. unfold mul_man, mul_exp, pack.
  destruct (Z.ltb_spec ((exp_field x + 126 + 129) mod 512) 256); [dlia|].
  destruct (Z.eqb_spec (exp_field x) 0); [lia|]. cbn [orb Z.eqb].
  destruct (Z.leb_spec (2 ^ 25) (2 * man_field x + 2 ^ 24 + 2)); case_match; dlia.
Qed.
End Half.

(** C26: With and without the emulator ([fpu_sim]) the conversions and the floor are the
    same functions where they can be: to an integer, for every float below
    [2 ^ 31]; from an integer, up to [2 ^ 24]; the floor of every number, but for
    [-0], whose sign the emulator drops.  A half is not: the emulated one is one
    unit in the last place above the exact one, for every normal result. *)
Theorem fpu_builds_agree `{Profile} x :
  (u32_ok x -> exp_field x <= 157 -> fcvtws x = Native.fcvtws x) /\
  (- 2 ^ 24 <= x <= 2 ^ 24 -> fcvtsw x = Native.fcvtsw x) /\
  (u32_ok x -> is_number x -> x <> 2 ^ 31 -> ffloor x = Native.ffloor x) /\
  (u32_ok x -> 2 <= exp_field x <= 254 -> fhalf x = Native.fhalf x + 1).
Proof. split_and!; intros; [by apply fcvtws_native|by apply fcvtsw_native|by apply ffloor_native|by apply fhalf_native]. Qed.

Section Witness.
#[local] Existing Instance release_profile.

(** [-2.5]: both floors are [-3.0]; the half of it is [-1.25] and one unit. *)
Lemma fpu_builds_agree_witness : ffloor 0xC0200000 = 0xC0400000 /\ fhalf 0xC0200000 = 0xBFA00001.
Proof.
  assert (u32_ok 0xC0200000) as Hx by (by apply (bool_decide_unpack _)).
  destruct (fpu_builds_agree 0xC0200000) as (_ & _ & Hf & Hh). split.
  - rewrite Hf; [by vm_compute|exact Hx|by intros|lia].
  - rewrite Hh; [by vm_compute|exact Hx|by apply (bool_decide_unpack _)].
Defined.

(** Outside of these ranges the two differ. *)
Example builds_differ :
  (fcvtws 0x4F000000, Native.fcvtws 0x4F000000) = (0, 2 ^ 31 - 1) /\
  (fcvtsw 16777217, Native.fcvtsw 16777217) = (0x4B800001, 0x4B800000) /\
  (ffloor (2 ^ 31), Native.ffloor (2 ^ 31)) = (0, 2 ^ 31).
Proof. by vm_compute. Qed.
End Witness.
