(* ===== verification/Ppm.v ===== *)
(** * The picture ([core_sim/src/ppm.rs])

    The header of the picture that a program has written: the parser and the
    format that it accepts.  The three parsers of bytes are functions of the nom
    library: they are the fields of the class [ByteLexer], with what their
    documentation states in [ByteLexerLaws]. *)
From stdpp Require Import pretty.
From S2P Require Import Prelude Word Text Io.

(** ** The lexers *)

Class ByteLexer := {
  (** [bytes::complete::tag]: the rest *)
  tag : list Z -> list Z -> outcome string (list Z);
  (** [character::complete::multispace1]: the rest *)
  multispace1 : list Z -> outcome string (list Z);
  (** [character::complete::u32]: the rest and the number *)
  nom_u32 : list Z -> outcome string (list Z * Z)
}.

(** Space, tab, line feed and carriage return. *)
Definition byte_space (b : Z) : bool := (b =? 32) || (b =? 9) || (b =? 10) || (b =? 13).
Definition byte_digit (b : Z) : bool := (48 <=? b) && (b <=? 57).
Definition decimal (ds : list Z) : Z := foldl (fun v d => 10 * v + (d - 48)) 0 ds.

(** [s] does not start with a byte of the class. *)
Definition ends_with (p : Z -> bool) (s : list Z) : Prop :=
  match s with b :: _ => p b = false | [] => True end.

(** [t] is a word of the class: not empty, and all of its bytes belong to it. *)
Definition byte_word (p : Z -> bool) (t : list Z) : Prop := t <> [] /\ Forall (fun b => p b = true) t.

Class ByteLexerLaws `{ByteLexer} := {
  (** A tag is read where the input starts with it. *)
  tag_ok t r : tag t (t ++ r) = Ok r;
  tag_reads t s r : tag t s = Ok r -> s = t ++ r;
  tag_total t s : ~ is_panic (tag t s);
  (** One or more white spaces, as many as there are. *)
  multispace1_ok t r : byte_word byte_space t -> ends_with byte_space r -> multispace1 (t ++ r) = Ok r;
  multispace1_reads s r : multispace1 s = Ok r ->
    exists t, byte_word byte_space t /\ ends_with byte_space r /\ s = t ++ r;
  multispace1_total s : ~ is_panic (multispace1 s);
  (** A decimal number of digits, as many as there are, that fits 32 bits. *)
  nom_u32_ok t r : byte_word byte_digit t -> ends_with byte_digit r -> decimal t < 2 ^ 32 ->
    nom_u32 (t ++ r) = Ok (r, decimal t);
  nom_u32_reads s r v : nom_u32 s = Ok (r, v) ->
    exists t, byte_word byte_digit t /\ ends_with byte_digit r /\ s = t ++ r /\ v = decimal t /\ v < 2 ^ 32;
  nom_u32_total s : ~ is_panic (nom_u32 s)
}.

(** ** The header *)

Record PPMHeaderInfo := mkHeader { ppm_width : Z; ppm_height : Z; ppm_color : Z }.

(** The bytes of [P6]. *)
Definition P6 : list Z := [80; 54].

Section Header.
Context `{ByteLexer}.

Definition parse_ppmv6_header (input : list Z) : outcome string (list Z * PPMHeaderInfo) :=
  input ← tag P6 input;
  input ← multispace1 input;
  '(input, width) ← nom_u32 input;
  input ← multispace1 input;
  '(input, height) ← nom_u32 input;
  input ← multispace1 input;
  '(input, color) ← nom_u32 input;
  input ← multispace1 input;
  mret (input, mkHeader width height color).

Definition header_message (e : string) : string :=
  "invalid header had been generated. failed to parse header: " +:+ e.

Definition verify_header (p : PPMData) : outcome string PPMHeaderInfo :=
  r ← map_err header_message (parse_ppmv6_header (ppm_inner p));
  mret r.2.

(** [into_inner] *)
Definition into_inner (p : PPMData) : list Z := ppm_inner p.
End Header.

(** [{h:?}] of a header. *)
Definition fmt_header (h : PPMHeaderInfo) : string :=
  "PPMHeaderInfo { width: " +:+ pretty (ppm_width h) +:+ ", height: " +:+ pretty (ppm_height h)
  +:+ ", color: " +:+ pretty (ppm_color h) +:+ " }".

(** ** The format *)

(** The text starts with a header of these numbers: [P6] and three numbers in
    decimal, each after white space, and one more white space. *)
Definition has_header (h : PPMHeaderInfo) (s : list Z) : Prop :=
  exists s1 w s2 x s3 y b rest,
    s = P6 ++ s1 ++ w ++ s2 ++ x ++ s3 ++ y ++ b :: rest /\
    byte_word byte_space s1 /\ byte_word byte_digit w /\ byte_word byte_space s2 /\
    byte_word byte_digit x /\ byte_word byte_space s3 /\ byte_word byte_digit y /\
    byte_space b = true /\
    h = mkHeader (decimal w) (decimal x) (decimal y) /\
    decimal w < 2 ^ 32 /\ decimal x < 2 ^ 32 /\ decimal y < 2 ^ 32.

Lemma digit_not_space b : byte_digit b = true -> byte_space b = false.
Proof.
  unfold byte_digit, byte_space. rewrite andb_true_iff, !Z.leb_le, !orb_false_iff, !Z.eqb_neq. lia.
Qed.

Lemma space_not_digit b : byte_space b = true -> byte_digit b = false.
Proof. intros Hs. destruct (byte_digit b) eqn:Hd; [|done]. by rewrite (digit_not_space b Hd) in Hs. Qed.

(** A word of one class ends what is read of the other. *)
Lemma word_ends (p q : Z -> bool) t r :
  (forall b, q b = true -> p b = false) -> byte_word q t -> ends_with p (t ++ r).
Proof. intros Hpq [Hne Ht]. destruct t as [|b t]; [done|]. inversion Ht; subst. by apply Hpq. Qed.

Lemma digits_end t r : byte_word byte_digit t -> ends_with byte_space (t ++ r).
Proof. apply word_ends, digit_not_space. Qed.

Lemma spaces_end t r : byte_word byte_space t -> ends_with byte_digit (t ++ r).
Proof. apply word_ends, space_not_digit. Qed.

(** The white space at the front of a text. *)
Lemma spaces_front s :
  exists t r, s = t ++ r /\ Forall (fun b => byte_space b = true) t /\ ends_with byte_space r.
Proof.
  induction s as [|b s (t & r & -> & Ht & Hr)]; [by exists [], []|].
  destruct (byte_space b) eqn:Hb.
  - exists (b :: t), r. by repeat constructor.
  - by exists [], (b :: t ++ r).
Qed.

Section Exact.
Context `{ByteLexerLaws}.

Lemma header_reads s r h : parse_ppmv6_header s = Ok (r, h) -> has_header h s.
Proof.
  unfold parse_ppmv6_header. intros Hp.
  apply bind_ok_inv in Hp as (r0 & E0 & Hp). apply bind_ok_inv in Hp as (r1 & E1 & Hp).
  apply bind_ok_inv in Hp as ([r2 w] & E2 & Hp). apply bind_ok_inv in Hp as (r3 & E3 & Hp).
  apply bind_ok_inv in Hp as ([r4 x] & E4 & Hp). apply bind_ok_inv in Hp as (r5 & E5 & Hp).
  apply bind_ok_inv in Hp as ([r6 y] & E6 & Hp). apply bind_ok_inv in Hp as (r7 & E7 & Hp).
  injection Hp as <- <-. apply tag_reads in E0 as ->.
  apply multispace1_reads in E1 as (s1 & Hs1 & _ & ->). apply nom_u32_reads in E2 as (d1 & Hd1 & _ & -> & -> & Hb1).
  apply multispace1_reads in E3 as (s2 & Hs2 & _ & ->). apply nom_u32_reads in E4 as (d2 & Hd2 & _ & -> & -> & Hb2).
  apply multispace1_reads in E5 as (s3 & Hs3 & _ & ->). apply nom_u32_reads in E6 as (d3 & Hd3 & _ & -> & -> & Hb3).
  apply multispace1_reads in E7 as ([|b t] & [Hne Ht] & _ & ->); [done|]. inversion Ht; subst.
  by exists s1, d1, s2, d2, s3, d3, b, (t ++ r7).
Qed.

Lemma header_read h s : has_header h s -> exists r, parse_ppmv6_header s = Ok (r, h).
Proof.
  intros (s1 & w & s2 & x & s3 & y & b & rest & -> & H1 & Hw & H2 & Hx & H3 & Hy & Hb & -> & Bw & Bx & By).
  destruct (spaces_front rest) as (t & r & -> & Ht & Hr). exists r.
  assert (byte_word byte_space (b :: t)) as Hbt by (split; [done|by constructor]).
  unfold parse_ppmv6_header. rewrite tag_ok. cbn.
  rewrite multispace1_ok by (done || by apply digits_end). cbn.
  rewrite nom_u32_ok by (done || by apply spaces_end). cbn.
  rewrite multispace1_ok by (done || by apply digits_end). cbn.
  rewrite nom_u32_ok by (done || by apply spaces_end). cbn.
  rewrite multispace1_ok by (done || by apply digits_end). cbn.
  rewrite nom_u32_ok; [|done|by apply (spaces_end (b :: t))|done]. cbn.
  by rewrite (multispace1_ok (b :: t) r Hbt Hr).
Qed.

Lemma header_total s : ~ is_panic (parse_ppmv6_header s).
Proof.
  unfold parse_ppmv6_header.
  repeat (apply bind_total; [first [apply tag_total|apply multispace1_total|apply nom_u32_total]|intros; try case_match]).
  by intros [].
Qed.

(** C34: The check of a picture is exact: it accepts the bytes written so far, with
    width, height and depth, if and only if they start with [P6] and these three
    numbers in decimal, below [2 ^ 32], each after white space, and a white space
    after the last; whatever follows is not looked at.  Every other output is
    reported as an error, and none stops the simulator. *)
Theorem verify_header_exact p h :
  (verify_header p = Ok h <-> has_header h (into_inner p)) /\
  (is_ok (verify_header p) \/ exists e, verify_header p = Err (header_message e)).
Proof.
  unfold verify_header, into_inner. split; [split|].
  - intros Hv. destruct (parse_ppmv6_header (ppm_inner p)) as [[r h']| |] eqn:Hp; simplify_eq/=.
    injection Hv as <-. by eapply header_reads.
  - intros Hh. apply header_read in Hh as [r ->]. done.
  - pose proof (header_total (ppm_inner p)) as Ht.
    destruct (parse_ppmv6_header (ppm_inner p)) as [[r h']|e|]; [by left|right; by exists e|by destruct Ht].
Qed.
End Exact.

(** ** The lexers as their documentation has them *)

Section Reference.

(** The longest prefix of bytes of a class, and the rest. *)
Fixpoint split_bytes (p : Z -> bool) (s : list Z) : list Z * list Z :=
  match s with
  | b :: s' => if p b then let '(t, r) := split_bytes p s' in (b :: t, r) else ([], s)
  | [] => ([], [])
  end.

Lemma split_bytes_spec p s t r :
  split_bytes p s = (t, r) <-> s = t ++ r /\ Forall (fun b => p b = true) t /\ ends_with p r.
Proof.
  revert t r. induction s as [|b s IH]; intros t r; simpl.
  - split; [by intros [= <- <-]|]. intros (He & Ht & Hr). symmetry in He. by apply app_nil in He as [-> ->].
  - destruct (p b) eqn:Hb; [destruct (split_bytes p s) as [t' r']|]; split.
    + intros [= <- <-]. destruct (proj1 (IH t' r') eq_refl) as (-> & Ht & Hr). by repeat constructor.
    + intros (He & Ht & Hr). destruct t as [|c t]; simpl in He; [subst r; simpl in Hr; congruence|].
      injection He as <- ->. inversion Ht; subst.
      by assert ((t', r') = (t, r)) as [= <- <-] by by apply IH.
    + by intros [= <- <-].
    + intros (He & Ht & Hr). destruct t as [|c t]; simpl in He; [by subst r|].
      injection He as <- ->. inversion Ht; subst. congruence.
Qed.

Definition prefix_rest (t s : list Z) : outcome string (list Z) :=
  if decide (take (length t) s = t) then Ok (drop (length t) s) else Err "Tag"%string.

Definition nom_lexer : ByteLexer := {|
  tag := prefix_rest;
  multispace1 := fun s => match split_bytes byte_space s with ([], _) => Err "MultiSpace"%string | (_, r) => Ok r end;
  nom_u32 := fun s =>
    match split_bytes byte_digit s with
    | ([], _) => Err "Digit"%string
    | (t, r) => if decimal t <? 2 ^ 32 then Ok (r, decimal t) else Err "Digit"%string
    end
|}.

Lemma nom_lexer_laws : ByteLexerLaws (H:=nom_lexer).
Proof.
  split; simpl.
  - intros t r. unfold prefix_rest. rewrite take_app_length, drop_app_length. by rewrite decide_True.
  - intros t s r. unfold prefix_rest. case_decide as Ht; [|done]. intros [= <-].
    rewrite <- Ht at 1. symmetry. apply take_drop.
  - intros t s. unfold prefix_rest. by case_decide; intros [].
  - intros t r [Hne Ht] Hr. rewrite (proj2 (split_bytes_spec _ _ t r)) by done. by destruct t.
  - intros s r. destruct (split_bytes byte_space s) as [t r'] eqn:Hs. apply split_bytes_spec in Hs as (-> & Ht & Hr).
    destruct t as [|b t]; intros [= <-]. by exists (b :: t).
  - intros s. destruct (split_bytes byte_space s) as [[] ?]; by intros [].
  - intros t r [Hne Ht] Hr Hd. rewrite (proj2 (split_bytes_spec _ _ t r)) by done.
    destruct t; [done|]. by destruct (Z.ltb_spec (decimal (z :: t)) (2 ^ 32)); [|lia].
  - intros s r v. destruct (split_bytes byte_digit s) as [t r'] eqn:Hs. apply split_bytes_spec in Hs as (-> & Ht & Hr).
    destruct t as [|b t]; [done|]. destruct (Z.ltb_spec (decimal (b :: t)) (2 ^ 32)); intros [= <- <-].
    by exists (b :: t).
  - intros s. destruct (split_bytes byte_digit s) as [[] ?]; [by intros []|]. by destruct (_ <? _); intros [].
Qed.
End Reference.

(** [P6 128 128 255] and a byte of the picture. *)
Lemma verify_header_exact_witness :
  verify_header (H:=nom_lexer)
    (mkPPM [80; 54; 10; 49; 50; 56; 32; 49; 50; 56; 10; 50; 53; 53; 10; 7]) = Ok (mkHeader 128 128 255).
Proof.
  apply (proj1 (verify_header_exact (H0:=nom_lexer_laws) _ _)).
  exists [10], [49; 50; 56], [32], [49; 50; 56], [10], [50; 53; 53], 10, [7].
  by split_and!; try (split; [done|repeat constructor]).
Defined.
