(* ===== verification/Sld.v ===== *)
(** * The scene description ([core_sim/src/sld.rs])

    The parser of the SLD format and the input device that replays it.  The
    three lexers are functions of the nom library: they are the fields of the
    class [Lexer], with the documented behaviour that the parser relies on in
    [LexerLaws].  The parsing of a float from its text is the Standard
    Library's and is modelled ([parse_f32]). *)
From Stdlib Require Import SpecFloat Ascii.
From stdpp Require Import pretty.
From S2P Require Import Prelude Word Text Ty Float32 Io.

(** ** [str::parse::<f32>] on decimal literals *)

(** The longest prefix of digits, and the rest. *)
Fixpoint span_digits (s : string) : list Z * string :=
  match s with
  | EmptyString => ([], s)
  | String c s' =>
      if is_digit c then let '(ds, r) := span_digits s' in (digit_value c :: ds, r) else ([], s)
  end.

Definition digits_value (ds : list Z) : Z := foldl (fun acc d => acc * 10 + d) 0 ds.

(** An optional sign. *)
Definition span_sign (s : string) : bool * string :=
  match s with
  | String "-" r => (true, r)
  | String "+" r => (false, r)
  | _ => (false, s)
  end.

(** The value [(-1)^neg * m * 10^e], rounded once. *)
Definition f32_of_decimal (neg : bool) (m e : Z) : Z :=
  match m with
  | Zpos p =>
      if 0 <=? e then encode32 0 (binary_normalize f32_prec f32_emax (cond_Zopp neg (m * 10 ^ e)) 0 neg)
      else
        match 10 ^ (- e) with
        | Zpos q =>
            encode32 0 (SFdiv f32_prec f32_emax (S754_finite neg p 0) (S754_finite false q 0))
        | _ => 0
        end
  | _ => encode32 0 (S754_zero neg)
  end.

(** The exponent part, if there is one; the whole rest must be read. *)
Definition parse_exponent (s : string) : option Z :=
  match s with
  | EmptyString => Some 0
  | String c r =>
      if (c =? "e")%char || (c =? "E")%char then
        let '(neg, r) := span_sign r in
        let '(ds, r) := span_digits r in
        match ds, r with
        | _ :: _, EmptyString => Some (if neg then - digits_value ds else digits_value ds)
        | _, _ => None
        end
      else None
  end.

(** Sign, integer digits, fraction digits and the exponent part. *)
Definition parse_f32 (s : string) : option Z :=
  let '(neg, s) := span_sign s in
  let '(ip, s) := span_digits s in
  let '(fp, s) := match s with String "." r => span_digits r | _ => ([], s) end in
  match ip ++ fp with
  | [] => None
  | ds =>
      e ← parse_exponent s;
      Some (f32_of_decimal neg (digits_value ds) (e - Z.of_nat (length fp)))
  end.

Example parse_f32_values :
  parse_f32 "-200.0" = Some 0xC3480000 /\ parse_f32 "0.3" = Some 0x3E99999A /\
  parse_f32 "1e-45" = Some 1 /\ parse_f32 "3.4028235e38" = Some 0x7F7FFFFF /\
  parse_f32 "." = None.
Proof. by vm_compute. Qed.

(** ** The lexers *)

Class Lexer := {
  (** [multispace0]: the rest after the white space *)
  multispace0 : string -> string;
  (** [character::complete::i32]: the rest and the number *)
  nom_i32 : string -> outcome string (string * Z);
  (** [recognize_float]: the rest and the text of the number *)
  recognize_float : string -> outcome string (string * string)
}.

(** What the parser relies on: the lexers read from the front of their input, a
    number has at least one character, an [i32] is in range and the text of a
    float is one that [str::parse] accepts. *)
Class LexerLaws `{Lexer} := {
  multispace0_suffix s : exists w, s = w +:+ multispace0 s;
  nom_i32_total s : ~ is_panic (nom_i32 s);
  nom_i32_reads s r v : nom_i32 s = Ok (r, v) ->
    i32_ok v /\ exists w, w <> EmptyString /\ s = w +:+ r;
  recognize_float_total s : ~ is_panic (recognize_float s);
  recognize_float_reads s r t : recognize_float s = Ok (r, t) ->
    t <> EmptyString /\ s = t +:+ r /\ exists v, parse_f32 t = Some v
}.

(** ** The builder *)

(** A nom error is its message; [OutOfFuel] is not a result of the code. *)
Inductive SldFail := NomError (e : string) | OutOfFuel.

(** The state is the vector of the builder; a result is the rest of the input
    and a value, nom's [IResult]. *)
Definition Builder : Type := list TypedU32.
Abbreviation IResult A := (ST Builder SldFail (string * A)) (only parsing).

Definition push_int (v : Z) : ST Builder SldFail () :=
  modify (fun seq => seq ++ [typed (i32_as_u32 v) I32]).
Definition push_float (v : Z) : ST Builder SldFail () :=
  modify (fun seq => seq ++ [typed v F32]).

Section Parser.
Context `{Lexer}.

Definition read_int (input : string) : IResult Z :=
  let input := multispace0 input in
  '(input, v) ← lift (map_err NomError (nom_i32 input));
  _ ← push_int v;
  mret (input, v).

Definition read_float (input : string) : IResult () :=
  let input := multispace0 input in
  '(input, v) ← lift (map_err NomError (recognize_float input));
  v ← lift (unwrap (parse_f32 v));
  _ ← push_float v;
  mret (input, ()).

Definition read_vec3 (input : string) : IResult () :=
  '(input, _) ← read_float input;
  '(input, _) ← read_float input;
  read_float input.

Definition read_sld_env (input : string) : IResult () :=
  '(input, _) ← read_vec3 input;
  '(input, _) ← read_float input;
  '(input, _) ← read_float input;
  '(input, _) ← read_int input;
  '(input, _) ← read_float input;
  '(input, _) ← read_float input;
  read_float input.

(** The body of one turn of the loop of [read_objects], after the identifier. *)
Definition read_object (input : string) : IResult () :=
  '(input, _) ← read_int input;
  '(input, _) ← read_int input;
  '(input, is_rot) ← read_int input;
  '(input, _) ← read_vec3 input;
  '(input, _) ← read_vec3 input;
  '(input, _) ← read_float input;
  '(input, _) ← read_float input;
  '(input, _) ← read_float input;
  '(input, _) ← read_vec3 input;
  if negb ((is_rot : Z) =? 0) then read_vec3 input else mret (input, ()).

Fixpoint read_objects (fuel : nat) (index : Z) (input_ : string) : IResult Z :=
  match fuel with
  | Datatypes.O => throw OutOfFuel
  | S fuel =>
      '(input, id) ← read_int input_;
      if (id : Z) =? -1 then mret (input, index)
      else
        '(input_, _) ← read_object input;
        read_objects fuel (index + 1) input_
  end.

(** The inner loop of [read_and_net]: up to the first -1. *)
Fixpoint read_row (fuel : nat) (input_ : string) : IResult () :=
  match fuel with
  | Datatypes.O => throw OutOfFuel
  | S fuel =>
      '(input, id) ← read_int input_;
      if (id : Z) =? -1 then mret (input, ()) else read_row fuel input
  end.

Fixpoint read_and_net (fuel : nat) (input_ : string) : IResult () :=
  match fuel with
  | Datatypes.O => throw OutOfFuel
  | S fuel =>
      '(input, id) ← read_int input_;
      if (id : Z) =? -1 then mret (input, ())
      else
        '(input_, _) ← read_row fuel input;
        read_and_net fuel input_
  end.

Definition read_or_net (fuel : nat) (input : string) : IResult () := read_and_net fuel input.

Definition read_sld (fuel : nat) (input : string) : IResult Z :=
  '(input, _) ← read_sld_env input;
  '(input, num_objects) ← read_objects fuel 0 input;
  '(input, _) ← read_and_net fuel input;
  '(input, _) ← read_or_net fuel input;
  mret (input, num_objects).
End Parser.

(** ** The device *)

Record SldData := mkSld { sld_seq : list TypedU32; sld_index : nat; num_objects : Z }.

(** Every turn of a loop reads a character: the length of the input is fuel
    enough. *)
Definition sld_fuel (input : string) : nat := S (String.length input).

(** [SldData::parse], with [from_sld] *)
Definition sld_parse `{Lexer} (input : string) : outcome SldFail SldData :=
  let '(r, seq) := read_sld (sld_fuel input) input [] in
  '(_, num) ← r;
  mret (mkSld seq 0 num).

(** A read: the value at the index, as its type; the index moves only when the
    type fits. *)
Definition sld_read (want : Ty) (as_ty : TypedU32 -> option Z) : ST SldData string Z := fun d =>
  match sld_seq d !! sld_index d with
  | None => (Panic IndexOutOfBounds, d)
  | Some v =>
      match as_ty v with
      | None =>
          (Err ("attempted to read " +:+ fmt_ty (ty v) +:+ " data as " +:+ fmt_ty want
                +:+ ": at index " +:+ pretty (Z.of_nat (sld_index d))), d)
      | Some x => (Ok x, mkSld (sld_seq d) (S (sld_index d)) (num_objects d))
      end
  end.

#[export] Instance SldData_input : Input SldData := {
  inw := v ← sld_read I32 typed_as_i32; mret (i32_as_u32 v);
  finw := sld_read F32 typed_as_f32
}.

(** ** The grammar

    A token of the file, the lexer that reads it, and the shape of a scene as a
    sequence of tokens. *)

Inductive token := TokInt (v : Z) | TokFloat (bits : Z).

Definition tok_typed (t : token) : TypedU32 :=
  match t with TokInt v => typed (i32_as_u32 v) I32 | TokFloat b => typed b F32 end.

(** An object: four integers and twelve floats, or fifteen when the last integer
    (the rotation flag) is not zero. *)
Record Object := mkObject { obj_id : Z; obj_ints : list Z; obj_floats : list Z }.

Definition object_ok (o : Object) : Prop :=
  obj_id o <> -1 /\
  exists a b rot, obj_ints o = [a; b; rot] /\
    length (obj_floats o) = if rot =? 0 then 12%nat else 15%nat.

Definition object_tokens (o : Object) : list token :=
  TokInt (obj_id o) :: map TokInt (obj_ints o) ++ map TokFloat (obj_floats o).

(** A net is a list of rows, each closed by -1 and not empty. *)
Definition row_ok (row : list Z) : Prop := row <> [] /\ Forall (fun v => v <> -1) row.

Definition row_tokens (row : list Z) : list token := map TokInt (row ++ [-1]).

Definition net_tokens (net : list (list Z)) : list token :=
  concat (map row_tokens net) ++ [TokInt (-1)].

Record Scene := mkScene {
  env_head : list Z; env_lights : Z; env_tail : list Z;
  objects : list Object; and_net : list (list Z); or_net : list (list Z)
}.

Definition scene_ok (sc : Scene) : Prop :=
  length (env_head sc) = 5%nat /\ length (env_tail sc) = 3%nat /\
  Forall object_ok (objects sc) /\ Forall row_ok (and_net sc) /\ Forall row_ok (or_net sc).

Definition env_tokens (sc : Scene) : list token :=
  map TokFloat (env_head sc) ++ TokInt (env_lights sc) :: map TokFloat (env_tail sc).

Definition scene_tokens (sc : Scene) : list token :=
  env_tokens sc ++ (concat (map object_tokens (objects sc)) ++ [TokInt (-1)])
  ++ net_tokens (and_net sc) ++ net_tokens (or_net sc).

(** [lexes ts s r]: the tokens [ts] are the front of [s], and [r] is the rest. *)
Section Lexes.
Context `{Lexer}.

Definition lex_one (t : token) (s r : string) : Prop :=
  match t with
  | TokInt v => nom_i32 (multispace0 s) = Ok (r, v)
  | TokFloat b =>
      exists txt, recognize_float (multispace0 s) = Ok (r, txt) /\ parse_f32 txt = Some b
  end.

Inductive lexes : list token -> string -> string -> Prop :=
  | lexes_nil s : lexes [] s s
  | lexes_cons t ts s m r : lex_one t s m -> lexes ts m r -> lexes (t :: ts) s r.

Lemma lexes_app ts1 ts2 s r : lexes (ts1 ++ ts2) s r <-> exists m, lexes ts1 s m /\ lexes ts2 m r.
Proof.
  split.
  - revert s. induction ts1 as [|t ts1 IH]; intros s Hl; [by exists s; split; [constructor|]|].
    inversion Hl as [|? ? ? m ? H1 H2]; subst. destruct (IH _ H2) as (m' & Ha & Hb).
    exists m'. split; [by econstructor|done].
  - intros (m & Ha & Hb). induction Ha as [|t ts s m' r' H1 H2 IH]; [done|]. econstructor; [done|by apply IH].
Qed.

Lemma lexes_one t s r : lexes [t] s r <-> lex_one t s r.
Proof.
  split.
  - inversion 1 as [|? ? ? m ? H1 H2]; subst. by inversion H2; subst.
  - intros. econstructor; [done|constructor].
Qed.

Context `{!LexerLaws}.

Lemma length_nonempty s : s <> EmptyString -> (1 <= String.length s)%nat.
Proof. destruct s; simpl; [done|lia]. Qed.

Lemma lex_one_shorter t s r : lex_one t s r -> (S (String.length r) <= String.length s)%nat.
Proof.
  destruct (multispace0_suffix s) as [w Hw].
  assert (String.length (multispace0 s) <= String.length s)%nat as Hle.
  { rewrite Hw at 2. rewrite length_app_string. lia. }
  destruct t as [v|b]; simpl.
  - intros (_ & w' & Hne%length_nonempty & Hs)%nom_i32_reads.
    rewrite Hs, length_app_string in Hle. lia.
  - intros (txt & (Hne%length_nonempty & Hs & _)%recognize_float_reads & _).
    rewrite Hs, length_app_string in Hle. lia.
Qed.

Lemma lexes_shorter ts s r : lexes ts s r -> (length ts + String.length r <= String.length s)%nat.
Proof. induction 1 as [|t ts s m r H1%lex_one_shorter H2 IH]; simpl; lia. Qed.
End Lexes.

(** ** Exact parsers

    [exact n p P]: on inputs shorter than [n], the reader [p] succeeds exactly
    when the front of the input is a sequence of tokens that [P] admits; that
    sequence, the rest and the value are then unique, and the tokens are what
    is appended to the builder.  It never panics and never runs out of fuel. *)
Section Exact.
Context `{LexerLaws}.

Definition exact {A} (n : nat) (p : string -> IResult A) (P : A -> list token -> Prop) : Prop :=
  forall input seq, (String.length input < n)%nat ->
    match p input seq with
    | (Ok (r, a), seq') =>
        exists ts, seq' = seq ++ map tok_typed ts /\
          forall a' ts' r', (P a' ts' /\ lexes ts' input r') <-> (a' = a /\ ts' = ts /\ r' = r)
    | (Err (NomError _), _) => forall a ts r, ~ (P a ts /\ lexes ts input r)
    | _ => False
    end.

Lemma exact_iff {A} n (p : string -> IResult A) P Q :
  exact n p P -> (forall a ts, P a ts <-> Q a ts) -> exact n p Q.
Proof.
  intros Hp Hi input seq Hn. specialize (Hp input seq Hn).
  destruct (p input seq) as [[[r a]|[e|]|] seq']; try done.
  - destruct Hp as (ts & Hs & Hu). exists ts. split; [done|]. intros. by rewrite <- Hi.
  - intros a ts r. rewrite <- Hi. apply Hp.
Qed.

Lemma exact_ret {A} n (a : A) : exact n (fun input => mret (input, a)) (fun b ts => b = a /\ ts = []).
Proof.
  intros input seq _. exists []. split; [by rewrite app_nil_r|]. intros a' ts' r'. split.
  - intros [[-> ->] Hl]. by inversion Hl; subst.
  - intros (-> & -> & ->). split; [done|constructor].
Qed.

(** Sequencing: what was read by the first reader leaves a shorter input. *)
Lemma exact_bind {A B} n k (p : string -> IResult A) (q : A -> string -> IResult B) P Q :
  (forall a ts, P a ts -> (k <= length ts)%nat) ->
  exact (k + n) p P -> (forall a, exact n (q a) (Q a)) ->
  exact (k + n) (fun input => '(input, a) ← p input; q a input)
    (fun b ts => exists a ts1 ts2, ts = ts1 ++ ts2 /\ P a ts1 /\ Q a b ts2).
Proof.
  intros Hk Hp Hq input seq Hn. specialize (Hp input seq Hn).
  unfold mbind, ST_bind. destruct (p input seq) as [[[m a]|[e|]|] seq1]; try done.
  - destruct Hp as (ts1 & -> & Hu).
    destruct (proj2 (Hu a ts1 m)) as [HP Hl1]; [done|].
    pose proof (lexes_shorter _ _ _ Hl1) as Hlen. pose proof (Hk _ _ HP).
    specialize (Hq a m (seq ++ map tok_typed ts1) ltac:(lia)).
    assert (forall b ts r, ((exists a ts1 ts2, ts = ts1 ++ ts2 /\ P a ts1 /\ Q a b ts2) /\
      lexes ts input r) <-> exists ts2, ts = ts1 ++ ts2 /\ Q a b ts2 /\ lexes ts2 m r) as Heq.
    { intros b ts r. split.
      - intros [(a' & ts1' & ts2 & -> & HP' & HQ) (m' & Ha & Hb)%lexes_app].
        destruct (proj1 (Hu a' ts1' m')) as (-> & -> & ->); [done|]. by exists ts2.
      - intros (ts2 & -> & HQ & Hb). split; [by exists a, ts1, ts2|]. apply lexes_app. by exists m. }
    destruct (q a m _) as [[[r b]|[e|]|] seq2]; try done.
    + destruct Hq as (ts2 & -> & Hu2). exists (ts1 ++ ts2). rewrite map_app, app_assoc.
      split; [done|]. intros b' ts' r'. rewrite Heq. split.
      * intros (ts2' & -> & H2%Hu2). destruct H2 as (-> & -> & ->). done.
      * intros (-> & -> & ->). exists ts2. split; [done|]. by apply Hu2.
    + intros b ts r. rewrite Heq. intros (ts2 & _ & H2). by apply (Hq b ts2 r).
  - intros b ts r [(a' & ts1 & ts2 & -> & HP & _) (m & Hl & _)%lexes_app]. by apply (Hp a' ts1 m).
Qed.

Lemma exact_read_int n : exact n read_int (fun v ts => ts = [TokInt v]).
Proof.
  intros input seq _. unfold read_int. pose proof (nom_i32_total (multispace0 input)) as Ht.
  assert (forall a ts r, (ts = [TokInt a] /\ lexes ts input r) <->
    nom_i32 (multispace0 input) = Ok (r, a) /\ ts = [TokInt a]) as Heq.
  { intros. split; [intros [-> Hl%lexes_one]; done|intros [Hl ->]; split; [done|by apply lexes_one]]. }
  st_run. destruct (nom_i32 _) as [[r v]|e|pn]; cbn; [| |by destruct Ht].
  - exists [TokInt v]. split; [done|]. intros a ts r'. rewrite Heq. split.
    + intros [? ->]. by simplify_eq.
    + intros (-> & -> & ->). done.
  - intros a ts r'. rewrite Heq. by intros [? _].
Qed.

Lemma exact_read_float n : exact n read_float (fun _ ts => exists b, ts = [TokFloat b]).
Proof.
  intros input seq _. unfold read_float. pose proof (recognize_float_total (multispace0 input)) as Ht.
  assert (forall ts r, ((exists b, ts = [TokFloat b]) /\ lexes ts input r) <->
    exists b txt, recognize_float (multispace0 input) = Ok (r, txt) /\ parse_f32 txt = Some b /\
      ts = [TokFloat b]) as Heq.
  { intros. split.
    - intros [[b ->] (txt & ? & ?)%lexes_one]. by exists b, txt.
    - intros (b & txt & ? & ? & ->). split; [by eexists|]. apply lexes_one. by exists txt. }
  st_run. destruct (recognize_float _) as [[r txt]|e|pn] eqn:Hr; cbn; [| |by destruct Ht].
  - destruct (recognize_float_reads _ _ _ Hr) as (_ & _ & v & Hv). rewrite Hv. cbn.
    exists [TokFloat v]. split; [done|]. intros [] ts r'. rewrite Heq. split.
    + intros (b & txt' & ? & ? & ->). by simplify_eq.
    + intros (_ & -> & ->). by exists v, txt.
  - intros a ts r'. rewrite Heq. by intros (b & txt & ? & _).
Qed.

(** *** Readers of a fixed sequence of kinds *)

Definition is_float (t : token) : bool := match t with TokFloat _ => true | _ => false end.

Definition kinds (ks : list bool) (_ : ()) (ts : list token) : Prop := map is_float ts = ks.

Lemma kinds_float n : exact n read_float (kinds [true]).
Proof.
  apply (exact_iff n _ _ _ (exact_read_float n)). intros [] ts. unfold kinds. split.
  - by intros [b ->].
  - destruct ts as [|[] [|]]; simpl; try done. intros _. by eexists.
Qed.

Lemma kinds_bind {n ks1 ks2} (p q : string -> IResult ()) :
  exact n p (kinds ks1) -> exact n q (kinds ks2) ->
  exact n (fun input => '(input, _) ← p input; q input) (kinds (ks1 ++ ks2)).
Proof.
  intros Hp Hq. eapply exact_iff.
  - apply (exact_bind n 0 p (fun _ => q) _ _ ltac:(intros; lia) Hp (fun _ => Hq)).
  - intros [] ts. unfold kinds. split.
    + intros ([] & ts1 & ts2 & -> & H1 & H2). by rewrite map_app, H1, H2.
    + intros (ts1 & ts2 & ? & ? & ?)%map_eq_app. by exists (), ts1, ts2.
Qed.

Lemma kinds_int {n ks} (q : string -> IResult ()) :
  exact n q (kinds ks) -> exact n (fun input => '(input, _) ← read_int input; q input) (kinds (false :: ks)).
Proof.
  intros Hq. eapply exact_iff.
  - apply (exact_bind n 0 read_int (fun _ => q) _ _ ltac:(intros; lia) (exact_read_int n) (fun _ => Hq)).
  - intros [] ts. unfold kinds. split.
    + intros (v & ts1 & ts2 & -> & -> & H2). simpl. by rewrite H2.
    + destruct ts as [|[v|] ts]; simpl; intros; simplify_eq. by exists v, [TokInt v], ts.
Qed.

Lemma kinds_floats k ts : map is_float ts = replicate k true <-> exists l, length l = k /\ ts = map TokFloat l.
Proof.
  split.
  - revert ts. induction k as [|k IH]; intros [|[v|b] ts]; simpl; intros Hk; simplify_eq; [by exists []|].
    destruct (IH _ Hk) as (l & <- & ->). by exists (b :: l).
  - intros (l & <- & ->). induction l; simpl; congruence.
Qed.

Lemma exact_vec3 n : exact n read_vec3 (kinds (replicate 3 true)).
Proof. apply (kinds_bind read_float _ (kinds_float n)), (kinds_bind read_float _ (kinds_float n)), kinds_float. Qed.

Lemma exact_env n :
  exact n read_sld_env (kinds (replicate 5 true ++ false :: replicate 3 true)).
Proof.
  apply (kinds_bind (ks1 := replicate 3 true) read_vec3 _ (exact_vec3 n)).
  do 2 apply (kinds_bind read_float _ (kinds_float n)).
  apply kinds_int. apply (kinds_bind read_float _ (kinds_float n)), (kinds_bind read_float _ (kinds_float n)), kinds_float.
Qed.

(** *** The scene *)

Definition body_spec (_ : ()) (ts : list token) : Prop :=
  exists a b rot fs, length fs = (if rot =? 0 then 12%nat else 15%nat) /\
    ts = map TokInt [a; b; rot] ++ map TokFloat fs.

Lemma exact_object n : exact n read_object body_spec.
Proof.
  assert (forall rot : Z, exact n (fun input =>
      '(input, _) ← read_vec3 input; '(input, _) ← read_vec3 input; '(input, _) ← read_float input;
      '(input, _) ← read_float input; '(input, _) ← read_float input; '(input, _) ← read_vec3 input;
      if negb (rot =? 0) then read_vec3 input else mret (input, ()))
    (kinds (replicate (if rot =? 0 then 12 else 15) true))) as Hfs.
  { intros rot.
    apply (exact_iff n _ (kinds (replicate 3 true ++ replicate 3 true ++ [true] ++ [true] ++ [true] ++
      replicate 3 true ++ replicate (if rot =? 0 then 0 else 3) true))).
    - repeat first [apply (kinds_bind read_vec3 _ (exact_vec3 n))|apply (kinds_bind read_float _ (kinds_float n))].
      destruct (rot =? 0); simpl; [|apply exact_vec3].
      eapply exact_iff; [apply exact_ret|]. intros [] ts. unfold kinds. simpl.
      split; [by intros [_ ->]|by intros ->%map_eq_nil].
    - intros [] ts. by destruct (rot =? 0). }
  eapply exact_iff.
  - apply (exact_bind n 0 read_int); [intros; lia|apply exact_read_int|intros a].
    apply (exact_bind n 0 read_int); [intros; lia|apply exact_read_int|intros b].
    apply (exact_bind n 0 read_int); [intros; lia|apply exact_read_int|exact Hfs].
  - intros [] ts. unfold body_spec, kinds. split.
    + intros (a & ? & ? & -> & -> & b & ? & ? & -> & -> & rot & ? & ? & -> & -> & (fs & Hl & ->)%kinds_floats).
      by exists a, b, rot, fs.
    + intros (a & b & rot & fs & Hl & ->). exists a, [TokInt a], (map TokInt [b; rot] ++ map TokFloat fs).
      do 2 (split; [done|]). exists b, [TokInt b], (map TokInt [rot] ++ map TokFloat fs).
      do 2 (split; [done|]). exists rot, [TokInt rot], (map TokFloat fs).
      do 2 (split; [done|]). apply kinds_floats. by exists fs.
Qed.

Lemma exact_objects fuel index :
  exact fuel (read_objects fuel index) (fun num ts => exists os, Forall object_ok os /\
    num = index + Z.of_nat (length os) /\ ts = concat (map object_tokens os) ++ [TokInt (-1)]).
Proof.
  revert index. induction fuel as [|fuel IH]; intros index; [by intros ? ? ?%Nat.nlt_0_r|].
  cbn [read_objects]. eapply exact_iff.
  - apply (exact_bind fuel 1 read_int _ (fun v ts => ts = [TokInt v])); [by intros ? ? ->|apply exact_read_int|intros id].
    instantiate (1 := fun id num ts => if id =? -1 then num = index /\ ts = [] else
      exists (u : ()) ts1 ts2, ts = ts1 ++ ts2 /\ body_spec u ts1 /\ exists os, Forall object_ok os /\
      num = index + 1 + Z.of_nat (length os) /\ ts2 = concat (map object_tokens os) ++ [TokInt (-1)]).
    simpl. destruct (id =? -1); [apply exact_ret|].
    apply (exact_bind fuel 0 read_object); [intros; lia|apply exact_object|intros _; apply IH].
  - intros num ts. simpl. split.
    + intros (id & ? & ts2 & -> & -> & Hts). destruct (Z.eqb_spec id (-1)) as [->|Hid].
      * destruct Hts as [-> ->]. exists []. split_and!; [done|simpl; lia|done].
      * destruct Hts as (_ & ? & ? & -> & (a & b & rot & fs & Hl & ->) & os & Hos & -> & ->).
        exists (mkObject id [a; b; rot] fs :: os). split_and!.
        -- constructor; [|done]. split; [done|]. by exists a, b, rot.
        -- simpl length. lia.
        -- cbn [map concat object_tokens obj_id obj_ints obj_floats]. by rewrite <- !app_assoc.
    + intros ([|[id ints fs] os] & Hos & -> & ->).
      * exists (-1), [TokInt (-1)], []. simpl. split_and!; try done. lia.
      * apply Forall_cons_1 in Hos as [[Hid (a & b & rot & Hints & Hl)] Hos]. simpl in *. subst ints.
        eexists id, [TokInt id], _. split; [done|]. split; [done|].
        destruct (Z.eqb_spec id (-1)) as [|_]; [done|].
        eexists (), (map TokInt [a; b; rot] ++ map TokFloat fs), _. split; [by rewrite <- app_assoc|].
        split; [by exists a, b, rot, fs|]. exists os. split_and!; [done|lia|done].
Qed.

Lemma exact_row fuel :
  exact fuel (read_row fuel) (fun _ ts => exists row, Forall (fun v => v <> -1) row /\ ts = row_tokens row).
Proof.
  induction fuel as [|fuel IH]; [by intros ? ? ?%Nat.nlt_0_r|].
  cbn [read_row]. eapply exact_iff.
  - apply (exact_bind fuel 1 read_int _ (fun v ts => ts = [TokInt v])); [by intros ? ? ->|apply exact_read_int|intros id].
    instantiate (1 := fun id _ ts => if id =? -1 then ts = [] else
      exists row, Forall (fun v => v <> -1) row /\ ts = row_tokens row).
    simpl. destruct (id =? -1); [|apply IH].
    eapply exact_iff; [apply exact_ret|]. intros [] ts.
    split; [by intros [_ ->]|by intros ->].
  - intros [] ts. simpl. split.
    + intros (id & ? & ts2 & -> & -> & Hts). destruct (Z.eqb_spec id (-1)) as [->|Hid].
      * subst. by exists [].
      * destruct Hts as (row & Hrow & ->). exists (id :: row). split; [by constructor|done].
    + intros ([|id row] & Hrow & ->).
      * by exists (-1), [TokInt (-1)], [].
      * apply Forall_cons_1 in Hrow as [Hid Hrow]. exists id, [TokInt id], (row_tokens row).
        split; [done|]. split; [done|]. destruct (Z.eqb_spec id (-1)); [done|]. by exists row.
Qed.

Lemma net_cons id row net :
  net_tokens ((id :: row) :: net) = TokInt id :: row_tokens row ++ net_tokens net.
Proof.
  unfold net_tokens. cbn [map concat]. change (row_tokens (id :: row)) with (TokInt id :: row_tokens row).
  by rewrite <- app_assoc.
Qed.

Lemma exact_net fuel :
  exact fuel (read_and_net fuel) (fun _ ts => exists net, Forall row_ok net /\ ts = net_tokens net).
Proof.
  induction fuel as [|fuel IH]; [by intros ? ? ?%Nat.nlt_0_r|].
  cbn [read_and_net]. eapply exact_iff.
  - apply (exact_bind fuel 1 read_int _ (fun v ts => ts = [TokInt v])); [by intros ? ? ->|apply exact_read_int|intros id].
    instantiate (1 := fun id _ ts => if id =? -1 then ts = [] else
      exists (u : ()) ts1 ts2, ts = ts1 ++ ts2 /\
        (exists row, Forall (fun v => v <> -1) row /\ ts1 = row_tokens row) /\
        exists net, Forall row_ok net /\ ts2 = net_tokens net).
    simpl. destruct (id =? -1).
    + eapply exact_iff; [apply exact_ret|]. intros [] ts.
    split; [by intros [_ ->]|by intros ->].
    + apply (exact_bind fuel 0 (read_row fuel)); [intros; lia|apply exact_row|intros _; apply IH].
  - intros [] ts. simpl. split.
    + intros (id & ? & ts2 & -> & -> & Hts). destruct (Z.eqb_spec id (-1)) as [->|Hid].
      * subst. by exists [].
      * destruct Hts as (_ & ? & ? & -> & (row & Hrow & ->) & net & Hnet & ->).
        exists ((id :: row) :: net). split.
        -- constructor; [|done]. split; [done|by constructor].
        -- by rewrite net_cons.
    + intros ([|[|id row] net] & Hnet & ->).
      * by exists (-1), [TokInt (-1)], [].
      * by apply Forall_cons_1 in Hnet as [[? _] _].
      * apply Forall_cons_1 in Hnet as [[_ Hrow] Hnet]. apply Forall_cons_1 in Hrow as [Hid Hrow].
        exists id, [TokInt id], (row_tokens row ++ net_tokens net).
        split; [by rewrite net_cons|]. split; [done|].
        destruct (Z.eqb_spec id (-1)) as [|_]; [done|].
        exists (), (row_tokens row), (net_tokens net).
        split; [done|split; [by exists row|by exists net]].
Qed.

Lemma exact_sld n : exact n (read_sld n) (fun num ts => exists sc, scene_ok sc /\
  num = Z.of_nat (length (objects sc)) /\ ts = scene_tokens sc).
Proof.
  unfold read_sld, read_or_net. eapply exact_iff.
  - apply (exact_bind n 0 read_sld_env); [intros; lia|apply exact_env|intros u].
    apply (exact_bind n 0 (read_objects n 0)); [intros; lia|apply exact_objects|intros num].
    apply (exact_bind n 0 (read_and_net n)); [intros; lia|apply exact_net|intros u1].
    apply (exact_bind n 0 (read_and_net n)); [intros; lia|apply exact_net|intros u2; apply exact_ret].
  - intros num ts. split.
    + intros (u & env & ? & -> & Henv & num' & ? & ? & -> & (os & Hos & -> & ->) & _ & ? & ? & ->
        & (an & Han & ->) & _ & ? & ? & -> & (on & Hon & ->) & -> & ->).
      unfold kinds in Henv. apply map_eq_app in Henv as (h & rest & -> & Hh & Hr).
      apply kinds_floats in Hh as (lh & Hlh & ->).
      destruct rest as [|[l|] rest]; simpl in Hr; [done| |done]. injection Hr as Hr.
      apply (kinds_floats 3) in Hr as (lt & Hlt & ->).
      exists (mkScene lh l lt os an on). split; [|split]; [by split_and!|done|].
      unfold scene_tokens, env_tokens. simpl. by rewrite app_nil_r, <- !app_assoc.
    + intros ([lh l lt os an on] & (Hlh & Hlt & Hos & Han & Hon) & -> & ->). simpl in *.
      unfold scene_tokens, env_tokens. cbn [env_head env_lights env_tail objects and_net or_net].
      eexists (), _, _. split; [done|]. split.
      { unfold kinds. rewrite map_app, map_cons.
        assert (map is_float (map TokFloat lh) = replicate 5 true) as -> by (apply kinds_floats; by exists lh).
        assert (map is_float (map TokFloat lt) = replicate 3 true) as -> by (apply kinds_floats; by exists lt).
        done. }
      eexists _, _, _. split; [done|]. split; [by exists os|].
      eexists (), _, _. split; [done|]. split; [by exists an|].
      eexists (), _, []. split; [by rewrite app_nil_r|]. split; [by exists on|done].
Qed.
End Exact.

(** ** The device *)

(** Read a sequence of tokens, each with the call for its type. *)
Fixpoint replay {I} `{Input I} (ts : list token) : ST I string (list Z) :=
  match ts with
  | [] => mret []
  | t :: ts =>
      v ← match t with TokInt _ => inw | TokFloat _ => finw end;
      vs ← replay ts;
      mret (v :: vs)
  end.

Definition tok_word (t : token) : Z := match t with TokInt v => i32_as_u32 v | TokFloat b => b end.

Definition tok_ok (t : token) : Prop := match t with TokInt v => i32_ok v | TokFloat b => u32_ok b end.

#[export] Program Instance SldData_ok : InputOk SldData := {
  in_ok d := Forall (fun v => u32_ok (value v)) (sld_seq d)
}.
Next Obligation.
  intros d Hd. unfold inw, SldData_input, sld_read. st_run.
  destruct (_ !! _) as [v|] eqn:Hv; [|by split]. pose proof (Forall_lookup_1 _ _ _ _ Hd Hv) as Hu.
  unfold typed_as_i32. case_decide; [|by split]. split; [done|]. intros w [= <-]. apply wrap32_ok.
Qed.
Next Obligation.
  intros d Hd. unfold finw, SldData_input, sld_read.
  destruct (_ !! _) as [v|] eqn:Hv; [|by split]. pose proof (Forall_lookup_1 _ _ _ _ Hd Hv) as Hu.
  unfold typed_as_f32. case_decide; [|by split]. split; [done|]. by intros w [= <-].
Qed.

(** What one call does at the next token. *)
Lemma read_token d ts1 t ts2 :
  sld_seq d = map tok_typed (ts1 ++ t :: ts2) -> sld_index d = length ts1 -> tok_ok t ->
  let next := mkSld (sld_seq d) (S (length ts1)) (num_objects d) in
  match t with
  | TokInt v => inw d = (Ok (i32_as_u32 v), next) /\ exists e, finw d = (Err e, d)
  | TokFloat b => finw d = (Ok b, next) /\ exists e, inw d = (Err e, d)
  end.
Proof.
  intros Hseq Hi Ht next.
  assert (sld_seq d !! sld_index d = Some (tok_typed t)) as Hl.
  { rewrite Hseq, Hi, map_app, lookup_app_r by (by rewrite length_map).
    by rewrite length_map, Nat.sub_diag. }
  destruct t as [v|b]; unfold inw, finw, SldData_input, sld_read; st_run; rewrite Hl; simpl.
  - split; [|by eexists]. cbn [ty value tok_typed typed]. rewrite as_u32_as_i32 by done.
    unfold next. by rewrite Hi.
  - split; [|by eexists]. unfold next. by rewrite Hi.
Qed.

Lemma replay_tokens ts1 ts2 d :
  sld_seq d = map tok_typed (ts1 ++ ts2) -> sld_index d = length ts1 -> Forall tok_ok ts2 ->
  replay ts2 d = (Ok (map tok_word ts2), mkSld (sld_seq d) (length (ts1 ++ ts2)) (num_objects d)).
Proof.
  revert ts1 d. induction ts2 as [|t ts2 IH]; intros ts1 d Hseq Hi Hok.
  - rewrite app_nil_r, <- Hi. by destruct d.
  - apply Forall_cons_1 in Hok as [Ht Hok]. pose proof (read_token d ts1 t ts2 Hseq Hi Ht) as Hr.
    cbn [replay map].
    assert (match t with TokInt _ => inw | TokFloat _ => finw end d
      = (Ok (tok_word t), mkSld (sld_seq d) (S (length ts1)) (num_objects d))) as Hone.
    { destruct t; apply Hr. }
    rewrite (run_ok _ _ _ _ _ Hone).
    set (d1 := mkSld _ _ _). assert (sld_index d1 = length (ts1 ++ [t])) as Hi1.
    { rewrite length_app. simpl. lia. }
    assert (sld_seq d1 = map tok_typed ((ts1 ++ [t]) ++ ts2)) as Hseq1 by by rewrite <- app_assoc.
    rewrite (run_ok _ _ _ _ _ (IH _ _ Hseq1 Hi1 Hok)). by rewrite <- app_assoc.
Qed.

(** ** Properties *)

Section Properties.
Context `{LexerLaws}.

Lemma f32_of_decimal_ok neg m e : u32_ok (f32_of_decimal neg m e).
Proof.
  unfold f32_of_decimal. destruct m; try (by apply encode32_ok).
  destruct (0 <=? e); [by apply encode32_ok|]. destruct (10 ^ (- e)); try done. by apply encode32_ok.
Qed.

Lemma parse_f32_ok s v : parse_f32 s = Some v -> u32_ok v.
Proof.
  unfold parse_f32. destruct (span_sign s) as [neg s1]. destruct (span_digits s1) as [ip s2].
  destruct (match s2 with String "." r => span_digits r | _ => ([], s2) end) as [fp s3].
  destruct (ip ++ fp) as [|]; [done|]. destruct (parse_exponent s3); [|done].
  intros [= <-]. apply f32_of_decimal_ok.
Qed.

Lemma lexes_ok ts s r : lexes ts s r -> Forall tok_ok ts.
Proof.
  induction 1 as [|t ts s m r H1 H2 IH]; constructor; [|done].
  destruct t as [v|b]; simpl in *; [by apply nom_i32_reads in H1 as [? _]|].
  destruct H1 as (txt & _ & Hp). by eapply parse_f32_ok.
Qed.

(** What [sld_parse] should return on a text. *)
Definition parse_spec (input : string) (o : outcome SldFail SldData) : Prop :=
  match o with
  | Ok d =>
      exists sc r, scene_ok sc /\ lexes (scene_tokens sc) input r /\
        d = mkSld (map tok_typed (scene_tokens sc)) 0 (Z.of_nat (length (objects sc))) /\
        forall sc' r', scene_ok sc' -> lexes (scene_tokens sc') input r' ->
          scene_tokens sc' = scene_tokens sc /\ r' = r
  | Err (NomError _) => forall sc r, scene_ok sc -> ~ lexes (scene_tokens sc) input r
  | _ => False
  end.

Lemma parse_scene input : parse_spec input (sld_parse input).
Proof.
  unfold sld_parse. pose proof (exact_sld (sld_fuel input) input []) as He.
  unfold sld_fuel in *. specialize (He ltac:(lia)).
  destruct (read_sld _ input []) as [[[r n]|[e|]|] seq]; simpl in *; try done.
  - destruct He as (ts & -> & Hu). destruct (proj2 (Hu n ts r)) as [(sc & Hok & -> & ->) Hl]; [done|].
    exists sc, r. split_and!; try done. intros sc' r' Hok' Hl'.
    destruct (proj1 (Hu (Z.of_nat (length (objects sc'))) (scene_tokens sc') r')) as (_ & ? & ?); [|done].
    split; [by exists sc'|done].
  - intros sc r Hok Hl. eapply He. split; [by exists sc|done].
Qed.

(** C33: The parser is exact: it returns a device if and only if the front of the text is,
    token by token, a scene of the grammar (environment, objects, nets); the
    device then holds exactly that scene and counts its objects.  Any other text
    is reported as an error of a lexer: the parser neither panics nor runs
    forever. *)
Theorem sld_parse_exact input : parse_spec input (sld_parse input).
Proof. apply parse_scene. Qed.

(** C36: The device replays the input: after a successful parse, the front of the input is
    the text of a scene (the only one it is the text of), token by token, and
    reading each token with the call for its type delivers the values of these
    tokens in order, the integers in two's complement and the floats as parsed from
    their text; it leaves the device at the end, where the next read of either type
    stops the simulator by an index error. *)
Theorem sld_replays input d :
  sld_parse input = Ok d ->
  exists sc rest d', scene_ok sc /\ lexes (scene_tokens sc) input rest /\
    (forall sc' rest', scene_ok sc' -> lexes (scene_tokens sc') input rest' ->
       scene_tokens sc' = scene_tokens sc) /\
    replay (scene_tokens sc) d = (Ok (map tok_word (scene_tokens sc)), d') /\
    inw d' = (Panic IndexOutOfBounds, d') /\ finw d' = (Panic IndexOutOfBounds, d').
Proof.
  intros Hd. pose proof (parse_scene input) as Hp. rewrite Hd in Hp.
  destruct Hp as (sc & r & Hok & Hl & -> & Huniq).
  set (d := mkSld _ _ _). exists sc, r, (mkSld (sld_seq d) (length (scene_tokens sc)) (num_objects d)).
  split; [done|]. split; [done|]. split; [intros sc' r' Hok' Hl'; by destruct (Huniq sc' r' Hok' Hl') as [-> _]|]. split.
  - apply (replay_tokens []); [done..|]. by eapply lexes_ok.
  - unfold inw, finw, SldData_input, sld_read, d. st_run.
    by rewrite lookup_ge_None_2 by by rewrite length_map.
Qed.
End Properties.

(** ** A lexer *)

Section DemoLexer.

Definition is_space (c : ascii) : bool :=
  let n := nat_of_ascii c in (n =? 32)%nat || (n =? 9)%nat || (n =? 13)%nat || (n =? 10)%nat.
Definition is_int_char (c : ascii) : bool := is_digit c || (c =? "-")%char || (c =? "+")%char.
Definition is_float_char (c : ascii) : bool :=
  is_int_char c || (c =? ".")%char || (c =? "e")%char || (c =? "E")%char.

Definition parse_int (t : string) : option Z :=
  let '(neg, t) := span_sign t in
  match span_digits t with
  | (d :: ds, EmptyString) => Some (if neg then - digits_value (d :: ds) else digits_value (d :: ds))
  | _ => None
  end.

#[local] Instance demo_lexer : Lexer := {
  multispace0 s := (span is_space s).2;
  nom_i32 s :=
    let '(t, r) := span is_int_char s in
    match parse_int t with
    | Some v => if decide (i32_ok v) then Ok (r, v) else Err "Digit"
    | None => Err "Digit"
    end;
  recognize_float s :=
    let '(t, r) := span is_float_char s in
    match parse_f32 t with Some _ => Ok (r, t) | None => Err "Float" end
}.

#[local] Program Instance demo_laws : LexerLaws.
Next Obligation. intros s. exists (span is_space s).1. apply span_app. Qed.
Next Obligation.
  intros s. simpl. destruct (span is_int_char s) as [t r]. destruct (parse_int t); [|by intros []].
  by case_decide; intros [].
Qed.
Next Obligation.
  intros s r v. simpl. pose proof (span_app is_int_char s) as Hs.
  destruct (span is_int_char s) as [t r']. destruct (parse_int t) eqn:Hp; [|done].
  case_decide; [|done]. intros [= -> ->]. split; [done|]. exists t. split; [|done]. by intros ->.
Qed.
Next Obligation.
  intros s. simpl. destruct (span is_float_char s) as [t r]. by destruct (parse_f32 t); intros [].
Qed.
Next Obligation.
  intros s r v. simpl. pose proof (span_app is_float_char s) as Hs.
  destruct (span is_float_char s) as [t r']. destruct (parse_f32 t) eqn:Hp; [|done].
  intros [= -> ->]. split_and!; [by intros ->|done|by eexists].
Qed.

Definition demo_sld : string :=
  "-70 35 -20 20 30 1 50 50 255
0 1 1 0 20 20 65 0 20 45 1 1.0 250 128 210 0
2 3 1 1 20 20 20 100 40 120 1 1.0 150 255 255 255 0.5 0 0
-1
0 1 -1
-1
11 0 1 -1
99 -1
-1
".

(** The unit test of the file, on a shorter scene. *)
Example test_sld_parse :
  match sld_parse demo_sld with
  | Ok d => length (sld_seq d) = 56%nat /\ num_objects d = 2 /\ ((typed_as_f32 <$> sld_seq d !! 1%nat) = Some (parse_f32 "35"))
  | _ => False
  end.
Proof. by vm_compute. Qed.

Lemma sld_parse_exact_witness : parse_spec demo_sld (sld_parse demo_sld).
Proof. apply (sld_parse_exact demo_sld). Defined.

Lemma sld_replays_witness :
  exists sc rest d', scene_ok sc /\ lexes (scene_tokens sc) demo_sld rest /\
    replay (scene_tokens sc) (match sld_parse demo_sld with Ok d => d | _ => mkSld [] 0 0 end)
    = (Ok (map tok_word (scene_tokens sc)), d').
Proof.
  destruct (sld_replays demo_sld (match sld_parse demo_sld with Ok d => d | _ => mkSld [] 0 0 end))
    as (sc & rest & d' & Hok & Hl & _ & Hr & _); [by vm_compute|]. by exists sc, rest, d'.
Defined.
End DemoLexer.
