(* ===== verification/Cpu.v ===== *)
(** * The processor ([core_sim/src/cpu.rs])

    The machine state and the stages of one simulated instruction.  The shared
    region cell of the register file and the memory is the field [region]. *)
From S2P Require Import Prelude Word Vec Ty Register Instr Decode Common RegFile Cache BranchPredictor Memory Float32 Fpu Io.

Definition DDR2_ACCESS_CYCLES : Z := 90.
Definition BRAM_WORD_SIZE : Z := 16384.
Definition STACK_WORD_SIZE : Z := 256.

(** ** Data *)

Inductive PipelineStage := InstrFetch | InstrDecode | Execute | MemoryAccess | WriteBack.

Record PipelineStat := mkPipelineStat {
  ps_ex_cycles : Z;
  ps_ma_cycles : Z;
  result_ready_stage : option PipelineStage;
  write_back_id : option RegId;
  float_write_back_id : option FRegId
}.

Record InstrFetchOutput := mkFetch { fo_bin : Z; fo_old_pc : Pc; fo_pc_plus4 : Pc }.

(** The instruction after the register fetch. *)
Definition FetchedInstr : Type := Instr Z RegId Z FRegId.

Record ExecuteInput := mkExecuteInput { ei_instr : FetchedInstr; ei_old_pc : Z; ei_pc_plus4 : Z }.

Inductive MemoryAccessInput :=
  | MaI (addr val : Z)
  | MaF (addr val : Z)
  | MaIMem (id : RegId) (addr : Z)
  | MaFMem (id : FRegId) (addr : Z).

Inductive WriteBackInput :=
  | WbI (id : RegId) (val : Z)
  | WbF (id : FRegId) (val : Z).

Record ExecuteOutput := mkExecuteOutput {
  eo_ma_in : option MemoryAccessInput;
  eo_wb_in : option WriteBackInput;
  eo_new_pc : option Z;
  eo_use_fpu : bool;
  eo_flush : bool;
  eo_cycles : Z;
  eo_end : bool
}.

Definition executeoutput_default : ExecuteOutput :=
  mkExecuteOutput None None None false false 0 false.

Record MemoryAccessOutput := mkMemoryAccessOutput {
  mo_cycles : Z;
  mo_cache_hit : bool;
  mo_use_bram : bool;
  mo_wb_in : option WriteBackInput
}.

(** ** Statistics *)

Definition InstrStat : Type := vec Z.
Definition instrstat_new : InstrStat := vnew 0 INSTR_ID_MAX.

Definition encounter_instr {E} (d : InstrId) (s : InstrStat) : outcome E InstrStat :=
  let i := instr_id_inner d in
  n ← vget s i; vset i (n + 1) s.

Record BranchStat := mkBranchStat {
  taken_pred_taken : Z;
  taken_pred_untaken : Z;
  untaken_pred_taken : Z;
  untaken_pred_untaken : Z
}.
Definition branchstat_default : BranchStat := mkBranchStat 0 0 0 0.

(** [BranchStat::update_stat] *)
Definition branchstat_update (predicted actual : bool) (s : BranchStat) : BranchStat :=
  let '(mkBranchStat t_t t_u u_t u_u) := s in
  if predicted then
    if actual then mkBranchStat (t_t + 1) t_u u_t u_u else mkBranchStat t_t t_u (u_t + 1) u_u
  else if actual then mkBranchStat t_t (t_u + 1) u_t u_u else mkBranchStat t_t t_u u_t (u_u + 1).

Record CacheStat := mkCacheStat { hit_count : Z; miss_count : Z }.
Definition cachestat_default : CacheStat := mkCacheStat 0 0.

(** [CacheStat::update_stat] *)
Definition cachestat_update (result : bool) (s : CacheStat) : CacheStat :=
  if result then mkCacheStat (hit_count s + 1) (miss_count s)
  else mkCacheStat (hit_count s) (miss_count s + 1).

(** ** Errors *)

(** The errors that reach the simulator; [anyhow] errors are kept apart by their
    source: the decoder, or an input or output device with its message. *)
Inductive RuntimeError :=
  | MemoryError (e : MemoryAccessError)
  | DecodeError (e : DecodeFail)
  | IoError (msg : string).

Inductive RuntimeErrorLevel := Fatal.

(** [RuntimeError::level] *)
Definition level (e : RuntimeError) : RuntimeErrorLevel := Fatal.
Definition is_fatal (l : RuntimeErrorLevel) : bool := match l with Fatal => true end.

Inductive BreakReason := BreakSpy (s : SpyResult).

Inductive ControlFlow := Continue | Break (r : BreakReason) | Exit.

(** [D] is the type of a decoded instruction, which depends on the set. *)
Record ExecutionTrace (D : Type) := mkTrace { tr_pc : Pc; tr_undecoded : Z; tr_decoded : D }.
Arguments mkTrace {D}.
Arguments tr_pc {D}.
Arguments tr_undecoded {D}.
Arguments tr_decoded {D}.

Record CycleResult (D : Type) := mkCycleResult {
  cr_cycles : Z;
  cr_trace : option (ExecutionTrace D);
  cr_flow : ControlFlow
}.
Arguments mkCycleResult {D}.
Arguments cr_cycles {D}.
Arguments cr_trace {D}.
Arguments cr_flow {D}.

(** ** The machine *)

Record Cpu (I O : Type) := mkCpu {
  reg_file : RegFile;
  region : MemoryRegionStatBuilder;
  memory : Memory;
  cache : Cache;
  pc : Pc;
  input : I;
  output : O;
  branch_predictor : BranchPredictor;
  pipeline_state : list (option PipelineStat);
  i_stat : InstrStat;
  c_stat : CacheStat;
  b_stat : BranchStat
}.
Arguments mkCpu {I O}.
Arguments reg_file {I O} c.
Arguments region {I O} c.
Arguments memory {I O} c.
Arguments cache {I O} c.
Arguments pc {I O} c.
Arguments input {I O} c.
Arguments output {I O} c.
Arguments branch_predictor {I O} c.
Arguments pipeline_state {I O} c.
Arguments i_stat {I O} c.
Arguments c_stat {I O} c.
Arguments b_stat {I O} c.

Section Setters.
Context {I O : Type}.
Implicit Types c : Cpu I O.

Definition set_reg_file (x : RegFile) c : Cpu I O :=
  mkCpu x (region c) (memory c) (cache c) (pc c) (input c) (output c) (branch_predictor c)
    (pipeline_state c) (i_stat c) (c_stat c) (b_stat c).
Definition set_regs (x : RegFile * MemoryRegionStatBuilder) c : Cpu I O :=
  mkCpu x.1 x.2 (memory c) (cache c) (pc c) (input c) (output c) (branch_predictor c)
    (pipeline_state c) (i_stat c) (c_stat c) (b_stat c).
Definition set_memory (x : Memory) c : Cpu I O :=
  mkCpu (reg_file c) (region c) x (cache c) (pc c) (input c) (output c) (branch_predictor c)
    (pipeline_state c) (i_stat c) (c_stat c) (b_stat c).
Definition set_cache (x : Cache) c : Cpu I O :=
  mkCpu (reg_file c) (region c) (memory c) x (pc c) (input c) (output c) (branch_predictor c)
    (pipeline_state c) (i_stat c) (c_stat c) (b_stat c).
Definition set_pc (x : Pc) c : Cpu I O :=
  mkCpu (reg_file c) (region c) (memory c) (cache c) x (input c) (output c) (branch_predictor c)
    (pipeline_state c) (i_stat c) (c_stat c) (b_stat c).
Definition set_input (x : I) c : Cpu I O :=
  mkCpu (reg_file c) (region c) (memory c) (cache c) (pc c) x (output c) (branch_predictor c)
    (pipeline_state c) (i_stat c) (c_stat c) (b_stat c).
Definition set_output (x : O) c : Cpu I O :=
  mkCpu (reg_file c) (region c) (memory c) (cache c) (pc c) (input c) x (branch_predictor c)
    (pipeline_state c) (i_stat c) (c_stat c) (b_stat c).
Definition set_predictor (x : BranchPredictor) c : Cpu I O :=
  mkCpu (reg_file c) (region c) (memory c) (cache c) (pc c) (input c) (output c) x
    (pipeline_state c) (i_stat c) (c_stat c) (b_stat c).
Definition set_pipeline (x : list (option PipelineStat)) c : Cpu I O :=
  mkCpu (reg_file c) (region c) (memory c) (cache c) (pc c) (input c) (output c)
    (branch_predictor c) x (i_stat c) (c_stat c) (b_stat c).
Definition set_i_stat (x : InstrStat) c : Cpu I O :=
  mkCpu (reg_file c) (region c) (memory c) (cache c) (pc c) (input c) (output c)
    (branch_predictor c) (pipeline_state c) x (c_stat c) (b_stat c).
Definition set_c_stat (x : CacheStat) c : Cpu I O :=
  mkCpu (reg_file c) (region c) (memory c) (cache c) (pc c) (input c) (output c)
    (branch_predictor c) (pipeline_state c) (i_stat c) x (b_stat c).
Definition set_b_stat (x : BranchStat) c : Cpu I O :=
  mkCpu (reg_file c) (region c) (memory c) (cache c) (pc c) (input c) (output c)
    (branch_predictor c) (pipeline_state c) (i_stat c) (c_stat c) x.
End Setters.

(** ** Pure parts of the execute stage *)

Section Alu.
Context `{Profile} {E : Type}.

Definition r_alu (instr : RInstr) (rs1 rs2 : Z) : outcome E Z :=
  match instr with
  | Add => Ok (wrapping_add rs1 rs2)
  | Sub => Ok (wrapping_sub rs1 rs2)
  | Xor => Ok (Z.lxor rs1 rs2)
  | Or => Ok (Z.lor rs1 rs2)
  | And => Ok (Z.land rs1 rs2)
  | Sll => shl_u32 rs1 rs2
  | Sra => shr_u32 rs1 rs2
  | Slt => Ok (if as_i32 rs1 <? as_i32 rs2 then 1 else 0)
  end.

Definition b_cond (instr : BInstr) (rs1 rs2 : Z) : bool :=
  match instr with
  | Beq => rs1 =? rs2
  | Bne => negb (rs1 =? rs2)
  | Blt => as_i32 rs1 <? as_i32 rs2
  | Bge => as_i32 rs2 <=? as_i32 rs1
  end.

Definition e_alu (instr : EInstr) (rs1 rs2 : Z) : Z :=
  match instr with
  | Fadd => f32_add rs1 rs2
  | Fsub => f32_sub rs1 rs2
  | Fmul => fmul rs1 rs2
  | Fdiv => fdiv rs1 rs2
  | Fsgnj => copysign rs1 rs2
  | Fsgnjn => copysign rs1 (f32_neg rs2)
  | Fsgnjx => copysign rs1 (f32_mul (signum rs1) (signum rs2))
  end.

Definition e_cycles (instr : EInstr) : Z :=
  match instr with
  | Fadd => 5 | Fsub => 5 | Fmul => 2 | Fdiv => 11 | Fsgnj => 1 | Fsgnjn => 1 | Fsgnjx => 1
  end.

Definition h_alu (instr : HInstr) (rs1 : Z) : Z :=
  match instr with Fsqrt => fsqrt rs1 | Fhalf => fhalf rs1 | Ffloor => ffloor rs1 end.

Definition h_cycles (instr : HInstr) : Z :=
  match instr with Fsqrt => 8 | Fhalf => 1 | Ffloor => 8 end.

Definition k_alu (instr : KInstr) (rs1 rs2 : Z) : Z :=
  match instr with Flt => if f32_lt rs1 rs2 then 1 else 0 end.

Definition x_alu (instr : XInstr) (rs1 : Z) : Z :=
  match instr with Fitof => fcvtsw (as_i32 rs1) end.

Definition y_alu (instr : YInstr) (rs1 : Z) : Z :=
  match instr with
  | Fiszero => if f32_eq rs1 f32_zero then 1 else 0
  | Fispos => if f32_gt rs1 f32_zero then 1 else 0
  | Fisneg => if f32_lt rs1 f32_zero then 1 else 0
  | Fftoi => i32_as_u32 (fcvtws rs1)
  end.

Definition y_cycles (instr : YInstr) : Z :=
  match instr with Fiszero => 1 | Fispos => 1 | Fisneg => 1 | Fftoi => 2 end.

Definition w_cond (instr : WInstr) (rs1 rs2 : Z) : bool :=
  match instr with Fblt => f32_lt rs1 rs2 | Fbge => f32_ge rs1 rs2 end.

Definition v_cond (instr : VInstr) (rs1 : Z) : bool :=
  match instr with Fbeqz => f32_eq rs1 f32_zero | Fbnez => negb (f32_eq rs1 f32_zero) end.
End Alu.

(** ** Hazards *)

Definition regid_is_included_in_srcs (instr : DecodedInstr) (regid : RegId) : bool :=
  let eq r := bool_decide (r = regid) in
  match instr with
  | InstrR _ _ rs1 rs2 => eq rs1 || eq rs2
  | InstrI _ _ rs1 _ => eq rs1
  | InstrS _ rs1 rs2 _ => eq rs1 || eq rs2
  | InstrB _ rs1 rs2 _ => eq rs1 || eq rs2
  | InstrP _ rs1 _ _ => eq rs1
  | InstrJ _ _ _ => false
  | InstrIO io => match io with Outb rs => eq rs | Inw _ => false | Finw _ => false end
  | InstrF f =>
      match f with
      | FX _ _ rs1 => eq rs1
      | Flw _ rs1 _ => eq rs1
      | Fsw _ rs1 _ => eq rs1
      | _ => false
      end
  | InstrMisc _ => false
  end.

Definition fregid_is_included_in_srcs (instr : DecodedInstr) (fregid : FRegId) : bool :=
  let eq r := bool_decide (r = fregid) in
  match instr with
  | InstrF f =>
      match f with
      | FE _ _ rs1 rs2 => eq rs1 || eq rs2
      | FG _ _ rs1 rs2 rs3 => eq rs1 || eq rs2 || eq rs3
      | FH _ _ rs1 => eq rs1
      | FK _ _ rs1 rs2 => eq rs1 || eq rs2
      | FX _ _ _ => false
      | FY _ _ rs1 => eq rs1
      | FWb _ rs1 rs2 _ => eq rs1 || eq rs2
      | FV _ rs1 _ => eq rs1
      | Flw _ _ _ => false
      | Fsw rs2 _ _ => eq rs2
      end
  | _ => false
  end.

(** The two tests, for the instructions of a set. *)
Class Sources (D : Type) := {
  reads_reg : D -> RegId -> bool;
  reads_freg : D -> FRegId -> bool
}.
#[export] Instance first_sources : Sources DecodedInstr := {|
  reads_reg := regid_is_included_in_srcs;
  reads_freg := fregid_is_included_in_srcs
|}.

Section Stalls.
Context {D : Type} `{Sources D}.

(** Does [instr] read the register that the instruction in a stage will write? *)
Definition hazard (instr : D) (s : PipelineStat) : bool :=
  match write_back_id s with Some r => reads_reg instr r | None => false end ||
  match float_write_back_id s with Some r => reads_freg instr r | None => false end.

(** The stall that a slot of the pipeline causes: [of_stage] gives it from the
    stage in which the awaited result is ready. *)
Definition stall_with (of_stage : PipelineStage -> Z) (instr : D)
    (slot : option PipelineStat) : Z :=
  match slot with
  | Some s =>
      match result_ready_stage s with
      | Some stage => if hazard instr s then of_stage stage else 0
      | None => 0
      end
  | None => 0
  end.

Definition stall_cycles_with_ex : D -> option PipelineStat -> Z :=
  stall_with (fun stage => match stage with WriteBack => 2 | MemoryAccess => 1 | _ => 0 end).
Definition stall_cycles_with_ma : D -> option PipelineStat -> Z :=
  stall_with (fun stage => match stage with WriteBack => 1 | _ => 0 end).
End Stalls.

(** Is an address served by the block memory? *)
Definition use_bram (addr : Z) : bool :=
  negb (range_contains BRAM_WORD_SIZE (Z.shiftr RAM_BYTE_SIZE 2 - STACK_WORD_SIZE) addr).

(** ** The stages *)

Section Stages.
Context `{Profile} {I O : Type} `{Input I} `{Output O}.

Definition M (A : Type) : Type := ST (Cpu I O) RuntimeError A.

(** [Cpu::get_data_and_text_len]: the first eight bytes of the image. *)
Definition get_data_and_text_len {E} (mem : list Z) : outcome E (Z * Z) :=
  match mem with
  | d0 :: d1 :: d2 :: d3 :: t0 :: t1 :: t2 :: t3 :: _ =>
      Ok (from_le_bytes d0 d1 d2 d3, from_le_bytes t0 t1 t2 t3)
  | _ => Panic SliceOutOfBounds
  end.

(** [Cpu::new] *)
Definition cpu_new {RC : RegCount} {E} (mem : list Z) (i : I) (o : O) : outcome E (Cpu I O) :=
  '(data_len, text_len) ← get_data_and_text_len mem;
  hp ← add_u32 data_len text_len;
  let rf := set_sp (Z.shiftr RAM_BYTE_SIZE 2 - 1) (set_hp hp regfile_new) in
  match set_f (mkFRegId 1) f32_one rf with
  | (Ok _, rf) =>
      let c := mkCpu rf (end_init rf) (memory_new RAM_BYTE_SIZE) (cache_new CACHE_NUM_LINES)
        (mkPc (wrap32 (Z.shiftl data_len 2))) i o (predictor_new NUM_COUNTERS)
        [None; None; None; None; None] instrstat_new cachestat_default branchstat_default in
      let text_begin := wrap32 (Z.shiftl data_len 2) in
      text_end ← add_u32 text_begin (wrap32 (Z.shiftl text_len 2));
      match init_from_slice RAM_BYTE_SIZE (drop 8 mem) text_begin text_end (memory c) with
      | (Ok _, m) => mret (set_memory m c)
      | (Err e, _) => Err e
      | (Panic p, _) => Panic p
      end
  | (Err e, _) => Err e
  | (Panic p, _) => Panic p
  end.

Definition instr_fetch : M InstrFetchOutput :=
  c ← gets (fun c => c);
  let old_pc := pc c in
  bin ← lift (map_err MemoryError (get_from_pc old_pc (memory c)));
  next ← lift (pc_incr old_pc);
  _ ← modify (set_pc next);
  mret (mkFetch bin old_pc next).

Definition instr_decode (bin : Z) : M DecodedInstr :=
  lift (map_err DecodeError (decode_from bin)).

(** Reads of the register files. *)
Definition rget (r : RegId) : M Z := zoom reg_file set_reg_file (get r).
Definition fget (r : FRegId) : M Z := zoom reg_file set_reg_file (get_f r).

Definition reg_fetch_io (io : IOInstr RegId RegId FRegId) : M (IOInstr Z RegId FRegId) :=
  match io with
  | Outb rs => v ← rget rs; mret (Outb v)
  | Inw rd => mret (Inw rd)
  | Finw rd => mret (Finw rd)
  end.

Definition reg_fetch_f (f : FInstr RegId RegId FRegId FRegId) : M (FInstr Z RegId Z FRegId) :=
  match f with
  | FE i rd rs1 rs2 => v1 ← fget rs1; v2 ← fget rs2; mret (FE i rd v1 v2)
  | FG i rd rs1 rs2 rs3 =>
      v1 ← fget rs1; v2 ← fget rs2; v3 ← fget rs3; mret (FG i rd v1 v2 v3)
  | FH i rd rs1 => v1 ← fget rs1; mret (FH i rd v1)
  | FK i rd rs1 rs2 => v1 ← fget rs1; v2 ← fget rs2; mret (FK i rd v1 v2)
  | FX i rd rs1 => v1 ← rget rs1; mret (FX i rd v1)
  | FY i rd rs1 => v1 ← fget rs1; mret (FY i rd v1)
  | FWb i rs1 rs2 imm => v1 ← fget rs1; v2 ← fget rs2; mret (FWb i v1 v2 imm)
  | FV i rs1 imm => v1 ← fget rs1; mret (FV i v1 imm)
  | Flw rd rs1 imm => v1 ← rget rs1; mret (Flw rd v1 imm)
  | Fsw rs2 rs1 imm => v2 ← fget rs2; v1 ← rget rs1; mret (Fsw v2 v1 imm)
  end.

Definition reg_fetch (instr : DecodedInstr) : M FetchedInstr :=
  match instr with
  | InstrR i rd rs1 rs2 => v1 ← rget rs1; v2 ← rget rs2; mret (InstrR i rd v1 v2)
  | InstrI i rd rs1 imm => v1 ← rget rs1; mret (InstrI i rd v1 imm)
  | InstrS i rs1 rs2 imm => v1 ← rget rs1; v2 ← rget rs2; mret (InstrS i v1 v2 imm)
  | InstrB i rs1 rs2 imm => v1 ← rget rs1; v2 ← rget rs2; mret (InstrB i v1 v2 imm)
  | InstrP i rs1 imm imm2 => v1 ← rget rs1; mret (InstrP i v1 imm imm2)
  | InstrJ i rd imm => mret (InstrJ i rd imm)
  | InstrIO io => io ← reg_fetch_io io; mret (InstrIO io)
  | InstrF f => f ← reg_fetch_f f; mret (InstrF f)
  | InstrMisc m => mret (InstrMisc m)
  end.

(** The part that every conditional branch shares: the predictor is asked and
    updated at the current [pc], which the fetch has already advanced. *)
Definition branch (cond : bool) (old_pc imm : Z) : M ExecuteOutput :=
  let new_pc := if cond then Some (wrapping_add old_pc imm) else None in
  c ← gets (fun c => c);
  prediction ← lift (predict NUM_COUNTERS (pc_val (pc c)) (branch_predictor c));
  _ ← zoom branch_predictor set_predictor (update_state NUM_COUNTERS (pc_val (pc c)) cond);
  _ ← modify (fun c => set_b_stat (branchstat_update prediction cond (b_stat c)) c);
  mret (mkExecuteOutput None None new_pc false (negb (Bool.eqb prediction cond)) 1 false).

Definition write_int (id : RegId) (val : Z) : ExecuteOutput :=
  mkExecuteOutput None (Some (WbI id val)) None false false 1 false.

Definition execute_i (instr : IInstr) (rd : RegId) (rs1 imm pc_plus4 : Z) : M ExecuteOutput :=
  let ret val := mret (mkExecuteOutput None (Some (WbI rd val)) None false false 0 false) in
  match instr with
  | Addi => ret (wrapping_add rs1 imm)
  | Xori => ret (Z.lxor rs1 imm)
  | Ori => ret (Z.lor rs1 imm)
  | Andi => ret (Z.land rs1 imm)
  | Slli => v ← lift (shl_u32 rs1 imm); ret v
  | Slti => ret (if as_i32 rs1 <? as_i32 imm then 1 else 0)
  | Lw =>
      mret (mkExecuteOutput (Some (MaIMem rd (wrapping_add rs1 imm))) None None false false 0 false)
  | Jalr =>
      mret (mkExecuteOutput None (Some (WbI rd pc_plus4)) (Some (wrapping_add rs1 imm))
              false true 0 false)
  end.

Definition execute_io (io : IOInstr Z RegId FRegId) : M ExecuteOutput :=
  match io with
  | Outb rs =>
      _ ← with_err IoError (zoom output set_output (outb (as_u8 rs)));
      mret (mkExecuteOutput None None None false false 1 false)
  | Inw rd =>
      val ← with_err IoError (zoom input set_input inw);
      mret (write_int rd val)
  | Finw rd =>
      val ← with_err IoError (zoom input set_input finw);
      mret (mkExecuteOutput None (Some (WbF rd val)) None false false 1 false)
  end.

(** The jump, the float branches, and the float loads and stores, which both
    instruction sets have. *)
Definition execute_j (instr : JInstr) (rd : RegId) (imm old_pc pc_plus4 : Z) : M ExecuteOutput :=
  match instr with
  | Jal =>
      mret (mkExecuteOutput None (Some (WbI rd pc_plus4)) (Some (wrapping_add old_pc imm))
              false false 1 false)
  end.

Definition execute_w (instr : WInstr) (rs1 rs2 imm old_pc : Z) : M ExecuteOutput :=
  branch (w_cond instr rs1 rs2) old_pc imm.

Definition execute_v (instr : VInstr) (rs1 imm old_pc : Z) : M ExecuteOutput :=
  branch (v_cond instr rs1) old_pc imm.

Definition execute_flw (rd : FRegId) (rs1 imm : Z) : M ExecuteOutput :=
  mret (mkExecuteOutput (Some (MaFMem rd (wrapping_add rs1 imm))) None None false false 0 false).

Definition execute_fsw (rs2 rs1 imm : Z) : M ExecuteOutput :=
  mret (mkExecuteOutput (Some (MaF (wrapping_add rs1 imm) rs2)) None None false false 1 false).

Definition execute_misc (m : MiscInstr) : M ExecuteOutput :=
  match m with MiscEnd => mret (mkExecuteOutput None None None false false 1 true) end.

Definition execute_f (f : FInstr Z RegId Z FRegId) (old_pc : Z) : M ExecuteOutput :=
  match f with
  | FE instr rd rs1 rs2 =>
      mret (mkExecuteOutput None (Some (WbF rd (e_alu instr rs1 rs2))) None true false
              (e_cycles instr) false)
  | FG instr _ _ _ _ => match instr with end
  | FH instr rd rs1 =>
      mret (mkExecuteOutput None (Some (WbF rd (h_alu instr rs1))) None true false
              (h_cycles instr) false)
  | FK instr rd rs1 rs2 => mret (write_int rd (k_alu instr rs1 rs2))
  | FX instr rd rs1 =>
      mret (mkExecuteOutput None (Some (WbF rd (x_alu instr rs1))) None true false 4 false)
  | FY instr rd rs1 =>
      mret (mkExecuteOutput None (Some (WbI rd (y_alu instr rs1))) None true false
              (y_cycles instr) false)
  | FWb instr rs1 rs2 imm => execute_w instr rs1 rs2 imm old_pc
  | FV instr rs1 imm => execute_v instr rs1 imm old_pc
  | Flw rd rs1 imm => execute_flw rd rs1 imm
  | Fsw rs2 rs1 imm => execute_fsw rs2 rs1 imm
  end.

Definition execute (ex_in : ExecuteInput) : M ExecuteOutput :=
  let '(mkExecuteInput instr old_pc pc_plus4) := ex_in in
  match instr with
  | InstrR instr rd rs1 rs2 => val ← lift (r_alu instr rs1 rs2); mret (write_int rd val)
  | InstrI instr rd rs1 imm => execute_i instr rd rs1 imm pc_plus4
  | InstrS _ rs1 rs2 imm =>
      mret (mkExecuteOutput (Some (MaI (wrapping_add rs1 imm) rs2)) None None false false 1 false)
  | InstrB instr rs1 rs2 imm => branch (b_cond instr rs1 rs2) old_pc imm
  | InstrP instr _ _ _ => match instr with end
  | InstrJ instr rd imm => execute_j instr rd imm old_pc pc_plus4
  | InstrIO io => execute_io io
  | InstrF f => execute_f f old_pc
  | InstrMisc m => execute_misc m
  end.

(** A memory operation, with the local slot for a spy hit. *)
Definition run_mem {A} (op : MemST A) (spied : option SpyResult) : M (A * option SpyResult) :=
  fun c =>
    let '(r, (m, spied)) := op (memory c, spied) in
    ((fun a => (a, spied)) <$> map_err MemoryError r, set_memory m c).

(** The cache is asked only for addresses outside the block memory. *)
Definition probe_cache (addr : Z) : M bool :=
  if use_bram addr then mret false
  else zoom cache set_cache (access_cache CACHE_NUM_LINES addr).

(** The call of the memory, and what it leaves to write back. *)
Definition perform_access (region : MemoryRegionStatBuilder) (ma_in : MemoryAccessInput)
    (spied : option SpyResult) : M (option WriteBackInput * option SpyResult) :=
  match ma_in with
  | MaI addr val =>
      r ← run_mem (mem_set RAM_BYTE_SIZE region addr val) spied; mret (None, r.2)
  | MaF addr val =>
      r ← run_mem (mem_set_f RAM_BYTE_SIZE region addr val) spied; mret (None, r.2)
  | MaIMem id addr =>
      r ← run_mem (mem_get_i RAM_BYTE_SIZE region addr) spied;
      mret (Some (WbI id (get_unchecked r.1)), r.2)
  | MaFMem id addr =>
      r ← run_mem (mem_get_f RAM_BYTE_SIZE region addr) spied;
      mret (Some (WbF id r.1), r.2)
  end.

Definition access_addr (ma_in : MemoryAccessInput) : Z :=
  match ma_in with MaI a _ => a | MaF a _ => a | MaIMem _ a => a | MaFMem _ a => a end.

Definition memory_access (ma_in : MemoryAccessInput) (spied : option SpyResult)
    : M (MemoryAccessOutput * option SpyResult) :=
  let bram := use_bram (access_addr ma_in) in
  hit ← probe_cache (access_addr ma_in);
  c ← gets (fun c => c);
  r ← perform_access (region c) ma_in spied;
  _ ← (if bram then mret ()
       else modify (fun c => set_c_stat (cachestat_update hit (c_stat c)) c));
  let cycles := if bram then 1 else if (hit : bool) then 2 else DDR2_ACCESS_CYCLES in
  mret (mkMemoryAccessOutput cycles hit bram r.1, r.2).

Definition write_back (wb_in : WriteBackInput) : M () :=
  match wb_in with
  | WbI id val => zoom (fun c => (reg_file c, region c)) set_regs (set id val)
  | WbF id val => zoom reg_file set_reg_file (set_f id val)
  end.

Definition calc_stall_cycles {D} `{Sources D} (instr : D) : M Z :=
  p ← gets pipeline_state;
  match p with
  | ex :: ma :: _ =>
      mret (Z.max (stall_cycles_with_ex instr ex) (stall_cycles_with_ma instr ma))
  | _ => lift (Panic UnwrapFailed)
  end.

(** [pop_back], [push_front] and the assertion on the length. *)
Definition push_instr_to_pipeline_and_get_cycles (instr : option PipelineStat) : M Z :=
  p ← gets pipeline_state;
  let ex_cycles := match instr with Some s => ps_ex_cycles s | None => 1 end in
  match p with
  | [] => lift (Panic UnwrapFailed)
  | first :: _ =>
      let ma_cycles := match first with Some s => ps_ma_cycles s | None => 1 end in
      let p := instr :: removelast p in
      _ ← modify (set_pipeline p);
      if (length p =? 5)%nat then mret (Z.max ex_cycles ma_cycles) else lift (Panic AssertFailed)
  end.

(** [for _ in 0..n { res.cycles += push(None) }] *)
Fixpoint push_bubbles (n : nat) (cycles : Z) : M Z :=
  match n with
  | Datatypes.O => mret cycles
  | S n => k ← push_instr_to_pipeline_and_get_cycles None; push_bubbles n (cycles + k)
  end.

(** The timing model of [cycle_one_full]: the stalls, the instruction itself and
    the flush of a taken jump or a misprediction. *)
Definition account {D} `{Sources D} (instr : D) (ex_cycles ma_cycles : Z) (stage : PipelineStage)
    (wb_in : option WriteBackInput) (flush : bool) : M Z :=
  stalls ← calc_stall_cycles instr;
  cycles ← push_bubbles (Z.to_nat stalls) 0;
  k ← push_instr_to_pipeline_and_get_cycles
        (Some (mkPipelineStat ex_cycles ma_cycles (Some stage)
                 match wb_in with Some (WbI id _) => Some id | _ => None end
                 match wb_in with Some (WbF id _) => Some id | _ => None end));
  if flush then push_bubbles 2 (cycles + k) else mret (cycles + k).

(** The memory access of [cycle_one_full], when the instruction has one: the
    pending write-back, the memory cycles, the stage and the control flow. *)
Definition finish_memory (ma_in : option MemoryAccessInput) (wb_in : option WriteBackInput)
    (stage : PipelineStage) : M (option WriteBackInput * Z * PipelineStage * ControlFlow) :=
  match ma_in with
  | None => mret (wb_in, 1, stage, Continue)
  | Some ma_in =>
      r ← memory_access ma_in None;
      let ma_out : MemoryAccessOutput := r.1 in
      let flow := match r.2 with Some s => Break (BreakSpy s) | None => Continue end in
      match mo_wb_in ma_out with
      | Some wb =>
          mret (Some wb, mo_cycles ma_out,
                if mo_use_bram ma_out then WriteBack else MemoryAccess, flow)
      | None => mret (wb_in, mo_cycles ma_out, stage, flow)
      end
  end.

(** From the output of the execute stage to the end of the cycle. *)
Definition complete {D} `{Sources D} (instr : D) (trace : option (ExecutionTrace D)) (out : ExecuteOutput) : M (CycleResult D) :=
  _ ← match eo_new_pc out with
      | Some val => modify (set_pc (mkPc (wrap32 val)))
      | None => mret ()
      end;
  r ← finish_memory (eo_ma_in out) (eo_wb_in out)
        (if eo_use_fpu out then MemoryAccess else Execute);
  let '(wb_in, ma_cycles, stage, flow) :=
    (r : option WriteBackInput * Z * PipelineStage * ControlFlow) in
  _ ← match wb_in with Some wb => write_back wb | None => mret () end;
  cycles ← account instr (eo_cycles out) ma_cycles stage wb_in (eo_flush out);
  mret (mkCycleResult cycles trace flow).

(** What an instruction set puts into the machine: the decoder, the numbers of its
    instructions, and the two stages and the tests that look at an instruction.
    [D] and [F] are an instruction before and after the register fetch; the two
    addresses are those of this instruction and of the next. *)
Class InstrSet (D F : Type) := {
  set_sources :: Sources D;
  set_decode : Z -> M D;
  set_id : D -> InstrId;
  set_reg_fetch : D -> M F;
  set_execute : F -> Z -> Z -> M ExecuteOutput
}.

Section Cycle.
Context {D F : Type} `{InstrSet D F}.

(** [Cpu::cycle_one_full], in a build with this instruction set *)
Definition cycle_of (do_trace : bool) : M (CycleResult D) :=
  fetched ← instr_fetch;
  instr ← set_decode (fo_bin fetched);
  let trace := if do_trace then Some (mkTrace (fo_old_pc fetched) (fo_bin fetched) instr) else None in
  c ← gets (fun c => c);
  st ← lift (encounter_instr (set_id instr) (i_stat c));
  _ ← modify (set_i_stat st);
  ex_instr ← set_reg_fetch instr;
  out ← set_execute ex_instr (pc_val (fo_old_pc fetched)) (pc_val (fo_pc_plus4 fetched));
  if eo_end out then mret (mkCycleResult 0 trace Exit) else complete instr trace out.
End Cycle.

(** The first instruction set, which is the default. *)
#[export] Instance first_set : InstrSet DecodedInstr FetchedInstr := {|
  set_decode := instr_decode;
  set_id := id;
  set_reg_fetch := reg_fetch;
  set_execute := fun instr old_pc pc_plus4 => execute (mkExecuteInput instr old_pc pc_plus4)
|}.

(** [Cpu::cycle_one_full] *)
Definition cycle_one_full : bool -> M (CycleResult DecodedInstr) := cycle_of.

(** What the simulator uses of the processor of a build: its cycle, and the type of
    the instructions that a trace shows. *)
Class Processor := {
  proc_instr : Type;
  proc_cycle : bool -> M (CycleResult proc_instr)
}.
#[export] Instance first_processor : Processor := {| proc_cycle := cycle_one_full |}.

(** ** Accessors *)

Definition cpu_get_reg (id : RegId) : M Z := rget id.
Definition cpu_get_freg (id : FRegId) : M Z := fget id.

(** [Cpu::get_mem] drops a spy hit. *)
Definition cpu_get_mem (a : Addr) : M TypedU32 :=
  c ← gets (fun c => c);
  r ← run_mem (mem_get RAM_BYTE_SIZE (region c) (addr_val a)) None;
  mret r.1.

Definition cpu_get_mem_pc (p : Pc) : M Z :=
  c ← gets (fun c => c);
  lift (map_err MemoryError (get_from_pc p (memory c))).

Definition add_mem_spy (k : SpyWatchKind) (u : SpyUnit) (c : Cpu I O) : Cpu I O :=
  set_memory (add_spy k u (memory c)) c.
Definition remove_mem_spy (k : SpyWatchKind) (u : SpyUnit) (c : Cpu I O) : Cpu I O :=
  set_memory (remove_spy k u (memory c)) c.
End Stages.

Arguments Processor I O : clear implicits.
