(* ===== verification/Isa.v ===== *)
(** * The instruction set architecture

    An abstract specification of the processor: registers, typed memory, [pc]
    and the two devices, with one transition function.  Pipeline, cache,
    predictor, spies and counters do not exist at this level.  The operations on
    words are written with the arithmetic of [Z] and do not share the tables of
    the execute stage (Cpu.v); the float unit (Fpu.v, Native.v) and the floats
    of the host are named by both.

    One statistic is part of the state, and only in a build with overflow checks:
    the heap start and the lowest stack pointer so far ([a_marks]).  There the
    program can observe them, since an access to the heap or the stack panics once
    the stack pointer has been below 1000. *)
From S2P Require Import Prelude Word Ty Register Instr Decode Common Memory Float32 Fpu Io Cpu.

Record Arch (I O : Type) := mkArch {
  a_reg : Z -> Z;
  a_freg : Z -> Z;
  a_byte : Z -> Z;
  a_ty : Z -> Ty;
  a_text : Z * Z;
  a_pc : Z;
  a_in : I;
  a_out : O;
  a_marks : option (Z * Z)
}.
Arguments mkArch {I O}.
Arguments a_reg {I O}.
Arguments a_freg {I O}.
Arguments a_byte {I O}.
Arguments a_ty {I O}.
Arguments a_text {I O}.
Arguments a_pc {I O}.
Arguments a_in {I O}.
Arguments a_out {I O}.
Arguments a_marks {I O}.

(** Equality of architectural states: the maps are compared pointwise. *)
#[export] Instance Arch_equiv {I O} : Equiv (Arch I O) := fun a b =>
  (forall i, a_reg a i = a_reg b i) /\ (forall i, a_freg a i = a_freg b i) /\
  (forall i, a_byte a i = a_byte b i) /\ (forall i, a_ty a i = a_ty b i) /\
  a_text a = a_text b /\ a_pc a = a_pc b /\ a_in a = a_in b /\ a_out a = a_out b /\
  a_marks a = a_marks b.

#[export] Instance Arch_equivalence {I O} : Equivalence (≡@{Arch I O}).
Proof.
  split.
  - intros a. by repeat split.
  - intros a b (?&?&?&?&?&?&?&?&?). repeat split; intros; symmetry; auto.
  - intros a b c (?&?&?&?&?&?&?&?&?) (?&?&?&?&?&?&?&?&?). repeat split; intros; etrans; eauto.
Qed.

(** The result of one instruction. *)
Inductive isa_result (I O : Type) :=
  | IsaNext (a : Arch I O)
  | IsaExit (a : Arch I O)
  | IsaFault (e : RuntimeError) (a : Arch I O)
  | IsaPanic (p : panic).
Arguments IsaNext {I O}.
Arguments IsaExit {I O}.
Arguments IsaFault {I O}.
Arguments IsaPanic {I O}.

#[export] Instance isa_result_equiv {I O} : Equiv (isa_result I O) := fun r s =>
  match r, s with
  | IsaNext a, IsaNext b => a ≡ b
  | IsaExit a, IsaExit b => a ≡ b
  | IsaFault e a, IsaFault e' b => e = e' /\ a ≡ b
  | IsaPanic p, IsaPanic q => p = q
  | _, _ => False
  end.

#[export] Instance isa_result_equivalence {I O} : Equivalence (≡@{isa_result I O}).
Proof.
  split.
  - intros []; unfold equiv, isa_result_equiv; try reflexivity; by split.
  - intros [] []; unfold equiv, isa_result_equiv; try done; [by symmetry..|].
    intros [-> ?]. by split; [|symmetry].
  - intros [] [] []; unfold equiv, isa_result_equiv; try done.
    + apply transitivity.
    + apply transitivity.
    + intros [-> ?] [-> ?]. split; [done|by etrans].
    + apply transitivity.
Qed.

Section Isa.
Context `{Profile} {I O : Type} `{Input I} `{Output O}.
Abbreviation arch := (Arch I O).
Abbreviation result := (isa_result I O).

Definition upd {A} (i : Z) (x : A) (f : Z -> A) : Z -> A := fun j => if decide (j = i) then x else f j.

(** ** State changes *)

(** Register 0 is not written; register 2 is the stack pointer. *)
Definition a_set (r v : Z) (a : arch) : arch :=
  mkArch (if r =? 0 then a_reg a else upd r v (a_reg a)) (a_freg a) (a_byte a) (a_ty a) (a_text a)
    (a_pc a) (a_in a) (a_out a)
    (if r =? 2 then (fun m => (m.1, Z.min v m.2)) <$> a_marks a else a_marks a).
Definition a_set_f (r v : Z) (a : arch) : arch :=
  mkArch (a_reg a) (if r =? 0 then a_freg a else upd r v (a_freg a)) (a_byte a) (a_ty a) (a_text a)
    (a_pc a) (a_in a) (a_out a) (a_marks a).
Definition a_jump (p : Z) (a : arch) : arch :=
  mkArch (a_reg a) (a_freg a) (a_byte a) (a_ty a) (a_text a) p (a_in a) (a_out a) (a_marks a).
Definition a_set_in (i : I) (a : arch) : arch :=
  mkArch (a_reg a) (a_freg a) (a_byte a) (a_ty a) (a_text a) (a_pc a) i (a_out a) (a_marks a).
Definition a_set_out (o : O) (a : arch) : arch :=
  mkArch (a_reg a) (a_freg a) (a_byte a) (a_ty a) (a_text a) (a_pc a) (a_in a) o (a_marks a).
Definition a_set_ty (w : Z) (t : Ty) (a : arch) : arch :=
  mkArch (a_reg a) (a_freg a) (a_byte a) (upd w t (a_ty a)) (a_text a) (a_pc a) (a_in a) (a_out a)
    (a_marks a).

(** ** Memory *)

Definition a_word (a : arch) (w : Z) : Z :=
  from_le_bytes (a_byte a (4 * w)) (a_byte a (4 * w + 1)) (a_byte a (4 * w + 2))
    (a_byte a (4 * w + 3)).

Definition byte_of (v k : Z) : Z := v / 2 ^ (8 * k) mod 256.

Definition a_put (w v : Z) (t : Ty) (a : arch) : arch :=
  mkArch (a_reg a) (a_freg a)
    (fun i => if decide (i / 4 = w) then byte_of v (i mod 4) else a_byte a i)
    (upd w t (a_ty a)) (a_text a) (a_pc a) (a_in a) (a_out a) (a_marks a).

(** Word [w] may be accessed as data: it is in the memory and not in the text. *)
Definition a_data (a : arch) (w : Z) : bool :=
  (4 * w <? RAM_BYTE_SIZE) && negb (range_contains (a_text a).1 (a_text a).2 (4 * w)).

(** From the heap start on, an access is classified by the lowest stack pointer less
    1000, and that subtraction overflows. *)
Definition a_underflows (a : arch) (w : Z) : bool :=
  match a_marks a with
  | Some (heap_start, lowest_sp) => (heap_start <=? w) && (lowest_sp <? 1000)
  | None => false
  end.

(** A load at type [t] refines the type of the word, or faults. *)
Definition a_load (w : Z) (t : Ty) (a : arch) : outcome RuntimeError (Z * arch) :=
  if negb (a_data a w) then Err (MemoryError (OutOfBounds w))
  else match ty_lub (a_ty a w) t with
       | Some u => if a_underflows a w then Panic ArithOverflow else Ok (a_word a w, a_set_ty w u a)
       | None => Err (MemoryError (ViolateTransmutation (a_ty a w) t))
       end.

Definition a_store (w v : Z) (t : Ty) (a : arch) : outcome RuntimeError arch :=
  if negb (a_data a w) then Err (MemoryError (OutOfBounds w))
  else if a_underflows a w then Panic ArithOverflow else Ok (a_put w v t a).

(** Go on with the value of an operation, or stop in state [a]. *)
Definition and_then {A} (a : arch) (o : outcome RuntimeError A) (k : A -> result) : result :=
  match o with Ok x => k x | Err e => IsaFault e a | Panic p => IsaPanic p end.

(** ** Operations on words *)

Definition i32 (x : Z) : Z := (x + 2 ^ 31) mod 2 ^ 32 - 2 ^ 31.
Definition add32 (x y : Z) : Z := (x + y) mod 2 ^ 32.

(** A shift by 32 or more panics with overflow checks; without them the amount is
    taken modulo 32. *)
Definition isa_shift (n : Z) (f : Z -> Z) : outcome RuntimeError Z :=
  if n <? 32 then Ok (f n) else if overflow_checks then Panic ShiftOverflow else Ok (f (n mod 32)).

Definition isa_sll (x n : Z) : outcome RuntimeError Z := isa_shift n (fun k => x * 2 ^ k mod 2 ^ 32).

(** [sra] shifts zeros in. *)
Definition isa_r (op : RInstr) (x y : Z) : outcome RuntimeError Z :=
  match op with
  | Add => Ok (add32 x y)
  | Sub => Ok ((x - y) mod 2 ^ 32)
  | Xor => Ok (Z.lxor x y)
  | Or => Ok (Z.lor x y)
  | And => Ok (Z.land x y)
  | Sll => isa_sll x y
  | Sra => isa_shift y (fun k => x / 2 ^ k)
  | Slt => Ok (Z.b2z (i32 x <? i32 y))
  end.

Definition isa_b (op : BInstr) (x y : Z) : bool :=
  match op with
  | Beq => x =? y
  | Bne => negb (x =? y)
  | Blt => i32 x <? i32 y
  | Bge => negb (i32 x <? i32 y)
  end.

(** ** Operations on floats, which are their bit patterns *)

(** [x] with the sign of [y]. *)
Definition with_sign (x y : Z) : Z := x mod 2 ^ 31 + y / 2 ^ 31 * 2 ^ 31.
Definition flip_sign (x : Z) : Z := (x + 2 ^ 31) mod 2 ^ 32.

Definition isa_e (op : EInstr) (x y : Z) : Z :=
  match op with
  | Fadd => f32_add x y
  | Fsub => f32_sub x y
  | Fmul => fmul x y
  | Fdiv => fdiv x y
  | Fsgnj => with_sign x y
  | Fsgnjn => with_sign x (flip_sign y)
  | Fsgnjx => with_sign x (f32_mul (signum x) (signum y))
  end.

Definition isa_h (op : HInstr) (x : Z) : Z :=
  match op with Fsqrt => fsqrt x | Fhalf => fhalf x | Ffloor => ffloor x end.

Definition isa_k (op : KInstr) (x y : Z) : Z := match op with Flt => Z.b2z (f32_lt x y) end.
Definition isa_x (op : XInstr) (x : Z) : Z := match op with Fitof => fcvtsw (i32 x) end.

(** The comparisons with zero; both zeros are zero. *)
Definition isa_y (op : YInstr) (x : Z) : Z :=
  match op with
  | Fiszero => Z.b2z (f32_eq x 0)
  | Fispos => Z.b2z (f32_lt 0 x)
  | Fisneg => Z.b2z (f32_lt x 0)
  | Fftoi => fcvtws x mod 2 ^ 32
  end.

Definition isa_w (op : WInstr) (x y : Z) : bool :=
  match op with Fblt => f32_lt x y | Fbge => f32_ge x y end.
Definition isa_v (op : VInstr) (x : Z) : bool :=
  match op with Fbeqz => f32_eq x 0 | Fbnez => negb (f32_eq x 0) end.

(** ** One instruction

    [a] is the state after the fetch: its [pc] is that of the next instruction,
    and [here] that of this one. *)
Definition isa_exec_i (op : IInstr) (rd : Z) (v imm : Z) (a : arch) : result :=
  let wr x := IsaNext (a_set rd x a) in
  match op with
  | Addi => wr (add32 v imm)
  | Xori => wr (Z.lxor v imm)
  | Ori => wr (Z.lor v imm)
  | Andi => wr (Z.land v imm)
  | Slli => and_then a (isa_sll v imm) wr
  | Slti => wr (Z.b2z (i32 v <? i32 imm))
  | Lw => and_then a (a_load (add32 v imm) I32OrUsize a) (fun x => IsaNext (a_set rd x.1 x.2))
  | Jalr => IsaNext (a_set rd (a_pc a) (a_jump (add32 v imm) a))
  end.

Definition a_branch (here : Z) (cond : bool) (imm : Z) (a : arch) : result :=
  IsaNext (if cond then a_jump (add32 here imm) a else a).

Definition isa_exec_io (io : IOInstr RegId RegId FRegId) (a : arch) : result :=
  match io with
  | Outb rs =>
      match outb (a_reg a (inner rs) mod 256) (a_out a) with
      | (Ok _, o) => IsaNext (a_set_out o a)
      | (Err e, o) => IsaFault (IoError e) (a_set_out o a)
      | (Panic p, _) => IsaPanic p
      end
  | Inw rd =>
      match inw (a_in a) with
      | (Ok v, i) => IsaNext (a_set (inner rd) v (a_set_in i a))
      | (Err e, i) => IsaFault (IoError e) (a_set_in i a)
      | (Panic p, _) => IsaPanic p
      end
  | Finw rd =>
      match finw (a_in a) with
      | (Ok v, i) => IsaNext (a_set_f (f_inner rd) v (a_set_in i a))
      | (Err e, i) => IsaFault (IoError e) (a_set_in i a)
      | (Panic p, _) => IsaPanic p
      end
  end.

Definition isa_exec_f (here : Z) (f : FInstr RegId RegId FRegId FRegId) (a : arch) : result :=
  let x r := a_reg a (inner r) in
  let y r := a_freg a (f_inner r) in
  match f with
  | FE op rd rs1 rs2 => IsaNext (a_set_f (f_inner rd) (isa_e op (y rs1) (y rs2)) a)
  | FG op _ _ _ _ => match op with end
  | FH op rd rs1 => IsaNext (a_set_f (f_inner rd) (isa_h op (y rs1)) a)
  | FK op rd rs1 rs2 => IsaNext (a_set (inner rd) (isa_k op (y rs1) (y rs2)) a)
  | FX op rd rs1 => IsaNext (a_set_f (f_inner rd) (isa_x op (x rs1)) a)
  | FY op rd rs1 => IsaNext (a_set (inner rd) (isa_y op (y rs1)) a)
  | FWb op rs1 rs2 imm => a_branch here (isa_w op (y rs1) (y rs2)) imm a
  | FV op rs1 imm => a_branch here (isa_v op (y rs1)) imm a
  | Flw rd rs1 imm =>
      and_then a (a_load (add32 (x rs1) imm) F32 a)
        (fun v => IsaNext (a_set_f (f_inner rd) v.1 v.2))
  | Fsw rs2 rs1 imm => and_then a (a_store (add32 (x rs1) imm) (y rs2) F32 a) IsaNext
  end.

Definition isa_exec (here : Z) (i : DecodedInstr) (a : arch) : result :=
  let x r := a_reg a (inner r) in
  match i with
  | InstrR op rd rs1 rs2 =>
      and_then a (isa_r op (x rs1) (x rs2)) (fun v => IsaNext (a_set (inner rd) v a))
  | InstrI op rd rs1 imm => isa_exec_i op (inner rd) (x rs1) imm a
  | InstrS _ rs1 rs2 imm =>
      and_then a (a_store (add32 (x rs1) imm) (x rs2) I32OrUsize a) IsaNext
  | InstrB op rs1 rs2 imm => a_branch here (isa_b op (x rs1) (x rs2)) imm a
  | InstrP op _ _ _ => match op with end
  | InstrJ _ rd imm => IsaNext (a_set (inner rd) (a_pc a) (a_jump (add32 here imm) a))
  | InstrIO io => isa_exec_io io a
  | InstrF f => isa_exec_f here f a
  | InstrMisc MiscEnd => IsaExit a
  end.

(** The instruction word at [pc]; [pc] need not be aligned. *)
Definition a_fetch (a : arch) : outcome RuntimeError Z :=
  let p := a_pc a in
  if range_contains (a_text a).1 (a_text a).2 p
  then Ok (from_le_bytes (a_byte a p) (a_byte a (p + 1)) (a_byte a (p + 2)) (a_byte a (p + 3)))
  else Err (MemoryError (PcOutOfBounds p)).

(** One step, with a decoder and the meaning of what it decodes. *)
Definition isa_step_with {D} (decode : Z -> outcome DecodeFail D) (exec : Z -> D -> arch -> result)
    (a : arch) : result :=
  and_then a (a_fetch a) (fun bin =>
    let next := a_jump (a_pc a + 4) a in
    and_then next (map_err DecodeError (decode bin)) (fun i => exec (a_pc a) i next)).

Definition isa_step : arch -> result := isa_step_with decode_from isa_exec.
End Isa.
