(* ===== verification/IsaProps.v ===== *)
(** * Properties of the architectural specification

    The step function respects the equality of architectural states, never
    changes the text, exits on the end instruction only, and panics only where
    the arithmetic, the decoder or a device does. *)
From S2P Require Import Prelude Word Ty Register Instr Decode Encode Common Memory Float32 Fpu Io Cpu Isa.

Section IsaProps.
Context `{Profile} {I O : Type} `{!Input I} `{!Output O}.
Implicit Types a b : Arch I O.

(** ** Setoid *)

Ltac arch_proper :=
  repeat match goal with H : _ ≡ _ |- _ => destruct H as (?&?&?&?&?&?&?&?&?) end;
  split_and!; simpl; intros; unfold upd; repeat case_match; congruence || auto.

#[export] Instance a_set_proper r v : Proper ((≡@{Arch I O}) ==> (≡)) (a_set r v).
Proof. intros a b Hab. arch_proper. Qed.
#[export] Instance a_set_f_proper r v : Proper ((≡@{Arch I O}) ==> (≡)) (a_set_f r v).
Proof. intros a b Hab. arch_proper. Qed.
#[export] Instance a_jump_proper p : Proper ((≡@{Arch I O}) ==> (≡)) (a_jump p).
Proof. intros a b Hab. arch_proper. Qed.
#[export] Instance a_set_in_proper i : Proper ((≡@{Arch I O}) ==> (≡)) (a_set_in i).
Proof. intros a b Hab. arch_proper. Qed.
#[export] Instance a_set_out_proper o : Proper ((≡@{Arch I O}) ==> (≡)) (a_set_out o).
Proof. intros a b Hab. arch_proper. Qed.
#[export] Instance a_set_ty_proper w t : Proper ((≡@{Arch I O}) ==> (≡)) (a_set_ty w t).
Proof. intros a b Hab. arch_proper. Qed.
#[export] Instance a_put_proper w v t : Proper ((≡@{Arch I O}) ==> (≡)) (a_put w v t).
Proof. intros a b Hab. arch_proper. Qed.

#[export] Instance IsaNext_proper : Proper ((≡) ==> (≡)) (@IsaNext I O).
Proof. by intros a b Hab. Qed.
#[export] Instance IsaExit_proper : Proper ((≡) ==> (≡)) (@IsaExit I O).
Proof. by intros a b Hab. Qed.
#[export] Instance IsaFault_proper e : Proper ((≡) ==> (≡)) (@IsaFault I O e).
Proof. by intros a b Hab. Qed.

Lemma equiv_reg a b r : a ≡ b -> a_reg a r = a_reg b r.
Proof. intros Hab. apply Hab. Qed.
Lemma equiv_freg a b r : a ≡ b -> a_freg a r = a_freg b r.
Proof. intros (_ & Hf & _). apply Hf. Qed.
Lemma equiv_byte a b i : a ≡ b -> a_byte a i = a_byte b i.
Proof. intros (_ & _ & Hb & _). apply Hb. Qed.
Lemma equiv_ty a b i : a ≡ b -> a_ty a i = a_ty b i.
Proof. intros (_ & _ & _ & Ht & _). apply Ht. Qed.
Lemma equiv_rest a b :
  a ≡ b -> a_text a = a_text b /\ a_pc a = a_pc b /\ a_in a = a_in b /\ a_out a = a_out b.
Proof. intros (_ & _ & _ & _ & ? & ? & ? & ? & _). by split_and!. Qed.
Lemma equiv_marks a b : a ≡ b -> a_marks a = a_marks b.
Proof. intros (_ & _ & _ & _ & _ & _ & _ & _ & Hm). apply Hm. Qed.

Lemma equiv_next a b : a ≡ b -> IsaNext a ≡ IsaNext b.
Proof. done. Qed.
Lemma equiv_fault e a b : a ≡ b -> IsaFault e a ≡ IsaFault e b.
Proof. by split. Qed.

Lemma a_data_equiv a b w : a ≡ b -> a_data a w = a_data b w.
Proof. intros Hab. unfold a_data. by destruct (equiv_rest _ _ Hab) as (-> & _). Qed.

Lemma a_underflows_equiv a b w : a ≡ b -> a_underflows a w = a_underflows b w.
Proof. intros Hab. unfold a_underflows. by rewrite (equiv_marks _ _ Hab). Qed.

Lemma a_word_equiv a b w : a ≡ b -> a_word a w = a_word b w.
Proof. intros Hab. unfold a_word. by rewrite !(equiv_byte a b). Qed.

Lemma load_equiv a b w t (k : Z * Arch I O -> isa_result I O) :
  a ≡ b -> (forall v a b, a ≡ b -> k (v, a) ≡ k (v, b)) ->
  and_then a (a_load w t a) k ≡ and_then b (a_load w t b) k.
Proof.
  intros Hab Hk. unfold a_load. rewrite (a_data_equiv _ _ _ Hab), (equiv_ty _ _ _ Hab),
    (a_underflows_equiv _ _ _ Hab).
  destruct (negb _); [by apply equiv_fault|].
  destruct (ty_lub _ _); [|by apply equiv_fault]. destruct (a_underflows _ _); [done|]. simpl.
  rewrite (a_word_equiv _ _ _ Hab). apply Hk. by rewrite Hab.
Qed.

Lemma store_equiv a b w v t :
  a ≡ b -> and_then a (a_store w v t a) IsaNext ≡ and_then b (a_store w v t b) IsaNext.
Proof.
  intros Hab. unfold a_store. rewrite (a_data_equiv _ _ _ Hab), (a_underflows_equiv _ _ _ Hab).
  destruct (negb _); [by apply equiv_fault|]. destruct (a_underflows _ _); [done|]. simpl. apply equiv_next. by rewrite Hab.
Qed.

Lemma branch_equiv here cond imm a b : a ≡ b -> a_branch here cond imm a ≡ a_branch here cond imm b.
Proof. intros Hab. unfold a_branch. apply equiv_next. destruct cond; by rewrite Hab. Qed.

Lemma exec_io_equiv io a b : a ≡ b -> isa_exec_io io a ≡ isa_exec_io io b.
Proof.
  intros Hab. destruct (equiv_rest _ _ Hab) as (_ & _ & Hi & Ho). unfold isa_exec_io.
  destruct io as [rs|rd|rd].
  - rewrite (equiv_reg _ _ _ Hab), Ho. destruct (outb _ _) as [[]?]; simpl; [|split|]; try done;
      by rewrite Hab.
  - rewrite Hi. destruct (inw _) as [[]?]; simpl; [|split|]; try done; by rewrite Hab.
  - rewrite Hi. destruct (finw _) as [[]?]; simpl; [|split|]; try done; by rewrite Hab.
Qed.

Lemma exec_f_equiv here f a b : a ≡ b -> isa_exec_f here f a ≡ isa_exec_f here f b.
Proof.
  intros Hab. pose proof (equiv_reg _ _ 0 Hab) as _.
  destruct f as [op rd rs1 rs2|[]|op rd rs1|op rd rs1 rs2|op rd rs1|op rd rs1
    |op rs1 rs2 imm|op rs1 imm|rd rs1 imm|rs2 rs1 imm]; unfold isa_exec_f;
    rewrite ?(equiv_freg _ _ _ Hab), ?(equiv_reg _ _ _ Hab);
    try (apply equiv_next; by rewrite Hab); try by apply branch_equiv.
  - apply load_equiv; [done|]. intros v c d Hcd. apply equiv_next. simpl. by rewrite Hcd.
  - by apply store_equiv.
Qed.

Lemma exec_i_equiv op rd v imm a b : a ≡ b -> isa_exec_i op rd v imm a ≡ isa_exec_i op rd v imm b.
Proof.
  intros Hab. destruct (equiv_rest _ _ Hab) as (_ & Hp & _ & _).
  destruct op; unfold isa_exec_i; try (apply equiv_next; by rewrite Hab).
  - destruct (isa_sll v imm); simpl; [|split|]; try done; by rewrite Hab.
  - apply load_equiv; [done|]. intros x c d Hcd. apply equiv_next. simpl. by rewrite Hcd.
  - apply equiv_next. rewrite Hp. by rewrite Hab.
Qed.

Lemma exec_equiv here i a b : a ≡ b -> isa_exec here i a ≡ isa_exec here i b.
Proof.
  intros Hab. destruct (equiv_rest _ _ Hab) as (_ & Hp & _ & _).
  destruct i as [op rd rs1 rs2|op rd rs1 imm|[] rs1 rs2 imm|op rs1 rs2 imm|[]
    |[] rd imm|io|f|[]]; unfold isa_exec; rewrite ?(equiv_reg _ _ _ Hab).
  - destruct (isa_r op _ _); simpl; [|by split|done]. by rewrite Hab.
  - by apply exec_i_equiv.
  - by apply store_equiv.
  - by apply branch_equiv.
  - apply equiv_next. rewrite Hp. by rewrite Hab.
  - by apply exec_io_equiv.
  - by apply exec_f_equiv.
  - done.
Qed.

Lemma fetch_equiv a b : a ≡ b -> a_fetch a = a_fetch b.
Proof.
  intros Hab. destruct (equiv_rest _ _ Hab) as (Ht & Hp & _). unfold a_fetch.
  by rewrite Ht, Hp, !(equiv_byte _ _ _ Hab).
Qed.

(** The step, with any instruction set. *)
Lemma step_with_equiv {D} (decode : Z -> outcome DecodeFail D) exec a b :
  (forall here i a b, a ≡ b -> exec here i a ≡ exec here i b) ->
  a ≡ b -> isa_step_with decode exec a ≡ isa_step_with decode exec b.
Proof.
  intros He Hab. destruct (equiv_rest _ _ Hab) as (_ & Hp & _). unfold isa_step_with.
  rewrite (fetch_equiv _ _ Hab), Hp. destruct (a_fetch b); simpl; [|by split|done].
  assert (a_jump (a_pc b + 4) a ≡ a_jump (a_pc b + 4) b) as Hj by by rewrite Hab.
  destruct (decode _); simpl; [|by split|done]. by apply He.
Qed.

#[export] Instance isa_step_proper : Proper ((≡@{Arch I O}) ==> (≡)) isa_step.
Proof. intros a b Hab. by apply step_with_equiv; [apply exec_equiv|]. Qed.

(** ** The text is never written *)

Definition state_of (r : isa_result I O) : option (Arch I O) :=
  match r with IsaNext a | IsaExit a | IsaFault _ a => Some a | IsaPanic _ => None end.

Definition in_text a (i : Z) : bool := range_contains (a_text a).1 (a_text a).2 i.

Definition text_aligned a : Prop := (a_text a).1 mod 4 = 0 /\ (a_text a).2 mod 4 = 0.

(** The outcome [r] of an instruction leaves the text of [a] alone. *)
Definition keeps_text a (r : isa_result I O) : Prop :=
  forall b, state_of r = Some b ->
    a_text b = a_text a /\ forall i, in_text a i = true -> a_byte b i = a_byte a i.

Lemma keeps_same a b r :
  a_text b = a_text a -> (forall i, a_byte b i = a_byte a i) -> state_of r = Some b ->
  keeps_text a r.
Proof. intros Ht Hb Hr c Hc. rewrite Hr in Hc. by simplify_eq. Qed.

Lemma keeps_panic a p : keeps_text a (IsaPanic p).
Proof. by intros b Hb. Qed.

Lemma keeps_and_then {A} a (o : outcome RuntimeError A) k :
  (forall x, o = Ok x -> keeps_text a (k x)) -> keeps_text a (and_then a o k).
Proof.
  intros Hk. destruct o as [x|e|p]; simpl; [by apply Hk| |apply keeps_panic].
  by eapply keeps_same.
Qed.

(** A data word is disjoint from an aligned text. *)
Lemma data_not_text a w i :
  text_aligned a -> a_data a w = true -> in_text a i = true -> i / 4 <> w.
Proof.
  intros [H1 H2] Hd Hi <-. unfold a_data, in_text, range_contains in *.
  apply andb_true_iff in Hd as [_ Hd]. apply negb_true_iff, andb_false_iff in Hd.
  apply andb_true_iff in Hi as [Hlo Hhi]. apply Z.leb_le in Hlo. apply Z.ltb_lt in Hhi.
  rewrite Z.leb_gt, Z.ltb_ge in Hd. dlia.
Qed.

Lemma keeps_store a w v t :
  text_aligned a -> keeps_text a (and_then a (a_store w v t a) IsaNext).
Proof.
  intros Ha. apply keeps_and_then. intros x Hx b Hb. simpl in Hb. simplify_eq.
  unfold a_store in Hx. destruct (a_data a w) eqn:Hd, (a_underflows a w); simpl in Hx; simplify_eq.
  split; [done|]. intros i Hi. simpl. rewrite decide_False; [done|]. by apply (data_not_text a).
Qed.

Lemma keeps_load a w t (k : Z * Arch I O -> isa_result I O) :
  (forall v u, keeps_text a (k (v, a_set_ty w u a))) -> keeps_text a (and_then a (a_load w t a) k).
Proof.
  intros Hk. apply keeps_and_then. intros [v b] Hx. unfold a_load in Hx.
  destruct (negb _); [done|]. destruct (ty_lub _ _), (a_underflows a w); simplify_eq. apply Hk.
Qed.

Ltac keeps := eapply keeps_same; [| |reflexivity]; done.

Lemma exec_keeps_text here i a : text_aligned a -> keeps_text a (isa_exec here i a).
Proof.
  intros Ha. destruct i as [op rd rs1 rs2|op rd rs1 imm|[] rs1 rs2 imm|op rs1 rs2 imm|[]
    |[] rd imm|[rs|rd|rd]|[op rd rs1 rs2|[]|op rd rs1|op rd rs1 rs2|op rd rs1|op rd rs1
    |op rs1 rs2 imm|op rs1 imm|rd rs1 imm|rs2 rs1 imm]|[]];
    cbn [isa_exec isa_exec_f isa_exec_io]; try keeps; try by apply keeps_store.
  - apply keeps_and_then. intros. keeps.
  - destruct op; cbn [isa_exec_i]; try keeps.
    + apply keeps_and_then. intros. keeps.
    + apply keeps_load. intros. keeps.
  - unfold a_branch. destruct (isa_b _ _ _); keeps.
  - destruct (outb _ _) as [[] ?]; try keeps. apply keeps_panic.
  - destruct (inw _) as [[] ?]; try keeps. apply keeps_panic.
  - destruct (finw _) as [[] ?]; try keeps. apply keeps_panic.
  - unfold a_branch. destruct (isa_w _ _ _); keeps.
  - unfold a_branch. destruct (isa_v _ _); keeps.
  - apply keeps_load. intros. keeps.
Qed.

Lemma step_with_keeps_text {D} (decode : Z -> outcome DecodeFail D) exec a :
  (forall here i a, text_aligned a -> keeps_text a (exec here i a)) ->
  text_aligned a -> keeps_text a (isa_step_with decode exec a).
Proof.
  intros He Ha. unfold isa_step_with. apply keeps_and_then. intros bin _.
  set (b := a_jump _ a). assert (text_aligned b) as Hb by done.
  destruct (decode bin) as [i|e|p]; cbn [map_err and_then].
  - apply (He _ i b Hb).
  - keeps.
  - apply keeps_panic.
Qed.

Lemma step_keeps_text a : text_aligned a -> keeps_text a (isa_step a).
Proof. apply step_with_keeps_text, exec_keeps_text. Qed.

(** ** Exit *)

Lemma exec_exit here i a b : isa_exec here i a = IsaExit b -> i = InstrMisc MiscEnd.
Proof.
  destruct i as [op rd rs1 rs2|op rd rs1 imm|[] rs1 rs2 imm|op rs1 rs2 imm|[]
    |[] rd imm|[rs|rd|rd]|[op rd rs1 rs2|[]|op rd rs1|op rd rs1 rs2|op rd rs1|op rd rs1
    |op rs1 rs2 imm|op rs1 imm|rd rs1 imm|rs2 rs1 imm]|[]]; cbn [isa_exec isa_exec_f isa_exec_io];
    unfold a_branch; try done; try (destruct (a_store _ _ _ _); done);
    try (destruct (a_load _ _ _); done).
  - by destruct (isa_r _ _ _).
  - destruct op; cbn [isa_exec_i]; try done.
    + by destruct (isa_sll _ _).
    + by destruct (a_load _ _ _).
  - by destruct (outb _ _) as [[] ?].
  - by destruct (inw _) as [[] ?].
  - by destruct (finw _) as [[] ?].
Qed.

(** The word at [pc] is the end instruction. *)
Definition at_end a : Prop := exists bin, a_fetch a = Ok bin /\ decode_from bin = Ok (InstrMisc MiscEnd).

Lemma step_exit a : at_end a <-> exists b, isa_step a = IsaExit b.
Proof.
  unfold at_end, isa_step, isa_step_with. split.
  - intros (bin & -> & Hd). cbn [and_then]. rewrite Hd. by eexists.
  - intros [b Hb]. destruct (a_fetch a) as [bin|e|p]; [|done..]. exists bin. split; [done|].
    cbn [and_then] in Hb. destruct (decode_from bin) as [i|e|p]; [|done..].
    cbn [map_err and_then] in Hb. by rewrite (exec_exit _ _ _ _ Hb).
Qed.

(** ** Panics *)

Section NoPanic.
Context (Hchecks : overflow_checks = false).
Context (Hin : forall i p, (inw (I:=I) i).1 <> Panic p) (Hfin : forall i p, (finw (I:=I) i).1 <> Panic p).
Context (Hout : forall v o p, (outb (O:=O) v o).1 <> Panic p).

Lemma shift_total n f : exists v, isa_shift n f = Ok v.
Proof. unfold isa_shift. rewrite Hchecks. case_match; by eexists. Qed.

Lemma isa_r_total op x y : exists v, isa_r op x y = Ok v.
Proof. destruct op; cbn; try by eexists. all: apply shift_total. Qed.

Lemma no_underflow a w : a_marks a = None -> a_underflows a w = false.
Proof. unfold a_underflows. by intros ->. Qed.

(** Without overflow checks only the assertion in the decoder can panic. *)
Lemma exec_no_panic here i a p : a_marks a = None -> isa_exec here i a <> IsaPanic p.
Proof.
  intros Hm.
  destruct i as [op rd rs1 rs2|op rd rs1 imm|[] rs1 rs2 imm|op rs1 rs2 imm|[]
    |[] rd imm|[rs|rd|rd]|[op rd rs1 rs2|[]|op rd rs1|op rd rs1 rs2|op rd rs1|op rd rs1
    |op rs1 rs2 imm|op rs1 imm|rd rs1 imm|rs2 rs1 imm]|[]]; cbn [isa_exec isa_exec_f isa_exec_io];
    unfold a_branch, a_store, a_load; rewrite ?no_underflow by done; try done; try (repeat case_match; done).
  - destruct (isa_r_total op (a_reg a (inner rs1)) (a_reg a (inner rs2))) as [v ->]. done.
  - destruct op; cbn [isa_exec_i]; try done.
    + destruct (shift_total imm (fun k => a_reg a (inner rs1) * 2 ^ k mod 2 ^ 32)) as [v Hv].
      unfold isa_sll. by rewrite Hv.
    + unfold a_load. rewrite no_underflow by done. by repeat case_match.
  - pose proof (Hout (a_reg a (inner rs) mod 256) (a_out a) p) as Hp.
    destruct (outb _ _) as [[] ?]; simpl in Hp; congruence.
  - pose proof (Hin (a_in a) p) as Hp. destruct (inw _) as [[] ?]; simpl in Hp; congruence.
  - pose proof (Hfin (a_in a) p) as Hp. destruct (finw _) as [[] ?]; simpl in Hp; congruence.
Qed.
End NoPanic.
End IsaProps.
