(* ===== verification/CpuInv.v ===== *)
(** * The machine invariant and the stages

    What the proofs of both instruction sets share: the invariant, the
    architectural state of a machine, the stages that do not look at an
    instruction, and the proof that a cycle is one step of the specification
    for every set whose decoder, register fetch and execute stage are right
    ([InstrSetOk]). *)
From S2P Require Import Prelude Word Vec Ty Register Instr Decode Common RegFile Cache BranchPredictor Memory Float32 Fpu Io Cpu Isa IsaProps.

#[global] Arguments encounter_instr : simpl never.

Section CpuInv.
Context `{Profile} {RC : RegCount} {I O : Type} `{!Input I} `{!Output O} `{!InputOk I}.
Implicit Types c : Cpu I O.

(** ** The invariant *)

(** The cycle counts that an instruction leaves in the pipeline. *)
Definition slot_ok (s : option PipelineStat) : Prop :=
  match s with
  | Some s => 0 <= ps_ex_cycles s <= 11 /\ 1 <= ps_ma_cycles s <= DDR2_ACCESS_CYCLES
  | None => True
  end.

Record cpu_ok c : Prop := {
  co_rf : regfile_ok (reg_file c);
  co_mem : mem_ok RAM_BYTE_SIZE (memory c);
  co_text : 0 <= instr_start (memory c) /\ instr_end (memory c) + 3 <= RAM_BYTE_SIZE;
  co_cache : cache_ok CACHE_NUM_LINES (cache c);
  co_pred : predictor_ok NUM_COUNTERS (branch_predictor c);
  co_pipe : length (pipeline_state c) = 5%nat;
  co_slots : Forall slot_ok (pipeline_state c);
  co_istat : vlen (i_stat c) = INSTR_ID_MAX;
  co_pc : u32_ok (pc_val (pc c));
  co_in : in_ok (input c)
}.

(** The architectural state of a machine. *)
Definition marks_of (r : MemoryRegionStatBuilder) : option (Z * Z) :=
  if overflow_checks then Some (hp_min r, sp_min r) else None.

Definition abs c : Arch I O :=
  mkArch (vcell (rf_inner (reg_file c))) (vcell (rf_inner_f (reg_file c)))
    (vcell (mem_inner (memory c))) (vcell (mem_ty (memory c)))
    (instr_start (memory c), instr_end (memory c)) (pc_val (pc c)) (input c) (output c)
    (marks_of (region c)).

(** Only timing and statistics differ. *)
Record same_arch c c' : Prop := {
  sa_regs : regs_of (reg_file c') = regs_of (reg_file c);
  sa_region : region c' = region c;
  sa_memory : memory c' = memory c;
  sa_pc : pc c' = pc c;
  sa_input : input c' = input c;
  sa_output : output c' = output c
}.

#[export] Instance same_arch_preorder : PreOrder same_arch.
Proof.
  split; [by split|]. intros c1 c2 c3 [] []. split; congruence.
Qed.

Lemma same_arch_abs c c' : same_arch c c' -> abs c' = abs c.
Proof.
  intros [Hr Hg Hm Hp Hi Ho]. unfold regs_of in Hr. injection Hr as Hr1 Hr2.
  unfold abs. congruence.
Qed.

Lemma abs_underflows c w : a_underflows (abs c) w = underflows (region c) w.
Proof. unfold a_underflows, underflows, abs, marks_of. cbn [a_marks]. by destruct overflow_checks. Qed.

Lemma marks_update v r :
  marks_of (update_sp v r) = (fun m => (m.1, Z.min v m.2)) <$> marks_of r.
Proof.
  unfold marks_of, update_sp. destruct overflow_checks; [|done]. simpl.
  destruct (Z.ltb_spec v (sp_min r)); simpl; do 2 f_equal; lia.
Qed.

Lemma size_bound : 0 <= RAM_BYTE_SIZE < 2 ^ 62.
Proof. done. Qed.

Lemma size_aligned : RAM_BYTE_SIZE mod 4 = 0.
Proof. done. Qed.

(** ** Register fetch *)

Lemma rget_wp r c (Q : outcome RuntimeError Z -> Cpu I O -> Prop) :
  cpu_ok c -> reg_in r ->
  (forall c', cpu_ok c' -> same_arch c c' -> Q (Ok (a_reg (abs c) (inner r))) c') ->
  wp (rget r) Q c.
Proof.
  intros Hc Hr HQ. apply wp_zoom, get_wp; [apply Hc|done|].
  intros rf Hrf Hregs. apply HQ; [|by split]. destruct Hc. by split.
Qed.

Lemma fget_wp r c (Q : outcome RuntimeError Z -> Cpu I O -> Prop) :
  cpu_ok c -> freg_in r ->
  (forall c', cpu_ok c' -> same_arch c c' -> Q (Ok (a_freg (abs c) (f_inner r))) c') ->
  wp (fget r) Q c.
Proof.
  intros Hc Hr HQ. apply wp_zoom, get_f_wp; [apply Hc|done|].
  intros rf Hrf Hregs. apply HQ; [|by split]. destruct Hc. by split.
Qed.

(** The instruction with the values of its sources. *)
Definition io_values (a : Arch I O) (io : IOInstr RegId RegId FRegId) : IOInstr Z RegId FRegId :=
  match io with Outb rs => Outb (a_reg a (inner rs)) | Inw rd => Inw rd | Finw rd => Finw rd end.

(** The post-condition of a stage that only reads: its value, the invariant and
    an unchanged architectural state. *)
Definition reads {A} (c : Cpu I O) (v : A) (o : outcome RuntimeError A) (c' : Cpu I O) : Prop :=
  o = Ok v /\ cpu_ok c' /\ same_arch c c'.

Lemma reads_wp {A} c (v : A) m (Q : outcome RuntimeError A -> Cpu I O -> Prop) :
  wp m (reads c v) c ->
  (forall c', cpu_ok c' -> same_arch c c' -> Q (Ok v) c') ->
  wp m Q c.
Proof. intros Hm HQ. apply (wp_mono _ _ _ _ Hm). intros o c' (-> & Hc & Hs). by apply HQ. Qed.

Lemma rget_reads r c : cpu_ok c -> reg_in r -> wp (rget r) (reads c (a_reg (abs c) (inner r))) c.
Proof. intros. by apply rget_wp. Qed.

Lemma fget_reads r c : cpu_ok c -> freg_in r -> wp (fget r) (reads c (a_freg (abs c) (f_inner r))) c.
Proof. intros. by apply fget_wp. Qed.

Lemma ret_reads {A} (v : A) c c' : cpu_ok c' -> same_arch c c' -> wp (mret v) (reads c v) c'.
Proof. done. Qed.

(** Reading one register, then going on from an equivalent machine. *)
Lemma bind_rget {A} r (k : Z -> M A) (v : A) c c' :
  cpu_ok c' -> same_arch c c' -> reg_in r ->
  (forall c', cpu_ok c' -> same_arch c c' -> wp (k (a_reg (abs c) (inner r))) (reads c v) c') ->
  wp (rget r ≫= k) (reads c v) c'.
Proof.
  intros Hc Hs Hr Hk. apply wp_bind, rget_wp; [done..|]. intros c2 Hc2 Hs2.
  rewrite (same_arch_abs _ _ Hs). apply Hk; [done|by trans c'].
Qed.

Lemma bind_fget {A} r (k : Z -> M A) (v : A) c c' :
  cpu_ok c' -> same_arch c c' -> freg_in r ->
  (forall c', cpu_ok c' -> same_arch c c' -> wp (k (a_freg (abs c) (f_inner r))) (reads c v) c') ->
  wp (fget r ≫= k) (reads c v) c'.
Proof.
  intros Hc Hs Hr Hk. apply wp_bind, fget_wp; [done..|]. intros c2 Hc2 Hs2.
  rewrite (same_arch_abs _ _ Hs). apply Hk; [done|by trans c'].
Qed.

(** ** Changes of the architectural state *)

Lemma word_arith a b : u32_ok (wrapping_add a b).
Proof. apply wrapping_add_ok. Qed.

(** A register write-back. *)
Definition apply_wb (wb : option WriteBackInput) (a : Arch I O) : Arch I O :=
  match wb with
  | Some (WbI id v) => a_set (inner id) v a
  | Some (WbF id v) => a_set_f (f_inner id) v a
  | None => a
  end.

Definition wb_ok (wb : option WriteBackInput) : Prop :=
  match wb with
  | Some (WbI id v) => reg_in id /\ u32_ok v
  | Some (WbF id v) => freg_in id /\ u32_ok v
  | None => True
  end.

Definition write_back_opt (wb : option WriteBackInput) : M (I:=I) (O:=O) () :=
  match wb with Some wb => write_back wb | None => mret () end.

Lemma vcell_wr_reg id v regs i :
  vcell (wr_reg id v regs) i = (if id =? 0 then vcell regs else upd id v (vcell regs)) i.
Proof.
  unfold wr_reg, upd. destruct (id =? 0); [done|].
  case_decide as He; [subst; apply vcell_vput_eq|by apply vcell_vput_ne].
Qed.

Lemma write_back_wp wb c (Q : outcome RuntimeError () -> Cpu I O -> Prop) :
  cpu_ok c -> wb_ok wb ->
  (forall c', cpu_ok c' -> abs c' ≡ apply_wb wb (abs c) -> Q (Ok ()) c') ->
  wp (write_back_opt wb) Q c.
Proof.
  intros Hc Hwb HQ. destruct wb as [[id v|id v]|]; simpl in Hwb; simpl.
  - destruct Hwb as [Hid Hv]. apply wp_zoom, set_wp; [apply Hc|done..|].
    intros rf Hrf Hregs. apply HQ; [destruct Hc; by split|].
    injection Hregs as H1 H2. unfold abs, apply_wb, a_set. simpl. rewrite H1, H2.
    split_and!; try done; [intros i; apply vcell_wr_reg|].
    cbn [a_marks]. by destruct (inner id =? 2); [apply marks_update|].
  - destruct Hwb as [Hid Hv]. apply wp_zoom, set_f_wp; [apply Hc|done..|].
    intros rf Hrf Hregs. apply HQ; [destruct Hc; by split|].
    injection Hregs as H1 H2. unfold abs, apply_wb, a_set_f. simpl. rewrite H1, H2.
    repeat split; try done. intros i. apply vcell_wr_reg.
  - by apply HQ.
Qed.

(** ** Memory *)

Lemma abs_data c w : a_data (abs c) w = data_addr RAM_BYTE_SIZE (memory c) w.
Proof. done. Qed.

Lemma cpu_ok_memory c m' :
  cpu_ok c -> mem_ok RAM_BYTE_SIZE m' -> same_layout (memory c) m' -> cpu_ok (set_memory m' c).
Proof.
  intros [] Hm (H1 & H2 & _). split; try done. simpl. by rewrite H1, H2.
Qed.

Lemma abs_loaded c m' w u :
  loaded RAM_BYTE_SIZE (memory c) m' w u -> abs (set_memory m' c) ≡ a_set_ty w u (abs c).
Proof.
  intros [_ (H1 & H2 & _) Hb Ht]. unfold abs, a_set_ty. simpl. rewrite Hb, H1, H2.
  repeat split; try done.
Qed.

(** The bytes of a stored word. *)
Lemma stored_byte m m' w v u i :
  stored RAM_BYTE_SIZE m m' w v u ->
  vcell (mem_inner m') i = if decide (i / 4 = w) then byte_of v (i mod 4) else vcell (mem_inner m) i.
Proof.
  intros Hs. case_decide as Hi; [|by apply Hs].
  pose proof (st_word _ _ _ _ _ _ Hs) as Hw. pose proof (mo_bytes _ _ (st_ok _ _ _ _ _ _ Hs)) as Hb.
  unfold word_at in Hw.
  pose proof (to_from_le_bytes _ _ _ _ (Hb (4 * w)) (Hb (4 * w + 1)) (Hb (4 * w + 2))
    (Hb (4 * w + 3))) as Hl.
  rewrite Hw in Hl. unfold to_le_bytes in Hl. injection Hl as H0 H1 H2 H3. unfold byte_of.
  assert (i = 4 * w \/ i = 4 * w + 1 \/ i = 4 * w + 2 \/ i = 4 * w + 3) as Hcase by dlia.
  destruct Hcase as [-> | [-> | [-> | ->]]].
  - replace ((4 * w) mod 4) with 0 by dlia. by rewrite Z.mul_0_r, Z.pow_0_r, Z.div_1_r.
  - by replace ((4 * w + 1) mod 4) with 1 by dlia.
  - by replace ((4 * w + 2) mod 4) with 2 by dlia.
  - by replace ((4 * w + 3) mod 4) with 3 by dlia.
Qed.

Lemma abs_stored c m' w v u :
  stored RAM_BYTE_SIZE (memory c) m' w v u -> abs (set_memory m' c) ≡ a_put w v u (abs c).
Proof.
  intros Hs. pose proof (st_layout _ _ _ _ _ _ Hs) as (H1 & H2 & _).
  unfold abs, a_put. simpl. rewrite H1, H2. repeat split; try done; intros i.
  - by apply (stored_byte _ _ _ _ _ _ Hs).
  - by apply Hs.
Qed.

(** What a memory access does to the architectural state. *)
Definition access (ma : MemoryAccessInput) (a : Arch I O)
    : outcome RuntimeError (option WriteBackInput * Arch I O) :=
  match ma with
  | MaI w v => (fun a => (None, a)) <$> a_store w v I32OrUsize a
  | MaF w v => (fun a => (None, a)) <$> a_store w v F32 a
  | MaIMem id w => (fun r => (Some (WbI id r.1), r.2)) <$> a_load w I32OrUsize a
  | MaFMem id w => (fun r => (Some (WbF id r.1), r.2)) <$> a_load w F32 a
  end.

Definition ma_ok (ma : MemoryAccessInput) : Prop :=
  match ma with
  | MaI w v => u32_ok w /\ u32_ok v
  | MaF w v => u32_ok w /\ u32_ok v
  | MaIMem id w => reg_in id /\ u32_ok w
  | MaFMem id w => freg_in id /\ u32_ok w
  end.

Lemma run_mem_wp {A} (op : MemST A) sp c (Q : outcome RuntimeError (A * option SpyResult) -> _ -> Prop) :
  wp op (fun o s => Q ((fun a => (a, s.2)) <$> map_err MemoryError o) (set_memory s.1 c))
    (memory c, sp) ->
  wp (run_mem op sp) Q c.
Proof. unfold wp, run_mem. by destruct (op (memory c, sp)) as [o []]. Qed.

Section Access.
Context (c : Cpu I O) (Hc : cpu_ok c).

Lemma run_store w v t sp (Q : outcome RuntimeError (() * option SpyResult) -> _ -> Prop) :
  u32_ok w -> u32_ok v ->
  (forall e, a_store w v t (abs c) = Err e ->
     forall c', cpu_ok c' -> abs c' ≡ abs c -> Q (Err e) c') ->
  (forall p, a_store w v t (abs c) = Panic p -> forall c', cpu_ok c' -> Q (Panic p) c') ->
  (forall a' sp' c', a_store w v t (abs c) = Ok a' -> cpu_ok c' -> region c' = region c ->
     abs c' ≡ a' -> Q (Ok ((), sp')) c') ->
  wp (run_mem (store RAM_BYTE_SIZE (region c) w v t) sp) Q c.
Proof.
  intros Hw Hv HE HP HO. unfold a_store in *. rewrite abs_data, abs_underflows in *. pose proof (co_mem _ Hc) as Hm.
  apply run_mem_wp, store_wp; try done.
  - intros Hd. rewrite Hd in *. apply HE; [done|by apply cpu_ok_memory|reflexivity].
  - intros [H0 Hd] Hu. rewrite Hd, Hu in *. apply HP; [done|by apply cpu_ok_memory].
  - intros [H0 Hd] Hu m' sp' Hs. rewrite Hd, Hu in *. simpl.
    apply (HO _ _ _ eq_refl); [|done|by apply abs_stored]. apply cpu_ok_memory; [done|apply Hs..].
Qed.

Lemma run_load w t sp (Q : outcome RuntimeError (TypedU32 * option SpyResult) -> _ -> Prop) :
  u32_ok w ->
  (forall e, a_load w t (abs c) = Err e ->
     forall c', cpu_ok c' -> abs c' ≡ abs c -> Q (Err e) c') ->
  (forall p, a_load w t (abs c) = Panic p -> forall c', cpu_ok c' -> Q (Panic p) c') ->
  (forall u a' sp' c', a_load w t (abs c) = Ok (a_word (abs c) w, a') -> cpu_ok c' ->
     region c' = region c -> abs c' ≡ a' -> Q (Ok (typed (a_word (abs c) w) u, sp')) c') ->
  wp (run_mem (load RAM_BYTE_SIZE (region c) w t) sp) Q c.
Proof.
  intros Hw HE HP HO. unfold a_load in *. rewrite abs_data, abs_underflows in *. pose proof (co_mem _ Hc) as Hm.
  change (a_ty (abs c) w) with (ty_at (memory c) w) in *.
  apply run_mem_wp, load_wp; try done.
  - intros Hd. rewrite Hd in *. apply HE; [done|by apply cpu_ok_memory|reflexivity].
  - intros [H0 Hd] Hl m' Hs. rewrite Hd, Hl in *. apply HE; [done|apply cpu_ok_memory; [done|apply Hs..]|].
    rewrite (abs_loaded _ _ _ _ Hs). repeat split; try done. intros i. simpl. unfold upd.
    by case_decide; subst.
  - intros [H0 Hd] u Hl Hu m' Hs. rewrite Hd, Hl, Hu in *.
    apply HP; [done|apply cpu_ok_memory; [done|apply Hs..]].
  - intros [H0 Hd] u Hl Hu m' sp' Hs. rewrite Hd, Hl, Hu in *.
    apply (HO _ _ _ _ eq_refl); [|done|by apply abs_loaded].
    apply cpu_ok_memory; [done|apply Hs..].
Qed.

(** The float load forgets the type. *)
Lemma run_get_f w sp (Q : outcome RuntimeError (Z * option SpyResult) -> _ -> Prop) :
  wp (run_mem (load RAM_BYTE_SIZE (region c) w F32) sp)
    (fun o c' => Q (prod_map value (fun sp => sp) <$> o) c') c ->
  wp (run_mem (mem_get_f RAM_BYTE_SIZE (region c) w) sp) Q c.
Proof.
  unfold wp, run_mem. rewrite get_f_load.
  by destruct (load RAM_BYTE_SIZE (region c) w F32 (memory c, sp)) as [[]  []].
Qed.

Lemma a_word_ok w : u32_ok (a_word (abs c) w).
Proof. apply (word_at_ok RAM_BYTE_SIZE (memory c) w (co_mem _ Hc)). Qed.

Lemma perform_access_wp ma sp (Q : outcome RuntimeError _ -> Cpu I O -> Prop) :
  ma_ok ma ->
  (forall e, access ma (abs c) = Err e ->
     forall c', cpu_ok c' -> abs c' ≡ abs c -> Q (Err e) c') ->
  (forall p, access ma (abs c) = Panic p -> forall c', cpu_ok c' -> Q (Panic p) c') ->
  (forall wb a' sp' c', access ma (abs c) = Ok (wb, a') -> wb_ok wb -> cpu_ok c' ->
     region c' = region c -> abs c' ≡ a' -> Q (Ok (wb, sp')) c') ->
  wp (perform_access (region c) ma sp) Q c.
Proof.
  intros Hma HE HP HO. destruct ma as [w v|w v|id w|id w]; simpl in Hma; destruct Hma as [H1 H2];
    unfold perform_access, access in *; apply wp_bind.
  1,2: apply run_store; [done..| | |]; intros; apply wp_ret || idtac.
  7: rewrite get_i_load; apply run_load; [done..| | |]; intros; apply wp_ret || idtac.
  10: apply run_get_f, run_load; [done| | |]; intros; apply wp_ret || idtac.
  all: first
    [ apply HE; try done; by rewrite H0
    | apply HP; try done; by rewrite H0
    | eapply HO; try done; [by rewrite H0]
    | eapply HO; try done; [by rewrite H0|split; [done|apply a_word_ok]] ].
Qed.
End Access.

(** ** Timing *)

Lemma probe_cache_wp w c (Q : outcome RuntimeError bool -> Cpu I O -> Prop) :
  cpu_ok c -> u32_ok w ->
  (forall hit c', cpu_ok c' -> same_arch c c' -> Q (Ok hit) c') ->
  wp (probe_cache w) Q c.
Proof.
  intros Hc Hw HQ. unfold probe_cache. destruct (use_bram w); [by apply HQ|].
  destruct (access_total CACHE_NUM_LINES ltac:(done) (E:=RuntimeError) (cache c) w (co_cache _ Hc))
    as (h & c1 & H1 & Hc1).
  apply wp_zoom. unfold wp. rewrite H1. apply HQ; [|by split]. destruct Hc. by split.
Qed.

Lemma push_wp slot c (Q : outcome RuntimeError Z -> Cpu I O -> Prop) :
  cpu_ok c -> slot_ok slot ->
  (forall k c', 1 <= k <= DDR2_ACCESS_CYCLES -> cpu_ok c' -> same_arch c c' -> Q (Ok k) c') ->
  wp (push_instr_to_pipeline_and_get_cycles slot) Q c.
Proof.
  intros Hc Hslot HQ. pose proof (co_pipe _ Hc) as Hlen. pose proof (co_slots _ Hc) as Hall.
  unfold push_instr_to_pipeline_and_get_cycles. st_run.
  destruct (pipeline_state c) as [|a [|b [|d [|e [|f [|]]]]]] eqn:Hp; try done. cbn.
  decompose_Forall_hyps. apply HQ.
  - unfold slot_ok, DDR2_ACCESS_CYCLES in *. destruct slot, a; lia.
  - destruct Hc. split; try done. simpl. by repeat constructor.
  - by split.
Qed.

Lemma push_bubbles_wp n k c (Q : outcome RuntimeError Z -> Cpu I O -> Prop) :
  cpu_ok c ->
  (forall k' c', Z.of_nat n <= k' - k <= DDR2_ACCESS_CYCLES * Z.of_nat n -> cpu_ok c' ->
     same_arch c c' -> Q (Ok k') c') ->
  wp (push_bubbles n k) Q c.
Proof.
  revert k c. induction n as [|n IH]; intros k c Hc HQ; cbn [push_bubbles].
  - apply wp_ret, HQ; [lia|done|reflexivity].
  - apply wp_bind, push_wp; [done..|]. intros k1 c1 Hk1 Hc1 Hs1.
    apply IH; [done|]. intros k2 c2 Hk2 Hc2 Hs2.
    apply HQ; [unfold DDR2_ACCESS_CYCLES in *; lia|done|by trans c1].
Qed.

Lemma stall_with_bound {D} {SD : Sources D} f (i : D) s : (forall st, 0 <= f st <= 2) -> 0 <= stall_with f i s <= 2.
Proof. intros Hf. unfold stall_with. repeat case_match; try lia. apply Hf. Qed.

Lemma calc_stall_wp {D} {SD : Sources D} (i : D) c (Q : outcome RuntimeError Z -> Cpu I O -> Prop) :
  cpu_ok c -> (forall k, 0 <= k <= 2 -> Q (Ok k) c) -> wp (calc_stall_cycles i) Q c.
Proof.
  intros Hc HQ. pose proof (co_pipe _ Hc) as Hlen. unfold calc_stall_cycles. st_run.
  destruct (pipeline_state c) as [|ex [|ma l]]; try done. apply HQ.
  pose proof (stall_with_bound (fun st => match st with WriteBack => 2 | MemoryAccess => 1 | _ => 0 end)
    i ex ltac:(intros []; lia)) as H1.
  pose proof (stall_with_bound (fun st => match st with WriteBack => 1 | _ => 0 end)
    i ma ltac:(intros []; lia)) as H2.
  unfold stall_cycles_with_ex, stall_cycles_with_ma. lia.
Qed.

(** The clock cycles of one instruction. *)
Definition cycles_ok (k : Z) : Prop := 1 <= k <= 5 * DDR2_ACCESS_CYCLES.

Lemma account_wp {D} {SD : Sources D} (i : D) ex ma stage wb flush c (Q : outcome RuntimeError Z -> Cpu I O -> Prop) :
  cpu_ok c -> 0 <= ex <= 11 -> 1 <= ma <= DDR2_ACCESS_CYCLES ->
  (forall k c', cycles_ok k -> cpu_ok c' -> same_arch c c' -> Q (Ok k) c') ->
  wp (account i ex ma stage wb flush) Q c.
Proof.
  intros Hc Hex Hma HQ. unfold account. apply wp_bind, calc_stall_wp; [done|]. intros n Hn.
  apply wp_bind, push_bubbles_wp; [done|]. intros k1 c1 Hk1 Hc1 Hs1.
  apply wp_bind, push_wp; [done|done|]. intros k2 c2 Hk2 Hc2 Hs2.
  unfold cycles_ok, DDR2_ACCESS_CYCLES in *.
  destruct flush.
  - apply push_bubbles_wp; [done|]. intros k3 c3 Hk3 Hc3 Hs3. unfold DDR2_ACCESS_CYCLES in *.
    apply HQ; [lia|done|]. trans c2; [by trans c1|done].
  - apply wp_ret, HQ; [lia|done|by trans c1].
Qed.

(** ** The execute stage *)

Lemma reg_u32 c r : cpu_ok c -> u32_ok (a_reg (abs c) r).
Proof. intros Hc. apply (co_rf _ Hc). Qed.

Lemma freg_u32 c r : cpu_ok c -> u32_ok (a_freg (abs c) r).
Proof. intros Hc. apply (co_rf _ Hc). Qed.

Hint Resolve reg_u32 freg_u32 word_arith : sim.

Record out_ok (out : ExecuteOutput) : Prop := {
  oo_ma : match eo_ma_in out with Some ma => ma_ok ma | None => True end;
  oo_wb : wb_ok (eo_wb_in out);
  oo_pc : match eo_new_pc out with Some p => u32_ok p | None => True end;
  oo_cycles : 0 <= eo_cycles out <= 11
}.

(** The rest of the instruction, from the output of the execute stage. *)
Definition finish (out : ExecuteOutput) (a : Arch I O) : isa_result I O :=
  let a := match eo_new_pc out with Some p => a_jump p a | None => a end in
  match eo_ma_in out with
  | None => IsaNext (apply_wb (eo_wb_in out) a)
  | Some ma =>
      and_then a (access ma a) (fun r : option WriteBackInput * Arch I O =>
        IsaNext (apply_wb match r.1 with Some _ => r.1 | None => eo_wb_in out end r.2))
  end.

(** The execute stage is the first part of the step [r]. *)
Definition exec_post (r : isa_result I O) c (o : outcome RuntimeError ExecuteOutput) c' : Prop :=
  cpu_ok c' /\ region c' = region c /\
  match o with
  | Ok out => out_ok out /\ r ≡ if eo_end out then IsaExit (abs c') else finish out (abs c')
  | Err e => r ≡ IsaFault e (abs c')
  | Panic p => r ≡ IsaPanic p
  end.

(** The common case: nothing but timing has changed, and the rest is to do. *)
Lemma exec_ret r c c' out :
  cpu_ok c' -> same_arch c c' -> out_ok out -> eo_end out = false -> r = finish out (abs c) ->
  exec_post r c (Ok out) c'.
Proof.
  intros Hc Hs Hout He Hi. split_and!; [done|apply Hs|done|].
  by rewrite He, Hi, (same_arch_abs _ _ Hs).
Qed.

Lemma branch_wp (cond : bool) here imm c (Q : outcome RuntimeError ExecuteOutput -> Cpu I O -> Prop) :
  cpu_ok c ->
  (forall flush c', cpu_ok c' -> same_arch c c' ->
     Q (Ok (mkExecuteOutput None None (if cond then Some (wrapping_add here imm) else None)
              false flush 1 false)) c') ->
  wp (branch cond here imm) Q c.
Proof.
  intros Hc HQ. unfold branch. apply wp_bind, wp_gets, wp_bind, wp_lift.
  rewrite (predict_level NUM_COUNTERS ltac:(done)) by apply Hc.
  destruct (update_state_ok NUM_COUNTERS ltac:(done) (E:=RuntimeError) (pc_val (pc c)) cond
    (branch_predictor c) (co_pred _ Hc)) as (p & H1 & Hp & _).
  apply wp_bind, wp_zoom. unfold wp at 1. rewrite H1.
  apply wp_bind, wp_modify, wp_ret, HQ; [|by split]. destruct Hc. by split.
Qed.

Lemma branch_post here r (cond : bool) imm c :
  cpu_ok c -> r = a_branch here cond imm (abs c) -> wp (branch cond here imm) (exec_post r c) c.
Proof.
  intros Hc Hi. apply branch_wp; [done|]. intros flush c' Hc' Hs.
  apply exec_ret; [done..| |done|].
  - split; simpl; try done. destruct cond; [apply word_arith|done].
  - rewrite Hi. by destruct cond.
Qed.

Lemma cpu_ok_output c o : cpu_ok c -> cpu_ok (set_output o c).
Proof. intros []. by split. Qed.

Lemma cpu_ok_input c i : cpu_ok c -> in_ok i -> cpu_ok (set_input i c).
Proof. intros [] ?. by split. Qed.

(** The registers of a device instruction exist. *)
Definition io_in (io : IOInstr RegId RegId FRegId) : Prop :=
  match io with Outb rs => reg_in rs | Inw rd => reg_in rd | Finw rd => freg_in rd end.

(** A device call is the same at both levels. *)
Lemma execute_io_post io c :
  cpu_ok c -> io_in io ->
  wp (execute_io (io_values (abs c) io)) (exec_post (isa_exec_io io (abs c)) c) c.
Proof.
  intros Hc Hok. destruct io as [rs|rd|rd]; unfold io_values, execute_io;
    apply wp_bind, wp_with_err, wp_zoom; unfold wp at 1.
  - unfold exec_post. cbn [isa_exec_io]. change (a_out (abs c)) with (output c).
    change (a_reg (abs c) (inner rs) mod 256) with (as_u8 (a_reg (abs c) (inner rs))).
    destruct (outb (as_u8 (a_reg (abs c) (inner rs))) (output c)) as [[[]|e|p] o']; simpl;
      (split; [by apply cpu_ok_output|]); (split; [done|]); try reflexivity.
    split; [by split|reflexivity].
  - unfold exec_post. cbn [isa_exec_io]. change (a_in (abs c)) with (input c).
    destruct (inw_ok (input c) (co_in _ Hc)) as [Hin Hv].
    destruct (inw (input c)) as [[v|e|p] i']; simpl in *;
      (split; [by apply cpu_ok_input|]); (split; [done|]); try reflexivity.
    split; [|reflexivity]. split; simpl; try done. split; [done|by apply Hv].
  - unfold exec_post. cbn [isa_exec_io]. change (a_in (abs c)) with (input c).
    destruct (finw_ok (input c) (co_in _ Hc)) as [Hin Hv].
    destruct (finw (input c)) as [[v|e|p] i']; simpl in *;
      (split; [by apply cpu_ok_input|]); (split; [done|]); try reflexivity.
    split; [|reflexivity]. split; simpl; try done. split; [done|by apply Hv].
Qed.

Lemma and_then_fmap {A B} a (f : A -> B) (o : outcome RuntimeError A) (k : B -> isa_result I O) :
  and_then a (f <$> o) k = and_then a o (fun x => k (f x)).
Proof. by destruct o. Qed.


(** ** Memory and write-back *)

#[export] Instance apply_wb_proper wb : Proper ((≡) ==> (≡)) (apply_wb wb).
Proof.
  intros a b Hab. destruct wb as [[id v|id v]|]; simpl; [| |done]; by rewrite Hab.
Qed.

(** What the memory stage hands to the write-back. *)
Definition finish_memory_spec (ma : option MemoryAccessInput) (wb : option WriteBackInput)
    (a : Arch I O) : outcome RuntimeError (option WriteBackInput * Arch I O) :=
  match ma with
  | None => Ok (wb, a)
  | Some ma =>
      (fun r => (match r.1 with Some _ => r.1 | None => wb end, r.2)) <$> access ma a
  end.

Lemma memory_access_wp ma c (Q : outcome RuntimeError (MemoryAccessOutput * option SpyResult) -> _ -> Prop) :
  cpu_ok c -> ma_ok ma ->
  (forall e, access ma (abs c) = Err e ->
     forall c', cpu_ok c' -> abs c' ≡ abs c -> Q (Err e) c') ->
  (forall p, access ma (abs c) = Panic p -> forall c', cpu_ok c' -> Q (Panic p) c') ->
  (forall out sp a' c', access ma (abs c) = Ok (mo_wb_in out, a') -> wb_ok (mo_wb_in out) ->
     1 <= mo_cycles out <= DDR2_ACCESS_CYCLES -> cpu_ok c' -> abs c' ≡ a' -> Q (Ok (out, sp)) c') ->
  wp (memory_access ma None) Q c.
Proof.
  intros Hc Hma HE HP HO. unfold memory_access.
  assert (u32_ok (access_addr ma)) as Haddr by (destruct ma; simpl in *; by destruct_and?).
  apply wp_bind, probe_cache_wp; [done..|]. intros hit c1 Hc1 Hs1.
  apply wp_bind, wp_gets, wp_bind. rewrite <- (same_arch_abs _ _ Hs1) in HE, HP, HO.
  apply perform_access_wp; [done..|].
  intros wb a' sp c2 Ha Hwb Hc2 _ Habs. set (bram := use_bram _).
  assert (1 <= (if bram then 1 else if hit then 2 else DDR2_ACCESS_CYCLES) <= DDR2_ACCESS_CYCLES) as Hk
    by (unfold DDR2_ACCESS_CYCLES; destruct bram, hit; lia).
  apply wp_bind. destruct bram; simpl.
  - apply wp_ret, wp_ret. by eapply HO.
  - apply wp_modify, wp_ret. eapply HO; try done. destruct Hc2. by split.
Qed.

Lemma finish_memory_wp ma wb stage c
    (Q : outcome RuntimeError (option WriteBackInput * Z * PipelineStage * ControlFlow) -> _ -> Prop) :
  cpu_ok c -> match ma with Some ma => ma_ok ma | None => True end -> wb_ok wb ->
  (forall e, finish_memory_spec ma wb (abs c) = Err e ->
     forall c', cpu_ok c' -> abs c' ≡ abs c -> Q (Err e) c') ->
  (forall p, finish_memory_spec ma wb (abs c) = Panic p -> forall c', cpu_ok c' -> Q (Panic p) c') ->
  (forall wb' a' k st flow c', finish_memory_spec ma wb (abs c) = Ok (wb', a') -> wb_ok wb' ->
     1 <= k <= DDR2_ACCESS_CYCLES -> flow <> Exit -> cpu_ok c' -> abs c' ≡ a' ->
     Q (Ok (wb', k, st, flow)) c') ->
  wp (finish_memory ma wb stage) Q c.
Proof.
  intros Hc Hma Hwb HE HP HO. destruct ma as [ma|]; unfold finish_memory.
  - apply wp_bind, memory_access_wp; [done..| | |].
    + intros e He. apply HE. simpl. by rewrite He.
    + intros p Hp. apply HP. simpl. by rewrite Hp.
    + intros out sp a' c' Ha Hwb' Hk Hc' Habs. simpl in HO. rewrite Ha in HO. simpl in *.
      destruct (mo_wb_in out) as [w|]; apply wp_ret;
        (eapply HO; [done|done|done| |done|done]); by destruct sp.
  - apply wp_ret. by eapply HO.
Qed.

(** ** One cycle *)

(** The result of [cycle_one_full], against the step of the specification. *)
Definition cycle_sim {D} (r : isa_result I O) (o : outcome RuntimeError (CycleResult D)) c' : Prop :=
  match o with
  | Ok res =>
      match cr_flow res with
      | Exit => r ≡ IsaExit (abs c')
      | _ => r ≡ IsaNext (abs c') /\ cycles_ok (cr_cycles res)
      end
  | Err e => r ≡ IsaFault e (abs c')
  | Panic p => r ≡ IsaPanic p
  end.

#[export] Instance cycle_sim_proper {D} : Proper ((≡) ==> (=) ==> (=) ==> impl) (cycle_sim (D:=D)).
Proof.
  intros r r' Hr o ? <- c ? <-. unfold cycle_sim. repeat case_match; rewrite Hr; done.
Qed.

Definition is_exit (f : ControlFlow) : bool := match f with Exit => true | _ => false end.

(** The step that an outcome stands for. *)
Definition result_of {D} (r : outcome RuntimeError (CycleResult D) * Cpu I O) : isa_result I O :=
  match r.1 with
  | Ok res => if is_exit (cr_flow res) then IsaExit (abs r.2) else IsaNext (abs r.2)
  | Err e => IsaFault e (abs r.2)
  | Panic p => IsaPanic p
  end.

Lemma sim_result {D} r (x : outcome RuntimeError (CycleResult D) * Cpu I O) :
  cycle_sim r x.1 x.2 -> r ≡ result_of x.
Proof.
  unfold cycle_sim, result_of. destruct x as [[res|e|p] c]; simpl; [|done..].
  by destruct (cr_flow res); simpl; intros; destruct_and?.
Qed.

(** The machine after the execute stage. *)
Section Complete.
Context {D : Type} `{Sources D}.

Lemma finish_spec out a :
  finish out a =
  let a := match eo_new_pc out with Some p => a_jump p a | None => a end in
  and_then a (finish_memory_spec (eo_ma_in out) (eo_wb_in out) a)
    (fun r => IsaNext (apply_wb r.1 r.2)).
Proof.
  unfold finish, finish_memory_spec. destruct (eo_ma_in out); [|done].
  cbv zeta. by rewrite and_then_fmap.
Qed.

Lemma finish_memory_and_write instr (trace : option (ExecutionTrace D)) out c :
  cpu_ok c -> out_ok out ->
  wp (r ← finish_memory (eo_ma_in out) (eo_wb_in out)
        (if eo_use_fpu out then MemoryAccess else Execute);
      let '(wb_in, ma_cycles, stage, flow) :=
        (r : option WriteBackInput * Z * PipelineStage * ControlFlow) in
      _ ← match wb_in with Some wb => write_back wb | None => mret () end;
      cycles ← account instr (eo_cycles out) ma_cycles stage wb_in (eo_flush out);
      mret (mkCycleResult cycles trace flow))
    (fun o c' => cpu_ok c' /\ cycle_sim
       (and_then (abs c) (finish_memory_spec (eo_ma_in out) (eo_wb_in out) (abs c))
          (fun r => IsaNext (apply_wb r.1 r.2))) o c') c.
Proof.
  intros Hc [Hma Hwb _ Hcy]. apply wp_bind, finish_memory_wp; [done..| | |].
  - intros e He c' Hc' Habs. split; [done|]. rewrite He. simpl. split; [done|by symmetry].
  - intros p Hp c' Hc'. split; [done|]. by rewrite Hp.
  - intros wb' a' k st flow c' Ha Hwb' Hk Hflow Hc' Habs. rewrite Ha. cbn [and_then].
    apply wp_bind, (write_back_wp wb'); [done..|]. intros c2 Hc2 Habs2.
    apply wp_bind, account_wp; [done..|]. intros n c3 Hn Hc3 Hs3. apply wp_ret.
    split; [done|]. assert (IsaNext (apply_wb wb' a') ≡ IsaNext (abs c3)) as Heq.
    { rewrite (same_arch_abs _ _ Hs3). unfold equiv, isa_result_equiv. by rewrite Habs2, Habs. }
    by destruct flow.
Qed.

Lemma complete_wp instr (trace : option (ExecutionTrace D)) out c :
  cpu_ok c -> out_ok out ->
  wp (complete instr trace out)
    (fun o c' => cpu_ok c' /\ cycle_sim (finish out (abs c)) o c') c.
Proof.
  intros Hc Hout. rewrite finish_spec. unfold complete. cbv zeta. apply wp_bind.
  pose proof (oo_pc _ Hout) as Hpc. destruct (eo_new_pc out) as [p|].
  - apply wp_modify. rewrite wrap32_small by done.
    apply (finish_memory_and_write instr trace out (set_pc (mkPc p) c)); [|done..].
    destruct Hc. by split.
  - apply wp_ret. by apply finish_memory_and_write.
Qed.
End Complete.

Lemma raw_fetch_ok c :
  cpu_ok c -> range_contains (instr_start (memory c)) (instr_end (memory c)) (pc_val (pc c)) = true ->
  get_from_pc (pc c) (memory c) =
    Ok (from_le_bytes (a_byte (abs c) (pc_val (pc c))) (a_byte (abs c) (pc_val (pc c) + 1))
          (a_byte (abs c) (pc_val (pc c) + 2)) (a_byte (abs c) (pc_val (pc c) + 3))) /\
  0 <= pc_val (pc c) < RAM_BYTE_SIZE.
Proof.
  intros Hc Hin. pose proof (co_text _ Hc) as [H0 H1]. unfold get_from_pc. rewrite Hin.
  unfold range_contains in Hin. apply andb_true_iff in Hin as [Hlo Hhi].
  apply Z.leb_le in Hlo. apply Z.ltb_lt in Hhi. unfold get_raw_addr.
  rewrite (mo_len _ _ (co_mem _ Hc)). destruct (Z.leb_spec 0 (pc_val (pc c))); [|lia].
  destruct (Z.leb_spec (pc_val (pc c) + 4) RAM_BYTE_SIZE); [|lia]. split; [done|lia].
Qed.

(** The fetch and the decoding. *)
Lemma instr_fetch_wp c (Q : outcome RuntimeError InstrFetchOutput -> Cpu I O -> Prop) :
  cpu_ok c ->
  (forall e, a_fetch (abs c) = Err e -> Q (Err e) c) ->
  (forall bin, a_fetch (abs c) = Ok bin -> u32_ok bin -> 0 <= pc_val (pc c) < RAM_BYTE_SIZE ->
     Q (Ok (mkFetch bin (pc c) (mkPc (pc_val (pc c) + 4)))) (set_pc (mkPc (pc_val (pc c) + 4)) c)) ->
  wp instr_fetch Q c.
Proof.
  intros Hc HE HO. unfold instr_fetch. apply wp_bind, wp_gets, wp_bind, wp_lift.
  unfold a_fetch in *. cbn [a_text a_pc abs fst snd] in *.
  destruct (range_contains _ _ _) eqn:Hin.
  - destruct (raw_fetch_ok c Hc Hin) as [-> Hpc]. cbn [map_err].
    apply wp_bind, wp_lift. rewrite pc_incr_small by (unfold RAM_BYTE_SIZE in *; lia).
    apply wp_bind, wp_modify, wp_ret, HO; [done| |done].
    apply from_le_bytes_ok; apply (mo_bytes _ _ (co_mem _ Hc)).
  - unfold get_from_pc. rewrite Hin. by apply HE.
Qed.

Lemma fetch_word_ok c :
  cpu_ok c -> match a_fetch (abs c) with Ok bin => u32_ok bin | Err _ => True | Panic _ => False end.
Proof.
  intros Hc. unfold a_fetch. destruct (range_contains _ _ _); [|done].
  apply from_le_bytes_ok; apply (mo_bytes _ _ (co_mem _ Hc)).
Qed.

Lemma encounter_instr_ok {E} i (s : InstrStat) :
  0 <= instr_id_inner i < INSTR_ID_MAX -> vlen s = INSTR_ID_MAX ->
  exists s', encounter_instr (E:=E) i s = Ok s' /\ vlen s' = INSTR_ID_MAX.
Proof.
  intros Hid Hs. unfold encounter_instr.
  rewrite vget_ok by (rewrite Hs; done). simpl. rewrite vset_ok by (rewrite Hs; done).
  by eexists.
Qed.

(** The register fetch and the execute stage, from their proofs. *)
Lemma fetch_execute_post {F} (fetch : M F) (v : F) (exec : F -> Z -> Z -> M ExecuteOutput) here next r c :
  wp fetch (reads c v) c ->
  (forall c', cpu_ok c' -> same_arch c c' -> wp (exec v here next) (exec_post r c') c') ->
  wp (x ← fetch; exec x here next) (exec_post r c) c.
Proof.
  intros Hf He. apply wp_bind, (reads_wp c v); [done|]. intros c1 Hc1 Hs1.
  eapply wp_mono; [by apply He|]. intros o c2 (Hc2 & Hr & Hp). split_and!; [done| |done].
  by rewrite Hr, (sa_region _ _ Hs1).
Qed.

(** ** Every instruction set *)

(** A specification of an instruction set, and that its implementation meets it:
    the decoder delivers well-formed instructions, their numbers index the
    statistics, and fetch and execution are the first part of the step.  The
    specification looks at the architectural state only and keeps the text. *)
Class InstrSetOk {D F} `{!InstrSet (I:=I) (O:=O) D F} := {
  spec_decode : Z -> outcome DecodeFail D;
  spec_exec : Z -> D -> Arch I O -> isa_result I O;
  spec_ok : D -> Prop;
  set_decode_spec bin : set_decode bin = lift (map_err DecodeError (spec_decode bin));
  spec_decode_ok bin i : u32_ok bin -> spec_decode bin = Ok i -> spec_ok i;
  spec_exec_equiv here i a b : a ≡ b -> spec_exec here i a ≡ spec_exec here i b;
  spec_exec_text here i a : text_aligned a -> keeps_text a (spec_exec here i a);
  set_id_ok i : 0 <= instr_id_inner (set_id i) < INSTR_ID_MAX;
  set_stages_ok i here c :
    cpu_ok c -> spec_ok i ->
    wp (x ← set_reg_fetch i; set_execute x here (pc_val (pc c))) (exec_post (spec_exec here i (abs c)) c) c
}.

Section Cycle.
Context {D F : Type} `{!InstrSet (I:=I) (O:=O) D F} `{!InstrSetOk}.

Lemma run_instr_wp i trace here c :
  cpu_ok c -> spec_ok i ->
  wp (x ← set_reg_fetch i; out ← set_execute x here (pc_val (pc c));
      if eo_end out then mret (mkCycleResult 0 trace Exit) else complete i trace out)
    (fun o c' => cpu_ok c' /\ cycle_sim (spec_exec here i (abs c)) o c') c.
Proof.
  intros Hc Hi. apply wp_assoc, wp_bind. eapply wp_mono; [by apply set_stages_ok|].
  intros o c2 (Hc2 & Hr2 & Hpost). destruct o as [out|e|p]; [|by split..]. destruct Hpost as [Hout Heq].
  destruct (eo_end out).
  - apply wp_ret. by split.
  - eapply wp_mono; [by apply complete_wp|]. intros o c3 [Hc3 Hsim]. split; [done|]. by rewrite Heq.
Qed.

Lemma cycle_of_post t c :
  cpu_ok c ->
  wp (cycle_of t) (fun o c' => cpu_ok c' /\
    cycle_sim (isa_step_with spec_decode spec_exec (abs c)) o c') c.
Proof.
  intros Hc. unfold cycle_of. apply wp_bind, instr_fetch_wp; [done| |].
  { intros e He. split; [done|]. unfold isa_step_with. rewrite He. by split. }
  intros bin Hbin Hu Hpc. unfold isa_step_with. rewrite Hbin. cbn [and_then fo_bin fo_old_pc fo_pc_plus4].
  set (c1 := set_pc _ c). assert (cpu_ok c1) as Hc1.
  { destruct Hc. split; try done. unfold u32_ok. simpl. unfold RAM_BYTE_SIZE in *. lia. }
  change (a_jump (a_pc (abs c) + 4) (abs c)) with (abs c1).
  change (a_pc (abs c)) with (pc_val (pc c)).
  rewrite set_decode_spec. apply wp_bind, wp_lift. pose proof (spec_decode_ok bin) as Hd.
  destruct (spec_decode bin) as [i|e|p]; cbn [map_err and_then]; [|by split..].
  apply wp_bind, wp_gets, wp_bind, wp_lift.
  destruct (encounter_instr_ok (E:=RuntimeError) (set_id i) (i_stat c1)) as (s' & -> & Hs');
    [apply set_id_ok|apply Hc1|].
  apply wp_bind, wp_modify.
  apply (run_instr_wp i _ (pc_val (pc c)) (set_i_stat s' c1)); [|by apply Hd].
  destruct Hc1. by split.
Qed.

(** The processor with this instruction set. *)
Definition set_step : Arch I O -> isa_result I O := isa_step_with spec_decode spec_exec.
End Cycle.

(** ** Every processor *)

(** What a processor promises to the simulator: one cycle is one step of its
    specification, and leaves a well-formed machine. *)
Class ProcessorOk `{!Processor I O} := {
  proc_step : Arch I O -> isa_result I O;
  proc_step_proper :: Proper ((≡) ==> (≡)) proc_step;
  proc_step_text a : text_aligned a -> keeps_text a (proc_step a);
  proc_ok t c :
    cpu_ok c ->
    wp (proc_cycle t) (fun o c' => cpu_ok c' /\ cycle_sim (proc_step (abs c)) o c') c
}.

Section Processor.
Context `{!Processor I O} `{!ProcessorOk}.

Lemma proc_result t c :
  cpu_ok c -> proc_step (abs c) ≡ result_of (proc_cycle t c).
Proof. intros Hc. apply sim_result. by apply (proc_ok t c). Qed.
End Processor.
End CpuInv.

(** Reading the registers of an instruction. *)
Ltac fetch_regs :=
  intros;
  repeat match goal with
  | |- wp (rget _ ≫= _) _ _ => eapply bind_rget; [assumption..|]; intros
  | |- wp (fget _ ≫= _) _ _ => eapply bind_fget; [assumption..|]; intros
  end;
  try (by apply ret_reads).

(** The execute stage of an instruction without a memory access, and with one. *)
Ltac exec_pure :=
  apply wp_ret, exec_ret; [done|reflexivity| |done|done]; split;
  cbn [eo_ma_in eo_wb_in eo_new_pc eo_cycles wb_ok ma_ok write_int]; try done; auto 10 with sim.

Ltac exec_mem :=
  apply wp_ret, exec_ret; [done|reflexivity| |done|];
  [split; cbn [eo_ma_in eo_wb_in eo_new_pc eo_cycles wb_ok ma_ok]; try done; auto 10 with sim
  |unfold finish; cbn [eo_ma_in eo_wb_in eo_new_pc access]; by rewrite and_then_fmap].

#[export] Hint Resolve word_arith : sim.
#[export] Hint Extern 1 (u32_ok (a_reg (abs _) _)) => apply reg_u32; assumption : sim.
#[export] Hint Extern 1 (u32_ok (a_freg (abs _) _)) => apply freg_u32; assumption : sim.
#[export] Hint Extern 1 (reg_in _) => assumption : sim.
#[export] Hint Extern 1 (freg_in _) => assumption : sim.
