(* ===== verification/CpuProps.v ===== *)
(** * The processor implements the instruction set

    The register fetch and the execute stage of the first instruction set against
    the specification; with CpuInv.v, one call of [cycle_one_full] is one step of
    the architectural specification: the pipeline, the cache, the branch predictor
    and the statistics change the cycle counts only. *)
From S2P Require Import Prelude Word Vec Bin Ty Register Instr Decode Encode Common RegFile Cache BranchPredictor Memory Float32 Fpu Io Cpu Isa IsaProps CpuInv.

#[global] Arguments decode_from : simpl never.

Section CpuProps.
Context `{Profile} {I O : Type} `{!Input I} `{!Output O} `{!InputOk I}.
Implicit Types c : Cpu I O.

(** ** Register fetch *)

(** The instruction with the values of its sources. *)
Definition f_values (a : Arch I O) (f : FInstr RegId RegId FRegId FRegId) : FInstr Z RegId Z FRegId :=
  let x r := a_reg a (inner r) in
  let y r := a_freg a (f_inner r) in
  match f with
  | FE i rd rs1 rs2 => FE i rd (y rs1) (y rs2)
  | FG i rd rs1 rs2 rs3 => FG i rd (y rs1) (y rs2) (y rs3)
  | FH i rd rs1 => FH i rd (y rs1)
  | FK i rd rs1 rs2 => FK i rd (y rs1) (y rs2)
  | FX i rd rs1 => FX i rd (x rs1)
  | FY i rd rs1 => FY i rd (y rs1)
  | FWb i rs1 rs2 imm => FWb i (y rs1) (y rs2) imm
  | FV i rs1 imm => FV i (y rs1) imm
  | Flw rd rs1 imm => Flw rd (x rs1) imm
  | Fsw rs2 rs1 imm => Fsw (y rs2) (x rs1) imm
  end.

Definition values (a : Arch I O) (i : DecodedInstr) : FetchedInstr :=
  let x r := a_reg a (inner r) in
  match i with
  | InstrR i rd rs1 rs2 => InstrR i rd (x rs1) (x rs2)
  | InstrI i rd rs1 imm => InstrI i rd (x rs1) imm
  | InstrS i rs1 rs2 imm => InstrS i (x rs1) (x rs2) imm
  | InstrB i rs1 rs2 imm => InstrB i (x rs1) (x rs2) imm
  | InstrP i rs1 imm imm2 => InstrP i (x rs1) imm imm2
  | InstrJ i rd imm => InstrJ i rd imm
  | InstrIO io => InstrIO (io_values a io)
  | InstrF f => InstrF (f_values a f)
  | InstrMisc m => InstrMisc m
  end.

Lemma reg_fetch_f_reads f c :
  cpu_ok c -> finstr_ok f -> wp (reg_fetch_f f) (reads c (f_values (abs c) f)) c.
Proof.
  intros Hc Hf. assert (same_arch c c) as Hs by reflexivity.
  destruct f as [| [] | | | | | | | |]; simpl in Hf; destruct_and?; unfold reg_fetch_f; fetch_regs.
Qed.

(** The register fetch delivers the values of the sources and changes counters only. *)
Lemma reg_fetch_reads i c :
  cpu_ok c -> instr_ok i -> wp (reg_fetch i) (reads c (values (abs c) i)) c.
Proof.
  intros Hc Hi. assert (same_arch c c) as Hs by reflexivity.
  assert (forall op rd rs1 imm, i = InstrI op rd rs1 imm -> reg_ok rs1) as Hi1.
  { intros op rd rs1 imm ->. destruct op; simpl in Hi; by destruct_and?. }
  destruct i as [op rd rs1 rs2|op rd rs1 imm| | | | | [rs|rd|rd] |f|m];
    unfold reg_fetch; simpl in Hi; destruct_and?.
  2: { specialize (Hi1 _ _ _ _ eq_refl). fetch_regs. }
  all: try by fetch_regs.
  - apply wp_bind. unfold reg_fetch_io. apply wp_bind, rget_wp; [done..|]. intros c' Hc' Hs'.
    by apply wp_ret, wp_ret.
  - apply wp_bind. eapply reads_wp; [by apply reg_fetch_f_reads|]. intros c' Hc' Hs'. by apply wp_ret.
Qed.

(** ** The execute stage *)

Lemma r_alu_ok {E} op x y v : u32_ok x -> u32_ok y -> r_alu (E:=E) op x y = Ok v -> u32_ok v.
Proof.
  intros Hx Hy. destruct op; cbn; intros Hv; simplify_eq; auto with sim.
  - unfold shl_u32 in Hv. repeat case_match; simplify_eq; apply wrap32_ok.
  - unfold shr_u32 in Hv. repeat case_match; simplify_eq; apply shiftr_ok; try done.
    + unfold u32_ok in Hy. lia.
    + by apply Z.land_nonneg; right.
Qed.

Lemma e_alu_ok op x y : u32_ok x -> u32_ok y -> u32_ok (e_alu op x y).
Proof. intros. destruct op; cbn [e_alu]; auto with sim. Qed.

Lemma h_alu_ok op x : u32_ok x -> u32_ok (h_alu op x).
Proof. intros. destruct op; cbn [h_alu]; unfold fhalf; auto with sim. Qed.

Lemma k_alu_ok op x y : u32_ok (k_alu op x y).
Proof. destruct op; cbn [k_alu]; auto with sim. Qed.

Lemma x_alu_ok op x : u32_ok (x_alu op x).
Proof. destruct op. apply fcvtsw_ok. Qed.

Lemma y_alu_ok op x : u32_ok (y_alu op x).
Proof. destruct op; cbn [y_alu]; auto with sim. Qed.

Hint Resolve e_alu_ok h_alu_ok k_alu_ok x_alu_ok y_alu_ok : sim.

(** The tables of the execute stage compute the operations of the specification. *)
Lemma i32_signed x : u32_ok x -> i32 x = as_i32 x.
Proof. unfold u32_ok, i32, as_i32. intros. destruct (Z.ltb_spec x (2 ^ 31)); dlia. Qed.

Lemma shl_isa x n : 0 <= n -> shl_u32 x n = isa_sll x n.
Proof.
  intros Hn. unfold shl_u32, isa_sll, isa_shift, wrap32. change 31 with (Z.ones 5).
  rewrite Z.land_ones, !Z.shiftl_mul_pow2 by (try apply Z.mod_pos_bound; lia). done.
Qed.

Lemma r_alu_isa op x y : u32_ok x -> u32_ok y -> r_alu op x y = isa_r op x y.
Proof.
  intros Hx [Hy Hy']. destruct op; cbn [r_alu isa_r]; try done.
  - by apply shl_isa.
  - unfold shr_u32, isa_shift. change 31 with (Z.ones 5).
    by rewrite Z.land_ones, !Z.shiftr_div_pow2 by (try apply Z.mod_pos_bound; lia).
  - by rewrite !i32_signed by done.
Qed.

Lemma b_cond_isa op x y : u32_ok x -> u32_ok y -> b_cond op x y = isa_b op x y.
Proof. intros. destruct op; cbn; rewrite ?i32_signed by done; try done. apply Z.leb_antisym. Qed.

Lemma sign_bit_isa x : u32_ok x -> Z.land x (2 ^ 31) = x / 2 ^ 31 * 2 ^ 31.
Proof.
  intros Hx. apply Z.bits_inj'. intros i Hi.
  rewrite Z.land_spec, Z.mul_pow2_bits, Z.pow2_bits_eqb by lia.
  destruct (Z.eqb_spec 31 i) as [<-|Hne]; rewrite ?andb_true_r, ?andb_false_r.
  - by rewrite <- Z.shiftr_div_pow2, Z.shiftr_spec by lia.
  - destruct (Z.lt_ge_cases i 31); [by rewrite Z.testbit_neg_r by lia|].
    rewrite <- Z.shiftr_div_pow2, Z.shiftr_spec by lia.
    by rewrite (testbit_high 32) by (try apply Hx; lia).
Qed.

Lemma copysign_isa x y : u32_ok x -> u32_ok y -> copysign x y = with_sign x y.
Proof.
  intros Hx Hy. unfold copysign, with_sign. rewrite sign_bit_isa by done.
  change (2 ^ 31 - 1) with (Z.ones 31). rewrite Z.land_ones by lia.
  apply lor_add_r; [lia|]. by apply Z.mod_pos_bound.
Qed.

Lemma lxor_add_sign r : 0 <= r < 2 ^ 31 -> Z.lxor r (2 ^ 31) = r + 2 ^ 31.
Proof.
  intros Hr. symmetry. apply Z.add_nocarry_lxor. rewrite sign_bit_isa by (unfold u32_ok; lia).
  by rewrite Z.div_small by done.
Qed.

Lemma flip_sign_isa x : u32_ok x -> f32_neg x = flip_sign x.
Proof.
  unfold u32_ok, f32_neg, flip_sign. intros Hx. destruct (Z.lt_ge_cases x (2 ^ 31)).
  - rewrite lxor_add_sign by lia. dlia.
  - replace x with (x - 2 ^ 31 + 2 ^ 31) at 1 by lia.
    rewrite <- lxor_add_sign, Z.lxor_assoc, Z.lxor_nilpotent, Z.lxor_0_r by lia. dlia.
Qed.

Lemma signum_ok x : u32_ok x -> u32_ok (signum x).
Proof. intros. unfold signum. destruct (is_nan32 x); [done|]. by apply copysign_ok. Qed.
Hint Resolve signum_ok : sim.

Lemma e_alu_isa op x y : u32_ok x -> u32_ok y -> e_alu op x y = isa_e op x y.
Proof.
  intros. destruct op; cbn [e_alu isa_e]; try done; rewrite copysign_isa by auto with sim; try done.
  by rewrite flip_sign_isa.
Qed.

Lemma h_alu_isa op x : h_alu op x = isa_h op x.
Proof. by destruct op. Qed.

Lemma k_alu_isa op x y : k_alu op x y = isa_k op x y.
Proof. by destruct op. Qed.

Lemma x_alu_isa op x : u32_ok x -> x_alu op x = isa_x op x.
Proof. intros. destruct op. cbn. by rewrite i32_signed. Qed.

Lemma y_alu_isa op x : y_alu op x = isa_y op x.
Proof. by destruct op. Qed.

Lemma w_cond_isa op x y : w_cond op x y = isa_w op x y.
Proof. by destruct op. Qed.

Lemma v_cond_isa op x : v_cond op x = isa_v op x.
Proof. by destruct op. Qed.

(** From the operations of the specification to the tables of the execute stage. *)
Ltac of_isa :=
  cbn [isa_exec isa_exec_f isa_exec_i];
  rewrite <- ?r_alu_isa, <- ?b_cond_isa, <- ?e_alu_isa, <- ?h_alu_isa, <- ?k_alu_isa, <- ?x_alu_isa,
    <- ?y_alu_isa, <- ?w_cond_isa, <- ?v_cond_isa by auto with sim.

Lemma execute_f_post here f c :
  cpu_ok c -> finstr_ok f ->
  wp (execute_f (f_values (abs c) f) here) (exec_post (isa_exec here (InstrF f) (abs c)) c) c.
Proof.
  intros Hc Hf. destruct f as [op rd rs1 rs2|[]|op rd rs1|op rd rs1 rs2|op rd rs1|op rd rs1
    |op rs1 rs2 imm|op rs1 imm|rd rs1 imm|rs2 rs1 imm]; simpl in Hf; destruct_and?;
    unfold f_values, execute_f, execute_w, execute_v, execute_flw, execute_fsw; of_isa.
  - exec_pure. by destruct op.
  - exec_pure. by destruct op.
  - exec_pure.
  - exec_pure.
  - exec_pure. by destruct op.
  - by apply branch_post.
  - by apply branch_post.
  - exec_mem.
  - exec_mem.
Qed.

Lemma execute_i_post here op rd rs1 imm c :
  cpu_ok c -> instr_ok (InstrI op rd rs1 imm) ->
  wp (execute_i op rd (a_reg (abs c) (inner rs1)) imm (a_pc (abs c)))
    (exec_post (isa_exec here (InstrI op rd rs1 imm) (abs c)) c) c.
Proof.
  intros Hc Hi.
  assert (reg_ok rd /\ (op = Slli \/ imm_ok 12 imm)) as [Hrd Himm]
    by (destruct op; simpl in Hi; try done; destruct_and?; auto).
  destruct op; unfold execute_i; cbn [isa_exec isa_exec_i].
  5: { destruct Hi as (_ & _ & Hs). rewrite <- shl_isa by lia. unfold shl_u32. destruct (Z.ltb_spec imm 32); [|lia].
    apply wp_bind, wp_lift. apply wp_ret, exec_ret; [done|reflexivity| |done|].
    - split; cbn [eo_ma_in eo_wb_in eo_new_pc eo_cycles wb_ok]; try done; auto with sim.
    - done. }
  5: by destruct Hi.
  5: by exec_mem.
  5: { exec_pure. split; [done|]. apply (co_pc _ Hc). }
  all: destruct Himm as [|[Hu _]]; [done|]; rewrite ?i32_signed by auto with sim; exec_pure.
Qed.

(** The execute stage, for every instruction that the decoder produces. *)
Lemma execute_post here i c :
  cpu_ok c -> instr_ok i ->
  wp (execute (mkExecuteInput (values (abs c) i) here (a_pc (abs c)))) (exec_post (isa_exec here i (abs c)) c) c.
Proof.
  intros Hc Hi. destruct i as [op rd rs1 rs2|op rd rs1 imm|[] rs1 rs2 imm|op rs1 rs2 imm|[]
    |[] rd imm|io|f|[]]; unfold execute, values, execute_j, execute_misc.
  - apply wp_bind, wp_lift. simpl in Hi. destruct_and?. of_isa.
    destruct (r_alu op _ _) as [v|e|p] eqn:Hv.
    + apply r_alu_ok in Hv as Hok; [|by apply reg_u32..].
      apply wp_ret, exec_ret; [done|reflexivity|by split|done|done].
    + by split_and!.
    + by split_and!.
  - by apply execute_i_post.
  - simpl in Hi. destruct_and?. exec_mem.
  - of_isa. by apply branch_post.
  - simpl in Hi. destruct_and?. exec_pure. split; [done|]. apply (co_pc _ Hc).
  - by apply execute_io_post.
  - by apply execute_f_post.
  - apply wp_ret. split_and!; [done|done|by split|reflexivity].
Qed.

#[export] Program Instance first_set_ok : InstrSetOk (I:=I) (O:=O) (D:=DecodedInstr) (F:=FetchedInstr) := {|
  spec_decode := decode_from;
  spec_exec := isa_exec;
  spec_ok := instr_ok
|}.
Next Obligation. done. Qed.
Next Obligation. intros bin i Hu Hd. pose proof (decode_from_sound bin Hu) as Hs. by rewrite Hd in Hs. Qed.
Next Obligation. intros. by apply exec_equiv. Qed.
Next Obligation. intros. by apply exec_keeps_text. Qed.
Next Obligation. apply id_bound. Qed.
Next Obligation.
  intros i here c Hc Hi. apply (fetch_execute_post (reg_fetch i) (values (abs c) i)); [by apply reg_fetch_reads|].
  intros c' Hc' Hs. rewrite <- (same_arch_abs _ _ Hs). rewrite <- (sa_pc _ _ Hs).
  by apply execute_post.
Qed.

#[export] Program Instance first_processor_ok : ProcessorOk (I:=I) (O:=O) := {| proc_step := isa_step |}.
Next Obligation. intros. by apply step_keeps_text. Qed.
Next Obligation. intros t c Hc. exact (cycle_of_post (D:=DecodedInstr) (F:=FetchedInstr) t c Hc). Qed.

Lemma cycle_post t c :
  cpu_ok c ->
  wp (cycle_one_full t) (fun o c' => cpu_ok c' /\ cycle_sim (isa_step (abs c)) o c') c.
Proof. intros Hc. exact (cycle_of_post (D:=DecodedInstr) (F:=FetchedInstr) t c Hc). Qed.
End CpuProps.
