(* ===== verification/CpuTheorems.v ===== *)
(** * What the processor guarantees

    The properties of the machine, from the proof in CpuProps that one cycle is
    one step of the specification.  Those of its timing model are in Hazard.v and
    Clock.v. *)
From S2P Require Import Prelude Word Vec Ty Register Instr Decode Encode Common RegFile Cache BranchPredictor Memory Float32 Fpu Io Cpu Isa IsaProps CpuInv CpuProps.

(** ** Loading a program *)

(** A program image: the two lengths in words, then the data and the text. *)
Definition image (data_len text_len : Z) (body : list Z) : list Z :=
  to_le_bytes data_len ++ to_le_bytes text_len ++ body.

(** The image fits into the memory, with room for one word after the text. *)
Record image_ok (data_len text_len : Z) (body : list Z) : Prop := {
  im_data : 0 <= data_len;
  im_text : 0 <= text_len;
  im_fits : 4 * (data_len + text_len) + 4 <= RAM_BYTE_SIZE;
  im_body : Z.of_nat (length body) <= RAM_BYTE_SIZE;
  im_bytes : Forall u8_ok body
}.

Lemma image_lens {E} d t body :
  u32_ok d -> u32_ok t -> get_data_and_text_len (E:=E) (image d t body) = Ok (d, t).
Proof.
  intros Hd Ht. unfold image, to_le_bytes. cbn [app get_data_and_text_len].
  by rewrite !from_to_le_bytes.
Qed.

Lemma regfile_ok_inner `{RegCount} id v rf :
  regfile_ok rf -> id <> 0 -> u32_ok v -> regfile_ok (with_inner (vput id v (rf_inner rf)) rf).
Proof.
  intros [] Hid Hv. split; try done; simpl.
  - intros i. destruct (decide (id = i)) as [->|]; [by rewrite vcell_vput_eq|by rewrite vcell_vput_ne].
  - by rewrite vcell_vput_ne.
Qed.

Lemma vcell_image (m : vec Z) body i :
  0 <= i -> vcell (vput_list 0 body m) i = default (vcell m i) (body !! Z.to_nat i).
Proof.
  intros Hi. destruct (body !! Z.to_nat i) as [x|] eqn:Hx; simpl.
  - replace i with (0 + Z.of_nat (Z.to_nat i)) by lia. by apply vcell_vput_list_in.
  - apply lookup_ge_None_1 in Hx. apply vcell_vput_list_out. lia.
Qed.

Section New.
Context `{Profile} {RC : RegCount} {I O : Type} `{!Input I} `{!Output O} `{!InputOk I}.

(** The state in which a program starts. *)
Record starts (data_len text_len : Z) (body : list Z) (i : I) (o : O) (a : Arch I O) : Prop := {
  sta_pc : a_pc a = 4 * data_len;
  sta_text : a_text a = (4 * data_len, 4 * (data_len + text_len));
  sta_sp : a_reg a 2 = 249999;
  sta_hp : a_reg a 4 = data_len + text_len;
  sta_regs : forall r, r <> 2 -> r <> 4 -> a_reg a r = 0;
  sta_fregs : forall r, a_freg a r = if r =? 1 then f32_one else 0;
  sta_bytes : forall j, a_byte a j = if 0 <=? j then default 0xCC (body !! Z.to_nat j) else 0xCC;
  sta_ty : forall w, a_ty a w = Unknown;
  sta_in : a_in a = i;
  sta_out : a_out a = o;
  sta_marks : a_marks a = if overflow_checks then Some (data_len + text_len, 249999) else None
}.

Lemma cpu_new_starts {E} d t body i o :
  image_ok d t body -> in_ok i ->
  exists c, cpu_new (E:=E) (image d t body) i o = Ok c /\ cpu_ok c /\ region_safe (region c) /\
    starts d t body i o (abs c).
Proof.
  intros [Hd Ht Hfit Hbody Hbytes] Hi. unfold RAM_BYTE_SIZE in *. unfold cpu_new.
  rewrite image_lens by (unfold u32_ok; lia).
  assert (add_u32 (E:=E) d t = Ok (d + t)) as Hadd.
  { unfold add_u32. by destruct (Z.ltb_spec (d + t) (2 ^ 32)); [|lia]. }
  assert (forall x, 0 <= x -> 4 * x < 2 ^ 32 -> wrap32 (Z.shiftl x 2) = 4 * x) as Hshl.
  { intros x H1 H2. rewrite Z.shiftl_mul_pow2 by lia. rewrite wrap32_small; unfold u32_ok; lia. }
  assert (add_u32 (E:=E) (4 * d) (4 * t) = Ok (4 * (d + t))) as Hadd2.
  { unfold add_u32. destruct (Z.ltb_spec (4 * d + 4 * t) (2 ^ 32)); [|lia]. f_equal. lia. }
  unfold mbind, outcome_bind. rewrite Hadd, !Hshl by lia. cbv zeta.
  set (rf := set_sp _ _).
  assert (regfile_ok rf) as Hrf.
  { unfold rf, set_sp, set_hp. apply regfile_ok_inner; [|lia|done].
    apply regfile_ok_inner; [apply regfile_new_ok|lia|unfold u32_ok; lia]. }
  pose proof (set_f_wp (E:=E) (mkFRegId 1) f32_one rf (fun o rf' => o = Ok () /\ regfile_ok rf' /\
    regs_of rf' = (rf_inner rf, wr_reg 1 f32_one (rf_inner_f rf))) Hrf
    ltac:(pose proof reg_count_min; unfold freg_in; simpl; lia) ltac:(done) ltac:(by auto)) as Hset.
  unfold wp in Hset. destruct (set_f _ _ rf) as [r rf']. simpl in Hset.
  destruct Hset as (-> & Hrf' & Hregs). rewrite Hadd2. unfold init_from_slice. st_run.
  change (drop 0 body) with body.
  destruct (Z.ltb_spec RAM_BYTE_SIZE (Z.of_nat (length body))); [unfold RAM_BYTE_SIZE in *; lia|].
  injection Hregs as Hr1 Hr2. eexists. split; [done|]. split_and!.
  - split; cbn [reg_file memory cache branch_predictor pipeline_state i_stat pc input set_memory];
      try done.
    + split; cbn [mem_inner mem_ty instr_start instr_end]; try done; try dlia.
      * by rewrite vlen_vput_list.
      * intros j. destruct (decide (0 <= j)); [|rewrite vcell_vput_list_out by lia; done].
        rewrite vcell_image by done. rewrite Forall_lookup in Hbytes.
        destruct (body !! _) eqn:Hj; simpl; [by eapply Hbytes|done].
    + simpl. unfold RAM_BYTE_SIZE. lia.
    + by repeat constructor.
    + simpl. unfold u32_ok. lia.
  - intros _. cbn [region set_memory]. unfold end_init, region_init. rewrite Hr1. done.
  - split; cbn [abs set_memory a_pc a_text a_reg a_freg a_byte a_ty a_in a_out reg_file memory pc
      input output mem_inner mem_ty instr_start instr_end pc_val]; rewrite ?Hr1, ?Hr2; try done.
    + intros r H2 H4. unfold rf, set_sp, set_hp. simpl. by rewrite !vcell_vput_ne.
    + intros r. rewrite vcell_wr_reg. unfold upd. simpl. destruct (Z.eqb_spec r 1) as [->|Hr]; [done|].
      by rewrite decide_False.
    + intros j. destruct (Z.leb_spec 0 j); [by apply vcell_image|]. by rewrite vcell_vput_list_out by lia.
    + cbn [a_marks region]. unfold marks_of, end_init, region_init. by rewrite Hr1.
Qed.

(** The same as a state: the architecture determines it. *)
Definition start_state (data_len text_len : Z) (body : list Z) (i : I) (o : O) : Arch I O :=
  mkArch (fun r => if r =? 2 then 249999 else if r =? 4 then data_len + text_len else 0)
    (fun r => if r =? 1 then f32_one else 0)
    (fun j => if 0 <=? j then default 0xCC (body !! Z.to_nat j) else 0xCC)
    (fun _ => Unknown) (4 * data_len, 4 * (data_len + text_len)) (4 * data_len) i o
    (if overflow_checks then Some (data_len + text_len, 249999) else None).

Lemma starts_state d t body i o a : starts d t body i o a -> a ≡ start_state d t body i o.
Proof.
  intros []. split_and!; try done. intros r. simpl.
  destruct (Z.eqb_spec r 2) as [->|]; [done|]. destruct (Z.eqb_spec r 4) as [->|]; auto.
Qed.
End New.

(** ** One cycle *)

Section Cycle.
Context `{Profile} {I O : Type} `{!Input I} `{!Output O} `{!InputOk I}.
Implicit Types c : Cpu I O.

Lemma cycle_run t c :
  cpu_ok c ->
  cpu_ok (cycle_one_full t c).2 /\
  cycle_sim (isa_step (abs c)) (cycle_one_full t c).1 (cycle_one_full t c).2.
Proof. apply cycle_post. Qed.

(** C1: Refinement: from a well-formed machine, one call of [cycle_one_full] ends in a
    well-formed machine, and it is one step of the instruction set
    specification: it continues in the specified state, exits in it, or reports
    the specified fault in it, and it panics exactly where the specification
    does, with the same panic: at an assertion of the decoder, in a device, and, in
    a build with overflow checks, at a shift by 32 or more and at an access to the
    heap or the stack after the stack pointer was below 1000 (the underflow of
    [sp_min - 1000] in [get_region]).  Pipeline, cache, branch predictor, spies and
    counters cannot be observed in the architectural state. *)
Theorem cycle_refines_isa t c :
  cpu_ok c ->
  cpu_ok (cycle_one_full t c).2 /\
  cycle_sim (isa_step (abs c)) (cycle_one_full t c).1 (cycle_one_full t c).2.
Proof. apply cycle_run. Qed.

(** Two outcomes that agree on everything but timing and spies. *)
Definition same_outcome {D} (r1 r2 : outcome RuntimeError (CycleResult D) * Cpu I O) : Prop :=
  match r1.1, r2.1 with
  | Ok r, Ok r' => is_exit (cr_flow r) = is_exit (cr_flow r') /\ abs r1.2 ≡ abs r2.2
  | Err e, Err e' => e = e' /\ abs r1.2 ≡ abs r2.2
  | Panic p, Panic p' => p = p'
  | _, _ => False
  end.

Lemma cycle_result t c :
  cpu_ok c -> isa_step (abs c) ≡ result_of (cycle_one_full t c).
Proof. intros Hc. by apply sim_result, cycle_run. Qed.

Lemma result_same {D} (r1 r2 : outcome RuntimeError (CycleResult D) * Cpu I O) : result_of r1 ≡ result_of r2 -> same_outcome r1 r2.
Proof.
  unfold result_of, same_outcome. destruct r1 as [[x|e|p] c1], r2 as [[y|f|q] c2]; simpl;
    repeat case_match; try done.
Qed.

(** C8: The timing model cannot be observed: two well-formed machines with the same
    architectural state, whatever their caches, predictors, pipelines, counters and
    spies, and whether or not they are traced, take a cycle with the same outcome,
    panics included.  The heap start and the lowest stack pointer, two of the
    statistics, belong to the architectural state in a build with overflow checks,
    where an access can panic on them; in the others they are ignored as well. *)
Theorem timing_not_observable t1 t2 c1 c2 :
  cpu_ok c1 -> cpu_ok c2 -> abs c1 ≡ abs c2 -> same_outcome (cycle_one_full t1 c1) (cycle_one_full t2 c2).
Proof.
  intros Hc1 Hc2 Habs. apply result_same.
  rewrite <- (cycle_result t1 c1), <- (cycle_result t2 c2) by done. by rewrite Habs.
Qed.

(** C15: The simulation stops exactly at the end instruction. *)
Theorem exit_iff_end t c :
  cpu_ok c ->
  at_end (abs c) <-> exists res, (cycle_one_full t c).1 = Ok res /\ cr_flow res = Exit.
Proof.
  intros Hc. rewrite step_exit. pose proof (cycle_result t c Hc) as Hs.
  unfold result_of in Hs. destruct (cycle_one_full t c) as [[res|e|p] c']; simpl in *.
  - destruct (cr_flow res) eqn:Hf; simpl in Hs; split.
    + intros [b Hb]. by rewrite Hb in Hs.
    + intros (? & ? & ?). simplify_eq. congruence.
    + intros [b Hb]. by rewrite Hb in Hs.
    + intros (? & ? & ?). simplify_eq. congruence.
    + intros _. by exists res.
    + intros _. destruct (isa_step (abs c)) eqn:He; try done. by eexists.
  - split; [|by intros (? & ? & ?)]. intros [b Hb]. by rewrite Hb in Hs.
  - split; [|by intros (? & ? & ?)]. intros [b Hb]. by rewrite Hb in Hs.
Qed.

Lemma abs_aligned c : cpu_ok c -> text_aligned (abs c).
Proof. intros Hc. split; apply (co_mem _ Hc). Qed.

(** The text of a machine: its range and its bytes. *)
Definition same_text c c' : Prop :=
  a_text (abs c') = a_text (abs c) /\
  forall i, in_text (abs c) i = true -> a_byte (abs c') i = a_byte (abs c) i.

(** C9: The program cannot modify itself: no cycle, completed or failed, changes the
    text or its bounds. *)
Theorem text_immutable t c :
  cpu_ok c -> ~ is_panic (cycle_one_full t c).1 ->
  same_text c (cycle_one_full t c).2.
Proof.
  intros Hc Hp. pose proof (cycle_result t c Hc) as Hs.
  pose proof (step_keeps_text (abs c) (abs_aligned c Hc)) as Hk.
  assert (forall b, b ≡ abs (cycle_one_full t c).2 -> state_of (isa_step (abs c)) = Some b ->
    same_text c (cycle_one_full t c).2) as Hsame.
  { intros b Hb Hstate. destruct (Hk b Hstate) as [Ht Hbytes].
    destruct (equiv_rest _ _ Hb) as (Ht' & _). split; [congruence|].
    intros i Hi. rewrite <- (equiv_byte _ _ _ Hb). by apply Hbytes. }
  unfold result_of in Hs. destruct (cycle_one_full t c) as [[res|e|p] c']; simpl in *; [| |done].
  - destruct (is_exit _), (isa_step (abs c)) as [a|a|e a|p]; try done; by apply (Hsame a).
  - destruct (isa_step (abs c)) as [a|a|e' a|p]; try done. destruct Hs. by apply (Hsame a).
Qed.

(** C13: Without overflow checks, and with devices that do not panic, the only panic of
    a cycle is the assertion of the decoder, on a word that fails it. *)
Theorem only_decoder_panics t c p :
  overflow_checks = false ->
  (forall i q, (inw (I:=I) i).1 <> Panic q) -> (forall i q, (finw (I:=I) i).1 <> Panic q) ->
  (forall v o q, (outb (O:=O) v o).1 <> Panic q) ->
  cpu_ok c -> (cycle_one_full t c).1 = Panic p ->
  p = AssertFailed /\ exists bin, a_fetch (abs c) = Ok bin /\ assert_word bin = true.
Proof.
  intros Hch Hin Hfin Hout Hc Hp.
  pose proof (cycle_result t c Hc) as Hs. unfold result_of in Hs. rewrite Hp in Hs.
  pose proof (fetch_word_ok c) as Hu. unfold isa_step, isa_step_with in Hs.
  destruct (a_fetch (abs c)) as [bin|e|q]; [|done|by destruct (Hu Hc)].
  pose proof (decode_from_sound bin (Hu Hc)) as Hd. cbn [and_then] in Hs.
  destruct (decode_from bin) as [i|e|q]; cbn [map_err and_then] in Hs; simpl in Hd; [|done|].
  - destruct (isa_exec _ _ _) eqn:He; try done. simpl in Hs. simplify_eq.
    apply (exec_no_panic Hch Hin Hfin Hout) in He; [done|]. simpl. unfold marks_of. by rewrite Hch.
  - simpl in Hs. simplify_eq. destruct Hd as [-> Hw]. split; [done|by exists bin].
Qed.
End Cycle.

(** ** Shifts *)

Lemma sra_logical `{Profile} {E} x n :
  u32_ok x -> 0 < n < 32 ->
  r_alu (E:=E) Sra x n = Ok (x / 2 ^ n) /\
  (as_i32 x < 0 -> as_i32 (x / 2 ^ n) <> as_i32 x / 2 ^ n).
Proof.
  unfold u32_ok. intros Hx Hn. split; [apply shr_u32_small; lia|].
  intros Hneg. assert (0 <= x / 2 ^ n < 2 ^ 31) as Hq.
  { pose proof (Z.pow_pos_nonneg 2 (n - 1) ltac:(lia) ltac:(lia)) as Hp.
    replace (2 ^ n) with (2 * 2 ^ (n - 1)) by (rewrite <- Z.pow_succ_r by lia; f_equal; lia).
    split; [apply Z.div_pos; lia|]. apply Z.div_lt_upper_bound; nia. }
  assert (as_i32 x / 2 ^ n < 0) by (apply Z.div_lt_upper_bound; [apply Z.pow_pos_nonneg; lia|lia]).
  unfold as_i32 at 1. destruct (Z.ltb_spec (x / 2 ^ n) (2 ^ 31)); lia.
Qed.

Lemma shift_amount `{Profile} {E} x n :
  32 <= n ->
  r_alu (E:=E) Sll x n =
    (if overflow_checks then Panic ShiftOverflow else Ok (wrap32 (x * 2 ^ (n mod 32)))) /\
  r_alu (E:=E) Sra x n =
    (if overflow_checks then Panic ShiftOverflow else Ok (x / 2 ^ (n mod 32))).
Proof.
  intros Hn. cbn [r_alu]. unfold shl_u32, shr_u32. destruct (Z.ltb_spec n 32); [lia|].
  change 31 with (Z.ones 5). rewrite Z.land_ones by lia. change (2 ^ 5) with 32.
  pose proof (Z.mod_pos_bound n 32 ltac:(lia)).
  by rewrite Z.shiftl_mul_pow2, Z.shiftr_div_pow2 by lia.
Qed.

(** Shifts: [sra] is a logical shift: the sign bit is not copied, so every shift of
    a negative value gives a different result from the arithmetic shift the name
    stands for; and a register shift by 32 or more panics in a build with overflow
    checks, and takes the amount modulo 32 in the others. *)
Theorem shifts_unlike_their_names `{Profile} {E} x n :
  u32_ok x ->
  (0 < n < 32 -> r_alu (E:=E) Sra x n = Ok (x / 2 ^ n) /\
    (as_i32 x < 0 -> as_i32 (x / 2 ^ n) <> as_i32 x / 2 ^ n)) /\
  (32 <= n ->
    r_alu (E:=E) Sll x n =
      (if overflow_checks then Panic ShiftOverflow else Ok (wrap32 (x * 2 ^ (n mod 32)))) /\
    r_alu (E:=E) Sra x n =
      (if overflow_checks then Panic ShiftOverflow else Ok (x / 2 ^ (n mod 32)))).
Proof. intros Hx. split; [by apply sra_logical|apply shift_amount]. Qed.

(** C16: Loading: an image that fits gives a well-formed machine, with [pc] at the start of
    the text, [sp] at the top of the memory, [hp] behind the image, [f1] equal to
    1.0, all other registers zero, the image in the memory and [0xCC] behind it, whatever
    the number of registers. *)
Theorem cpu_new_initial `{Profile} {RC : RegCount} {I O : Type} `{!Input I} `{!Output O} `{!InputOk I} {E}
    data_len text_len body (i : I) (o : O) :
  image_ok data_len text_len body -> in_ok i ->
  exists c, cpu_new (E:=E) (image data_len text_len body) i o = Ok c /\ cpu_ok c /\
    region_safe (region c) /\ starts data_len text_len body i o (abs c).
Proof. apply cpu_new_starts. Qed.

(** ** A program *)

Section Demo.
#[local] Existing Instance debug_profile.

Definition demo_text : list DecodedInstr :=
  [ InstrI Addi (mkRegId 5) (mkRegId 0) 7;
    InstrI Addi (mkRegId 6) (mkRegId 0) 5;
    InstrR Add (mkRegId 7) (mkRegId 5) (mkRegId 6);
    InstrS Sw (mkRegId 2) (mkRegId 7) 0;
    InstrI Lw (mkRegId 8) (mkRegId 2) 0;
    InstrR Sub (mkRegId 9) (mkRegId 8) (mkRegId 5);
    InstrIO (Outb (mkRegId 9));
    InstrMisc MiscEnd ].

Definition demo_body : list Z := concat (map (fun i => to_le_bytes (encode i)) demo_text).

Definition demo_cpu : Cpu EmptyIO BinaryOutput :=
  match cpu_new (E:=never) (image 0 8 demo_body) emptyio_new binaryoutput_new with
  | Ok c => c
  | _ => mkCpu regfile_new region_default (memory_new 0) (cache_new 0) (mkPc 0) emptyio_new
           binaryoutput_new (predictor_new 0) [] (vnew 0 0) cachestat_default branchstat_default
  end.

Lemma demo_image : image_ok 0 8 demo_body.
Proof. split; [done..|by vm_compute|apply (bool_decide_unpack _); by vm_compute]. Qed.

Lemma demo_start :
  cpu_ok demo_cpu /\ region_safe (region demo_cpu) /\
  starts 0 8 demo_body emptyio_new binaryoutput_new (abs demo_cpu).
Proof.
  destruct (cpu_new_starts (E:=never) 0 8 demo_body emptyio_new binaryoutput_new demo_image)
    as (c & Hnew & Hrest); [done|].
  unfold demo_cpu. by rewrite Hnew.
Qed.

(** The same program on a machine with a warmed-up cache and no statistics. *)
Definition demo_cpu' : Cpu EmptyIO BinaryOutput :=
  set_c_stat (mkCacheStat 3 4)
    (set_cache (mkCache (vput 7 9 (tags (cache demo_cpu)))) demo_cpu).

Lemma demo_start' : cpu_ok demo_cpu' /\ region_safe (region demo_cpu') /\ abs demo_cpu ≡ abs demo_cpu'.
Proof.
  destruct demo_start as ([] & Hr & _). split_and!; [by split|done|reflexivity].
Qed.

Lemma cpu_new_initial_witness :
  exists c, cpu_new (E:=never) (image 0 8 demo_body) emptyio_new binaryoutput_new = Ok c /\ cpu_ok c.
Proof.
  destruct (cpu_new_initial (E:=never) 0 8 demo_body emptyio_new binaryoutput_new demo_image)
    as (c & Hnew & Hok & _); [exact Logic.I|by exists c].
Defined.

Lemma cycle_refines_isa_witness :
  cpu_ok (cycle_one_full true demo_cpu).2 /\
  cycle_sim (isa_step (abs demo_cpu)) (cycle_one_full true demo_cpu).1 (cycle_one_full true demo_cpu).2.
Proof. apply (cycle_refines_isa true demo_cpu), demo_start. Defined.

Lemma timing_not_observable_witness :
  same_outcome (cycle_one_full true demo_cpu) (cycle_one_full false demo_cpu').
Proof.
  apply (timing_not_observable true false demo_cpu demo_cpu');
    first [apply demo_start | apply demo_start'].
Defined.

Lemma exit_iff_end_witness : ~ at_end (abs demo_cpu).
Proof.
  intros Hend.
  apply (exit_iff_end true demo_cpu (proj1 demo_start)) in Hend.
  destruct Hend as (res & Hres & Hf).
  assert (match (cycle_one_full true demo_cpu).1 with
          | Ok r => is_exit (cr_flow r) = false | _ => False end) as Hc by (vm_compute; done).
  rewrite Hres, Hf in Hc. discriminate Hc.
Defined.

Lemma text_immutable_witness : same_text demo_cpu (cycle_one_full true demo_cpu).2.
Proof.
  apply (text_immutable true demo_cpu); [apply demo_start..|]. by vm_compute.
Defined.

Lemma shifts_unlike_their_names_witness :
  r_alu (E:=never) Sra 0xFFFFFFF0 2 = Ok 0x3FFFFFFC /\ r_alu (E:=never) Sll 0xFFFFFFF0 32 = Panic ShiftOverflow.
Proof.
  split.
  - destruct (shifts_unlike_their_names (E:=never) 0xFFFFFFF0 2) as [Hs _]; [by apply (bool_decide_unpack _)|].
    apply Hs. lia.
  - destruct (shifts_unlike_their_names (E:=never) 0xFFFFFFF0 32) as [_ Hs]; [by apply (bool_decide_unpack _)|].
    apply Hs. lia.
Defined.
End Demo.

(** A one-word program that the decoder rejects with its assertion. *)
Section DemoPanic.
#[local] Existing Instance release_profile.

Definition panic_word : Z := 0x1053.

Definition panic_cpu : Cpu EmptyIO EmptyIO :=
  match cpu_new (E:=never) (image 0 1 (to_le_bytes panic_word)) emptyio_new emptyio_new with
  | Ok c => c
  | _ => mkCpu regfile_new region_default (memory_new 0) (cache_new 0) (mkPc 0) emptyio_new
           emptyio_new (predictor_new 0) [] (vnew 0 0) cachestat_default branchstat_default
  end.

Lemma panic_start : cpu_ok panic_cpu.
Proof.
  destruct (cpu_new_starts (E:=never) 0 1 (to_le_bytes panic_word) emptyio_new emptyio_new)
    as (c & Hnew & Hok & _); [|done|].
  - split; [done..|apply to_le_bytes_ok].
  - unfold panic_cpu. by rewrite Hnew.
Qed.

Lemma only_decoder_panics_witness :
  exists bin, a_fetch (abs panic_cpu) = Ok bin /\ assert_word bin = true.
Proof.
  destruct (only_decoder_panics false panic_cpu AssertFailed) as [_ Hw];
    [done|done|done|done|apply panic_start|by vm_compute|exact Hw].
Defined.
End DemoPanic.
