(* ===== verification/Hazard.v ===== *)
(** * Hazard detection

    The tests of the pipeline model on source registers, against the register fetch
    of Cpu.v: the detector of a register and the read counter of the register file
    agree, and so do the operands. *)
From S2P Require Import Prelude Word Vec Ty Register Instr Decode Encode Common RegFile Cache BranchPredictor Memory Float32 Fpu Io Cpu Isa IsaProps CpuInv CpuProps CpuTheorems.

(** ** The source registers *)

Definition int_sources (i : DecodedInstr) : list RegId :=
  match i with
  | InstrR _ _ r s | InstrS _ r s _ | InstrB _ r s _ => [r; s]
  | InstrI _ _ r _ | InstrP _ r _ _ | InstrIO (Outb r) => [r]
  | InstrF (FX _ _ r | Flw _ r _ | Fsw _ r _) => [r]
  | _ => []
  end.

Definition float_sources (i : DecodedInstr) : list FRegId :=
  match i with
  | InstrF (FE _ _ r s | FK _ _ r s | FWb _ r s _) => [r; s]
  | InstrF (FG _ _ r s t) => [r; s; t]
  | InstrF (FH _ _ r | FY _ _ r | FV _ r _ | Fsw r _ _) => [r]
  | _ => []
  end.

Lemma sources_listed i r : regid_is_included_in_srcs i r = bool_decide (r ∈ int_sources i).
Proof.
  apply eq_bool_prop_intro. rewrite !Is_true_true. rewrite bool_decide_eq_true.
  destruct i as [| | | |[]| |[]|[| [] | | | | | | | |]|]; cbn;
    rewrite ?orb_true_iff, ?bool_decide_eq_true, ?elem_of_cons, ?elem_of_nil; intuition (auto; try discriminate).
Qed.

Lemma float_sources_listed i r : fregid_is_included_in_srcs i r = bool_decide (r ∈ float_sources i).
Proof.
  apply eq_bool_prop_intro. rewrite !Is_true_true. rewrite bool_decide_eq_true.
  destruct i as [| | | |[]| |[]|[| [] | | | | | | | |]|]; cbn;
    rewrite ?orb_true_iff, ?bool_decide_eq_true, ?elem_of_cons, ?elem_of_nil; intuition (auto; try discriminate).
Qed.
(** ** The counters of the register fetch *)

(** How often a register has been read. *)
Definition reads_of (rf : RegFile) (r : RegId) : Z := vcell (st_read (stat_i rf)) (inner r).
Definition freads_of (rf : RegFile) (r : FRegId) : Z := vcell (st_read (stat_f rf)) (f_inner r).

Definition times {A} `{EqDecision A} (l : list A) (x : A) : Z := Z.of_nat (count_occ (decide_rel (=)) l x).

Lemma times_pos {A} `{EqDecision A} (l : list A) x n : x ∈ l <-> n + times l x <> n.
Proof.
  rewrite list_elem_of_In, (count_occ_In (decide_rel (=))). unfold times. lia.
Qed.

Lemma inner_inj r s : inner r = inner s -> r = s.
Proof. destruct r, s. simpl. congruence. Qed.
Lemma f_inner_inj r s : f_inner r = f_inner s -> r = s.
Proof. destruct r, s. simpl. congruence. Qed.

Section Counting.
Context {I O : Type}.
Implicit Types c : Cpu I O.

(** [m], when it returns, has counted one read for each register of the lists. *)
Definition counts {A} (l : list RegId) (fl : list FRegId) (m : M (I:=I) (O:=O) A) : Prop :=
  forall c v c', m c = (Ok v, c') ->
  (forall r, reads_of (reg_file c') r = reads_of (reg_file c) r + times l r) /\
  (forall r, freads_of (reg_file c') r = freads_of (reg_file c) r + times fl r).

Lemma counts_ret {A} (v : A) : counts [] [] (mret v).
Proof. intros c w c' [= _ <-]. split; intros r; unfold times; simpl; lia. Qed.

Lemma counts_map {A B} l fl (m : M A) (f : A -> B) : counts l fl m -> counts l fl (x ← m; mret (f x)).
Proof. intros Hm c w c' (x & c1 & Hx & Hr)%run_ok_inv. injection Hr as _ <-. by apply (Hm c x). Qed.

Lemma encounter_read_inv {E} id s s' :
  encounter_read (E:=E) id s = Ok s' -> st_read s' = vput id (vcell (st_read s) id + 1) (st_read s).
Proof.
  unfold encounter_read, vget, vset. destruct (in_bounds (st_read s) id); [|done].
  cbn. by intros [= <-].
Qed.

Lemma counts_rget {A} r l fl (k : Z -> M A) : (forall v, counts l fl (k v)) -> counts (r :: l) fl (rget r ≫= k).
Proof.
  intros Hk c w c' (v & c1 & Hv & Hr)%run_ok_inv. apply (Hk v) in Hr as [Hi Hf].
  unfold rget, zoom in Hv. destruct (get r (reg_file c)) as [o rf] eqn:Hg. injection Hv as -> <-. simpl in *.
  unfold get in Hg. apply run_ok_inv in Hg as (rf1 & s1 & [= <- <-] & Hg).
  apply run_ok_inv in Hg as (st & s2 & Hst & Hg). injection Hst as Hst <-.
  apply run_ok_inv in Hg as ([] & s3 & [= <-] & Hg). injection Hg as _ <-.
  apply encounter_read_inv in Hst. split; intros s; [|by rewrite Hf].
  rewrite Hi. unfold reads_of, times. cbn [stat_i with_stat_i count_occ]. rewrite Hst.
  destruct (decide_rel (=) r s) as [->|Hne]; [rewrite vcell_vput_eq; lia|].
  by rewrite vcell_vput_ne by (intros ?%inner_inj; done).
Qed.

Lemma counts_fget {A} r l fl (k : Z -> M A) : (forall v, counts l fl (k v)) -> counts l (r :: fl) (fget r ≫= k).
Proof.
  intros Hk c w c' (v & c1 & Hv & Hr)%run_ok_inv. apply (Hk v) in Hr as [Hi Hf].
  unfold fget, zoom in Hv. destruct (get_f r (reg_file c)) as [o rf] eqn:Hg. injection Hv as -> <-. simpl in *.
  unfold get_f in Hg. apply run_ok_inv in Hg as (rf1 & s1 & [= <- <-] & Hg).
  apply run_ok_inv in Hg as (st & s2 & Hst & Hg). injection Hst as Hst <-.
  apply run_ok_inv in Hg as ([] & s3 & [= <-] & Hg). injection Hg as _ <-.
  apply encounter_read_inv in Hst. split; intros s; [by rewrite Hi|].
  rewrite Hf. unfold freads_of, times. cbn [stat_f with_stat_f count_occ]. rewrite Hst.
  destruct (decide_rel (=) r s) as [->|Hne]; [rewrite vcell_vput_eq; lia|].
  by rewrite vcell_vput_ne by (intros ?%f_inner_inj; done).
Qed.

Lemma reg_fetch_counts i : counts (int_sources i) (float_sources i) (reg_fetch (I:=I) (O:=O) i).
Proof.
  destruct i as [| | | |[]| |[]|[| [] | | | | | | | |]|];
    cbn [reg_fetch reg_fetch_io reg_fetch_f int_sources float_sources];
    repeat first [apply counts_ret | apply counts_rget; intros ? | apply counts_fget; intros ? | apply counts_map].
Qed.
End Counting.

(** ** The property *)

Section Hazards.
Context `{Profile} {I O : Type} `{!Input I} `{!Output O} `{!InputOk I}.
Implicit Types c : Cpu I O.

(** The operands depend on the sources only. *)
Lemma values_sources i (a b : Arch I O) :
  (forall r, r ∈ int_sources i -> a_reg b (inner r) = a_reg a (inner r)) ->
  (forall r, r ∈ float_sources i -> a_freg b (f_inner r) = a_freg a (f_inner r)) ->
  values b i = values a i.
Proof.
  intros Hi Hf. destruct i as [| | | |[]| |[]|[| [] | | | | | | | |]|]; cbn in *;
    rewrite ?Hi, ?Hf by set_solver; done.
Qed.

(** C27: Hazard detection is exact: the register fetch of an instruction, which always
    succeeds on a well-formed machine, reads an integer register, or a float
    register, if and only if the detector says so, as the read counters of the
    register file show (for every instruction that the decoder can deliver); and the operands it delivers depend on no other register:
    two machines that agree on the detected registers deliver the same.  Register
    zero counts like the others, though its value cannot change. *)
Theorem hazard_exact i c :
  cpu_ok c -> instr_ok i ->
  is_ok (reg_fetch i c).1 /\
  (forall r, regid_is_included_in_srcs i r = true <->
     reads_of (reg_file (reg_fetch i c).2) r <> reads_of (reg_file c) r) /\
  (forall r, fregid_is_included_in_srcs i r = true <->
     freads_of (reg_file (reg_fetch i c).2) r <> freads_of (reg_file c) r) /\
  (forall c2, cpu_ok c2 ->
     (forall r, regid_is_included_in_srcs i r = true ->
        vcell (rf_inner (reg_file c2)) (inner r) = vcell (rf_inner (reg_file c)) (inner r)) ->
     (forall r, fregid_is_included_in_srcs i r = true ->
        vcell (rf_inner_f (reg_file c2)) (f_inner r) = vcell (rf_inner_f (reg_file c)) (f_inner r)) ->
     (reg_fetch i c2).1 = (reg_fetch i c).1).
Proof.
  intros Hc Hi. destruct (reg_fetch_reads i c Hc Hi) as (Hv & _).
  pose proof (reg_fetch_counts i c) as Hcounts.
  destruct (reg_fetch i c) as [o c'] eqn:Hr. simpl in *. subst o.
  destruct (Hcounts _ _ eq_refl) as [Hn Hfn]. split_and!; [done| | |].
  - intros r. by rewrite sources_listed, bool_decide_eq_true, Hn, <- times_pos.
  - intros r. by rewrite float_sources_listed, bool_decide_eq_true, Hfn, <- times_pos.
  - intros c2 Hc2 H1 H2. destruct (reg_fetch_reads i c2 Hc2 Hi) as (-> & _). f_equal. apply values_sources.
    + intros r Hr'. apply H1. by rewrite sources_listed, bool_decide_eq_true.
    + intros r Hr'. apply H2. by rewrite float_sources_listed, bool_decide_eq_true.
Qed.
End Hazards.

Section Demo.
#[local] Existing Instance debug_profile.

(** A store reads its address and its value, and no other register. *)
Lemma hazard_exact_witness :
  reads_of (reg_file (reg_fetch (InstrS Sw (mkRegId 2) (mkRegId 7) 0) demo_cpu).2) (mkRegId 7) <>
    reads_of (reg_file demo_cpu) (mkRegId 7) /\
  ~ reads_of (reg_file (reg_fetch (InstrS Sw (mkRegId 2) (mkRegId 7) 0) demo_cpu).2) (mkRegId 8) <>
    reads_of (reg_file demo_cpu) (mkRegId 8).
Proof.
  assert (instr_ok (InstrS Sw (mkRegId 2) (mkRegId 7) 0)) as Hi.
  { split; [split; done|]. split; [split; done|]. apply (bool_decide_unpack _). by vm_compute. }
  destruct (hazard_exact (InstrS Sw (mkRegId 2) (mkRegId 7) 0) demo_cpu (proj1 demo_start) Hi) as (_ & Hr & _).
  split.
  - apply Hr. reflexivity.
  - intros Hn. apply Hr in Hn. discriminate Hn.
Defined.
End Demo.
