(* ===== verification/Clock.v ===== *)
(** * The clock

    What an instruction costs, and what it leaves in the pipeline: an exact
    specification of the timing model of [cycle_one_full] (first instruction set),
    written from the tables of the hardware and not from the stages of Cpu.v.  The
    pipeline is a list of slots, youngest first. *)
From S2P Require Import Prelude Word Vec Ty Register Instr Decode Encode Common RegFile Cache BranchPredictor Memory Float32 Fpu Io Cpu Isa IsaProps CpuInv CpuProps CpuTheorems Hazard.

(** ** The specification *)

(** Clocks in the execute stage. *)
Definition f_clocks (f : FInstr RegId RegId FRegId FRegId) : Z :=
  match f with
  | FE (Fadd | Fsub) _ _ _ => 5
  | FE Fmul _ _ _ => 2
  | FE Fdiv _ _ _ => 11
  | FH (Fsqrt | Ffloor) _ _ => 8
  | FX Fitof _ _ => 4
  | FY Fftoi _ _ => 2
  | Flw _ _ _ => 0
  | _ => 1
  end.

Definition ex_clocks (i : DecodedInstr) : Z :=
  match i with InstrI _ _ _ _ => 0 | InstrF f => f_clocks f | _ => 1 end.

(** The register that an instruction writes. *)
Definition int_target (i : DecodedInstr) : option RegId :=
  match i with
  | InstrR _ rd _ _ | InstrI _ rd _ _ | InstrJ _ rd _ | InstrIO (Inw rd) => Some rd
  | InstrF (FK _ rd _ _ | FY _ rd _) => Some rd
  | _ => None
  end.

Definition float_target (i : DecodedInstr) : option FRegId :=
  match i with
  | InstrIO (Finw rd) => Some rd
  | InstrF (FE _ rd _ _ | FG _ rd _ _ _ | FH _ rd _ | FX _ rd _ | Flw rd _ _) => Some rd
  | _ => None
  end.

Section Spec.
Context `{Profile} {I O : Type}.
Implicit Types (a : Arch I O) (c : Cpu I O).

(** The word that an instruction accesses. *)
Definition data_address a (i : DecodedInstr) : option Z :=
  match i with
  | InstrI Lw _ r imm | InstrS _ r _ imm | InstrF (Flw _ r imm | Fsw _ r imm) =>
      Some (add32 (a_reg a (inner r)) imm)
  | _ => None
  end.

(** Words below [2^14] and in the 256 words of the stack are in the block memory. *)
Definition in_block_memory (w : Z) : bool := (w <? 2 ^ 14) || (RAM_BYTE_SIZE / 4 - 256 <=? w).

(** The other words go through the cache, which has [2^14] lines of four words. *)
Definition cached c (w : Z) : bool :=
  vcell (tags (cache c)) (w / 4 mod 2 ^ 14) =? w / 4 / 2 ^ 14.

(** Clocks in the memory stage. *)
Definition ma_clocks c (w : option Z) : Z :=
  match w with
  | Some w => if in_block_memory w then 1 else if cached c w then 2 else 90
  | None => 1
  end.

(** The stage behind which the result can be used. *)
Definition ready a (i : DecodedInstr) : PipelineStage :=
  match i with
  | InstrI Lw _ r imm | InstrF (Flw _ r imm) =>
      if in_block_memory (add32 (a_reg a (inner r)) imm) then WriteBack else MemoryAccess
  | InstrF (FE _ _ _ _ | FH _ _ _ | FX _ _ _ | FY _ _ _) => MemoryAccess
  | _ => Execute
  end.

Definition slot_of c (i : DecodedInstr) : PipelineStat :=
  mkPipelineStat (ex_clocks i) (ma_clocks c (data_address (abs c) i)) (Some (ready (abs c) i))
    (int_target i) (float_target i).

(** The branches: whether one is taken. *)
Definition taken a (i : DecodedInstr) : option bool :=
  match i with
  | InstrB op r s _ => Some (isa_b op (a_reg a (inner r)) (a_reg a (inner s)))
  | InstrF (FWb op r s _) => Some (isa_w op (a_freg a (f_inner r)) (a_freg a (f_inner s)))
  | InstrF (FV op r _) => Some (isa_v op (a_freg a (f_inner r)))
  | _ => None
  end.

(** The predictor is asked at the address of the next instruction. *)
Definition predicted c (next : Z) : bool :=
  match vcell (counters (branch_predictor c)) (next mod 64) with
  | WeaklyTaken | StronglyTaken => true
  | WeaklyUntaken | StronglyUntaken => false
  end.

(** A [jalr] and a misprediction throw two slots away; a [jal] does not. *)
Definition flushes c (next : Z) (i : DecodedInstr) : bool :=
  match taken (abs c) i with
  | Some t => xorb (predicted c next) t
  | None => match i with InstrI Jalr _ _ _ => true | _ => false end
  end.

(** The instruction waits for a slot that writes one of its sources: two slots if the
    result comes from the last stage, one if it comes from the memory stage, less
    the distance. *)
Definition awaits (i : DecodedInstr) (s : PipelineStat) : bool :=
  match write_back_id s with Some r => bool_decide (r ∈ int_sources i) | None => false end ||
  match float_write_back_id s with Some r => bool_decide (r ∈ float_sources i) | None => false end.

Definition delay (s : PipelineStat) : Z :=
  match result_ready_stage s with Some WriteBack => 2 | Some MemoryAccess => 1 | _ => 0 end.

Definition stall_at (i : DecodedInstr) (distance : Z) (slot : option PipelineStat) : Z :=
  match slot with Some s => if awaits i s then Z.max 0 (delay s - distance) else 0 | None => 0 end.

Definition stalls (i : DecodedInstr) (p : list (option PipelineStat)) : Z :=
  match p with a :: b :: _ => Z.max (stall_at i 0 a) (stall_at i 1 b) | _ => 0 end.

(** What enters the pipeline, oldest first: the stalls, the instruction, the slots
    that are thrown away. *)
Definition issue c (next : Z) (i : DecodedInstr) : list (option PipelineStat) :=
  replicate (Z.to_nat (stalls i (pipeline_state c))) None ++ [Some (slot_of c i)] ++
  (if flushes c next i then [None; None] else []).

(** A slot takes as long as the slower of its execute stage and the memory stage of
    the slot before it; an empty stage takes one clock. *)
Definition slot_clocks (s before : option PipelineStat) : Z :=
  Z.max (from_option ps_ex_cycles 1 s) (from_option ps_ma_cycles 1 before).

Fixpoint clocks (before : option PipelineStat) (l : list (option PipelineStat)) : Z :=
  match l with [] => 0 | s :: l => slot_clocks s before + clocks s l end.

Definition youngest (p : list (option PipelineStat)) : option PipelineStat :=
  match p with s :: _ => s | [] => None end.

(** The pipeline after slots have entered it. *)
Definition entered (l p : list (option PipelineStat)) : list (option PipelineStat) := take 5 (rev l ++ p).
End Spec.

(** ** The implementation *)

#[global] Arguments slot_clocks : simpl never.

Section Proofs.
Context `{Profile} {I O : Type} `{!Input I} `{!Output O} `{!InputOk I}.
Implicit Types c : Cpu I O.

(** What the clock depends on, besides the architectural state. *)
Definition timing c := (pipeline_state c, cache c, branch_predictor c).

Lemma rget_timing r : keeps timing (rget (I:=I) (O:=O) r).
Proof. intros c. unfold rget, zoom. by destruct (get r (reg_file c)). Qed.

Lemma fget_timing r : keeps timing (fget (I:=I) (O:=O) r).
Proof. intros c. unfold fget, zoom. by destruct (get_f r (reg_file c)). Qed.

Lemma reg_fetch_timing i : keeps timing (reg_fetch (I:=I) (O:=O) i).
Proof.
  destruct i as [| | | | | |[]|[]|]; cbn [reg_fetch reg_fetch_io reg_fetch_f];
    repeat first [apply rget_timing | apply fget_timing | keeps_step].
Qed.

(** *** The execute stage *)

Definition targets (wb : option WriteBackInput) : option RegId * option FRegId :=
  (match wb with Some (WbI id _) => Some id | _ => None end,
   match wb with Some (WbF id _) => Some id | _ => None end).

Definition out_targets (ma : option MemoryAccessInput) (wb : option WriteBackInput) :=
  match ma with Some (MaIMem id _) => (Some id, None) | Some (MaFMem id _) => (None, Some id) | _ => targets wb end.

Definition out_ready (ma : option MemoryAccessInput) (stage : PipelineStage) : PipelineStage :=
  match ma with
  | Some (MaIMem _ w | MaFMem _ w) => if use_bram w then WriteBack else MemoryAccess
  | _ => stage
  end.

Lemma use_bram_block w : use_bram w = in_block_memory w.
Proof.
  unfold use_bram, in_block_memory, range_contains, BRAM_WORD_SIZE, STACK_WORD_SIZE, RAM_BYTE_SIZE.
  change (Z.shiftr 1000000 2) with 250000. change (1000000 / 4) with 250000.
  cases_bool; simpl; lia || done.
Qed.

(** The output of the execute stage, as far as the clock goes. *)
Record timed c (next : Z) (i : DecodedInstr) (out : ExecuteOutput) : Prop := {
  tm_clocks : eo_cycles out = ex_clocks i;
  tm_flush : eo_flush out = flushes c next i;
  tm_address : access_addr <$> eo_ma_in out = data_address (abs c) i;
  tm_targets : out_targets (eo_ma_in out) (eo_wb_in out) = (int_target i, float_target i);
  tm_ready : out_ready (eo_ma_in out) (if eo_use_fpu out then MemoryAccess else Execute) = ready (abs c) i
}.

(** An execution in machine [c] that delivers [out], and what it leaves alone. *)
Definition executes c (next : Z) i (m : M (I:=I) (O:=O) ExecuteOutput) : Prop :=
  forall out c', m c = (Ok out, c') ->
  (eo_end out = false -> timed c next i out) /\ pipeline_state c' = pipeline_state c /\ cache c' = cache c.

Lemma executes_ret c next i out : timed c next i out -> executes c next i (mret out).
Proof. by intros Ht o c' [= <- <-]. Qed.

Lemma executes_lift {A} c next i (o : outcome RuntimeError A) k :
  (forall a, executes c next i (k a)) -> executes c next i (a ← lift o; k a).
Proof. intros Hk out c' (a & c1 & Ha & Hr)%run_ok_inv. injection Ha as -> <-. by apply (Hk a). Qed.

Lemma executes_branch c i cond here imm :
  cpu_ok c -> taken (abs c) i = Some cond -> timed c (pc_val (pc c)) i (mkExecuteOutput None None None false
    (flushes c (pc_val (pc c)) i) 1 false) ->
  executes c (pc_val (pc c)) i (branch cond here imm).
Proof.
  intros Hc Ht [] out c'. unfold branch. intros (c1 & s1 & [= <- <-] & Hr)%run_ok_inv.
  apply run_ok_inv in Hr as (pr & s2 & Hp & Hr). injection Hp as Hp <-.
  rewrite (predict_level NUM_COUNTERS ltac:(done)) in Hp by apply Hc. injection Hp as <-.
  apply run_ok_inv in Hr as (u & s3 & Hu & Hr). unfold zoom in Hu.
  destruct (update_state _ _ _ _) as [o p]. injection Hu as _ <-.
  injection Hr as <- <-. split; [|done]. intros _. split; try done. simpl.
  unfold flushes. rewrite Ht. unfold predicted, counter_at. by destruct (vcell _ _), cond.
Qed.

(** A device is another part of the machine. *)
Lemma executes_device {A S} c next i (get : Cpu I O -> S) put (m : ST S string A) k :
  (forall x c, pipeline_state (put x c) = pipeline_state c /\ cache (put x c) = cache c) ->
  (forall a, timed c next i (k a)) ->
  executes c next i (a ← with_err IoError (zoom get put m); mret (k a)).
Proof.
  intros Hp Hk out c' (a & s1 & Ha & Hr)%run_ok_inv. injection Hr as <- <-.
  split; [done|]. unfold with_err, zoom in Ha. destruct (m (get c)) as [o x]. injection Ha as _ <-. apply Hp.
Qed.

Lemma execute_timed i here c :
  cpu_ok c -> instr_ok i ->
  executes c (pc_val (pc c)) i (execute (mkExecuteInput (values (abs c) i) here (pc_val (pc c)))).
Proof.
  intros Hc Hi.
  destruct i as [op rd rs1 rs2|op rd rs1 imm|[] rs1 rs2 imm|op rs1 rs2 imm|[]
    |[] rd imm|[rs|rd|rd]|[op rd rs1 rs2|[]|op rd rs1|op rd rs1 rs2|op rd rs1|op rd rs1
    |op rs1 rs2 imm|op rs1 imm|rd rs1 imm|rs2 rs1 imm]|[]];
    cbn [execute values io_values f_values execute_f execute_io execute_j execute_misc];
    unfold execute_w, execute_v, execute_flw, execute_fsw.
  - apply executes_lift. intros v. by apply executes_ret.
  - destruct op; cbn [execute_i]; try (by apply executes_ret).
    + apply executes_lift. intros v. by apply executes_ret.
    + apply executes_ret. split; try done. cbn. by rewrite use_bram_block.
  - by apply executes_ret.
  - simpl in Hi. destruct_and?. apply executes_branch; [done| |by split].
    cbn [taken]. by rewrite b_cond_isa by auto with sim.
  - by apply executes_ret.
  - by apply executes_device.
  - by apply executes_device.
  - by apply executes_device.
  - apply executes_ret. by split; try destruct op.
  - apply executes_ret. by split; try destruct op.
  - by apply executes_ret.
  - apply executes_ret. by split; try destruct op.
  - apply executes_ret. by split; try destruct op.
  - apply executes_branch; [done|by destruct op|by split].
  - apply executes_branch; [done|by destruct op|by split].
  - apply executes_ret. split; try done. cbn. by rewrite use_bram_block.
  - by apply executes_ret.
  - by intros out c' [= <- <-].
Qed.

(** *** The memory stage *)

Lemma run_mem_timing {A} (op : MemST A) sp : keeps timing (run_mem (I:=I) (O:=O) op sp).
Proof. intros c. unfold run_mem. by destruct (op (memory c, sp)) as [o []]. Qed.

Lemma perform_access_timing r ma sp : keeps timing (perform_access (I:=I) (O:=O) r ma sp).
Proof. destruct ma; apply keeps_bind; try apply run_mem_timing; intros; apply keeps_ret. Qed.

Lemma write_back_timing wb : keeps timing (write_back_opt (I:=I) (O:=O) wb).
Proof.
  destruct wb as [[id v|id v]|]; intros c; simpl; [| |done]; unfold zoom.
  - by destruct (set _ _ _) as [? []].
  - by destruct (set_f _ _ _).
Qed.

(** The cache is asked at the start of the stage. *)
Lemma probe_cache_cached w c hit c' :
  cpu_ok c -> u32_ok w -> probe_cache w c = (Ok hit, c') ->
  hit = negb (in_block_memory w) && cached c w /\ pipeline_state c' = pipeline_state c.
Proof.
  intros Hc Hw. unfold probe_cache. rewrite use_bram_block. destruct (in_block_memory w); [by intros [= <- <-]|].
  unfold zoom. pose proof (access_hit CACHE_NUM_LINES ltac:(done) (E:=RuntimeError) (cache c) w (co_cache _ Hc) Hw) as Hh.
  destruct (access_cache _ _ _) as [o x]. simpl in Hh. subst o. intros [= <- <-]. split; [|done].
  unfold cached, line_of, tag_of. by rewrite Z.shiftr_div_pow2 by lia.
Qed.

Lemma memory_access_clocks ma sp c out sp' c' :
  cpu_ok c -> u32_ok (access_addr ma) -> memory_access ma sp c = (Ok (out, sp'), c') ->
  mo_cycles out = ma_clocks c (Some (access_addr ma)) /\ mo_use_bram out = use_bram (access_addr ma) /\
  targets (mo_wb_in out) = out_targets (Some ma) None /\ pipeline_state c' = pipeline_state c.
Proof.
  intros Hc Hw. unfold memory_access.
  intros (hit & c1 & Hp & Hr)%run_ok_inv. apply probe_cache_cached in Hp as [-> Hp1]; [|done..].
  apply run_ok_inv in Hr as (c1' & c2 & [= <- <-] & Hr).
  apply run_ok_inv in Hr as ([wb sp1] & c3 & Ha & Hr).
  pose proof (perform_access_timing (region c1) ma sp c1) as Ht. rewrite Ha in Ht. injection Ht as Hp3 _ _.
  apply run_ok_inv in Hr as ([] & c4 & Hs & Hr). injection Hr as <- _ <-. simpl.
  assert (pipeline_state c4 = pipeline_state c) as ->.
  { destruct (use_bram _); injection Hs as <-; simpl; congruence. }
  split_and!; [|done| |done].
  - rewrite use_bram_block. by destruct (in_block_memory _), (cached _ _).
  - destruct ma; unfold perform_access in Ha; apply run_ok_inv in Ha as (? & ? & _ & Ha); by injection Ha as <- _ _.
Qed.

(** The memory stage, with or without an access. *)
Lemma finish_memory_clocks ma wb stage c wb' k st flow c' :
  cpu_ok c -> match ma with Some ma => ma_ok ma | None => True end ->
  finish_memory ma wb stage c = (Ok (wb', k, st, flow), c') ->
  k = ma_clocks c (access_addr <$> ma) /\ targets wb' = out_targets ma wb /\ st = out_ready ma stage /\
  is_exit flow = false /\ pipeline_state c' = pipeline_state c.
Proof.
  intros Hc Hma. destruct ma as [ma|]; [|by intros [= <- <- <- <- <-]]. unfold finish_memory.
  assert (u32_ok (access_addr ma)) as Haddr by (destruct ma; simpl in *; by destruct_and?).
  intros ([out sp] & c1 & Ha & Hr)%run_ok_inv.
  apply memory_access_clocks in Ha as (Hk & Hb & Ht & Hp); [|done..].
  destruct ma; simpl in *; subst; destruct (mo_wb_in out) as [[]|]; try done;
    injection Hr as <- <- <- <- <-; rewrite ?Hb; by destruct sp.
Qed.
(** *** The pipeline *)

Implicit Types p l : list (option PipelineStat).

Lemma length_entered l p : length p = 5%nat -> length (entered l p) = 5%nat.
Proof. intros Hp. unfold entered. rewrite length_take, length_app, Hp. lia. Qed.

Lemma entered_app l l' p : entered (l ++ l') p = entered l' (entered l p).
Proof.
  unfold entered. rewrite rev_app_distr, <- app_assoc, (take_app (rev l')), (take_app (rev l') (take 5 _)), take_take.
  by rewrite Nat.min_l by lia.
Qed.

Lemma clocks_app l l' p :
  clocks (youngest p) (l ++ l') = clocks (youngest p) l + clocks (youngest (entered l p)) l'.
Proof.
  revert p. induction l as [|s l IH]; intros p.
  - simpl. unfold entered. by destruct p.
  - change (s :: l) with ([s] ++ l) at 3. rewrite entered_app. specialize (IH (entered [s] p)).
    change (youngest (entered [s] p)) with s in IH. cbn [clocks app]. lia.
Qed.

(** [m] lets the slots [l] enter the pipeline, and adds their clocks to [k]. *)
Definition enters c l (k : Z) (m : M (I:=I) (O:=O) Z) : Prop :=
  forall k' c', m c = (Ok k', c') ->
  k' = k + clocks (youngest (pipeline_state c)) l /\ pipeline_state c' = entered l (pipeline_state c).

Lemma enters_ret c k : length (pipeline_state c) = 5%nat -> enters c [] k (mret k).
Proof.
  intros Hp k' c' [= <- <-]. split; [simpl; lia|]. unfold entered. simpl. symmetry. apply take_ge. lia.
Qed.

Lemma push_enters s c : length (pipeline_state c) = 5%nat ->
  enters c [s] 0 (push_instr_to_pipeline_and_get_cycles s).
Proof.
  intros Hp k' c'. unfold push_instr_to_pipeline_and_get_cycles. st_run. unfold entered.
  destruct (pipeline_state c) as [|s0 [|s1 [|s2 [|s3 [|s4 [|]]]]]]; try done. simpl.
  intros [= <- <-]. split; [|done]. rewrite Z.add_0_r. by destruct s, s0.
Qed.

Lemma enters_app c l l' k j m (f : Z -> M Z) :
  enters c l j m ->
  (forall k' c', pipeline_state c' = entered l (pipeline_state c) -> enters c' l' (k + k') (f k')) ->
  enters c (l ++ l') (k + j) (x ← m; f x).
Proof.
  intros Hm Hf k' c' (x & c1 & Hx & Hr)%run_ok_inv. apply Hm in Hx as [-> Hp].
  apply (Hf _ _ Hp) in Hr as [-> Hp']. split; [|by rewrite entered_app, <- Hp].
  rewrite clocks_app, <- Hp. lia.
Qed.

Lemma bubbles_enter n k c : length (pipeline_state c) = 5%nat ->
  enters c (replicate n None) k (push_bubbles n k).
Proof.
  revert k c. induction n as [|n IH]; intros k c Hp; [by apply enters_ret|].
  cbn [push_bubbles replicate]. rewrite <- (Z.add_0_r k) at 1.
  apply (enters_app c [None] (replicate n None)); [by apply push_enters|]. intros k' c' Hp'.
  apply IH. rewrite Hp'. by apply length_entered.
Qed.

Lemma hazard_awaits (i : DecodedInstr) s : hazard i s = awaits i s.
Proof.
  unfold hazard, awaits. cbn [reads_reg reads_freg first_sources].
  destruct (write_back_id s), (float_write_back_id s); by rewrite ?sources_listed, ?float_sources_listed.
Qed.

Lemma stall_cycles_at (i : DecodedInstr) slot :
  stall_cycles_with_ex i slot = stall_at i 0 slot /\ stall_cycles_with_ma i slot = stall_at i 1 slot.
Proof.
  destruct slot as [s|]; [|done]. unfold stall_cycles_with_ex, stall_cycles_with_ma, stall_with, stall_at, delay.
  rewrite hazard_awaits. by destruct (result_ready_stage s) as [[]|], (awaits i s).
Qed.

(** The accounting of an instruction. *)
Lemma account_enters (i : DecodedInstr) ex ma stage wb (flush : bool) c :
  length (pipeline_state c) = 5%nat ->
  enters c (replicate (Z.to_nat (stalls i (pipeline_state c))) None ++
      [Some (mkPipelineStat ex ma (Some stage) (targets wb).1 (targets wb).2)] ++
      (if flush then [None; None] else [])) 0
    (account i ex ma stage wb flush).
Proof.
  intros Hp. unfold account. intros k' c' (n & c1 & Hn & Hr)%run_ok_inv. revert k' c' Hr.
  assert (n = stalls i (pipeline_state c) /\ c1 = c) as [-> ->].
  { revert Hn. unfold calc_stall_cycles, stalls. st_run.
    destruct (pipeline_state c) as [|s0 [|s1 l]]; try done. intros [= <- <-].
    by rewrite (proj1 (stall_cycles_at i s0)), (proj2 (stall_cycles_at i s1)). }
  rewrite <- (Z.add_0_l 0). apply enters_app; [by apply bubbles_enter|]. intros k1 c1 Hp1. rewrite Z.add_0_l.
  assert (length (pipeline_state c1) = 5%nat) as Hl1 by (rewrite Hp1; by apply length_entered).
  rewrite <- (Z.add_0_r k1) at 1. apply enters_app; [by apply push_enters|]. intros k2 c2 Hp2.
  assert (length (pipeline_state c2) = 5%nat) as Hl2 by (rewrite Hp2; by apply length_entered).
  destruct flush; [by apply (bubbles_enter 2)|by apply enters_ret].
Qed.

Lemma complete_clocks next i trace out c c0 res c' :
  timed c0 next i out -> out_ok out -> cpu_ok c -> pipeline_state c = pipeline_state c0 -> cache c = cache c0 ->
  complete i trace out c = (Ok res, c') ->
  let l := issue c0 next i in
  is_exit (cr_flow res) = false /\ cr_cycles res = clocks (youngest (pipeline_state c0)) l /\ pipeline_state c' = entered l (pipeline_state c0).
Proof.
  intros [H1 H2 H3 H4 H5] Hout Hc Hp0 Hk0. unfold complete.
  intros ([] & c1 & Hj & Hr)%run_ok_inv.
  assert (cpu_ok c1 /\ pipeline_state c1 = pipeline_state c0 /\ cache c1 = cache c0) as (Hc1 & Hp1 & Hk1).
  { pose proof (oo_pc _ Hout) as Hpc. destruct (eo_new_pc out) as [q|]; injection Hj as <-; [|done].
    split; [|done]. destruct Hc. split; try done. apply wrap32_ok. }
  apply run_ok_inv in Hr as ([[[wb k] st] flow] & c2 & Hm & Hr).
  apply finish_memory_clocks in Hm as (-> & Ht & -> & Hflow & Hp2); [|done|apply Hout].
  apply run_ok_inv in Hr as ([] & c3 & Hw & Hr).
  pose proof (write_back_timing wb c2) as Hp3. unfold write_back_opt in Hp3. rewrite Hw in Hp3.
  injection Hp3 as Hp3 _ _. apply run_ok_inv in Hr as (n & c4 & Ha & Hr). injection Hr as <- <-. simpl.
  assert (pipeline_state c3 = pipeline_state c0) as Hp by congruence.
  split; [done|]. apply account_enters in Ha; [|rewrite Hp3, Hp2; apply Hc1]. rewrite Hp in Ha. destruct Ha as [-> ->].
  unfold issue, slot_of. rewrite Ht, H4, H5, H1, H2, H3.
  replace (ma_clocks c1 (data_address (abs c0) i)) with (ma_clocks c0 (data_address (abs c0) i)); [done|].
  unfold ma_clocks, cached. by rewrite Hk1.
Qed.

(** The fetch moves the program counter, nothing that an instruction looks at. *)
Lemma timed_same c c1 n next i out :
  abs c1 = a_jump n (abs c) -> branch_predictor c1 = branch_predictor c -> timed c1 next i out -> timed c next i out.
Proof.
  intros Ha Hp [H1 H2 H3 H4 H5]. unfold flushes, predicted in H2. rewrite Ha in H2, H3, H5. rewrite Hp in H2.
  by split.
Qed.

Lemma fetch_inv c fo c1 :
  cpu_ok c -> instr_fetch c = (Ok fo, c1) ->
  exists bin, a_fetch (abs c) = Ok bin /\ u32_ok bin /\ 0 <= pc_val (pc c) < RAM_BYTE_SIZE /\
    fo = mkFetch bin (pc c) (mkPc (pc_val (pc c) + 4)) /\ c1 = set_pc (mkPc (pc_val (pc c) + 4)) c.
Proof.
  intros Hc Hf. pose (Q := fun (o : outcome RuntimeError InstrFetchOutput) c1 => match o with
    | Ok fo => exists bin, a_fetch (abs c) = Ok bin /\ u32_ok bin /\ 0 <= pc_val (pc c) < RAM_BYTE_SIZE /\
        fo = mkFetch bin (pc c) (mkPc (pc_val (pc c) + 4)) /\ c1 = set_pc (mkPc (pc_val (pc c) + 4)) c
    | _ => True
    end).
  assert (wp instr_fetch Q c) as Hw by (apply instr_fetch_wp; [done|done|intros bin ???; by exists bin]).
  unfold wp in Hw. by rewrite Hf in Hw.
Qed.

(** C17: The clock is exact: a cycle that does not fail fetches and decodes an instruction; if
    it is the end, no clock passes; if not, the slots that enter the pipeline are
    the stalls for the sources that the two slots before have not delivered, the
    instruction itself with the clocks and the result stage of its kind, and two
    lost slots after a [jalr] or a branch that was not predicted; and the clocks
    are those of these slots, each the slower of its own execute stage and the
    memory stage of the slot before it. *)
Theorem clock_exact t c res :
  cpu_ok c -> (cycle_one_full t c).1 = Ok res ->
  exists bin i, a_fetch (abs c) = Ok bin /\ decode_from bin = Ok i /\
    let l := if is_exit (cr_flow res) then [] else issue c (pc_val (pc c) + 4) i in
    cr_cycles res = clocks (youngest (pipeline_state c)) l /\
    pipeline_state (cycle_one_full t c).2 = entered l (pipeline_state c).
Proof.
  intros Hc. destruct (cycle_one_full t c) as [o c'] eqn:Hrun. simpl. intros ->. revert Hrun.
  unfold cycle_one_full, cycle_of. intros (fo & c1 & Hf & Hr)%run_ok_inv.
  apply fetch_inv in Hf as (bin & Hbin & Hu & Hpc & -> & ->); [|done]. cbn [fo_bin fo_old_pc fo_pc_plus4 pc_val] in Hr.
  apply run_ok_inv in Hr as (i & c1 & Hd & Hr). cbn [set_decode first_set] in Hd. unfold instr_decode in Hd.
  pose proof (decode_from_sound bin Hu) as Hi. exists bin.
  destruct (decode_from bin) as [i'|e|p] eqn:Hdec; try done. injection Hd as -> <-. exists i. split; [done|]. split; [done|].
  apply run_ok_inv in Hr as (? & c1 & [= <- <-] & Hr). apply run_ok_inv in Hr as (st & c1 & Hst & Hr).
  injection Hst as Hst <-. apply run_ok_inv in Hr as ([] & c1 & [= <-] & Hr).
  set (c1 := set_i_stat st _) in Hr.
  assert (cpu_ok c1) as Hc1.
  { destruct (encounter_instr_ok (E:=RuntimeError) (id i) (i_stat c)) as (s' & Hs & Hl); [apply id_bound|apply Hc|].
    simpl in Hst. rewrite Hs in Hst. injection Hst as <-. destruct Hc. split; try done.
    unfold c1, u32_ok. simpl. unfold RAM_BYTE_SIZE in *. lia. }
  apply run_ok_inv in Hr as (v & c2 & Hv & Hr). cbn [set_reg_fetch first_set] in Hv.
  pose proof (reg_fetch_reads i c1 Hc1 Hi) as Hread. pose proof (reg_fetch_timing i c1) as Ht2.
  unfold wp in Hread. rewrite Hv in Hread, Ht2. destruct Hread as ([= ->] & Hc2 & Hs2). injection Ht2 as Hp2 Hk2 Hb2.
  apply run_ok_inv in Hr as (out & c3 & Ho & Hr). cbn [set_execute first_set] in Ho.
  simpl in Hs2, Hp2, Hk2, Hb2. pose proof (same_arch_abs _ _ Hs2) as Ha2. rewrite <- Ha2 in Ho.
  assert (pc_val (pc c2) = pc_val (pc c) + 4) as Hpc2 by by rewrite (sa_pc _ _ Hs2).
  rewrite <- Hpc2 in Ho. pose proof (execute_post (pc_val (pc c)) i c2 Hc2 Hi) as Hpost.
  unfold wp in Hpost. change (a_pc (abs c2)) with (pc_val (pc c2)) in Hpost. rewrite Ho in Hpost.
  destruct Hpost as (Hc3 & _ & Hout & _).
  apply (execute_timed i (pc_val (pc c)) c2 Hc2 Hi) in Ho as (Htimed & Hp3 & Hk3). rewrite Hpc2 in Htimed.
  destruct (eo_end out).
  - injection Hr as <- <-. simpl. split; [done|]. rewrite Hp3, Hp2. unfold entered. simpl. symmetry.
    apply take_ge. by rewrite (co_pipe _ Hc).
  - eapply complete_clocks in Hr as (-> & Hcl); [exact Hcl| |done..|congruence|congruence].
    by eapply timed_same; [exact Ha2|exact Hb2|apply Htimed].
Qed.
End Proofs.

(** ** A dependency *)

Section Demo.
#[local] Existing Instance debug_profile.

(** The machine of CpuTheorems.v after [n] instructions. *)
Fixpoint demo_after (n : nat) : Cpu EmptyIO BinaryOutput :=
  match n with Datatypes.O => demo_cpu | S n => (cycle_one_full false (demo_after n)).2 end.

Lemma demo_after_ok n : cpu_ok (demo_after n).
Proof. induction n as [|n IH]; [apply demo_start|]. exact (proj1 (cycle_run false (demo_after n) IH)). Qed.

(** [sub x9, x8, x5] behind [lw x8, 0(x2)], which is served by the block memory: two
    stalls. *)
Lemma clock_exact_witness :
  exists res bin i, (cycle_one_full true (demo_after 5)).1 = Ok res /\ decode_from bin = Ok i /\
    cr_cycles res = clocks (youngest (pipeline_state (demo_after 5)))
      (if is_exit (cr_flow res) then [] else issue (demo_after 5) (pc_val (pc (demo_after 5)) + 4) i) /\
    cr_cycles res = 3.
Proof.
  assert (match (cycle_one_full true (demo_after 5)).1 with Ok res => cr_cycles res = 3 | _ => False end) as Hr
    by (vm_compute; exact eq_refl).
  pose proof (clock_exact true (demo_after 5)) as Hc.
  destruct (cycle_one_full true (demo_after 5)).1 as [res|e|p]; [|destruct Hr..].
  destruct (Hc res (demo_after_ok 5) eq_refl) as (bin & i & _ & Hd & Hcl & _).
  exists res, bin, i. split; [reflexivity|]. split; [exact Hd|]. split; [exact Hcl|exact Hr].
Defined.

Example issue_demo :
  issue (demo_after 5) 24 (InstrR Sub (mkRegId 9) (mkRegId 8) (mkRegId 5)) =
  [None; None; Some (mkPipelineStat 1 1 (Some Execute) (Some (mkRegId 9)) None)].
Proof. vm_compute. reflexivity. Qed.
End Demo.
