(* ===== verification/DebugSymbol.v ===== *)
(** * Debug symbols ([core_sim/src/debug_symbol.rs])

    The symbol table and its searches.  The JSON reader is a third-party
    library; [debug_symbol_of_raw] starts from the record it produces.  The
    standard library's binary search and stable sort are modelled by their
    algorithms. *)
From stdpp Require Import sorting.
From S2P Require Import Prelude Word.

Record SymbolDefRaw := mkSymbol { sym_addr : Z; sym_label : string }.

Record DebugSymbolRaw := mkRaw { raw_globals : list SymbolDefRaw; raw_labels : list SymbolDefRaw }.

Record DebugSymbol := mkDebugSymbol {
  globals : gmap string SymbolDefRaw;
  sorted : list SymbolDefRaw
}.

Definition debugsymbol_default : DebugSymbol := mkDebugSymbol ∅ [].

Definition is_empty (d : DebugSymbol) : bool :=
  bool_decide (globals d = ∅) && match sorted d with [] => true | _ => false end.

#[export] Instance SymbolDefRaw_eq_dec : EqDecision SymbolDefRaw.
Proof. solve_decision. Defined.

(** [DebugSymbol::deser], after the JSON reader: later globals replace earlier ones. *)
Definition debug_symbol_of_raw (r : DebugSymbolRaw) : DebugSymbol :=
  mkDebugSymbol (foldl (fun m v => <[sym_label v := v]> m) ∅ (raw_globals r)) (raw_labels r).

(** A stable sort by address ([sort_by_key]). *)
Fixpoint insert_by_addr (x : SymbolDefRaw) (l : list SymbolDefRaw) : list SymbolDefRaw :=
  match l with
  | [] => [x]
  | y :: l => if sym_addr x <=? sym_addr y then x :: y :: l else y :: insert_by_addr x l
  end.

Fixpoint sort_by_addr (l : list SymbolDefRaw) : list SymbolDefRaw :=
  match l with [] => [] | x :: l => insert_by_addr x (sort_by_addr l) end.

(** [DebugSymbol::merge] *)
Definition merge (self other : DebugSymbol) : DebugSymbol :=
  mkDebugSymbol (globals other ∪ globals self) (sort_by_addr (sorted self ++ sorted other)).

(** ** [slice::binary_search_by_key] *)

(** The loop that halves the search window [base, base + size). *)
Fixpoint bsearch_loop (fuel : nat) (key : Z) (l : list Z) (base size : nat) : nat :=
  match fuel with
  | O => base
  | S fuel =>
      if (size <=? 1)%nat then base
      else
        let half := (size / 2)%nat in
        let mid := (base + half)%nat in
        let base := if (key <? default 0 (l !! mid)) then base else mid in
        bsearch_loop fuel key l base (size - half)
  end.

Definition binary_search (key : Z) (l : list Z) : nat + nat :=
  match l with
  | [] => inr 0%nat
  | _ =>
      let base := bsearch_loop (length l) key l 0 (length l) in
      let x := default 0 (l !! base) in
      if x =? key then inl base
      else inr (if x <? key then S base else base)
  end.

Inductive SymbolError := NotProvided | NoDebugInfo (addr : Z) | NotAvailable.

(** [get_nearest_symbol_addr] *)
Definition get_nearest_symbol_addr (d : DebugSymbol) (addr : Z) : outcome SymbolError nat :=
  match sorted d with
  | [] => Err NotProvided
  | _ =>
      match binary_search addr (sym_addr <$> sorted d) with
      | inl index => Ok index
      | inr index =>
          match sorted d !! index with
          | None => Panic IndexOutOfBounds
          | Some s =>
              if addr <? sym_addr s then
                match index with
                | O => Err (NoDebugInfo addr)
                | S index => Ok index
                end
              else Ok index
          end
      end
  end.

(** [get_exact_symbol_addr] *)
Definition get_exact_symbol_addr (d : DebugSymbol) (addr : Z) : outcome SymbolError nat :=
  match sorted d with
  | [] => Err NotProvided
  | _ =>
      match binary_search addr (sym_addr <$> sorted d) with
      | inl index => Ok index
      | inr _ => Err NotAvailable
      end
  end.

Record SymbolDef := mkSymbolDef { def_raw : SymbolDefRaw; def_size : option Z }.

(** [get_symbol]; the subtraction is on [u32]. *)
Definition get_symbol `{Profile} {E} (d : DebugSymbol) (index : nat) : outcome E SymbolDef :=
  match sorted d !! index with
  | None => Panic IndexOutOfBounds
  | Some raw =>
      match sorted d !! S index with
      | None => Ok (mkSymbolDef raw None)
      | Some next => n ← sub_u32 (sym_addr next) (sym_addr raw); Ok (mkSymbolDef raw (Some n))
      end
  end.

Definition get_global (d : DebugSymbol) (k : string) : option SymbolDefRaw := globals d !! k.

(** ** Sorting *)

Definition addr_le (x y : SymbolDefRaw) : Prop := sym_addr x <= sym_addr y.

Definition table_sorted (d : DebugSymbol) : Prop := Sorted addr_le (sorted d).

Lemma insert_perm x l : insert_by_addr x l ≡ₚ x :: l.
Proof.
  induction l as [|y l IH]; simpl; [done|]. case_match; [done|].
  rewrite IH. apply Permutation_swap.
Qed.

Lemma sort_perm l : sort_by_addr l ≡ₚ l.
Proof. induction l as [|x l IH]; simpl; [done|]. by rewrite insert_perm, IH. Qed.

Lemma insert_sorted x l : Sorted addr_le l -> Sorted addr_le (insert_by_addr x l).
Proof.
  induction 1 as [|y l Hl IH Hd]; simpl; [by repeat constructor|].
  destruct (Z.leb_spec (sym_addr x) (sym_addr y)).
  - repeat constructor; done.
  - constructor; [done|]. destruct l as [|z l]; simpl; [constructor; unfold addr_le; lia|].
    inversion Hd; subst. destruct (_ <=? _); constructor; [unfold addr_le; lia|done].
Qed.

Lemma sort_sorted l : Sorted addr_le (sort_by_addr l).
Proof. induction l; simpl; [constructor|by apply insert_sorted]. Qed.

(** ** Searching *)

(** A non-decreasing list of keys. *)
Definition ascending (l : list Z) : Prop :=
  forall i j x y, (i <= j)%nat -> l !! i = Some x -> l !! j = Some y -> x <= y.

Lemma sorted_ascending d : table_sorted d -> ascending (sym_addr <$> sorted d).
Proof.
  intros Hs. apply Sorted_StronglySorted in Hs; [|intros x y z; unfold addr_le; lia].
  intros i j x y Hij Hx Hy. rewrite list_lookup_fmap in Hx, Hy.
  destruct (sorted d !! i) as [s|] eqn:Hi; simplify_eq/=.
  destruct (sorted d !! j) as [t|] eqn:Hj; simplify_eq/=.
  destruct (decide (i = j)) as [->|Hne]; [simplify_eq; done|].
  revert i j Hij Hi Hj Hne. induction Hs as [|z l Hl IH Hall]; intros i j Hij Hi Hj Hne; [done|].
  destruct j as [|j]; [lia|]. destruct i as [|i]; simpl in *.
  - simplify_eq. rewrite Forall_lookup in Hall. by apply (Hall j).
  - apply (IH i j); [lia|done|done|lia].
Qed.

Lemma lookup_default (l : list Z) i : (i < length l)%nat -> l !! i = Some (default 0 (l !! i)).
Proof. intros Hi. by destruct (lookup_lt_is_Some_2 l i Hi) as [x ->]. Qed.

(** The window always holds the position. *)
Lemma bsearch_loop_spec fuel key l base size :
  ascending l -> (1 <= size)%nat -> (size <= S fuel)%nat -> (base + size <= length l)%nat ->
  (base = 0%nat \/ default 0 (l !! base) <= key) ->
  ((base + size)%nat = length l \/ key < default 0 (l !! (base + size)%nat)) ->
  let b := bsearch_loop fuel key l base size in
  (b < length l)%nat /\ (b = 0%nat \/ default 0 (l !! b) <= key) /\
  (S b = length l \/ key < default 0 (l !! S b)).
Proof.
  intros Hasc. revert base size. induction fuel as [|fuel IH]; intros base size Hs Hf Hlen Hlo Hhi;
    cbn [bsearch_loop].
  - assert (size = 1%nat) as -> by lia. replace (base + 1)%nat with (S base) in Hhi by lia.
    split_and!; [lia|done|done].
  - destruct (Nat.leb_spec size 1) as [Hle|Hgt].
    + assert (size = 1%nat) as -> by lia. replace (base + 1)%nat with (S base) in Hhi by lia.
      split_and!; [lia|done|done].
    + assert (1 <= size / 2 < size)%nat as Hh.
      { split; [apply Nat.div_le_lower_bound; lia|apply Nat.div_lt; lia]. }
      assert (size / 2 <= size - size / 2)%nat as Hh2.
      { pose proof (Nat.div_mod_eq size 2). lia. }
      destruct (Z.ltb_spec key (default 0 (l !! (base + size / 2)%nat))) as [Hlt|Hge].
      * apply IH; [lia|lia|lia|done|].
        destruct (decide (base + (size - size / 2) = length l)%nat) as [|Hne]; [by left|right].
        apply Z.lt_le_trans with (1 := Hlt).
        apply (Hasc (base + size / 2)%nat (base + (size - size / 2))%nat); [lia| |];
          apply lookup_default; lia.
      * apply IH; [lia|lia|lia|by right|].
        replace (base + size / 2 + (size - size / 2))%nat with (base + size)%nat by lia. done.
Qed.

Lemma binary_search_spec key l :
  ascending l ->
  match binary_search key l with
  | inl i => l !! i = Some key
  | inr i =>
      (i <= length l)%nat /\
      (forall j x, (j < i)%nat -> l !! j = Some x -> x < key) /\
      (forall j x, (i <= j)%nat -> l !! j = Some x -> key < x)
  end.
Proof.
  intros Hasc. unfold binary_search. destruct l as [|a l0] eqn:Hl; [by split_and!; intros; simplify_eq/=; lia|].
  rewrite <- Hl in *. assert (1 <= length l)%nat as Hlen by (rewrite Hl; simpl; lia). clear Hl a l0.
  destruct (bsearch_loop_spec (length l) key l 0 (length l)) as (Hb & Hlo & Hhi);
    [done|lia..|by left|by left|].
  set (b := bsearch_loop _ _ _ _ _) in *. pose proof (lookup_default l b Hb) as Hx.
  set (x := default 0 (l !! b)) in *. clearbody x.
  assert (forall j y, (S b <= j)%nat -> l !! j = Some y -> key < y) as Habove.
  { intros j y Hj Hy. pose proof (lookup_lt_Some _ _ _ Hy). destruct Hhi as [|Hhi]; [lia|].
    apply Z.lt_le_trans with (1 := Hhi). apply (Hasc (S b) j); [done| |done].
    apply lookup_default. lia. }
  destruct (Z.eqb_spec x key) as [->|Hne]; [done|]. destruct (Z.ltb_spec x key) as [Hlt|Hge].
  - split_and!; [lia| |done]. intros j y Hj Hy.
    apply Z.le_lt_trans with (2 := Hlt). apply (Hasc j b); [lia|done|done].
  - destruct Hlo as [Hb0|]; [|lia]. split_and!; [lia|lia|].
    intros j y Hj Hy. apply Z.lt_le_trans with x; [lia|]. by apply (Hasc b j).
Qed.

(** The description of the result of [get_nearest_symbol_addr]. *)
Definition nearest_spec (d : DebugSymbol) (addr : Z) (r : outcome SymbolError nat) : Prop :=
  match r with
  | Ok i =>
      exists s, sorted d !! i = Some s /\ sym_addr s <= addr /\
        (sym_addr s < addr -> is_Some (sorted d !! S i)) /\
        forall j t, (i < j)%nat -> sorted d !! j = Some t ->
          addr <= sym_addr t /\ (sym_addr s < addr -> addr < sym_addr t)
  | Err NotProvided => sorted d = []
  | Err (NoDebugInfo a) => a = addr /\ sorted d <> [] /\ forall t, t ∈ sorted d -> addr < sym_addr t
  | Err NotAvailable => False
  | Panic p => p = IndexOutOfBounds /\ sorted d <> [] /\ forall t, t ∈ sorted d -> sym_addr t < addr
  end.

Lemma key_lookup d i : (sym_addr <$> sorted d) !! i = sym_addr <$> sorted d !! i.
Proof. apply list_lookup_fmap. Qed.

Lemma nearest_symbol d addr :
  table_sorted d -> nearest_spec d addr (get_nearest_symbol_addr d addr).
Proof.
  intros Hs. pose proof (binary_search_spec addr _ (sorted_ascending _ Hs)) as Hb.
  pose proof (sorted_ascending _ Hs) as Hasc. unfold get_nearest_symbol_addr.
  destruct (sorted d) as [|a l] eqn:Hd; [done|]. rewrite <- Hd in *.
  assert (sorted d <> []) as Hne by by rewrite Hd. clear Hd a l.
  destruct (binary_search _ _) as [i|i].
  - rewrite key_lookup in Hb. destruct (sorted d !! i) as [s|] eqn:Hi; simplify_eq/=.
    exists s. split_and!; [done|lia|lia|]. intros j t Hj Ht. split; [|lia].
    apply (Hasc i j); [lia| |]; rewrite key_lookup; [by rewrite Hi|by rewrite Ht].
  - destruct Hb as (Hlen & Hbelow & Habove). rewrite length_fmap in Hlen.
    destruct (sorted d !! i) as [s|] eqn:Hi.
    + assert (addr < sym_addr s) as Hlt.
      { apply (Habove i); [done|]. rewrite key_lookup. by rewrite Hi. }
      destruct (Z.ltb_spec addr (sym_addr s)); [|lia]. destruct i as [|i].
      * split_and!; [done|done|]. intros t Ht. apply list_elem_of_lookup in Ht as [j Ht].
        apply (Habove j); [lia|]. rewrite key_lookup. by rewrite Ht.
      * pose proof (lookup_lt_Some _ _ _ Hi). destruct (lookup_lt_is_Some_2 (sorted d) i) as [t Ht]; [lia|].
        exists t. split_and!; [done| |by rewrite Hi|].
        -- assert (sym_addr t < addr); [|lia]. apply (Hbelow i); [lia|]. rewrite key_lookup. by rewrite Ht.
        -- intros j u Hj Hu. assert (addr < sym_addr u); [|lia].
           apply (Habove j); [lia|]. rewrite key_lookup. by rewrite Hu.
    + split_and!; [done|done|]. intros t Ht. apply list_elem_of_lookup in Ht as [j Ht].
      pose proof (lookup_lt_Some _ _ _ Ht). apply lookup_ge_None_1 in Hi.
      apply (Hbelow j); [lia|]. rewrite key_lookup. by rewrite Ht.
Qed.

(** C30: The nearest-symbol search, on a sorted table: the result is the last symbol at
    or below the address; an address below every symbol is reported as an error,
    and one above every symbol (and equal to none) makes the lookup panic. *)
Theorem nearest_symbol_spec d addr :
  table_sorted d -> nearest_spec d addr (get_nearest_symbol_addr d addr).
Proof. apply nearest_symbol. Qed.

(** C31: The table that [merge] leaves is sorted, with the symbols of both operands, and
    the global names of the second operand take precedence. *)
Theorem merge_sorts d1 d2 :
  table_sorted (merge d1 d2) /\ sorted (merge d1 d2) ≡ₚ sorted d1 ++ sorted d2 /\
  forall k, get_global (merge d1 d2) k =
    match get_global d2 k with Some s => Some s | None => get_global d1 k end.
Proof.
  split_and!; [apply sort_sorted|apply sort_perm|].
  intros k. unfold get_global, merge. simpl. rewrite lookup_union.
  by destruct (globals d2 !! k), (globals d1 !! k).
Qed.

Definition demo_symbols : DebugSymbol :=
  merge debugsymbol_default (mkDebugSymbol ∅ [mkSymbol 32 "loop"; mkSymbol 8 "main"]).

Lemma nearest_symbol_spec_witness :
  nearest_spec demo_symbols 40 (Panic IndexOutOfBounds) /\
  nearest_spec demo_symbols 12 (Ok 0%nat).
Proof.
  assert (table_sorted demo_symbols) as Hs by apply sort_sorted.
  split; [apply (nearest_symbol_spec demo_symbols 40 Hs)|apply (nearest_symbol_spec demo_symbols 12 Hs)].
Defined.
