(* ===== verification/Display.v ===== *)
(** * What the program prints

    The [Display] implementations of the shared types and of the errors.  The
    decimal notation of a float is the Standard Library's shortest one that
    reads back; it is a field of the class [FloatFmt]. *)
From Stdlib Require Import Ascii SpecFloat.
From stdpp Require Import pretty.
From S2P Require Import Prelude Word Text Ty Register Instr Decode Common Memory Cpu DebugSymbol.

(** [{}] of an [f32], a bit pattern, and [{:.6}] of an [f64]. *)
Class FloatFmt := { fmt_f32 : Z -> string; fmt_f64_6 : spec_float -> string }.

Definition join (sep : string) (l : list string) : string := String.concat sep l.

Definition fmt_pc (p : Pc) : string := hex8 (pc_val p).
Definition fmt_addr (a : Addr) : string := hex8 (addr_val a).

(** [{addr:#010}]: decimal digits, padded with zeros. *)
Definition dec10 (n : Z) : string := pad_left "0" 10 (pretty n).

Section Display.
Context `{FloatFmt}.

(** [Display for TypedU32] *)
Definition fmt_typed (v : TypedU32) : string :=
  let as_addr := fmt_addr (mkAddr (value v)) in
  match ty v with
  | I32 => fmt_i32 (value v)
  | Usize => as_addr
  | I32OrUsize => fmt_i32 (value v) +:+ " (" +:+ as_addr +:+ " as addr)"
  | F32 => fmt_f32 (value v)
  | Unknown => fmt_i32 (value v) +:+ " (" +:+ as_addr +:+ " as addr) (" +:+ fmt_f32 (value v) +:+ " as f32)"
  end.

(** [Display for BreakPointExpr] and [BreakPointCond] *)
Definition fmt_bp_expr (e : BreakPointExpr) : outcome never string :=
  match e with
  | BpInt x => Ok (fmt_u32 x)
  | BpFloat x => Ok (fmt_f32 x)
  | BpReg r => fmt_reg r
  | BpFReg r => fmt_freg r
  | BpMem a => Ok ("M[" +:+ fmt_addr a +:+ "]")
  end.

Fixpoint fmt_bp_cond (c : BreakPointCond) : outcome never string :=
  match c with
  | CondOrdChain o =>
      head ← fmt_bp_expr (chain_head o);
      tail ← traverse (fun '(op, e) =>
               s ← fmt_bp_expr e; Ok (" " +:+ ord_op_str op (chain_kind o) +:+ " " +:+ s))
             (chain_tail o);
      Ok (head +:+ join EmptyString tail)
  | CondNotEq e1 e2 => s1 ← fmt_bp_expr e1; s2 ← fmt_bp_expr e2; Ok (s1 +:+ " != " +:+ s2)
  | CondNeg c => s ← fmt_bp_cond c; Ok ("!(" +:+ s +:+ ")")
  | CondConj cs => l ← traverse fmt_bp_cond cs; Ok (join " && " l)
  | CondDisj cs => l ← traverse fmt_bp_cond cs; Ok (join " || " l)
  end.
End Display.

(** [Display for BreakPoint] *)
Definition fmt_breakpoint (b : BreakPoint) : string := fmt_addr (bp_addr b).

(** [Display for ExecuteMode] *)
Definition fmt_mode (m : ExecuteMode) : string :=
  match m with
  | Run => "running simply"
  | SkipUntil pc => "running until " +:+ fmt_addr pc
  | RunSteps r => "step execution by " +:+ pretty (get_step r)
  end.

(** [Display for SpyWatchKind], [SpyKind] and [Spy] *)
Definition fmt_spy_watch (k : SpyWatchKind) : string :=
  if contains_read k then "read" +:+ (if contains_write k then "/write" else EmptyString)
  else if contains_write k then "write" else EmptyString.

Definition fmt_spy_kind (k : SpyKind) : outcome never string :=
  match k with
  | SpyMemory u => Ok ("M[" +:+ fmt_addr (mkAddr (spy_addr u)) +:+ "]")
  | SpyRegisterI r => fmt_reg r
  | SpyRegisterF r => fmt_freg r
  end.

Definition fmt_spy (s : Common.Spy) : outcome never string :=
  t ← fmt_spy_kind (spy_target s); Ok (fmt_spy_watch (spy_watch s) +:+ " of " +:+ t).

(** ** Errors *)

Definition fmt_memory_error (e : MemoryAccessError) : string :=
  match e with
  | OutOfBounds a => "address " +:+ pretty a +:+ " out of range for memory"
  | PcOutOfBounds a => "pc " +:+ pretty a +:+ " out of range for instr memory"
  | ViolateTransmutation expected attempt =>
      "attempted to transmute " +:+ fmt_ty expected +:+ " into " +:+ fmt_ty attempt
      +:+ ", which is not allowed in the semantics of OCaml"
  end.

Definition fmt_register_error (e : RegisterError) : string :=
  match e with
  | RegisterTooWide rs => "register should be 5-bit integer, found " +:+ pretty rs
  | FRegisterTooWide rs => "f register should be 5-bit integer, found " +:+ pretty rs
  end.

Definition fmt_decode_error (e : DecodeFail) : string :=
  match e with
  | DecodeInvalid bin => "invalid opcode found: `" +:+ hex8 bin +:+ "`"
  | DecodeRegister e => fmt_register_error e
  end.

Definition fmt_runtime_error (e : RuntimeError) : string :=
  match e with
  | MemoryError e => fmt_memory_error e
  | DecodeError e => fmt_decode_error e
  | IoError msg => msg
  end.

Definition fmt_symbol_error (e : SymbolError) : string :=
  match e with
  | NotProvided => "debug symbol not provided."
  | NoDebugInfo addr => "address " +:+ dec10 addr +:+ " do not have any debug information"
  | NotAvailable => "not available"
  end.
