(* ===== verification/Sim.v ===== *)
(** * The simulator ([core_sim/src/sim.rs] and the batch driver of [cli/src/main.rs])

    Repeated cycles under the execution modes, breakpoints, watchings and the
    sticky fatal error.  The cycle is that of the build's [Processor].  The loops
    that may not end take fuel and return [None] when it runs out. *)
From S2P Require Import Prelude Word Vec Ty Register Instr Decode Common RegFile Memory Io Cpu DebugSymbol.

(** ** Data *)

(** [SimStatBuilder], without the wall-clock times. *)
Record SimStatBuilder := mkSimStat {
  sb_instr_file_len : option Z;
  sb_elapsed_clocks : option Z;
  sb_cycle : option Z
}.

Record Simulator (I O : Type) := mkSim {
  cpu : Cpu I O;
  elapsed_clocks : Z;
  cycle : Z;
  debug_symbol : DebugSymbol;
  fatal_error : option RuntimeError;
  stat_builder : SimStatBuilder
}.
Arguments mkSim {I O}.
Arguments cpu {I O}.
Arguments elapsed_clocks {I O}.
Arguments cycle {I O}.
Arguments debug_symbol {I O}.
Arguments fatal_error {I O}.
Arguments stat_builder {I O}.

Record WatchingValues := mkValues {
  reg_map : gmap RegId TypedU32;
  freg_map : gmap FRegId Z;
  memory_map : gmap Addr TypedU32
}.

Inductive BreakReason :=
  | CannotRestart
  | Failed
  | Reached (a : Addr)
  | StepEnded
  | AtBreakPoint (a : Addr)
  | Spied (s : SpyResult).

(** [From<cpu::BreakReason>] *)
Definition reason_of_cpu (r : Cpu.BreakReason) : BreakReason :=
  match r with BreakSpy s => Spied s end.

Record OnBreak := mkOnBreak { ob_watchings : WatchingValues; ob_reason : BreakReason }.

Inductive SimFlow := SimBreak (b : OnBreak) | SimExit.

Inductive ExitCode := Success | Failure.

(** [ExitCode::is_success] *)
Definition is_success (c : ExitCode) : bool := match c with Success => true | Failure => false end.

(** [ControlFlow::exit_code] *)
Definition exit_code (f : SimFlow) : option ExitCode :=
  match f with
  | SimExit => Some Success
  | SimBreak b =>
      match ob_reason b with CannotRestart | Failed => Some Failure | _ => None end
  end.

Section Sim.
Context `{Profile} {RC : RegCount} {I O : Type} `{Input I} `{Output O} `{!Processor I O}.

Abbreviation SM := (ST (Simulator I O) never) (only parsing).

Definition set_cpu (c : Cpu I O) (s : Simulator I O) : Simulator I O :=
  mkSim c (elapsed_clocks s) (cycle s) (debug_symbol s) (fatal_error s) (stat_builder s).
Definition set_fatal (e : RuntimeError) (s : Simulator I O) : Simulator I O :=
  mkSim (cpu s) (elapsed_clocks s) (cycle s) (debug_symbol s) (Some e) (stat_builder s).

(** [Simulator::new] *)
Definition sim_new {E} (mem : list Z) (i : I) (o : O) : outcome E (Simulator I O) :=
  '(data_len, text_len) ← get_data_and_text_len mem;
  n ← add_u32 data_len text_len;
  c ← cpu_new mem i o;
  mret (mkSim c 0 0 debugsymbol_default None (mkSimStat (Some n) None None)).

Definition provide_dbg_symb (d : DebugSymbol) (s : Simulator I O) : Simulator I O :=
  if is_empty d then s
  else mkSim (cpu s) (elapsed_clocks s) (cycle s) (merge (debug_symbol s) d) (fatal_error s)
         (stat_builder s).

Definition into_output (s : Simulator I O) : O := output (cpu s).

(** [get_reg], [get_freg] and [get_mem] count the accesses; an error of the last
    is unwrapped by the caller. *)
Definition sim_get_reg (id : RegId) : SM TypedU32 :=
  v ← zoom (fun s => reg_file (cpu s)) (fun rf s => set_cpu (set_reg_file rf (cpu s)) s) (get id);
  mret (typed v (reg_ty id)).

Definition sim_get_freg (id : FRegId) : SM Z :=
  zoom (fun s => reg_file (cpu s)) (fun rf s => set_cpu (set_reg_file rf (cpu s)) s) (get_f id).

Definition unwrap_result {A} (m : M A) : SM A := fun s =>
  let '(o, c) := m (cpu s) in
  (match o with Ok a => Ok a | Err _ => Panic UnwrapFailed | Panic p => Panic p end, set_cpu c s).

Definition sim_get_mem_unwrap (a : Addr) : SM TypedU32 := unwrap_result (cpu_get_mem a).

(** ** Watchings *)

Fixpoint gather_regs (l : list RegId) (w : gmap RegId TypedU32) : SM (gmap RegId TypedU32) :=
  match l with
  | [] => mret w
  | r :: l => v ← sim_get_reg r; gather_regs l (<[r := v]> w)
  end.

Fixpoint gather_fregs (l : list FRegId) (w : gmap FRegId Z) : SM (gmap FRegId Z) :=
  match l with
  | [] => mret w
  | r :: l => v ← sim_get_freg r; gather_fregs l (<[r := v]> w)
  end.

Fixpoint gather_memory (l : list Addr) (w : gmap Addr TypedU32) : SM (gmap Addr TypedU32) :=
  match l with
  | [] => mret w
  | a :: l => v ← sim_get_mem_unwrap a; gather_memory l (<[a := v]> w)
  end.

(** [gather_watchings] *)
Definition gather_watchings (w : Watchings) : SM WatchingValues :=
  rs ← gather_regs (watch_reg w) ∅;
  fs ← gather_fregs (watch_freg w) ∅;
  ms ← gather_memory (watch_memory w) ∅;
  mret (mkValues rs fs ms).

(** [do_break] *)
Definition do_break (bp : BreakPoint) : bool := true.

(** [break_sim] *)
Definition break_sim (opt : SimulationOption) (reason : BreakReason) : SM SimFlow :=
  w ← gather_watchings (watchings opt);
  mret (SimBreak (mkOnBreak w reason)).

(** [exit_sim], without the timer. *)
Definition exit_sim (s : Simulator I O) : Simulator I O :=
  mkSim (cpu s) (elapsed_clocks s) (cycle s) (debug_symbol s) (fatal_error s)
    (mkSimStat (sb_instr_file_len (stat_builder s)) (Some (elapsed_clocks s)) (Some (cycle s))).

(** ** The [execute!] macro *)

(** The breakpoint at the current [pc], which the first cycle of a call ignores. *)
Definition breakpoint_hit (is_enter : bool) (opt : SimulationOption) (s : Simulator I O)
    : option BreakPoint :=
  if is_enter then None
  else
    bp ← breakpoints opt !! pc_into_addr (pc (cpu s));
    if do_break bp then Some bp else None.

(** The cycle itself: the [cycle_one_full] of the build, whose error is kept in the
    outcome. *)
Definition run_cycle (do_trace : bool) : SM (CycleResult proc_instr + RuntimeError) := fun s =>
  let '(o, c) := proc_cycle do_trace (cpu s) in
  (match o with Ok r => Ok (inl r) | Err e => Ok (inr e) | Panic p => Panic p end, set_cpu c s).

(** [None]: go on with the loop; [Some f]: return [f] from [single_cycle]. *)
Definition execute_macro (is_enter : bool) (opt : SimulationOption) : SM (option SimFlow) :=
  s ← gets (fun s => s);
  match breakpoint_hit is_enter opt s with
  | Some bp => f ← break_sim opt (AtBreakPoint (bp_addr bp)); mret (Some f)
  | None =>
      r ← run_cycle (do_trace opt);
      match (r : CycleResult proc_instr + RuntimeError) with
      | inr e =>
          _ ← (if is_fatal (level e) then modify (set_fatal e) else mret ());
          f ← break_sim opt Failed; mret (Some f)
      | inl r =>
          _ ← modify (fun s => mkSim (cpu s) (elapsed_clocks s + cr_cycles r) (cycle s + 1)
                                (debug_symbol s) (fatal_error s) (stat_builder s));
          match cr_flow r with
          | Continue => mret None
          | Break reason => f ← break_sim opt (reason_of_cpu reason); mret (Some f)
          | Exit => _ ← modify exit_sim; mret (Some SimExit)
          end
      end
  end.

(** ** The modes *)

Fixpoint run_loop (fuel : nat) (is_enter : bool) (opt : SimulationOption) : SM (option SimFlow) :=
  match fuel with
  | Datatypes.O => mret None
  | S fuel =>
      r ← execute_macro is_enter opt;
      match r with Some f => mret (Some f) | None => run_loop fuel false opt end
  end.

Fixpoint skip_loop (fuel : nat) (is_enter : bool) (target : Addr) (opt : SimulationOption)
    : SM (option SimFlow) :=
  match fuel with
  | Datatypes.O => mret None
  | S fuel =>
      s ← gets (fun s => s);
      if negb is_enter && bool_decide (target = pc_into_addr (pc (cpu s))) then
        f ← break_sim opt (Reached target); mret (Some f)
      else
        r ← execute_macro is_enter opt;
        match r with Some f => mret (Some f) | None => skip_loop fuel false target opt end
  end.

Fixpoint step_loop (n : nat) (is_enter : bool) (opt : SimulationOption) : SM SimFlow :=
  match n with
  | Datatypes.O => break_sim opt StepEnded
  | S n =>
      r ← execute_macro is_enter opt;
      match r with Some f => mret f | None => step_loop n false opt end
  end.

(** [Simulator::single_cycle] *)
Definition single_cycle (fuel : nat) (opt : SimulationOption) : SM (option SimFlow) :=
  s ← gets (fun s => s);
  match fatal_error s with
  | Some _ => f ← break_sim opt CannotRestart; mret (Some f)
  | None =>
      match mode opt with
      | SkipUntil pc => skip_loop fuel true pc opt
      | Run => run_loop fuel true opt
      | RunSteps r => f ← step_loop (Z.to_nat (get_step r)) true opt; mret (Some f)
      end
  end.

(** ** The batch driver: [execute] of main.rs without the interactive mode *)

(** The result of the batch loop: success, or the error that is reported. *)
Fixpoint execute_batch (fuel : nat) : SM (option (() + RuntimeError)) :=
  match fuel with
  | Datatypes.O => mret None
  | S fuel =>
      r ← single_cycle fuel default_option;
      match r with
      | None => mret None
      | Some f =>
          match exit_code f with
          | None => execute_batch fuel
          | Some c =>
              if is_success c then mret (Some (inl ()))
              else
                s ← gets (fun s => s);
                e ← lift (unwrap (fatal_error s));
                mret (Some (inr e))
          end
      end
  end.
End Sim.
