(* ===== verification/SimProps.v ===== *)
(** * What the simulator loop guarantees

    Bookkeeping of the modes (cycle counts, breakpoints, targets, the sticky
    error), and the correctness of the batch driver against runs of the
    specification, for every processor that implements one ([ProcessorOk]). *)
From S2P Require Import Prelude Word Vec Ty Register Instr Decode Encode Common RegFile Cache BranchPredictor Memory Io Cpu Isa IsaProps CpuInv CpuProps CpuTheorems DebugSymbol Sim.

Section SimProps.
Context `{Profile} {RC : RegCount} {I O : Type} `{!Input I} `{!Output O} `{!Processor I O}.
Implicit Types s : Simulator I O.
Abbreviation SM := (ST (Simulator I O) never) (only parsing).

(** ** What reading values for the user leaves alone *)

(** The parts of the machine that its runs use besides the architectural state. *)
Definition machinery (c : Cpu I O) :=
  let rf := reg_file c in
  (vlen (rf_inner rf), vlen (rf_inner_f rf),
   (vlen (st_write (stat_i rf)), vlen (st_read (stat_i rf))),
   (vlen (st_write (stat_f rf)), vlen (st_read (stat_f rf))),
   (vlen (mem_inner (memory c)), vlen (mem_ty (memory c))),
   (cache c, branch_predictor c, pipeline_state c, i_stat c)).

(** The program that is debugged: its machine, its progress, its error, and the
    symbols. *)
Definition program (s : Simulator I O) :=
  (abs (cpu s), machinery (cpu s), (cycle s, elapsed_clocks s, fatal_error s, debug_symbol s)).

Lemma program_ok `{!InputOk I} (s s' : Simulator I O) : program s' = program s -> cpu_ok (cpu s) -> cpu_ok (cpu s').
Proof.
  unfold program, abs, machinery. intros [=] [[] [] ? ? ? ? ? ? ? ?].
  split; [split|split|..]; unfold regfilestat_ok in *; try congruence; intros i;
    by match goal with Hw : forall i, ?P _ |- _ => specialize (Hw i); congruence end.
Qed.

Lemma keeps_reg id : keeps program (sim_get_reg id).
Proof.
  unfold sim_get_reg. repeat keeps_step. intros s. unfold zoom, get. st_run.
  unfold encounter_read, vget, vset. st_run. repeat (case_match; simplify_eq/=; try done).
Qed.

Lemma keeps_freg id : keeps program (sim_get_freg id).
Proof.
  intros s. unfold sim_get_freg, zoom, get_f. st_run.
  unfold encounter_read, vget, vset. st_run. repeat (case_match; simplify_eq/=; try done).
Qed.

(** Reading a cell counts the access, and keeps the memory. *)
Lemma mem_get_keeps size region a :
  keeps (fun x : Memory * option SpyResult => (mem_inner x.1, mem_ty x.1, instr_start x.1, instr_end x.1))
    (mem_get size region a).
Proof.
  assert (keeps (fun x : Memory * option SpyResult =>
    (mem_inner x.1, mem_ty x.1, instr_start x.1, instr_end x.1)) (unify_unwrap a)) as Hunify.
  { intros [m sp]. unfold unify_unwrap, unify. st_run. destruct (vget (mem_ty m) a) as [t|e|p]; [|done..].
    by destruct t. }
  unfold mem_get, bounds_check, on_read, raw_word.
  repeat first [exact Hunify | keeps_step | case_match | done].
Qed.

Lemma keeps_get_mem a : keeps (fun c : Cpu I O => (abs c, machinery c)) (cpu_get_mem a).
Proof.
  intros c. unfold cpu_get_mem. st_run. unfold run_mem.
  pose proof (mem_get_keeps RAM_BYTE_SIZE (region c) (addr_val a) (memory c, None)) as Hm.
  destruct (mem_get _ _ _ _) as [o [m sp]]. simpl in Hm. injection Hm as H1' H2' H3' H4'.
  unfold abs, machinery. destruct o; simpl; congruence.
Qed.

(** Reading the watched values, and stopping, do the same. *)
Lemma keeps_watched_values w : keeps program (gather_watchings w).
Proof.
  unfold gather_watchings. apply keeps_bind; [|intros rs; apply keeps_bind;
    [|intros fs; apply keeps_bind; [|intros; apply keeps_ret]]].
  - generalize (∅ : gmap RegId TypedU32). induction (watch_reg w) as [|r l IH]; intros m;
      [apply keeps_ret|]. apply keeps_bind; [apply keeps_reg|]. intros. apply IH.
  - generalize (∅ : gmap FRegId Z). induction (watch_freg w) as [|r l IH]; intros m;
      [apply keeps_ret|]. apply keeps_bind; [apply keeps_freg|]. intros. apply IH.
  - generalize (∅ : gmap Addr TypedU32). induction (watch_memory w) as [|a l IH]; intros m;
      [apply keeps_ret|]. apply keeps_bind; [|intros; apply IH].
    intros s. unfold sim_get_mem_unwrap, unwrap_result. pose proof (keeps_get_mem a (cpu s)) as Hm.
    destruct (cpu_get_mem a (cpu s)) as [o c]. unfold program. simpl in *. congruence.
Qed.

Lemma keeps_break opt reason : keeps program (break_sim opt reason).
Proof. apply keeps_bind; [apply keeps_watched_values|intros; apply keeps_ret]. Qed.

Record frame s s' : Prop := {
  fr_clocks : elapsed_clocks s' = elapsed_clocks s;
  fr_cycle : cycle s' = cycle s;
  fr_fatal : fatal_error s' = fatal_error s;
  fr_pc : pc (cpu s') = pc (cpu s)
}.

Lemma program_frame s s' : program s' = program s -> frame s s'.
Proof.
  unfold program, abs. intros [=]. split; try done.
  by destruct (pc (cpu s)), (pc (cpu s')); simpl in *; subst.
Qed.

(** [break_sim] reports its reason, from an unchanged frame. *)
Lemma break_sim_reason opt reason s f s' :
  break_sim opt reason s = (Ok f, s') ->
  frame s s' /\ exists w, f = SimBreak (mkOnBreak w reason).
Proof.
  unfold break_sim. pose proof (keeps_watched_values (watchings opt) s) as Hw%program_frame.
  unfold mbind, ST_bind. revert Hw.
  destruct (gather_watchings _ s) as [[w|e|p] s1]; simpl; intros Hw Hb; [|done..].
  unfold mret, ST_ret in Hb. simplify_eq/=. split; [done|by eexists].
Qed.

(** ** A call of [single_cycle], written out *)

(** The end of a call by a break: the watched values are read and reported with the
    reason. *)
Definition broken (opt : SimulationOption) (reason : BreakReason) s : outcome never (option SimFlow) * Simulator I O :=
  match gather_watchings (watchings opt) s with
  | (Ok w, s') => (Ok (Some (SimBreak (mkOnBreak w reason))), s')
  | (Err e, s') => (Err e, s')
  | (Panic p, s') => (Panic p, s')
  end.

(** Why a call stops after [k] instructions, before the next one: the mode comes
    first, then the breakpoints; neither target nor breakpoint counts at the start. *)
Definition halts (opt : SimulationOption) (k : nat) s : option BreakReason :=
  let here := pc_into_addr (pc (cpu s)) in
  let breakpoint :=
    match k with
    | Datatypes.O => None
    | S _ => (fun bp => AtBreakPoint (bp_addr bp)) <$> breakpoints opt !! here
    end in
  match mode opt with
  | Run => breakpoint
  | SkipUntil target => if (0 <? k)%nat && bool_decide (target = here) then Some (Reached target) else breakpoint
  | RunSteps r => if decide (k = Z.to_nat (default 1 (step r))) then Some StepEnded else breakpoint
  end.

(** An instruction that has been counted. *)
Definition counted {D} (r : CycleResult D) (c : Cpu I O) s : Simulator I O :=
  mkSim c (elapsed_clocks s + cr_cycles r) (cycle s + 1) (debug_symbol s) (fatal_error s) (stat_builder s).

(** One instruction: the call goes on from a state, or returns. *)
Definition instruction (opt : SimulationOption) s : Simulator I O + (outcome never (option SimFlow) * Simulator I O) :=
  match proc_cycle (do_trace opt) (cpu s) with
  | (Panic p, c) => inr (Panic p, set_cpu c s)
  | (Err e, c) => inr (broken opt Failed (set_fatal e (set_cpu c s)))
  | (Ok r, c) =>
      match cr_flow r with
      | Continue => inl (counted r c s)
      | Break (BreakSpy sp) => inr (broken opt (Spied sp) (counted r c s))
      | Exit => inr (Ok (Some SimExit), exit_sim (counted r c s))
      end
  end.

(** A call from [s] that has run [k] instructions without a reason to stop is in [x]. *)
Inductive runs_to (opt : SimulationOption) s : nat -> Simulator I O -> Prop :=
  | runs_to_start : runs_to opt s 0 s
  | runs_to_next k x y :
      runs_to opt s k x -> halts opt k x = None -> instruction opt x = inl y -> runs_to opt s (S k) y.

(** The call returns [r] there: it has a reason to stop, or the next instruction ends it. *)
Definition returns opt k x (r : outcome never (option SimFlow) * Simulator I O) : Prop :=
  match halts opt k x with
  | Some reason => r = broken opt reason x
  | None => instruction opt x = inr r
  end.

Lemma broken_program opt reason s : program (broken opt reason s).2 = program s.
Proof.
  unfold broken. pose proof (keeps_watched_values (watchings opt) s) as Hp.
  by destruct (gather_watchings _ s) as [[w|e|p] s'].
Qed.

Lemma break_sim_broken opt reason s :
  (f ← break_sim opt reason; mret (Some f)) s = broken opt reason s.
Proof.
  unfold break_sim, broken, mbind, ST_bind. by destruct (gather_watchings _ s) as [[w|e|p] s'].
Qed.

Lemma execute_macro_eq is_enter opt s :
  execute_macro is_enter opt s =
  match breakpoint_hit is_enter opt s with
  | Some bp => broken opt (AtBreakPoint (bp_addr bp)) s
  | None => match instruction opt s with inl y => (Ok None, y) | inr r => r end
  end.
Proof.
  unfold execute_macro, instruction. erewrite run_ok by done.
  destruct (breakpoint_hit is_enter opt s) as [bp|]; [apply break_sim_broken|].
  unfold run_cycle at 1, mbind at 1, ST_bind at 1.
  destruct (proc_cycle (do_trace opt) (cpu s)) as [[r|e|p] c]; [| |done].
  - erewrite run_ok by done. destruct (cr_flow r) as [|[sp]|]; [done|apply break_sim_broken|done].
  - cbn [level is_fatal]. erewrite run_ok by done. apply break_sim_broken.
Qed.

Lemma breakpoint_hit_after k opt s :
  breakpoint_hit (k =? 0)%nat opt s =
  match k with Datatypes.O => None | S _ => breakpoints opt !! pc_into_addr (pc (cpu s)) end.
Proof. destruct k; [done|]. unfold breakpoint_hit. simpl. by destruct (breakpoints opt !! _). Qed.

(** One turn of a loop that is not stopped by its mode. *)
Lemma turn_returns {A} opt s k x (f : option SimFlow -> SM A) :
  halts opt k x = (match k with
    | Datatypes.O => None
    | S _ => (fun bp => AtBreakPoint (bp_addr bp)) <$> breakpoints opt !! pc_into_addr (pc (cpu x))
    end) ->
  runs_to opt s k x ->
  (exists r, returns opt k x r /\ (execute_macro (k =? 0)%nat opt ≫= f) x =
     match r with (Ok b, y) => f b y | (Err e, y) => (Err e, y) | (Panic p, y) => (Panic p, y) end /\
     match r.1 with Ok None => False | _ => True end) \/
  (exists y, runs_to opt s (S k) y /\ (execute_macro (k =? 0)%nat opt ≫= f) x = f None y).
Proof.
  intros Hh Hr. unfold mbind, ST_bind. rewrite execute_macro_eq, breakpoint_hit_after.
  assert (forall reason z, match (broken opt reason z).1 with Ok None => False | _ => True end) as Hb.
  { intros reason z. unfold broken. by destruct (gather_watchings _ z) as [[]?]. }
  destruct (match k with Datatypes.O => None | S _ => breakpoints opt !! _ end) as [bp|] eqn:Hbp.
  - left. exists (broken opt (AtBreakPoint (bp_addr bp)) x). split; [|split; [|apply Hb]].
    + unfold returns. rewrite Hh. destruct k; [done|]. by rewrite Hbp.
    + by destruct (broken opt _ x) as [[] ?].
  - assert (halts opt k x = None) as Hn by (rewrite Hh; destruct k; [done|]; by rewrite Hbp).
    destruct (instruction opt x) as [y|r] eqn:Hi.
    + right. exists y. split; [by eapply runs_to_next|done].
    + left. exists r. split; [by unfold returns; rewrite Hn|]. split; [by destruct r as [[] ?]|].
      unfold instruction in Hi. destruct (proc_cycle _ _) as [[res|e|p] c].
      * destruct (cr_flow res) as [|[sp]|]; [done|injection Hi as <-; apply Hb|by injection Hi as <-].
      * injection Hi as <-. apply Hb.
      * by injection Hi as <-.
Qed.

(** The result of a loop, from a state that its call has run to. *)
Definition loop_returns opt s (limit : nat) (r : outcome never (option SimFlow) * Simulator I O) : Prop :=
  (exists k x, runs_to opt s k x /\ returns opt k x r) \/
  (exists x, runs_to opt s limit x /\ r = (Ok None, x)).

Lemma run_loop_returns opt s fuel k x :
  mode opt = Run -> runs_to opt s k x -> loop_returns opt s (k + fuel) (run_loop fuel (k =? 0)%nat opt x).
Proof.
  intros Hm. revert k x. induction fuel as [|fuel IH]; intros k x Hr.
  - right. exists x. by rewrite Nat.add_0_r.
  - cbn [run_loop]. destruct (turn_returns opt s k x (fun r => match r with Some f => mret (Some f) | None => run_loop fuel false opt end))
      as [(r & Hret & -> & Hn)|(y & Hy & ->)]; [unfold halts; by rewrite Hm|done| |].
    + left. exists k, x. split; [done|]. by destruct r as [[[]|[]|] ?].
    + replace (k + S fuel)%nat with (S k + fuel)%nat by lia. by apply (IH (S k)).
Qed.

Lemma skip_loop_returns opt s target fuel k x :
  mode opt = SkipUntil target -> runs_to opt s k x ->
  loop_returns opt s (k + fuel) (skip_loop fuel (k =? 0)%nat target opt x).
Proof.
  intros Hm. revert k x. induction fuel as [|fuel IH]; intros k x Hr.
  - right. exists x. by rewrite Nat.add_0_r.
  - cbn [skip_loop]. erewrite run_ok by done.
    assert (negb (k =? 0)%nat = (0 <? k)%nat) as -> by by destruct k.
    destruct ((0 <? k)%nat && bool_decide _) eqn:Ht.
    { left. exists k, x. split; [done|]. unfold returns, halts. rewrite Hm, Ht. apply break_sim_broken. }
    destruct (turn_returns opt s k x (fun r => match r with Some f => mret (Some f) | None => skip_loop fuel false target opt end))
      as [(r & Hret & -> & Hn)|(y & Hy & ->)]; [unfold halts; by rewrite Hm, Ht|done| |].
    + left. exists k, x. split; [done|]. by destruct r as [[[]|[]|] ?].
    + replace (k + S fuel)%nat with (S k + fuel)%nat by lia. by apply (IH (S k)).
Qed.

Lemma step_loop_returns opt s r n k x :
  mode opt = RunSteps r -> runs_to opt s k x -> (k + n)%nat = Z.to_nat (default 1 (step r)) ->
  exists k' x', runs_to opt s k' x' /\
    returns opt k' x' ((f ← step_loop n (k =? 0)%nat opt; mret (Some f)) x).
Proof.
  intros Hm. revert k x. induction n as [|n IH]; intros k x Hr Hn; cbn [step_loop].
  - exists k, x. split; [done|]. unfold returns, halts. rewrite Hm, decide_True by lia. apply break_sim_broken.
  - assert (halts opt k x = match k with
      | Datatypes.O => None
      | S _ => (fun bp => AtBreakPoint (bp_addr bp)) <$> breakpoints opt !! pc_into_addr (pc (cpu x)) end) as Hh.
    { unfold halts. rewrite Hm. by rewrite decide_False by lia. }
    unfold mbind at 1, ST_bind at 1.
    destruct (turn_returns opt s k x (fun r => match r with Some f => mret f | None => step_loop n false opt end) Hh Hr)
      as [(r' & Hret & -> & Hno)|(y & Hy & ->)].
    + exists k, x. split; [done|]. by destruct r' as [[[]|[]|] ?].
    + apply (IH (S k) y Hy). lia.
Qed.

(** A call that returns with the exit code of a failure has recorded the error. *)
Lemma broken_failure opt reason x f s' :
  broken opt reason x = (Ok (Some f), s') -> exit_code f = Some Failure ->
  (reason = Failed \/ reason = CannotRestart) /\ fatal_error s' = fatal_error x.
Proof.
  pose proof (broken_program opt reason x) as Hp. unfold broken in *.
  destruct (gather_watchings _ x) as [[w|e|p] y]; [|done..]. intros [= <- <-] Hf. simpl in *.
  split; [destruct reason; try done; by auto|]. unfold program in Hp. congruence.
Qed.

Lemma returns_failure opt k x f s' :
  returns opt k x (Ok (Some f), s') -> exit_code f = Some Failure -> fatal_error s' <> None.
Proof.
  unfold returns. destruct (halts opt k x) as [reason|] eqn:Hh; intros Hr Hf.
  - symmetry in Hr. apply broken_failure in Hr as [[-> | ->] _]; [| |done]; exfalso; revert Hh; unfold halts;
      repeat case_match; try done; destruct (breakpoints opt !! _); done.
  - unfold instruction in Hr. destruct (proc_cycle _ _) as [[res|e|p] c]; [| |done].
    + destruct (cr_flow res) as [|[sp]|]; [done| |by simplify_eq].
      injection Hr as Hr. by apply broken_failure in Hr as [[?|?] _].
    + injection Hr as Hr. apply broken_failure in Hr as [_ ->]; done.
Qed.

(** C18: Why the simulator stops, exactly.  After a fatal error a call runs nothing: it
    reads the watched values and breaks with [CannotRestart] (or panics, if one of
    them cannot be read).  Otherwise it runs instructions up to the first reason to
    stop: the target of the mode or the number of steps asked for, or else a
    breakpoint, where target and breakpoints do not count before the first
    instruction; or up to the first instruction that ends it, by a spy, by the end
    of the program, by an error, which is recorded, or by a panic.  It then returns
    exactly that, in the state reached; only when it has run as many instructions as
    its fuel allows, and is not counting steps, does it return nothing.  The
    reading of the watched values leaves the program alone, and a call that returns
    the exit code of a failure leaves an error recorded, so that a driver can unwrap
    the message it reports. *)
Theorem single_cycle_stops fuel opt s :
  match fatal_error s with
  | Some _ => single_cycle fuel opt s = broken opt CannotRestart s
  | None =>
      (exists k x, runs_to opt s k x /\ returns opt k x (single_cycle fuel opt s)) \/
      (exists x, runs_to opt s fuel x /\ single_cycle fuel opt s = (Ok None, x) /\
         forall r, mode opt <> RunSteps r)
  end /\
  (forall reason x, program (broken opt reason x).2 = program x) /\
  (forall f s', single_cycle fuel opt s = (Ok (Some f), s') -> exit_code f = Some Failure -> fatal_error s' <> None).
Proof.
  assert (match fatal_error s with
    | Some _ => single_cycle fuel opt s = broken opt CannotRestart s
    | None =>
        (exists k x, runs_to opt s k x /\ returns opt k x (single_cycle fuel opt s)) \/
        (exists x, runs_to opt s fuel x /\ single_cycle fuel opt s = (Ok None, x) /\
           forall r, mode opt <> RunSteps r)
    end) as Hs.
  { unfold single_cycle. erewrite run_ok by done. destruct (fatal_error s); [apply break_sim_broken|].
    pose proof (runs_to_start opt s) as H0. destruct (mode opt) as [|target|r] eqn:Hm.
    - destruct (run_loop_returns opt s fuel 0 s Hm H0) as [?|(x & Hx & Hr)]; [by left|right; by exists x].
    - destruct (skip_loop_returns opt s target fuel 0 s Hm H0) as [?|(x & Hx & Hr)]; [by left|right; by exists x].
    - left. by apply (step_loop_returns opt s r _ 0 s Hm H0). }
  split; [exact Hs|]. split; [intros; apply broken_program|]. intros f s' Hr Hf. rewrite Hr in Hs.
  destruct (fatal_error s) as [e|] eqn:He.
  - symmetry in Hs. apply broken_failure in Hs as [_ ->]; [by rewrite He|done].
  - destruct Hs as [(k & x & _ & Hret)|(x & _ & Hn & _)]; [by eapply returns_failure|done].
Qed.
End SimProps.

(** ** The batch driver runs the program *)

(** A run of a specification: [n] instructions, then one that ends with [r]. *)
Inductive runs {I O : Type} (step : Arch I O -> isa_result I O) : nat -> Arch I O -> isa_result I O -> Prop :=
  | runs_exit a b : step a ≡ IsaExit b -> runs step 0 a (IsaExit b)
  | runs_fault a e b : step a ≡ IsaFault e b -> runs step 0 a (IsaFault e b)
  | runs_next n a b r : step a ≡ IsaNext b -> runs step n b r -> runs step (S n) a r.

Abbreviation isa_runs := (runs isa_step).

Lemma runs_equiv {I O : Type} `{Input I} `{Output O} (step : Arch I O -> isa_result I O)
    `{!Proper ((≡) ==> (≡)) step} n (a b : Arch I O) r :
  a ≡ b -> runs step n a r -> runs step n b r.
Proof.
  intros Hab Hr. destruct Hr as [a c Hs|a e c Hs|n a c r Hs Hr]; econstructor; try done;
    by rewrite <- Hab.
Qed.

(** Whether a run ends with an exit, by running it. *)
Section Running.
Context {I O : Type} `{Input I} `{Output O} (step : Arch I O -> isa_result I O).

Fixpoint exit_state (n : nat) (a : Arch I O) : option (Arch I O) :=
  match n, step a with
  | Datatypes.O, IsaExit b => Some b
  | S n, IsaNext b => exit_state n b
  | _, _ => None
  end.

Lemma exit_state_runs n a b : exit_state n a = Some b -> runs step n a (IsaExit b).
Proof.
  revert a. induction n as [|n IH]; intros a; simpl; destruct (step a) eqn:He; try done.
  - intros [= <-]. apply runs_exit. by rewrite He.
  - intros Hb%IH. eapply runs_next; [by rewrite He|done].
Qed.

Definition exits_in (n : nat) (a : Arch I O) : bool :=
  match exit_state n a with Some _ => true | None => false end.

Lemma exits_in_runs n a : exits_in n a = true -> exists b, runs step n a (IsaExit b).
Proof.
  unfold exits_in. destruct (exit_state n a) as [b|] eqn:Hb; [|done].
  exists b. by apply exit_state_runs.
Qed.
End Running.

Section Batch.
Context `{Profile} {RC : RegCount} {I O : Type} `{!Input I} `{!Output O} `{!InputOk I}.
Context `{!Processor I O} {PO : ProcessorOk}.
Implicit Types s : Simulator I O.

(** One turn of the default mode. *)
Definition default_turn s : outcome never (option SimFlow) * Simulator I O :=
  let '(o, c) := proc_cycle false (cpu s) in
  let s1 := set_cpu c s in
  let b reason := SimBreak (mkOnBreak (mkValues ∅ ∅ ∅) reason) in
  match o with
  | Panic p => (Panic p, s1)
  | Err e => (Ok (Some (b Failed)), set_fatal e s1)
  | Ok r =>
      let s2 := mkSim c (elapsed_clocks s + cr_cycles r) (cycle s + 1) (debug_symbol s)
        (fatal_error s) (stat_builder s) in
      match cr_flow r with
      | Continue => (Ok None, s2)
      | Break reason => (Ok (Some (b (reason_of_cpu reason))), s2)
      | Exit => (Ok (Some SimExit), exit_sim s2)
      end
  end.

Lemma execute_default is_enter s : execute_macro is_enter default_option s = default_turn s.
Proof.
  unfold execute_macro, default_turn. erewrite run_ok by done.
  assert (breakpoint_hit is_enter default_option s = None) as -> by by destruct is_enter.
  unfold run_cycle, mbind at 1, ST_bind at 1. cbn [do_trace default_option].
  destruct (proc_cycle false (cpu s)) as [[r|e|p] c]; [|done|done].
  erewrite run_ok by done. by destruct (cr_flow r).
Qed.

(** The program has ended: the machine is well-formed, and the statistics are
    complete. *)
Definition ended s s' : Prop :=
  cpu_ok (cpu s') /\
  exists k n, stat_builder s' = mkSimStat (sb_instr_file_len (stat_builder s)) (Some k) (Some n).

(** A turn of the default mode is a step of the specification. *)
Lemma default_turn_step s r :
  cpu_ok (cpu s) -> proc_step (abs (cpu s)) ≡ r ->
  match r with
  | IsaNext b =>
      cpu_ok (cpu (default_turn s).2) /\ abs (cpu (default_turn s).2) ≡ b /\
      cycle (default_turn s).2 = cycle s + 1 /\ fatal_error (default_turn s).2 = fatal_error s /\
      stat_builder (default_turn s).2 = stat_builder s /\
      ((default_turn s).1 = Ok None \/
       exists v sp, (default_turn s).1 = Ok (Some (SimBreak (mkOnBreak v (Spied sp)))))
  | IsaExit b =>
      (default_turn s).1 = Ok (Some SimExit) /\ abs (cpu (default_turn s).2) ≡ b /\
      cycle (default_turn s).2 = cycle s + 1 /\ ended s (default_turn s).2
  | IsaFault e b =>
      (exists v, (default_turn s).1 = Ok (Some (SimBreak (mkOnBreak v Failed)))) /\
      abs (cpu (default_turn s).2) ≡ b /\ cycle (default_turn s).2 = cycle s /\
      fatal_error (default_turn s).2 = Some e
  | IsaPanic p => True
  end.
Proof.
  intros Hc Hr. unfold default_turn.
  pose proof (proc_ok false (cpu s) Hc) as [Hc1 _].
  pose proof (proc_result false (cpu s) Hc) as Hs.
  rewrite Hr in Hs. clear Hr. unfold result_of in Hs.
  destruct (proc_cycle false (cpu s)) as [[res|e|p] c]; simpl in Hs, Hc1.
  - destruct (cr_flow res) as [|[sp]|] eqn:Hf; simpl in Hs; rewrite ?Hf; destruct r; try done; simpl;
      split_and!; try done; try by symmetry.
    + by left.
    + right. by do 2 eexists.
    + split; [done|by do 2 eexists].
  - destruct r; try done. destruct Hs as [-> Hs]. simpl. split_and!; try done; try (by symmetry); by eexists.
  - by destruct r.
Qed.

(** Where a call in the default mode stops, on a run of [n] instructions. *)
Definition loop_post (n : nat) (r : isa_result I O) s (o : outcome never (option SimFlow)) s' : Prop :=
  match r with
  | IsaExit b =>
      o = Ok (Some SimExit) /\ abs (cpu s') ≡ b /\ cycle s' = cycle s + Z.of_nat n + 1 /\ ended s s'
  | IsaFault e b =>
      (exists v, o = Ok (Some (SimBreak (mkOnBreak v Failed)))) /\ abs (cpu s') ≡ b /\
      fatal_error s' = Some e /\ cycle s' = cycle s + Z.of_nat n
  | _ => False
  end \/
  (exists v sp k, o = Ok (Some (SimBreak (mkOnBreak v (Spied sp)))) /\ (k < n)%nat /\
     runs proc_step k (abs (cpu s')) r /\ cpu_ok (cpu s') /\ fatal_error s' = None /\
     stat_builder s' = stat_builder s /\ cycle s' + Z.of_nat k = cycle s + Z.of_nat n).

Lemma loop_post_step n r s s1 o s' :
  cycle s1 = cycle s + 1 -> stat_builder s1 = stat_builder s ->
  loop_post n r s1 o s' -> loop_post (S n) r s o s'.
Proof.
  intros Hc Hst [Hp|(v & sp & k & Ho & Hk & Hr & Hok & Hfe & Hsb & Hcy)].
  - left. unfold ended in Hp. rewrite ?Hst in Hp. destruct r; try done; destruct_and?; split_and!; try done; lia.
  - right. exists v, sp, k. split_and!; try done; try congruence; try lia.
Qed.

Lemma run_loop_turn fuel is_enter s :
  run_loop (S fuel) is_enter default_option s =
  match default_turn s with
  | (Ok None, s') => run_loop fuel false default_option s'
  | r => r
  end.
Proof.
  cbn [run_loop]. unfold mbind, ST_bind. rewrite execute_default.
  by destruct (default_turn s) as [[[f|]|e|p] s'].
Qed.

Lemma run_loop_runs n r fuel is_enter s :
  cpu_ok (cpu s) -> fatal_error s = None -> (n < fuel)%nat -> runs proc_step n (abs (cpu s)) r ->
  loop_post n r s (run_loop fuel is_enter default_option s).1
    (run_loop fuel is_enter default_option s).2.
Proof.
  revert fuel is_enter s. induction n as [|n IH]; intros [|fuel] is_enter s Hc Hfe Hf Hruns; try lia;
    rewrite run_loop_turn; inversion Hruns as [a b Hs|a e b Hs|n' a b r' Hs Hr]; subst;
    pose proof (default_turn_step s _ Hc Hs) as Ht; simpl in Ht;
    destruct (default_turn s) as [o s1]; simpl in Ht.
  - destruct Ht as (-> & Ha & Hcy & Hend). left. split_and!; [done|done|simpl; lia|done].
  - destruct Ht as ([v ->] & Ha & Hcy & He). left. split_and!; [by eexists|done|done|simpl; lia].
  - destruct Ht as (Hc1 & Ha & Hcy & He & Hst & Ho). symmetry in Ha.
    apply (runs_equiv _ _ _ _ _ Ha) in Hr. destruct Ho as [->|(v & sp & ->)].
    + apply (loop_post_step _ _ _ s1); [done..|]. apply IH; [done|congruence|lia|done].
    + right. exists v, sp, n. split_and!; [done|lia|done|done|simpl; congruence|done|simpl; lia].
Qed.

Lemma single_cycle_default fuel s :
  fatal_error s = None -> single_cycle fuel default_option s = run_loop fuel true default_option s.
Proof. intros Hfe. unfold single_cycle. erewrite run_ok by done. by rewrite Hfe. Qed.

(** What the driver reports for the end of a run. *)
Definition report (r : isa_result I O) : option (() + RuntimeError) :=
  match r with IsaExit _ => Some (inl ()) | IsaFault e _ => Some (inr e) | _ => None end.

Definition final_state (r : isa_result I O) (a : Arch I O) : Prop :=
  match r with IsaExit b => a ≡ b | IsaFault _ b => a ≡ b | _ => False end.

Lemma execute_batch_runs n r fuel s :
  cpu_ok (cpu s) -> fatal_error s = None -> (S n < fuel)%nat -> runs proc_step n (abs (cpu s)) r ->
  (execute_batch fuel s).1 = Ok (report r) /\ final_state r (abs (cpu (execute_batch fuel s).2)) /\
  cycle (execute_batch fuel s).2 =
    cycle s + Z.of_nat n + match r with IsaExit _ => 1 | _ => 0 end /\
  match r with IsaExit _ => ended s (execute_batch fuel s).2 | _ => True end.
Proof.
  revert n s. induction fuel as [|fuel IH]; intros n s Hc Hfe Hf Hruns; [lia|].
  cbn [execute_batch]. unfold mbind at 1 4 7 10, ST_bind at 1 4 7 10.
  rewrite single_cycle_default by done.
  destruct fuel as [|fuel0]; [lia|]. set (fuel := S fuel0) in *.
  pose proof (run_loop_runs n r fuel true s Hc Hfe ltac:(lia) Hruns) as Hl.
  destruct (run_loop fuel true default_option s) as [o s1].
  simpl in Hl. destruct Hl as [Hl|(v & sp & k & -> & Hk & Hr & Hc1 & Hfe1 & Hst & Hcy)].
  - destruct r; try done.
    + destruct Hl as (-> & Ha & Hcy & Hend). cbn. by split_and!.
    + destruct Hl as ([v ->] & Ha & He & Hcy). cbn. unfold mbind, ST_bind, gets, lift. cbn.
      rewrite He. cbn. split_and!; [done|done|lia|done].
  - cbn [exit_code ob_reason].
    destruct (IH k s1 Hc1 Hfe1 ltac:(lia) Hr) as (H1 & H2 & H3 & H4). unfold ended in *. rewrite Hst in H4.
    split_and!; [done|done|rewrite H3; lia|done].
Qed.

End Batch.

Section Default.
Context `{Profile} {I O : Type} `{!Input I} `{!Output O} `{!InputOk I}.
Implicit Types s : Simulator I O.

Lemma default_batch_runs n r fuel s :
  cpu_ok (cpu s) -> fatal_error s = None -> (S n < fuel)%nat -> isa_runs n (abs (cpu s)) r ->
  (execute_batch fuel s).1 = Ok (report r) /\ final_state r (abs (cpu (execute_batch fuel s).2)) /\
  cycle (execute_batch fuel s).2 =
    cycle s + Z.of_nat n + match r with IsaExit _ => 1 | _ => 0 end /\
  match r with IsaExit _ => ended s (execute_batch fuel s).2 | _ => True end.
Proof. exact (execute_batch_runs n r fuel s). Qed.

(** C5: The batch simulation is correct and terminates, in every build, with overflow
    checks or without: if the specification runs the program for [n] instructions and then ends it, the driver, with any fuel
    above [n + 1], reports success for the end instruction or the specified
    fault, in the specified final state, and has counted every instruction. *)
Theorem batch_runs_program n r fuel s :
  cpu_ok (cpu s) -> fatal_error s = None -> (S n < fuel)%nat -> isa_runs n (abs (cpu s)) r ->
  (execute_batch fuel s).1 = Ok (report r) /\ final_state r (abs (cpu (execute_batch fuel s).2)) /\
  cycle (execute_batch fuel s).2 =
    cycle s + Z.of_nat n + match r with IsaExit _ => 1 | _ => 0 end.
Proof. intros. edestruct default_batch_runs as (? & ? & ? & _); [done..|]. by split_and!. Qed.
End Default.

(** ** A run *)

Section DemoRun.
#[local] Existing Instance release_profile.

Definition demo_machine : Cpu EmptyIO BinaryOutput :=
  match cpu_new (E:=never) (image 0 8 demo_body) emptyio_new binaryoutput_new with
  | Ok c => c
  | _ => demo_cpu
  end.

Definition demo_sim : Simulator EmptyIO BinaryOutput :=
  mkSim demo_machine 0 0 debugsymbol_default None (mkSimStat None None None).

Lemma demo_machine_ok : cpu_ok demo_machine.
Proof.
  destruct (cpu_new_starts (E:=never) 0 8 demo_body emptyio_new binaryoutput_new demo_image)
    as (c & Hnew & Hok & _); [done|].
  unfold demo_machine. by rewrite Hnew.
Qed.

Lemma batch_runs_program_witness :
  (execute_batch 9 demo_sim).1 = Ok (Some (inl ())) /\ cycle (execute_batch 9 demo_sim).2 = 8.
Proof.
  destruct (exits_in_runs isa_step 7 (abs demo_machine)) as [b Hb]; [by vm_compute|].
  destruct (batch_runs_program 7 (IsaExit b) 9 demo_sim) as (H1 & _ & H3);
    [apply demo_machine_ok|done|lia|exact Hb|].
  split; [exact H1|exact H3].
Defined.

(** The program with a breakpoint on its third instruction. *)
Definition stop_option : SimulationOption :=
  mkOption false Run {[mkAddr 8 := breakpoint_new (mkAddr 8)]} (mkWatchings [] [] []).

Lemma single_cycle_stops_witness :
  (exists k x, runs_to stop_option demo_sim k x /\ returns stop_option k x (single_cycle 9 stop_option demo_sim)) /\
  match single_cycle 9 stop_option demo_sim with
  | (Ok (Some (SimBreak b)), s') => ob_reason b = AtBreakPoint (mkAddr 8) /\ cycle s' = 2
  | _ => False
  end.
Proof.
  assert (match single_cycle 9 stop_option demo_sim with
    | (Ok (Some (SimBreak b)), s') => ob_reason b = AtBreakPoint (mkAddr 8) /\ cycle s' = 2
    | _ => False
    end) as Hrun by (vm_compute; split; reflexivity).
  destruct (single_cycle_stops 9 stop_option demo_sim) as [Hs _]. simpl in Hs.
  destruct Hs as [Hs|(x & _ & Hn & _)]; [by split|]. rewrite Hn in Hrun. destruct Hrun.
Defined.
End DemoRun.
