(* ===== verification/Disassemble.v ===== *)
(** * The listing around an address ([core_sim/src/sim.rs])

    [disassemble_near] lists the words of the function that holds an address,
    folded to a window around it when asked, and [pretty_instr] writes some
    instructions in a sugared form.  The capacity that [Vec::with_capacity]
    reserves is not modelled. *)
From Stdlib Require Import Ascii.
From stdpp Require Import pretty.
From S2P Require Import Prelude Word Text Vec Register Instr Decode Encode DecodeExact Common Memory Io Cpu CpuInv CpuProps CpuTheorems DebugSymbol Display Sim.

(** ** Data *)

Inductive PrettyInstr := Sugared (s : string) | Unsugared (i : DecodedInstr).

Record AssemblyRow := mkRow {
  row_special : option string;
  row_addr : Pc;
  row_bin : Z;
  row_decoded : option PrettyInstr
}.

Record Assembly := mkAssembly {
  asm_label : string;
  asm_label_addr : Pc;
  omitted_head : bool;
  rows : list AssemblyRow;
  omitted_tail : bool
}.

Record DisassembleOption := mkDisOption {
  dis_addr : option Pc;
  do_fold : bool;
  window_size_half : option Z
}.

(** [Assembly::did_omit_output] *)
Definition did_omit_output (a : Assembly) : bool := omitted_head a || omitted_tail a.

Section Disassemble.
Context `{Profile} {I O : Type} `{Input I} `{Output O}.

(** ** Instructions *)

(** [pretty_instr]; the address is not used. *)
Definition pretty_instr (_addr : Pc) (i : DecodedInstr) : outcome never PrettyInstr :=
  match i with
  | InstrI Addi rd rs1 imm =>
      if is_zero rs1 then
        if imm =? 0 then
          if is_zero rd then mret (Sugared "nop")
          else d ← fmt_reg rd; a ← fmt_reg rs1; mret (Sugared (words "mv" [d; a]))
        else d ← fmt_reg rd; mret (Sugared (words "li" [d; fmt_u32 imm]))
      else if as_i32 imm <? 0 then
        d ← fmt_reg rd; a ← fmt_reg rs1; n ← neg_i32 (as_i32 imm);
        mret (Sugared (words "subi" [d; a; pretty n]))
      else mret (Unsugared i)
  | InstrI Xori rd rs1 imm =>
      if imm =? 1 then d ← fmt_reg rd; a ← fmt_reg rs1; mret (Sugared (words "not" [d; a]))
      else mret (Unsugared i)
  | i => mret (Unsugared i)
  end.

(** ** The rows *)

(** One turn of the loop: the word at the address and its instruction;
    [None] when the address leaves the text. *)
Definition disassemble_row (s : Simulator I O) (cursor addr : Pc) : outcome never (option AssemblyRow) :=
  match get_from_pc addr (memory (cpu s)) with
  | Panic p => Panic p
  | Err _ => Ok None
  | Ok bin =>
      instr ← match decode_from bin with
              | Ok i => Some <$> pretty_instr addr i
              | Err _ => Ok None
              | Panic p => Panic p
              end;
      let special := if decide (cursor = addr) then Some "***"%string else None in
      Ok (Some (mkRow special addr bin instr))
  end.

Fixpoint disassemble_rows (n : nat) (disp begin_ : Z) (s : Simulator I O) (cursor : Pc)
    : outcome never (list AssemblyRow) :=
  match n with
  | Datatypes.O => Ok []
  | S n =>
      addr ← mkPc <$> add_u32 begin_ (wrap32 (Z.shiftl disp 2));
      row ← disassemble_row s cursor addr;
      match row with
      | None => Ok []
      | Some row => rest ← disassemble_rows n (disp + 1) begin_ s cursor; Ok (row :: rest)
      end
  end.

(** [disassemble_near] *)
Definition disassemble_near (o : DisassembleOption) (s : Simulator I O) : outcome SymbolError Assembly :=
  let half := wrap32 (Z.shiftl (default 4 (window_size_half o)) 2) in
  twice ← mul_u32 half 2;
  window ← add_u32 twice 4;
  let cursor := default (pc (cpu s)) (dis_addr o) in
  let pc_addr := pc_val cursor in
  index ← get_nearest_symbol_addr (debug_symbol s) pc_addr;
  def ← get_symbol (debug_symbol s) index;
  let def_addr := sym_addr (def_raw def) in
  head ← (if do_fold o then n ← add_u32 def_addr half; mret (n <? pc_addr) else mret false);
  begin_ ← (if (head : bool) then sub_u32 pc_addr half else mret def_addr);
  rest ← add_u32 window 1;
  let len := default rest (def_size def) in
  end_ ← add_u32 def_addr len;
  tail ← (if do_fold o then n ← add_u32 begin_ window; mret (n <? end_) else mret false);
  len ← (if (tail : bool) then mret window else sub_u32 end_ begin_);
  rows ← no_err (disassemble_rows (Z.to_nat (Z.shiftr len 2)) 0 begin_ s cursor);
  mret (mkAssembly (sym_label (def_raw def)) (mkPc def_addr) head rows tail).

(** [_get_label_name] *)
Definition get_label_name (addr : Z) (s : Simulator I O) : outcome never (option string) :=
  match get_exact_symbol_addr (debug_symbol s) addr with
  | Panic p => Panic p
  | Err _ => Ok None
  | Ok index => def ← get_symbol (debug_symbol s) index; Ok (Some (sym_label (def_raw def)))
  end.
End Disassemble.

(** ** Display *)

Definition fmt_pretty (p : PrettyInstr) : outcome never string :=
  match p with Sugared s => Ok s | Unsugared i => fmt_instr i end.

Definition fmt_row (r : AssemblyRow) : outcome never string :=
  decoded ← match row_decoded r with
            | Some p => fmt_pretty p
            | None => Ok "???? (failed to decode)"%string
            end;
  mret (pad_left " "%char 7 (default EmptyString (row_special r)) +:+ " " +:+ fmt_pc (row_addr r)
        +:+ "  " +:+ hex8 (row_bin r) +:+ "    " +:+ decoded).

(** [Display for Assembly]: the lines. *)
Definition fmt_assembly (a : Assembly) : outcome never (list string) :=
  let omitted := "        ... /* omitted */"%string in
  body ← traverse fmt_row (rows a);
  mret ((asm_label a +:+ ": /* " +:+ fmt_pc (asm_label_addr a) +:+ " */")
        :: (if omitted_head a then [omitted] else []) ++ body
        ++ (if omitted_tail a then [omitted] else [])).

(** ** Facts *)

(** Symbols at distinct increasing addresses: words of the program below [limit]. *)
Record table_ok (limit : Z) (d : DebugSymbol) : Prop := {
  to_increasing : forall i j s t, (i < j)%nat ->
    sorted d !! i = Some s -> sorted d !! j = Some t -> sym_addr s < sym_addr t;
  to_range : forall s, s ∈ sorted d -> 0 <= sym_addr s <= limit /\ sym_addr s mod 4 = 0
}.

Lemma table_ok_sorted limit d : table_ok limit d -> table_sorted d.
Proof.
  intros [Hinc _]. unfold table_sorted. induction (sorted d) as [|x l IH]; constructor.
  - apply IH. intros i j s t Hij Hs Ht. by apply (Hinc (S i) (S j)); [lia|..].
  - destruct l as [|y l]; constructor. unfold addr_le.
    assert (sym_addr x < sym_addr y); [|lia]. by apply (Hinc 0%nat 1%nat); [lia|..].
Qed.

(** The end of the function at index [i]: the next symbol; the last function has
    no known end. *)
Definition function_end (d : DebugSymbol) (i : nat) : option Z := sym_addr <$> sorted d !! S i.

(** What the lookup of a symbol returns on such a table. *)
Lemma get_symbol_ok `{Profile} {E} limit d i s :
  table_ok limit d -> sorted d !! i = Some s ->
  get_symbol (E:=E) d i = Ok (mkSymbolDef s ((fun e => e - sym_addr s) <$> function_end d i)).
Proof.
  intros Hd Hs. unfold get_symbol, function_end. rewrite Hs.
  destruct (sorted d !! S i) as [t|] eqn:Ht; [|done]. simpl.
  pose proof (to_increasing _ _ Hd i (S i) s t ltac:(lia) Hs Ht).
  unfold sub_u32. by destruct (Z.leb_spec (sym_addr s) (sym_addr t)); [|lia].
Qed.

(** Every instruction of the decoder prints. *)
Lemma fmt_reg_ok r : reg_ok r -> exists s, fmt_reg r = Ok s.
Proof.
  intros Hr. destruct r as [n]. pose proof (abi_names_inverse n Hr) as [Hn _].
  destruct (fmt_reg (mkRegId n)); [by eexists|done..].
Qed.

Lemma fmt_freg_ok r : freg_ok r -> exists s, fmt_freg r = Ok s.
Proof.
  intros Hr. destruct r as [n]. pose proof (abi_names_inverse n Hr) as [_ Hn].
  destruct (fmt_freg (mkFRegId n)); [by eexists|done..].
Qed.

(** Print the registers of the goal. *)
Ltac print_regs :=
  repeat match goal with
  | Hr : reg_ok ?r |- context [fmt_reg ?r] =>
      let s := fresh "s" in let Hs := fresh "Hs" in
      destruct (fmt_reg_ok r Hr) as [s Hs]; rewrite Hs; clear Hs; cbn [mbind outcome_bind]
  | Hr : freg_ok ?r |- context [fmt_freg ?r] =>
      let s := fresh "s" in let Hs := fresh "Hs" in
      destruct (fmt_freg_ok r Hr) as [s Hs]; rewrite Hs; clear Hs; cbn [mbind outcome_bind]
  end.

Lemma fmt_instr_ok i : instr_ok i -> exists s, fmt_instr i = Ok s.
Proof.
  destruct i as [?|[]|?|?|[]|?|[]|[]|[]]; simpl; intros; destruct_and?; try done;
    print_regs; by eexists.
Qed.

Section Facts.
Context `{Profile} {I O : Type} `{Input I} `{Output O}.

Lemma pretty_instr_ok addr i :
  instr_ok i -> exists p s, pretty_instr addr i = Ok p /\ fmt_pretty p = Ok s.
Proof.
  intros Hi. pose proof (fmt_instr_ok i Hi) as [s Hs].
  assert (exists s, fmt_pretty (Unsugared i) = Ok s) as [s' Hu] by by exists s.
  assert (forall s, exists p s', Ok (E:=never) (Sugared s) = Ok p /\ fmt_pretty p = Ok s') as Hsug.
  { intros t. by exists (Sugared t), t. }
  assert (exists p s', Ok (E:=never) (Unsugared i) = Ok p /\ fmt_pretty p = Ok s') as Huns.
  { by exists (Unsugared i), s'. }
  destruct i as [| [] rd rs1 imm | | | | | | | ]; try exact Huns; simpl in Hi; destruct Hi as (Hrd & Hrs & Him & Hrange).
  - unfold pretty_instr. destruct (is_zero rs1); [destruct (imm =? 0); [destruct (is_zero rd)|]|].
    + apply Hsug.
    + print_regs. apply Hsug.
    + print_regs. apply Hsug.
    + destruct (as_i32 imm <? 0); [|exact Huns]. print_regs. unfold neg_i32.
      destruct (Z.eqb_spec (as_i32 imm) (- 2 ^ 31)); [lia|]. apply Hsug.
  - unfold pretty_instr. destruct (imm =? 1); [|exact Huns]. print_regs. apply Hsug.
Qed.
End Facts.

(** ** The listing *)

Section Listing.
Context `{Profile} {I O : Type} `{Input I} `{Output O} (s : Simulator I O).

Let m := memory (cpu s).
Definition in_text (a : Z) : bool := range_contains (instr_start m) (instr_end m) a.

(** The machine of the simulator, as far as the listing looks at it: a memory
    with the text inside. *)
Record listable : Prop := {
  li_mem : mem_ok RAM_BYTE_SIZE m;
  li_text : text_ok RAM_BYTE_SIZE m
}.

(** The word at an address fails the assertion of the decoder. *)
Definition stops_decoder (a : Z) : Prop := decode_from (word_at m (a / 4)) = Panic AssertFailed.

(** What the row of an address shows: the word there, the mark of the cursor, and
    the instruction if the word decodes; the row prints. *)
Record row_spec (cursor addr : Pc) (r : AssemblyRow) : Prop := {
  rs_addr : row_addr r = addr;
  rs_bin : row_bin r = word_at m (pc_val addr / 4);
  rs_special : row_special r = if decide (cursor = addr) then Some "***"%string else None;
  rs_decoded : row_decoded r = None /\ (exists e, decode_from (row_bin r) = Err e) \/
    exists i p, decode_from (row_bin r) = Ok i /\ pretty_instr addr i = Ok p /\ row_decoded r = Some p;
  rs_prints : exists line, fmt_row r = Ok line
}.

Context (Hl : listable).

Lemma row_ok cursor addr :
  pc_aligned addr ->
  if in_text (pc_val addr)
  then (exists r, disassemble_row s cursor addr = Ok (Some r) /\ row_spec cursor addr r) \/
       (disassemble_row s cursor addr = Panic AssertFailed /\ stops_decoder (pc_val addr))
  else disassemble_row s cursor addr = Ok None.
Proof.
  intros Ha. destruct Hl as [Hm Ht]. unfold disassemble_row. fold m.
  rewrite (fetch_aligned RAM_BYTE_SIZE) by done. fold (in_text (pc_val addr)).
  destruct (in_text (pc_val addr)) eqn:Hin; [|done].
  pose proof (decode_from_sound _ (word_at_ok RAM_BYTE_SIZE m (pc_val addr / 4) Hm)) as Hd.
  destruct (decode_from (word_at m (pc_val addr / 4))) as [i|e|p] eqn:Hdec; simpl in Hd.
  - destruct (pretty_instr_ok addr i Hd) as (p & line & Hp & Hline). rewrite Hp.
    left. eexists. split; [reflexivity|]. split; try done; cbn [row_bin row_decoded].
    + right. rewrite Hdec. by exists i, p.
    + unfold fmt_row. cbn [row_decoded]. rewrite Hline. by eexists.
  - left. eexists. split; [reflexivity|]. split; try done; cbn [row_bin row_decoded].
    + left. rewrite Hdec. split; [done|by eexists].
    + by eexists.
  - right. destruct Hd as [-> _]. by split.
Qed.

(** The rows are those of the consecutive addresses, up to the end of the text; a word
    that fails the assertion of the decoder on the way stops the listing. *)
Definition listed (cursor : Pc) (b : Z) (n : nat) (l : list AssemblyRow) : Prop :=
  (length l <= n)%nat /\
  (forall j r, l !! j = Some r ->
     in_text (b + 4 * Z.of_nat j) = true /\ row_spec cursor (mkPc (b + 4 * Z.of_nat j)) r) /\
  (forall j, (j < n)%nat ->
     (forall k, (k <= j)%nat -> in_text (b + 4 * Z.of_nat k) = true) -> (j < length l)%nat).

Definition stuck (b : Z) (n : nat) : Prop :=
  exists j, (j < n)%nat /\ (forall k, (k <= j)%nat -> in_text (b + 4 * Z.of_nat k) = true) /\
    stops_decoder (b + 4 * Z.of_nat j).

Lemma listed_cons cursor b n r l :
  in_text b = true -> row_spec cursor (mkPc b) r -> listed cursor (b + 4) n l -> listed cursor b (S n) (r :: l).
Proof.
  intros Hin Hr (Hlen & Hrows & Hall). split_and!; [simpl; lia| |].
  - intros [|j] r' Hr'; simpl in Hr'.
    + simplify_eq. by replace (b + 4 * Z.of_nat 0) with b by lia.
    + replace (b + 4 * Z.of_nat (S j)) with (b + 4 + 4 * Z.of_nat j) by lia. by apply Hrows.
  - intros [|j] Hj Hk; simpl; [lia|]. assert (j < length l)%nat; [|lia]. apply Hall; [lia|].
    intros k Hkj. replace (b + 4 + 4 * Z.of_nat k) with (b + 4 * Z.of_nat (S k)) by lia. apply Hk. lia.
Qed.

Lemma stuck_cons b n : in_text b = true -> stuck (b + 4) n -> stuck b (S n).
Proof.
  intros Hin (j & Hj & Hk & Hs). exists (S j). split_and!; [lia| |].
  - intros [|k] Hkj; [by replace (b + 4 * Z.of_nat 0) with b by lia|].
    replace (b + 4 * Z.of_nat (S k)) with (b + 4 + 4 * Z.of_nat k) by lia. apply Hk. lia.
  - by replace (b + 4 * Z.of_nat (S j)) with (b + 4 + 4 * Z.of_nat j) by lia.
Qed.

Lemma rows_ok cursor b n disp :
  0 <= b -> b mod 4 = 0 -> 0 <= disp -> b + 4 * (disp + Z.of_nat n) <= 2 ^ 32 ->
  (exists l, disassemble_rows n disp b s cursor = Ok l /\ listed cursor (b + 4 * disp) n l) \/
  (disassemble_rows n disp b s cursor = Panic AssertFailed /\ stuck (b + 4 * disp) n).
Proof.
  intros Hb Hb4. revert disp. induction n as [|n IH]; intros disp Hd Hle.
  - left. exists []. split; [done|]. split_and!; [done|by intros|lia].
  - cbn [disassemble_rows].
    assert (wrap32 (Z.shiftl disp 2) = 4 * disp) as Hs.
    { rewrite Z.shiftl_mul_pow2 by lia. rewrite wrap32_small; unfold u32_ok; lia. }
    rewrite Hs. unfold add_u32. destruct (Z.ltb_spec (b + 4 * disp) (2 ^ 32)); [|lia].
    cbn [fmap outcome_fmap mbind outcome_bind].
    assert (pc_aligned (mkPc (b + 4 * disp))) as Hal by (unfold pc_aligned; simpl; dlia).
    pose proof (row_ok cursor (mkPc (b + 4 * disp)) Hal) as Hrow. simpl in Hrow.
    destruct (in_text (b + 4 * disp)) eqn:Hin.
    + destruct Hrow as [(r & -> & Hr)|[-> Hstop]]; cbn [mbind outcome_bind].
      * destruct (IH (disp + 1)) as [(l & -> & Hlist)|[-> Hstuck]]; [lia|lia| |].
        -- left. exists (r :: l). split; [done|]. apply listed_cons; [done..|].
           by replace (b + 4 * disp + 4) with (b + 4 * (disp + 1)) by lia.
        -- right. split; [done|]. apply stuck_cons; [done|].
           by replace (b + 4 * disp + 4) with (b + 4 * (disp + 1)) by lia.
      * right. split; [done|]. exists 0%nat. replace (b + 4 * disp + 4 * Z.of_nat 0) with (b + 4 * disp) by lia.
        split_and!; [lia| |done]. intros k Hk.
        by replace (b + 4 * disp + 4 * Z.of_nat k) with (b + 4 * disp) by lia.
    + rewrite Hrow. left. exists []. split; [done|]. split_and!; [simpl; lia|done|].
      intros j Hj Hk. specialize (Hk 0%nat ltac:(lia)).
      replace (b + 4 * disp + 4 * Z.of_nat 0) with (b + 4 * disp) in Hk by lia. congruence.
Qed.
End Listing.

(** ** The window *)

(** Where the listing begins and ends: the whole function, or at most [half]
    bytes on either side of the cursor when it is folded. *)
Definition window_begin (fold : bool) (half start cursor : Z) : Z :=
  if fold && (start + half <? cursor) then cursor - half else start.
Definition window_end (fold : bool) (half b end_ : Z) : Z :=
  if fold then Z.min (b + 2 * half + 4) end_ else end_.

Section Spec.
Context `{Profile} {I O : Type} `{Input I} `{Output O}.

(** What a listing shows. *)
Definition listing_spec (o : DisassembleOption) (s : Simulator I O) (asm : Assembly) : Prop :=
  let cursor := default (pc (cpu s)) (dis_addr o) in
  let half := 4 * default 4 (window_size_half o) in
  exists i sym, sorted (debug_symbol s) !! i = Some sym /\
    (* the function that holds the cursor *)
    sym_addr sym <= pc_val cursor /\
    (forall e, function_end (debug_symbol s) i = Some e -> pc_val cursor < e) /\
    asm_label asm = sym_label sym /\ asm_label_addr asm = mkPc (sym_addr sym) /\
    let fend := default (sym_addr sym + 2 * half + 5) (function_end (debug_symbol s) i) in
    let b := window_begin (do_fold o) half (sym_addr sym) (pc_val cursor) in
    let e := window_end (do_fold o) half b fend in
    omitted_head asm = (sym_addr sym <? b) /\ omitted_tail asm = (e <? fend) /\
    (* consecutive rows from the beginning of the window *)
    (forall j r, rows asm !! j = Some r ->
       b + 4 * Z.of_nat j + 4 <= e /\ in_text s (b + 4 * Z.of_nat j) = true /\
       row_spec s cursor (mkPc (b + 4 * Z.of_nat j)) r) /\
    (* every word of the window that the text reaches *)
    (forall j, b + 4 * Z.of_nat j + 4 <= e ->
       (forall k, (k <= j)%nat -> in_text s (b + 4 * Z.of_nat k) = true) -> (j < length (rows asm))%nat) /\
    (* the cursor among them *)
    (in_text s b = true -> in_text s (pc_val cursor) = true ->
       exists j r, rows asm !! j = Some r /\ row_addr r = cursor /\ row_special r = Some "***"%string) /\
    (do_fold o = true -> Z.of_nat (length (rows asm)) <= 2 * default 4 (window_size_half o) + 1) /\
    exists lines, fmt_assembly asm = Ok lines.

(** A word of the window, reached through the text, fails the assertion of the decoder. *)
Definition stuck_spec (o : DisassembleOption) (s : Simulator I O) : Prop :=
  let cursor := default (pc (cpu s)) (dis_addr o) in
  let half := 4 * default 4 (window_size_half o) in
  exists i sym, sorted (debug_symbol s) !! i = Some sym /\ sym_addr sym <= pc_val cursor /\
    (forall e, function_end (debug_symbol s) i = Some e -> pc_val cursor < e) /\
    let fend := default (sym_addr sym + 2 * half + 5) (function_end (debug_symbol s) i) in
    let b := window_begin (do_fold o) half (sym_addr sym) (pc_val cursor) in
    let e := window_end (do_fold o) half b fend in
    exists j, b + 4 * Z.of_nat j + 4 <= e /\
      (forall k, (k <= j)%nat -> in_text s (b + 4 * Z.of_nat k) = true) /\
      stops_decoder s (b + 4 * Z.of_nat j).

(** The outcome of [disassemble_near]. *)
Definition near_spec (o : DisassembleOption) (s : Simulator I O) (r : outcome SymbolError Assembly) : Prop :=
  let addr := pc_val (default (pc (cpu s)) (dis_addr o)) in
  let table := sorted (debug_symbol s) in
  match r with
  | Ok asm => listing_spec o s asm
  | Err NotProvided => table = []
  | Err (NoDebugInfo a) => a = addr /\ table <> [] /\ forall t, t ∈ table -> addr < sym_addr t
  | Err NotAvailable => False
  | Panic IndexOutOfBounds => table <> [] /\ forall t, t ∈ table -> sym_addr t < addr
  | Panic AssertFailed => stuck_spec o s
  | Panic _ => False
  end.

Context (o : DisassembleOption) (s : Simulator I O).
Let cursor := default (pc (cpu s)) (dis_addr o).
Let half := 4 * default 4 (window_size_half o).
Let table := sorted (debug_symbol s).

Context (limit : Z) (Htable : table_ok limit (debug_symbol s)) (Hlist : listable s).
Context (Hhalf : 0 <= half) (Hlim0 : 0 <= limit) (Hlimit : limit + 2 * half + 5 < 2 ^ 32).
Context (Hcursor : pc_aligned cursor) (Hpos : 0 <= pc_val cursor).

(** The function that the search finds holds the cursor. *)
Lemma found_function i :
  get_nearest_symbol_addr (debug_symbol s) (pc_val cursor) = Ok i ->
  exists sym, table !! i = Some sym /\ sym_addr sym <= pc_val cursor <= limit /\
    pc_val cursor < default (sym_addr sym + 2 * half + 5) (function_end (debug_symbol s) i) <= limit + 2 * half + 5 /\
    (default (sym_addr sym + 2 * half + 5) (function_end (debug_symbol s) i) mod 4 = 0 \/
     default (sym_addr sym + 2 * half + 5) (function_end (debug_symbol s) i) = pc_val cursor + 2 * half + 5) /\
    (forall e, function_end (debug_symbol s) i = Some e -> pc_val cursor < e).
Proof.
  intros Hi. pose proof (nearest_symbol (debug_symbol s) (pc_val cursor) (table_ok_sorted _ _ Htable)) as Hn.
  rewrite Hi in Hn. destruct Hn as (sym & Hs & Hle & Hlast & Hnext). exists sym.
  destruct Htable as [Hinc Hrange]. fold table in Hs, Hlast, Hnext, Hinc, Hrange.
  assert (0 <= sym_addr sym <= limit /\ sym_addr sym mod 4 = 0) as Hsym.
  { apply Hrange. by eapply list_elem_of_lookup_2. }
  assert (forall t, table !! S i = Some t -> pc_val cursor < sym_addr t <= limit /\ sym_addr t mod 4 = 0) as Ht.
  { intros t Ht. destruct (Hnext (S i) t ltac:(lia) Ht) as [_ Hlt].
    destruct (Hrange t) as [Htr Ht4]; [by eapply list_elem_of_lookup_2|]. split; [|done]. split; [|lia].
    destruct (decide (sym_addr sym < pc_val cursor)) as [|Hge]; [by apply Hlt|].
    pose proof (Hinc i (S i) sym t ltac:(lia) Hs Ht). lia. }
  unfold function_end. fold table. destruct (table !! S i) as [t|] eqn:Hti; simpl.
  - destruct (Ht t eq_refl). split_and!; try done; try lia. intros e [= <-]. lia.
  - destruct (decide (sym_addr sym < pc_val cursor)) as [Hlt|].
    + destruct (Hlast Hlt) as [? ?]. congruence.
    + split_and!; try done; try lia.
Qed.

(** The arithmetic of the window does not overflow. *)
Lemma near_window i sym :
  get_nearest_symbol_addr (debug_symbol s) (pc_val cursor) = Ok i -> table !! i = Some sym ->
  let fend := default (sym_addr sym + 2 * half + 5) (function_end (debug_symbol s) i) in
  sym_addr sym <= pc_val cursor <= limit -> pc_val cursor < fend <= limit + 2 * half + 5 ->
  0 <= sym_addr sym ->
  let b := window_begin (do_fold o) half (sym_addr sym) (pc_val cursor) in
  let e := window_end (do_fold o) half b fend in
  disassemble_near o s =
  (rows ← no_err (disassemble_rows (Z.to_nat (Z.shiftr (e - b) 2)) 0 b s cursor);
   mret (mkAssembly (sym_label sym) (mkPc (sym_addr sym)) (sym_addr sym <? b) rows (e <? fend))).
Proof.
  intros Hi Hs fend Hc Hf Hge b e. unfold disassemble_near. fold cursor.
  assert (wrap32 (Z.shiftl (default 4 (window_size_half o)) 2) = half) as Hw.
  { unfold half. rewrite Z.shiftl_mul_pow2 by lia. rewrite wrap32_small; [|unfold u32_ok, half in *; lia]. lia. }
  rewrite Hw.
  assert (forall (x y : Z), x + y < 2 ^ 32 -> add_u32 (E:=SymbolError) x y = Ok (x + y)) as Hadd.
  { intros x y Hxy. unfold add_u32. by destruct (Z.ltb_spec (x + y) (2 ^ 32)); [|lia]. }
  assert (forall (x y : Z), y <= x -> sub_u32 (E:=SymbolError) x y = Ok (x - y)) as Hsub.
  { intros x y Hxy. unfold sub_u32. by destruct (Z.leb_spec y x); [|lia]. }
  assert (b = if do_fold o && (sym_addr sym + half <? pc_val cursor) then pc_val cursor - half
              else sym_addr sym) as Hb by done.
  assert (e = if do_fold o then Z.min (b + 2 * half + 4) fend else fend) as He by done.
  assert (sym_addr sym <= b <= pc_val cursor) as Hbr.
  { rewrite Hb. destruct (do_fold o); simpl; [|lia].
    destruct (Z.ltb_spec (sym_addr sym + half) (pc_val cursor)); lia. }
  assert (b < e <= fend) as Her by (rewrite He; destruct (do_fold o); lia).
  eapply bind_ok.
  { unfold mul_u32. destruct (Z.ltb_spec (half * 2) (2 ^ 32)); [reflexivity|lia]. }
  eapply bind_ok; [apply Hadd; lia|]. eapply bind_ok; [exact Hi|].
  eapply bind_ok; [by apply (get_symbol_ok limit _ _ sym)|]. cbn [def_raw def_size].
  apply (bind_ok _ _ (sym_addr sym <? b)).
  { rewrite Hb. destruct (do_fold o); simpl; [|by rewrite Z.ltb_irrefl]. rewrite Hadd by lia. simpl.
    destruct (Z.ltb_spec (sym_addr sym + half) (pc_val cursor)); [|by rewrite Z.ltb_irrefl].
    unfold mret, outcome_ret. f_equal. symmetry. apply Z.ltb_lt. lia. }
  apply (bind_ok _ _ b).
  { rewrite Hb. destruct (do_fold o); simpl; [|by rewrite Z.ltb_irrefl].
    destruct (Z.ltb_spec (sym_addr sym + half) (pc_val cursor)); [|by rewrite Z.ltb_irrefl].
    destruct (Z.ltb_spec (sym_addr sym) (pc_val cursor - half)); [|lia]. apply Hsub. lia. }
  eapply bind_ok; [apply Hadd; lia|].
  assert (default (half * 2 + 4 + 1) ((fun e0 => e0 - sym_addr sym) <$> function_end (debug_symbol s) i)
    = fend - sym_addr sym) as ->.
  { unfold fend. destruct (function_end _ _); simpl; lia. }
  apply (bind_ok _ _ fend). { rewrite Hadd by lia. f_equal. lia. }
  apply (bind_ok _ _ (e <? fend)).
  { rewrite He. destruct (do_fold o); [|by rewrite Z.ltb_irrefl]. rewrite Hadd by lia.
    unfold mret, outcome_ret, mbind, outcome_bind. f_equal.
    destruct (Z.ltb_spec (b + (half * 2 + 4)) fend), (Z.ltb_spec (Z.min (b + 2 * half + 4) fend) fend); lia. }
  apply (bind_ok _ _ (e - b)); [|done].
  destruct (Z.ltb_spec e fend); [|rewrite Hsub by lia; f_equal; lia].
  unfold mret, outcome_ret. f_equal. rewrite He in *. destruct (do_fold o); lia.
Qed.

Lemma near_listing i sym :
  table !! i = Some sym -> sym_addr sym mod 4 = 0 -> 0 <= sym_addr sym ->
  get_nearest_symbol_addr (debug_symbol s) (pc_val cursor) = Ok i ->
  sym_addr sym <= pc_val cursor <= limit ->
  (let fend := default (sym_addr sym + 2 * half + 5) (function_end (debug_symbol s) i) in
   pc_val cursor < fend <= limit + 2 * half + 5 /\ (fend mod 4 = 0 \/ fend = pc_val cursor + 2 * half + 5)) ->
  (forall e, function_end (debug_symbol s) i = Some e -> pc_val cursor < e) ->
  (exists asm, disassemble_near o s = Ok asm /\ listing_spec o s asm) \/
  (disassemble_near o s = Panic AssertFailed /\ stuck_spec o s).
Proof.
  intros Hs H4 Hge Hi Hc [Hf Hf4] He.
  set (fend := default (sym_addr sym + 2 * half + 5) (function_end (debug_symbol s) i)) in *.
  pose proof (near_window i sym Hi Hs Hc Hf Hge) as Hnear. cbv zeta in Hnear. fold fend in Hnear.
  set (b := window_begin (do_fold o) half (sym_addr sym) (pc_val cursor)) in *.
  set (e := window_end (do_fold o) half b fend) in *.
  assert (half mod 4 = 0) as Hh4 by (unfold half; rewrite Z.mul_comm; apply Z.mod_mul; lia).
  unfold pc_aligned in Hcursor.
  assert (sym_addr sym <= b <= pc_val cursor /\ b mod 4 = 0) as [Hb Hb4].
  { unfold b, window_begin. destruct (do_fold o); simpl; [|split; [lia|done]].
    destruct (Z.ltb_spec (sym_addr sym + half) (pc_val cursor)); split; [lia|dlia|lia|dlia]. }
  assert (b <= pc_val cursor <= e - 4 /\ e <= fend /\ (do_fold o = true -> e <= b + 2 * half + 4)) as (Hce & Hee & Hfold).
  { unfold e, b, window_end, window_begin in *. destruct (do_fold o); simpl in *.
    - destruct (Z.ltb_spec (sym_addr sym + half) (pc_val cursor)); split_and!; try lia; destruct Hf4; dlia.
    - split_and!; try lia; destruct Hf4; dlia. }
  assert (b + 4 * (0 + Z.of_nat (Z.to_nat (Z.shiftr (e - b) 2))) <= 2 ^ 32) as Hend
    by (rewrite Z2Nat.id; rewrite Z.shiftr_div_pow2 by lia; dlia).
  destruct (rows_ok s Hlist cursor b (Z.to_nat (Z.shiftr (e - b) 2)) 0) as [(l & Hrows & Hlisted)|[Hrows Hstuck]];
    [lia|done|lia|exact Hend| |]; rewrite Hrows in Hnear; rewrite Z.shiftr_div_pow2 in * by lia;
    replace (b + 4 * 0) with b in * by lia.
  2: { right. split; [exact Hnear|]. destruct Hstuck as (j & Hj & Hk & Hs'). exists i, sym.
    fold cursor half fend b e. split_and!; [done|lia|done|]. exists j. split_and!; [dlia|done|done]. }
  destruct Hlisted as (Hlen & Hl1 & Hl2). left. eexists. split; [exact Hnear|].
  exists i, sym. cbn [asm_label asm_label_addr omitted_head omitted_tail rows].
  fold cursor half fend b e.
  assert (forall j, b + 4 * Z.of_nat j + 4 <= e ->
    (forall k, (k <= j)%nat -> in_text s (b + 4 * Z.of_nat k) = true) -> (j < length l)%nat) as Hcomplete.
  { intros j Hj Hk. apply Hl2; [dlia|done]. }
  split_and!; try done; try lia.
  - intros j r Hr. destruct (Hl1 j r Hr) as [Hin Hrow]. split_and!; [|done|done].
    apply lookup_lt_Some in Hr. dlia.
  - intros Hinb Hinc. set (j := Z.to_nat ((pc_val cursor - b) / 4)).
    assert (pc_val cursor = b + 4 * Z.of_nat j) as Hj by (unfold j; rewrite Z2Nat.id; dlia).
    destruct (lookup_lt_is_Some_2 l j) as [r Hr].
    { apply Hcomplete; [lia|]. intros k Hk. unfold in_text, range_contains in *.
      apply andb_true_iff in Hinb as [Hb1 _], Hinc as [_ Hc2].
      apply andb_true_iff. split; [apply Z.leb_le|apply Z.ltb_lt];
        [apply Z.leb_le in Hb1|apply Z.ltb_lt in Hc2]; lia. }
    destruct (Hl1 j r Hr) as [_ Hrow].
    assert (mkPc (b + 4 * Z.of_nat j) = cursor) as Hcur by (rewrite <- Hj; by destruct cursor).
    rewrite Hcur in Hrow. exists j, r. destruct Hrow as [Ha _ Hspecial _ _].
    split_and!; [done|done|]. rewrite Hspecial. by rewrite decide_True.
  - intros Hfo. specialize (Hfold Hfo). unfold half in Hfold. dlia.
  - destruct (traverse_ok fmt_row l) as (lines & Hlines & _).
    { intros j r Hr. by destruct (Hl1 j r Hr) as [_ []]. }
    unfold fmt_assembly. cbn [rows]. rewrite Hlines. by eexists.
Qed.

(** A failure of the search is the result. *)
Lemma near_search r :
  get_nearest_symbol_addr (debug_symbol s) (pc_val cursor) = r -> ~ is_ok r ->
  match r with
  | Ok _ => False
  | Err e => disassemble_near o s = Err e
  | Panic p => disassemble_near o s = Panic p
  end.
Proof.
  intros Hr Hno.
  assert (wrap32 (Z.shiftl (default 4 (window_size_half o)) 2) = half) as Hh.
  { unfold half. rewrite Z.shiftl_mul_pow2 by lia. rewrite wrap32_small; [|unfold u32_ok, half in *; lia]. lia. }
  unfold disassemble_near. fold cursor. rewrite Hh. unfold mul_u32, add_u32.
  destruct (Z.ltb_spec (half * 2) (2 ^ 32)); [|lia]. cbn [mbind outcome_bind].
  destruct (Z.ltb_spec (half * 2 + 4) (2 ^ 32)); [|lia]. cbn [mbind outcome_bind].
  rewrite Hr. by destruct r.
Qed.

(** C37: The listing around a word-aligned address, on a table of strictly increasing
    word-aligned symbols up to [limit], for every option whose window cannot pass
    the end of the 32-bit addresses ([limit] and twice the half window, in bytes,
    stay below [2^32] with five bytes to spare): when the address is below the
    first symbol, or there are no symbols, the error says so; an address above
    every symbol panics by an index; and the listing panics at the assertion of the
    decoder if and only if a word of its window fails it.  Otherwise the listing is
    that of the function that holds the address; its rows are consecutive words of
    the text from the beginning of the window, every word that fits is there, the
    row of the address itself is among them and marked, a folded listing has at
    most twice the half window and one rows, the flags tell exactly what was left
    out, and the listing prints. *)
Theorem disassemble_near_spec : near_spec o s (disassemble_near o s).
Proof.
  pose proof (nearest_symbol (debug_symbol s) (pc_val cursor) (table_ok_sorted _ _ Htable)) as Hn.
  destruct (get_nearest_symbol_addr (debug_symbol s) (pc_val cursor)) as [i|err|p] eqn:Hi.
  - destruct (found_function i Hi) as (sym & Hs & Hc & Hf & Hf4 & He).
    destruct Htable as [_ Hrange]. destruct (Hrange sym) as [Hsr H4]; [by eapply list_elem_of_lookup_2|].
    destruct (near_listing i sym) as [(asm & -> & Hasm)|[-> Hstuck]];
      [exact Hs|exact H4|lia|exact Hi|exact Hc|by split|exact He|exact Hasm|exact Hstuck].
  - rewrite (near_search _ Hi) by by intros []. exact Hn.
  - rewrite (near_search _ Hi) by by intros []. destruct Hn as (-> & Hne & Hn). by split.
Qed.
End Spec.

(** ** A listing *)

Section Demo.
#[local] Existing Instance debug_profile.

(** The demonstration program, with three functions. *)
Definition listed_sim : Simulator EmptyIO BinaryOutput :=
  mkSim demo_cpu 0 0
    (merge debugsymbol_default
       (mkDebugSymbol ∅ [mkSymbol 28 "halt"; mkSymbol 0 "main"; mkSymbol 12 "store"]))
    None (mkSimStat None None None).

Definition listed_option : DisassembleOption := mkDisOption (Some (mkPc 16)) true (Some 1).

(** A folded listing of the second function: the row before the cursor, its own
    and the next one. *)
Example listed_lines :
  (asm ← disassemble_near listed_option listed_sim; Ok (fmt_assembly asm)) = Ok (Ok
   ["store: /* 0x0000000c */";
    "        0x0000000c  0x00712023    sw t2, 0(sp)";
    "    *** 0x00000010  0x00012403    lw s0, 0(sp)";
    "        0x00000014  0x405404b3    sub s1, s0, t0";
    "        ... /* omitted */"]%string).
Proof. by vm_compute. Qed.

Lemma listed_table : table_ok 28 (debug_symbol listed_sim).
Proof.
  split.
  - intros [|[|[|i]]] [|[|[|j]]] s t Hij Hs Ht; try lia; cbv in Hs, Ht; simplify_eq; done.
  - assert (Forall (fun s => 0 <= sym_addr s <= 28 /\ sym_addr s mod 4 = 0)
      (sorted (debug_symbol listed_sim))) as Hall by (by apply (bool_decide_unpack _)).
    intros s Hs. exact (proj1 (list.Forall_forall _ _) Hall s Hs).
Qed.

Lemma listed_ok : listable listed_sim.
Proof.
  destruct demo_start as ([] & _). split; change (cpu listed_sim) with demo_cpu; [done|unfold text_ok; lia].
Qed.

Lemma disassemble_near_spec_witness :
  near_spec listed_option listed_sim (disassemble_near listed_option listed_sim).
Proof.
  apply (disassemble_near_spec listed_option listed_sim 28 listed_table listed_ok); done.
Defined.
End Demo.
