(* ===== verification/Views.v ===== *)
(** * The statistics views ([core_sim/src/stat.rs] and the views of
    reg_file.rs, memory.rs, cpu.rs and sim.rs)

    The tables that are printed at the end of a run and by [show stat], and the
    view of the register file.  A view has a header, a width and a text; the
    width decides how many cells a row of the two wide tables has. *)
From Stdlib Require Import Ascii.
From S2P Require Import Prelude Word Text Vec Register Instr Common RegFile Memory Float32 Io Cpu CpuInv CpuProps CpuTheorems DebugSymbol Display Sim.

(** ** Layout ([trait Width]) *)

(** [width_by_chunk_size] for cells of a fixed width: the cells of a row, the
    commas between them and the indentation. *)
Definition width_by_chunk_size (cell chunk_size : Z) : Z := chunk_size * cell + (chunk_size - 1) * 2 + 2.

Definition reg_cell : Z := 31.
Definition instr_cell : Z := 21.

(** [Width::chunk_size]: the loop over the candidate sizes. *)
Fixpoint chunk_loop (fuel : nat) (cell max_width chunk_size : Z) : option Z :=
  match fuel with
  | O => None
  | S fuel =>
      if max_width <? width_by_chunk_size cell chunk_size then Some (chunk_size - 1)
      else chunk_loop fuel cell max_width (chunk_size + 1)
  end.

(** Every turn makes the table wider: the width is fuel enough. *)
Definition chunk_fuel (max_width : Z) : nat := S (Z.to_nat max_width).
Definition chunk_size (cell max_width : Z) : option Z := chunk_loop (chunk_fuel max_width) cell max_width 2.

(** The rows of a table ([fmt_inner]). *)
Definition fmt_inner (map : list string) (chunk_size : Z) (tail : string) : string :=
  String.concat EmptyString
    ((fun chunk => line ("  " +:+ join ", " chunk +:+ tail)) <$> chunks (Z.to_nat chunk_size) map).

Record View := mkView { header : string; width : Z; text : outcome never string }.

(** ** The views *)

Section Views.
Context `{Profile} `{FloatFmt}.

(** A count in decimal. *)
Definition dec (n : Z) : string := digits 10 n.
Definition right (w : nat) (s : string) : string := pad_left " "%char w s.

(** [RegFileAllStatView] *)
Definition reg_stat_cells (table : list string) (s : RegFileStat) : list string :=
  zip_with (fun n '(r, w) => right 6 n +:+ ":" +:+ right 11 (dec r) +:+ " /" +:+ right 11 (dec w))
    table (zip (vlist (st_read s)) (vlist (st_write s))).

Definition regfile_all_stat_view (i f : RegFileStat) (max_width : Z) : option View :=
  c ← chunk_size reg_cell max_width;
  Some (mkView "register load (format: `# of read / # of write`)" (width_by_chunk_size reg_cell c)
    (Ok (fmt_inner (reg_stat_cells ABINAME_TABLE i) c EmptyString
         +:+ fmt_inner (reg_stat_cells F_ABINAME_TABLE f) c EmptyString))).

(** [InstrStatView]: the numbers that are not instructions are left out. *)
Fixpoint instr_stat_cells (n : nat) (index : Z) (s : InstrStat) : outcome never (list string) :=
  match n with
  | O => Ok []
  | S n =>
      cell ← match InstrId_try_from (as_u8 index) with
             | Ok id =>
                 str ← fmt_id id;
                 count ← vget s index;
                 Ok [right 8 str +:+ ": " +:+ right 11 (dec count)]
             | Err _ => Ok []
             | Panic p => Panic p
             end;
      rest ← instr_stat_cells n (index + 1) s;
      Ok (cell ++ rest)
  end.

Definition instr_stat_view (s : InstrStat) (max_width : Z) : option View :=
  c ← chunk_size instr_cell max_width;
  Some (mkView "executed instructions" (width_by_chunk_size instr_cell c)
    (cells ← instr_stat_cells (Z.to_nat INSTR_ID_MAX) 0 s; Ok (fmt_inner cells c EmptyString))).

(** [HeapStackStatView]: the subtractions are on [u32]. *)
Definition heap_stack_stat_view (r : MemoryRegionStat) : View :=
  mkView "used memory" 24
    (heap ← sub_u32 (st_hp_max r) (st_hp_min r);
     stack ← sub_u32 (st_sp_max r) (st_sp_min r);
     Ok (line ("  heap: " +:+ right 10 (dec (wrap32 (Z.shiftl heap 2))) +:+ " bytes")
         +:+ line ("  stack: " +:+ right 9 (dec (wrap32 (Z.shiftl stack 2))) +:+ " bytes"))).

(** [MemoryStatView] *)
Definition memory_stat_row (name : string) (r w : Z) : string :=
  line ("  " +:+ right 13 name +:+ ":" +:+ right 11 (dec r) +:+ " /" +:+ right 11 (dec w)).
Definition memory_stat_view (s : MemoryStat) : View :=
  mkView "access count of memory region (format: `# of read / # of write`)" 40
    (Ok (memory_stat_row "data section" (data_section (ms_read s)) (data_section (ms_write s))
         +:+ memory_stat_row "heap" (heap (ms_read s)) (heap (ms_write s))
         +:+ memory_stat_row "stack" (stack (ms_read s)) (stack (ms_write s)))).

(** [100. * n as f64 / total as f64] with six decimals *)
Definition percent (n total : Z) : string :=
  fmt_f64_6 (f64_div (f64_mul (f64_of_Z 100) (f64_of_Z n)) (f64_of_Z total)).
Definition percent_row (name : string) (n total : Z) : string :=
  name +:+ right 10 (dec n) +:+ " (" +:+ right 8 (percent n total) +:+ "%)".

(** [BranchStatView] and [CacheStatView] *)
Definition branch_stat_view (s : BranchStat) : View :=
  let taken := taken_pred_taken s + taken_pred_untaken s in
  let untaken := untaken_pred_taken s + untaken_pred_untaken s in
  let pred_correct := taken_pred_taken s + untaken_pred_untaken s in
  let total := taken + untaken in
  mkView "branch count" 33
    (Ok (line (percent_row "         taken: " taken total)
         +:+ line (percent_row "       untaken: " untaken total)
         +:+ line (percent_row "  pred correct: " pred_correct total))).

Definition cache_stat_view (s : CacheStat) : View :=
  let total := hit_count s + miss_count s in
  mkView "cache stat" 33
    (Ok (line (percent_row "      hit: " (hit_count s) total)
         +:+ line (percent_row "     miss: " (miss_count s) total))).

(** ** The simulator's own statistics *)

Definition CPU_CLOCK_FREQ : Z := 183333333.
Definition CPU_BAUDRATE : Z := 2304000.

Record SimStat := mkSimStatView { ss_file_len : Z; ss_clocks : Z; ss_cycle : Z }.

(** [SimStatBuilder::finish]; the wall-clock time is an argument of the view. *)
Definition finish {E} (b : SimStatBuilder) : outcome E SimStat :=
  len ← unwrap (sb_instr_file_len b);
  clocks ← unwrap (sb_elapsed_clocks b);
  n ← unwrap (sb_cycle b);
  mret (mkSimStatView len clocks n).

Definition sim_stat_view (elapsed_ms : Z) (s : SimStat) : View :=
  mkView "simulator stat" 33
    (bits ← mul_u32 (ss_file_len s) 10;
     let seconds := f64_add (f64_div (f64_of_Z bits) (f64_of_Z CPU_BAUDRATE))
                            (f64_div (f64_of_Z (ss_clocks s)) (f64_of_Z CPU_CLOCK_FREQ)) in
     Ok (line ("  elapsed total: " +:+ right 9 (dec elapsed_ms +:+ " ms"))
         +:+ line ("  cycles total: " +:+ right 10 ("#" +:+ dec (ss_cycle s)))
         +:+ line ("  clocks total: " +:+ right 10 ("#" +:+ dec (ss_clocks s)))
         +:+ line ("  estimated CPU time: " +:+ right 9 (fmt_f64_6 seconds +:+ " s")))).

(** ** All of them *)

(** [Cpu::add_stats], viewed: the statistics of the machine in order. *)
Definition cpu_views {I O} (max_width : Z) (c : Cpu I O) : option (list View) :=
  regs ← regfile_all_stat_view (stat_i (reg_file c)) (stat_f (reg_file c)) max_width;
  instrs ← instr_stat_view (i_stat c) max_width;
  Some [ memory_stat_view (stat_mem (memory c));
         heap_stack_stat_view (region_finish (vcell (rf_inner (reg_file c)) 4) (region c));
         regs; instrs; branch_stat_view (b_stat c); cache_stat_view (c_stat c) ].

(** [Display for StatAllView]; the maximum of no views is unwrapped. *)
Definition fmt_stats (views : list View) : outcome never string :=
  match views with
  | [] => Panic UnwrapFailed
  | _ =>
      let w := foldr Z.max 0 ((fun v => Z.max (Z.of_nat (String.length (header v))) (width v)) <$> views) in
      body ← traverse (fun v => t ← text v; Ok (line (header v +:+ ":") +:+ line t)) views;
      Ok (line (pad_center "-" (Z.to_nat w) " statistics ") +:+ join EmptyString body
          +:+ repeat_char "-" (Z.to_nat w))
  end.

(** [Simulator::collect_stat], viewed and printed ([output_stat] of main.rs). *)
Definition fmt_simulator_stats {I O} (elapsed_ms max_width : Z) (s : Simulator I O) : outcome never (option string) :=
  own ← finish (stat_builder s);
  match cpu_views max_width (cpu s) with
  | None => Ok None
  | Some views => t ← fmt_stats (sim_stat_view elapsed_ms own :: views); Ok (Some t)
  end.

(** ** The register file ([RegFileView]) *)

Definition regfile_cells (table : list string) (fmt : Z -> string) (v : vec Z) : list string :=
  zip_with (fun n x => right 6 n +:+ ": " +:+ right 16 (fmt x)) table (vlist v).

Definition fmt_regfile (k : ShowRegFileKind) (chunk_size : Z) (rf : RegFile) : string :=
  let i := fmt_inner (regfile_cells ABINAME_TABLE dec (rf_inner rf)) chunk_size "," in
  let f := fmt_inner (regfile_cells F_ABINAME_TABLE fmt_f32 (rf_inner_f rf)) chunk_size "," in
  match k with
  | RegFileAll => line "RegFile (All) {" +:+ i +:+ f +:+ "}"
  | RegFileI => line "RegFile (Integer) {" +:+ i +:+ "}"
  | RegFileF => line "RegFile (Float) {" +:+ f +:+ "}"
  end.
End Views.

(** ** Layout facts *)

Section Layout.
Context (cell max_width : Z) (Hcell : 0 <= cell).

(** The loop ends at the first candidate that is too wide. *)
Lemma chunk_loop_spec fuel c :
  (1 <= fuel)%nat -> max_width < width_by_chunk_size cell c + Z.of_nat fuel - 1 -> 2 <= c ->
  (c = 2 \/ width_by_chunk_size cell (c - 1) <= max_width) ->
  exists r, chunk_loop fuel cell max_width c = Some r /\ 1 <= r /\
    (r = 1 \/ width_by_chunk_size cell r <= max_width) /\
    max_width < width_by_chunk_size cell (r + 1).
Proof.
  revert c. induction fuel as [|fuel IH]; intros c Hf Hw Hc Hprev; [lia|]; cbn [chunk_loop].
  destruct (Z.ltb_spec max_width (width_by_chunk_size cell c)) as [Hlt|Hge].
  - exists (c - 1). replace (c - 1 + 1) with c by lia. split_and!; try lia; try done.
  - apply IH; [lia|unfold width_by_chunk_size in *; lia|lia|].
    right. by replace (c + 1 - 1) with c by lia.
Qed.

Lemma chunk_size_spec :
  exists c, chunk_size cell max_width = Some c /\ 1 <= c /\
    (c = 1 \/ width_by_chunk_size cell c <= max_width) /\
    max_width < width_by_chunk_size cell (c + 1).
Proof.
  apply chunk_loop_spec; [unfold chunk_fuel; lia| |lia|by left].
  unfold chunk_fuel, width_by_chunk_size. lia.
Qed.

(** A row of cells of the right width fits the table. *)
Lemma row_fits c (row : list string) :
  (0 < length row)%nat -> Z.of_nat (length row) <= c ->
  Forall (fun s => Z.of_nat (String.length s) <= cell) row ->
  Z.of_nat (String.length ("  " +:+ join ", " row)) <= width_by_chunk_size cell c.
Proof.
  intros H0 Hlen Hall. unfold join. rewrite length_app_string, length_concat_string.
  change (String.length "  ") with 2%nat. change (String.length ", ") with 2%nat.
  assert (Z.of_nat (sum_list (String.length <$> row)) <= Z.of_nat (length row) * cell) as Hsum.
  { clear H0 Hlen. induction Hall as [|s row Hs Hall IH]; [simpl; lia|].
    rewrite fmap_cons. cbn [sum_list_with length]. change (Datatypes.id (String.length s)) with (String.length s).
    rewrite Nat2Z.inj_add, Nat2Z.inj_succ, Z.mul_succ_l. lia. }
  unfold width_by_chunk_size. nia.
Qed.
End Layout.

Lemma length_dec n : 0 <= n < 10 ^ 11 -> (String.length (dec n) <= 11)%nat.
Proof. intros Hn. apply length_digits; simpl; lia. Qed.

(** ** The cells of the two tables *)

(** Counts of at most eleven digits. *)
Definition counts_ok (v : vec Z) : Prop := forall i, 0 <= vcell v i < 10 ^ 11.

Lemma length_right w s : (String.length s <= w)%nat -> String.length (right w s) = w.
Proof. intros Hs. unfold right. rewrite length_pad_left. lia. Qed.

Lemma vlist_counts v : counts_ok v -> Forall (fun x => 0 <= x < 10 ^ 11) (vlist v).
Proof. intros Hv. unfold vlist. rewrite Forall_fmap, Forall_forall. intros k _. apply Hv. Qed.

Lemma reg_cells_fit table s :
  Forall (fun n => (String.length n <= 6)%nat) table ->
  counts_ok (st_read s) -> counts_ok (st_write s) ->
  Forall (fun c => Z.of_nat (String.length c) <= reg_cell) (reg_stat_cells table s).
Proof.
  intros Ht Hr%vlist_counts Hw%vlist_counts. unfold reg_stat_cells.
  revert Ht Hr Hw. generalize (vlist (st_read s)) (vlist (st_write s)).
  induction table as [|n table IH]; intros [|r rs] [|w ws] Ht Hr Hw; try constructor.
  - apply Forall_cons_1 in Ht as [Hn _], Hr as [Hr _], Hw as [Hw _].
    rewrite !length_app_string, !length_right by (done || by apply length_dec).
    unfold reg_cell. simpl. lia.
  - apply Forall_cons_1 in Ht as [_ Ht], Hr as [_ Hr], Hw as [_ Hw]. by apply IH.
Qed.

Lemma names_fit :
  Forall (fun n => (String.length n <= 6)%nat) ABINAME_TABLE /\
  Forall (fun n => (String.length n <= 6)%nat) F_ABINAME_TABLE.
Proof. by apply (bool_decide_unpack _); vm_compute. Qed.

(** Every number of an instruction prints, in at most eight characters. *)
Definition instr_name_fits (v : Z) : bool :=
  match InstrId_try_from v with
  | Ok id => match fmt_id id with Ok s => (String.length s <=? 8)%nat | _ => false end
  | Err _ => true
  | Panic _ => false
  end.

Lemma instr_names_fit v : 0 <= v < 256 -> instr_name_fits v = true.
Proof. revert v. refine (forall_below 256 (fun v => instr_name_fits v = true) _). by vm_compute. Qed.

Lemma instr_cells_total n index s :
  vlen s = INSTR_ID_MAX -> 0 <= index -> index + Z.of_nat n <= INSTR_ID_MAX ->
  exists cells, instr_stat_cells n index s = Ok cells.
Proof.
  intros Hlen. change INSTR_ID_MAX with 123 in *. revert index.
  induction n as [|n IH]; intros index Hi Hn; cbn [instr_stat_cells]; [by eexists|].
  destruct (IH (index + 1)) as (cells & ->); [lia..|].
  pose proof (instr_names_fit index ltac:(lia)) as Hf. unfold instr_name_fits in Hf.
  unfold as_u8. rewrite Z.mod_small by lia.
  destruct (InstrId_try_from index) as [id|e|p]; [|by eexists|done].
  destruct (fmt_id id) as [str|e|p]; [|done..]. cbn [mbind outcome_bind].
  rewrite vget_ok by lia. by eexists.
Qed.

Lemma instr_cells_fit n index s :
  counts_ok s -> vlen s = INSTR_ID_MAX -> 0 <= index -> index + Z.of_nat n <= INSTR_ID_MAX ->
  exists cells, instr_stat_cells n index s = Ok cells /\
    Forall (fun c => Z.of_nat (String.length c) <= instr_cell) cells.
Proof.
  intros Hs Hlen. change INSTR_ID_MAX with 123 in *. revert index.
  induction n as [|n IH]; intros index Hi Hn; cbn [instr_stat_cells]; [by eexists|].
  destruct (IH (index + 1)) as (cells & -> & Hall); [lia..|].
  pose proof (instr_names_fit index ltac:(lia)) as Hf. unfold instr_name_fits in Hf.
  unfold as_u8. rewrite Z.mod_small by lia.
  destruct (InstrId_try_from index) as [id|e|p]; [|by eexists|done].
  destruct (fmt_id id) as [str|e|p]; [|done..]. apply Nat.leb_le in Hf. cbn [mbind outcome_bind].
  rewrite vget_ok by lia. cbn [mbind outcome_bind]. eexists. split; [done|]. constructor; [|done].
  rewrite !length_app_string, !length_right by (done || by apply length_dec).
  unfold instr_cell. simpl. lia.
Qed.

(** ** What the cells show, written out *)

(** The entry of register [k]: its name, its reads and its writes. *)
Definition reg_entry (table : list string) (s : RegFileStat) (k : nat) : string :=
  right 6 (nth k table EmptyString) +:+ ":" +:+ right 11 (dec (vcell (st_read s) (Z.of_nat k)))
  +:+ " /" +:+ right 11 (dec (vcell (st_write s) (Z.of_nat k))).

Definition reg_entries (table : list string) (s : RegFileStat) : list string := reg_entry table s <$> seq 0 32.

(** The instructions and their numbers. *)
Definition INSTRUCTIONS : list (Z * string) :=
  [(0, "add"); (1, "sub"); (2, "xor"); (3, "or"); (4, "and"); (5, "sll"); (6, "sra"); (7, "slt");
   (8, "addi"); (9, "xori"); (10, "ori"); (11, "andi"); (12, "slli"); (13, "slti"); (14, "lw"); (15, "jalr");
   (16, "sw"); (24, "beq"); (25, "bne"); (26, "blt"); (27, "bge"); (40, "jal");
   (48, "outb"); (49, "inw"); (50, "finw");
   (56, "fadd"); (57, "fsub"); (58, "fmul"); (59, "fdiv"); (60, "fsgnj"); (61, "fsgnjn"); (62, "fsgnjx");
   (72, "fsqrt"); (73, "fhalf"); (74, "ffloor"); (80, "flt"); (88, "fitof");
   (96, "fiszero"); (97, "fispos"); (98, "fisneg"); (99, "fftoi"); (104, "fblt"); (105, "fbge");
   (112, "fbeqz"); (113, "fbnez"); (120, "flw"); (121, "fsw"); (122, "end")]%string.

(** The entry of an instruction: its mnemonic and how often it was executed. *)
Definition instr_entry (s : InstrStat) (i : Z * string) : string :=
  right 8 i.2 +:+ ": " +:+ right 11 (dec (vcell s i.1)).

Definition instr_entries (s : InstrStat) : list string := instr_entry s <$> INSTRUCTIONS.

Lemma reg_cells_entries table s :
  length table = 32%nat -> regfilestat_ok s -> reg_stat_cells table s = reg_entries table s.
Proof.
  intros Ht [Hw Hr]. unfold reg_stat_cells, reg_entries, vlist. rewrite Hr, Hw. change (Z.to_nat reg_count) with 32%nat.
  do 32 (destruct table as [|? table]; [done|]). by destruct table.
Qed.

Definition name_at (v : Z) : option string :=
  match InstrId_try_from v with
  | Ok id => match fmt_id id with Ok s => Some s | _ => None end
  | _ => None
  end.

Lemma instr_cells_named n index s :
  vlen s = INSTR_ID_MAX -> 0 <= index -> index + Z.of_nat n <= INSTR_ID_MAX ->
  instr_stat_cells n index s =
    Ok (instr_entry s <$> omap (fun v => pair v <$> name_at v) (seqZ index (Z.of_nat n))).
Proof.
  intros Hlen. change INSTR_ID_MAX with 123 in *. revert index.
  induction n as [|n IH]; intros index Hi Hn; cbn [instr_stat_cells]; [done|].
  rewrite seqZ_cons by lia. replace (Z.pred (Z.of_nat (S n))) with (Z.of_nat n) by lia.
  rewrite IH by lia. change (Z.succ index) with (index + 1).
  pose proof (instr_names_fit index ltac:(lia)) as Hf. unfold instr_name_fits in Hf.
  unfold as_u8. rewrite Z.mod_small by lia. cbn [omap list_omap]. unfold name_at at 2.
  destruct (InstrId_try_from index) as [id|e|p]; [|done..].
  destruct (fmt_id id) as [str|e|p]; [|done..]. cbn [mbind outcome_bind].
  by rewrite vget_ok by lia.
Qed.

Lemma instr_cells_entries s :
  vlen s = INSTR_ID_MAX -> instr_stat_cells (Z.to_nat INSTR_ID_MAX) 0 s = Ok (instr_entries s).
Proof. intros Hs. rewrite instr_cells_named by done. unfold instr_entries. by f_equal. Qed.

(** ** The tables *)

(** A table of the cells: its rows hold all the cells in order, and each of them
    fits the width that the view announces.  That width is within the limit, if
    a single column is, and one more column would not be. *)
Definition table_fits (cell max_width : Z) (v : View) (cells : list (list string)) : Prop :=
  exists rows : list (list (list string)),
    text v = Ok (String.concat EmptyString
      (concat (fmap (M:=list) (fun row => line ("  " +:+ join ", " row)) <$> rows))) /\
    (@concat string <$> rows) = cells /\
    Forall (Forall (fun row => Z.of_nat (String.length ("  " +:+ join ", " row)) <= width v)) rows /\
    (width_by_chunk_size cell 1 <= max_width -> width v <= max_width) /\
    max_width < width v + cell + 2.

Lemma concat_string_app a b :
  String.concat EmptyString (a ++ b) = String.concat EmptyString a +:+ String.concat EmptyString b.
Proof.
  assert (forall x l, String.concat EmptyString (x :: l) = x +:+ String.concat EmptyString l) as Hc.
  { intros x [|y l]; [simpl; by rewrite app_string_nil|done]. }
  induction a as [|x a IH]; [done|]. by rewrite <- app_comm_cons, !Hc, IH, app_string_assoc.
Qed.

(** The rows of one list of cells. *)
Lemma rows_fit cell c cells :
  0 <= cell -> 1 <= c -> Forall (fun s => Z.of_nat (String.length s) <= cell) cells ->
  exists rows, fmt_inner cells c EmptyString =
      String.concat EmptyString ((fun row => line ("  " +:+ join ", " row)) <$> rows) /\
    concat rows = cells /\
    Forall (fun row => Z.of_nat (String.length ("  " +:+ join ", " row)) <= width_by_chunk_size cell c) rows.
Proof.
  intros Hcell Hc Hall. destruct (chunks_spec (Z.to_nat c) cells) as [Hcat Hlen]; [lia|].
  exists (chunks (Z.to_nat c) cells). split_and!; [|done|].
  - unfold fmt_inner. f_equal. apply list_fmap_ext. intros _ row _. by rewrite app_string_nil.
  - rewrite <- Hcat in Hall. clear Hcat. induction Hlen as [|row rows Hr Hrows IH]; [constructor|].
    simpl in Hall. apply Forall_app in Hall as [Hrow Hall]. constructor; [|by apply IH].
    apply row_fits; [done|lia|lia|done].
Qed.

Section Properties.
Context `{Profile} `{FloatFmt}.

Lemma reg_table i f max_width :
  counts_ok (st_read i) -> counts_ok (st_write i) -> counts_ok (st_read f) -> counts_ok (st_write f) ->
  exists v, regfile_all_stat_view i f max_width = Some v /\
    table_fits reg_cell max_width v [reg_stat_cells ABINAME_TABLE i; reg_stat_cells F_ABINAME_TABLE f].
Proof.
  intros H1 H2 H3 H4. destruct names_fit as [Hn Hf].
  destruct (chunk_size_spec reg_cell max_width) as (c & Hc & Hc1 & Hle & Hlt); [done|].
  destruct (rows_fit reg_cell c (reg_stat_cells ABINAME_TABLE i)) as (r1 & Ht1 & Hc1' & Hw1);
    [done|done|by apply reg_cells_fit|].
  destruct (rows_fit reg_cell c (reg_stat_cells F_ABINAME_TABLE f)) as (r2 & Ht2 & Hc2' & Hw2);
    [done|done|by apply reg_cells_fit|].
  unfold regfile_all_stat_view. rewrite Hc. eexists. split; [reflexivity|].
  exists [r1; r2]. cbn [text width]. split_and!.
  - rewrite Ht1, Ht2, <- concat_string_app. simpl. by rewrite app_nil_r.
  - simpl. by rewrite Hc1', Hc2'.
  - by repeat constructor.
  - intros. destruct Hle as [->|]; done.
  - unfold width_by_chunk_size in *. lia.
Qed.

Lemma instr_table s max_width :
  counts_ok s -> vlen s = INSTR_ID_MAX ->
  exists v cells, instr_stat_view s max_width = Some v /\
    instr_stat_cells (Z.to_nat INSTR_ID_MAX) 0 s = Ok cells /\
    table_fits instr_cell max_width v [cells].
Proof.
  intros Hs Hlen. destruct (instr_cells_fit (Z.to_nat INSTR_ID_MAX) 0 s) as (cells & Hcells & Hall); [done..|].
  destruct (chunk_size_spec instr_cell max_width) as (c & Hc & Hc1 & Hle & Hlt); [done|].
  destruct (rows_fit instr_cell c cells) as (r & Ht & Hcat & Hw); [done..|].
  unfold instr_stat_view. rewrite Hc, Hcells. eexists _, cells. split; [reflexivity|]. split; [done|].
  exists [r]. cbn [text width mbind outcome_bind]. split_and!.
  - rewrite Ht. simpl. by rewrite app_nil_r.
  - simpl. by rewrite Hcat.
  - by repeat constructor.
  - intros. destruct Hle as [->|]; done.
  - unfold width_by_chunk_size in *. lia.
Qed.

(** C39: The two wide tables of the statistics fit the terminal, as long as no counter has
    more than eleven digits: the search for the number of columns ends for every
    width; the rows of the one table hold, for each of the 32 integer and then each
    of the 32 float registers in order, its name, its reads and its writes, and
    those of the other, for each of the 48 instructions in order, its mnemonic and
    how often it was executed; no row is longer than the announced width, which is
    within the terminal whenever one column is; and one more column would not
    fit. *)
Theorem tables_fit i f s max_width :
  regfilestat_ok i -> regfilestat_ok f -> vlen s = INSTR_ID_MAX ->
  counts_ok (st_read i) -> counts_ok (st_write i) -> counts_ok (st_read f) -> counts_ok (st_write f) ->
  counts_ok s ->
  (exists v, regfile_all_stat_view i f max_width = Some v /\
     table_fits reg_cell max_width v [reg_entries ABINAME_TABLE i; reg_entries F_ABINAME_TABLE f]) /\
  (exists v, instr_stat_view s max_width = Some v /\ table_fits instr_cell max_width v [instr_entries s]).
Proof.
  intros Hi Hf Hs ? ? ? ? ?. split.
  - rewrite <- (reg_cells_entries ABINAME_TABLE i), <- (reg_cells_entries F_ABINAME_TABLE f) by done.
    by apply reg_table.
  - destruct (instr_table s max_width) as (v & cells & Hv & Hc & Hfit); [done..|].
    rewrite instr_cells_entries in Hc by done. injection Hc as <-. by exists v.
Qed.

(** ** Printing all of them *)

(** The machine's views print, but for the sizes of the regions. *)
Lemma stats_texts {I O} max_width (c : Cpu I O) :
  vlen (i_stat c) = INSTR_ID_MAX ->
  exists regs instrs, cpu_views max_width c =
    Some [ memory_stat_view (stat_mem (memory c));
           heap_stack_stat_view (region_finish (vcell (rf_inner (reg_file c)) 4) (region c));
           regs; instrs; branch_stat_view (b_stat c); cache_stat_view (c_stat c) ] /\
    is_ok (text regs) /\ is_ok (text instrs).
Proof.
  intros Hlen. unfold cpu_views, regfile_all_stat_view, instr_stat_view.
  destruct (chunk_size_spec reg_cell max_width) as (c1 & -> & _); [done|].
  destruct (chunk_size_spec instr_cell max_width) as (c2 & -> & _); [done|].
  destruct (instr_cells_total (Z.to_nat INSTR_ID_MAX) 0 (i_stat c)) as (cells & Hcells); [done..|].
  eexists _, _. split; [reflexivity|]. cbn [text]. by rewrite Hcells.
Qed.

Lemma stats_print {I O} elapsed_ms max_width (s : Simulator I O) len clocks n :
  stat_builder s = mkSimStat (Some len) (Some clocks) (Some n) -> 0 <= len < 2 ^ 28 ->
  vlen (i_stat (cpu s)) = INSTR_ID_MAX ->
  (overflow_checks = true -> sp_min (region (cpu s)) <= sp_max (region (cpu s))) ->
  match fmt_simulator_stats elapsed_ms max_width s with
  | Ok (Some _) => overflow_checks = true -> hp_min (region (cpu s)) <= vcell (rf_inner (reg_file (cpu s))) 4
  | Panic p => p = ArithOverflow /\ overflow_checks = true /\
      vcell (rf_inner (reg_file (cpu s))) 4 < hp_min (region (cpu s))
  | _ => False
  end.
Proof.
  intros Hb Hl Hlen Hsp. unfold fmt_simulator_stats. rewrite Hb.
  destruct (stats_texts max_width (cpu s) Hlen) as (regs & instrs & Hv & Hr & Hi).
  cbn [finish unwrap mbind outcome_bind mret outcome_ret sb_instr_file_len sb_elapsed_clocks sb_cycle].
  rewrite Hv. unfold fmt_stats. set (w := foldr _ _ _). clearbody w. cbn [traverse text sim_stat_view ss_file_len].
  unfold mul_u32. destruct (Z.ltb_spec (len * 10) (2 ^ 32)); [|lia].
  cbn [mbind outcome_bind memory_stat_view text heap_stack_stat_view region_finish st_hp_max st_hp_min st_sp_max st_sp_min].
  set (hp := vcell _ _). set (lo := hp_min _).
  assert (exists d, sub_u32 (E:=never) (sp_max (region (cpu s))) (sp_min (region (cpu s))) = Ok d) as [d ->].
  { unfold sub_u32. case_match eqn:Hle; [by eexists|]. destruct overflow_checks; [|by eexists].
    specialize (Hsp eq_refl). lia. }
  unfold sub_u32.
  destruct (text regs) as [t1|[]|]; [|done..]. destruct (text instrs) as [t2|[]|]; [|done..].
  destruct (Z.leb_spec lo hp); [|destruct overflow_checks];
    cbn [mbind outcome_bind branch_stat_view cache_stat_view text]; [by intros|by split_and!|done].
Qed.

(** C38: The final statistics: once a run has ended (its counters are in the builder), the
    statistics print, for every width, unless the program has left its heap
    register below the value it started with: then a build with overflow checks
    panics instead. *)
Theorem statistics_print {I O} elapsed_ms max_width (s : Simulator I O) len clocks n :
  stat_builder s = mkSimStat (Some len) (Some clocks) (Some n) -> 0 <= len < 2 ^ 28 ->
  vlen (i_stat (cpu s)) = INSTR_ID_MAX ->
  (overflow_checks = true -> sp_min (region (cpu s)) <= sp_max (region (cpu s))) ->
  match fmt_simulator_stats elapsed_ms max_width s with
  | Ok (Some _) => overflow_checks = true -> hp_min (region (cpu s)) <= vcell (rf_inner (reg_file (cpu s))) 4
  | Panic p => p = ArithOverflow /\ overflow_checks = true /\
      vcell (rf_inner (reg_file (cpu s))) 4 < hp_min (region (cpu s))
  | _ => False
  end.
Proof. apply stats_print. Qed.
End Properties.

(** ** Tables *)

Section Demo.
#[local] Existing Instance debug_profile.
#[local] Instance demo_float : FloatFmt := {| fmt_f32 _ := "0"; fmt_f64_6 _ := "0.000000" |}.

Lemma counts_new n : counts_ok (vnew 0 n).
Proof. intros i. rewrite vcell_vnew. lia. Qed.

Lemma tables_fit_witness :
  (v ← regfile_all_stat_view regfilestat_new regfilestat_new 100; Some (width v)) = Some 99 /\
  exists v, regfile_all_stat_view regfilestat_new regfilestat_new 100 = Some v /\
    table_fits reg_cell 100 v [reg_entries ABINAME_TABLE regfilestat_new;
                               reg_entries F_ABINAME_TABLE regfilestat_new].
Proof.
  split; [by vm_compute|].
  apply (tables_fit regfilestat_new regfilestat_new instrstat_new 100); try apply counts_new; done.
Defined.

(** The machine before its first cycle, and the same after its heap register has
    been lowered. *)
Definition finished_sim (hp : Z) : Simulator EmptyIO BinaryOutput :=
  mkSim (set_reg_file (set_hp hp (reg_file demo_cpu)) demo_cpu) 0 0 debugsymbol_default None
    (mkSimStat (Some 8) (Some 0) (Some 0)).

(** The two cases of the property. *)
Lemma print_cases (r : outcome never (option string)) (checks : bool) lo hp :
  match r with
  | Ok (Some _) => checks = true -> lo <= hp
  | Panic p => p = ArithOverflow /\ checks = true /\ hp < lo
  | _ => False
  end ->
  (lo <= hp -> match r with Ok (Some _) => True | _ => False end) /\
  (checks = true -> hp < lo -> r = Panic ArithOverflow).
Proof. destruct r as [[t|]|[]|p]; try done; intros Hr; split; intros; naive_solver lia. Qed.

Lemma statistics_print_witness :
  match fmt_simulator_stats 0 80 (finished_sim 100) with Ok (Some _) => True | _ => False end /\
  fmt_simulator_stats 0 80 (finished_sim 0) = Panic ArithOverflow.
Proof.
  assert (forall hp, vlen (i_stat (cpu (finished_sim hp))) = INSTR_ID_MAX /\
    sp_min (region (cpu (finished_sim hp))) <= sp_max (region (cpu (finished_sim hp)))) as Hok.
  { intros hp. split; [apply demo_start|by vm_compute]. }
  split.
  - destruct (Hok 100) as (Hl & Hs). eapply print_cases.
    + apply (statistics_print 0 80 (finished_sim 100) 8 0 0); [reflexivity|lia|exact Hl|intros _; exact Hs].
    + by vm_compute.
  - destruct (Hok 0) as (Hl & Hs). eapply print_cases.
    + apply (statistics_print 0 80 (finished_sim 0) 8 0 0); [reflexivity|lia|exact Hl|intros _; exact Hs].
    + reflexivity.
    + by vm_compute.
Defined.
End Demo.
