(* ===== verification/Peg.v ===== *)
(** * Parsing expressions

    The combinators of the [peg] macro's language as the grammar of
    [cli/src/interactive.rs] uses them.  A parser reads the front of its input;
    it succeeds with the rest, fails, or panics inside an action.  A choice is
    ordered and does not come back to an alternative that has succeeded. *)
From Stdlib Require Import Ascii.
From S2P Require Import Prelude Text.

Abbreviation Parser A := (ST string () A) (only parsing).

(** A literal, a character class, and the class repeated zero or more times
    ([$(..)], the text). *)
Fixpoint strip (t s : string) : option string :=
  match t, s with
  | EmptyString, s => Some s
  | String c t, String d s => if (c =? d)%char then strip t s else None
  | _, _ => None
  end.

Definition failp {A} : Parser A := throw ().

Definition lit (t : string) : Parser () := fun s =>
  match strip t s with Some r => (Ok (), r) | None => (Err (), s) end.

Definition many (p : ascii -> bool) : Parser string := fun s => let '(t, r) := span p s in (Ok t, r).

Definition many1 (p : ascii -> bool) : Parser string := fun s =>
  match span p s with
  | (EmptyString, _) => (Err (), s)
  | (t, r) => (Ok t, r)
  end.

(** [p / q], [p?], [!p] and [{? .. }] *)
Definition choice {A} (p q : Parser A) : Parser A := fun s =>
  match p s with
  | (Err _, _) => q s
  | r => r
  end.

Definition optional {A} (p : Parser A) : Parser (option A) :=
  choice (a ← p; mret (Some a)) (mret None).

Definition notp {A} (p : Parser A) : Parser () := fun s =>
  match p s with
  | (Ok _, _) => (Err (), s)
  | (Err _, _) => (Ok (), s)
  | (Panic e, _) => (Panic e, s)
  end.

Definition try_into {E A} (o : outcome E A) : Parser A := lift (map_err (fun _ => ()) o).

(** The entry of a public rule: the whole input is read. *)
Definition parse_all {A} (p : Parser A) (s : string) : outcome () A :=
  match p s with
  | (Ok a, EmptyString) => Ok a
  | (Ok _, _) => Err ()
  | (Err e, _) => Err e
  | (Panic e, _) => Panic e
  end.

Declare Scope peg_scope.
Delimit Scope peg_scope with peg.
Infix "/" := choice (at level 40, left associativity) : peg_scope.
Notation "p '>>' q" := (p ≫= fun _ => q) (at level 38, right associativity) : peg_scope.
Notation "p '=>>' a" := (p ≫= fun _ => mret a) (at level 39, no associativity) : peg_scope.

(** ** Running a parser *)

Lemma choice_ok {A} (p q : Parser A) s a r : p s = (Ok a, r) -> choice p q s = (Ok a, r).
Proof. unfold choice. by intros ->. Qed.

Lemma choice_skip {A} (p q : Parser A) s e s' r : p s = (Err e, s') -> q s = r -> choice p q s = r.
Proof. unfold choice. by intros -> ->. Qed.

Lemma seq_ok {A B} (p : Parser A) (k : A -> Parser B) s a s' r :
  p s = (Ok a, s') -> k a s' = r -> (p ≫= k) s = r.
Proof. unfold mbind, ST_bind. by intros -> <-. Qed.

Lemma seq_err {A B} (p : Parser A) (k : A -> Parser B) s e s' :
  p s = (Err e, s') -> (p ≫= k) s = (Err e, s').
Proof. unfold mbind, ST_bind. by intros ->. Qed.

Lemma parse_all_ok {A} (p : Parser A) s a : p s = (Ok a, EmptyString) -> parse_all p s = Ok a.
Proof. unfold parse_all. by intros ->. Qed.

(** Run the first parser of a sequence on a text that begins with constants;
    leave the alternatives that fail on it. *)
Ltac peg_seq := eapply seq_ok; [reflexivity|cbv beta].
Ltac peg_skip := eapply choice_skip; [reflexivity|].

(** ** What a parser can return *)

Lemma yields_fail {A} (Q : A -> Prop) : yields failp Q.
Proof. by intros s a r. Qed.

Lemma yields_choice {A} (p q : Parser A) Q : yields p Q -> yields q Q -> yields (choice p q) Q.
Proof.
  intros Hp Hq s a r. unfold choice. destruct (p s) as [[b|e|e] s'] eqn:Hs; [|apply Hq|done].
  intros [= <- <-]. by apply (Hp s b s').
Qed.

Lemma yields_optional {A} (p : Parser A) (Q : option A -> Prop) :
  Q None -> yields p (fun a => Q (Some a)) -> yields (optional p) Q.
Proof.
  intros Hn Hp. apply yields_choice; [|by apply yields_ret].
  eapply yields_bind; [exact Hp|]. intros a Ha. by apply yields_ret.
Qed.

Lemma yields_try {A E} (o : outcome E A) (Q : A -> Prop) :
  (forall a, o = Ok a -> Q a) -> yields (try_into o) Q.
Proof. intros Ho s a r. unfold try_into, lift. destruct o; simpl; [|done..]. intros [= <- _]. by apply Ho. Qed.

Lemma yields_parse_all {A} (p : Parser A) (Q : A -> Prop) s a : yields p Q -> parse_all p s = Ok a -> Q a.
Proof.
  intros Hp. unfold parse_all. destruct (p s) as [[b|e|e] r] eqn:Hs; [|done..].
  destruct r; [|done]. intros [= <-]. by apply (Hp s b EmptyString).
Qed.

(** Go through a grammar. *)
Ltac yields_step :=
  first
    [ apply yields_choice | apply yields_fail | apply yields_ret
    | eapply yields_bind; [apply yields_any|intros ? _] ].
