(* ===== verification/Command.v ===== *)
(** * The commands of the interactive mode ([cli/src/interactive.rs])

    The grammar that the [peg] macro compiles, rule by rule, and the type of
    commands.  A number that does not fit its type makes the [unwrap] of its
    action panic. *)
From Stdlib Require Import Ascii.
From S2P Require Import Prelude Word Text Register Common DebugSymbol Peg.

(** ** Data *)

Inductive Operation := OpAdd | OpRemove.

Inductive WatchingKind :=
  | WatchRegFileKind (k : ShowRegFileKind)
  | WatchReg (r : RegId)
  | WatchFReg (r : FRegId)
  | WatchMemAddr (a : Addr).

Inductive StatKind := StatCpu.

Inductive ShowKind :=
  | ShowPc
  | ShowLabelDefNearPc (fold : bool)
  | ShowStat (k : StatKind)
  | ShowAllBp
  | ShowIsTraceEnabled
  | ShowWatchings
  | ShowAddedSpy (s : Spy)
  | ShowRemovedSpy (s : Spy)
  | ShowMemory (a : Addr)
  | ShowRegFile (k : ShowRegFileKind)
  | ShowRegisterI (r : RegId)
  | ShowRegisterF (r : FRegId).

Inductive StaticCommand :=
  | UpdateWhetherTrace (b : bool)
  | Show (k : ShowKind)
  | AddBp (bp : BreakPoint)
  | RemoveBp (a : Addr)
  | Watch (op : Operation) (k : WatchingKind)
  | SpyOn (op : Operation) (s : Spy).

Inductive Command :=
  | Dynamic (m : option ExecuteMode)
  | Static (s : StaticCommand)
  | ExitCommand.

(** ** Character classes *)

Definition in_range (lo hi : Z) (c : ascii) : bool :=
  let n := Z.of_nat (nat_of_ascii c) in (lo <=? n) && (n <=? hi).
Definition is_octal : ascii -> bool := in_range 48 55.
Definition is_hex (c : ascii) : bool := is_digit c || in_range 97 102 c || in_range 65 70 c.
Definition is_alpha (c : ascii) : bool := in_range 65 90 c || in_range 97 122 c.
Definition is_ident_char (c : ascii) : bool := (c =? "_")%char || is_alpha c || is_digit c.
Definition is_ws (c : ascii) : bool :=
  let n := nat_of_ascii c in (n =? 32)%nat || (n =? 9)%nat || (n =? 13)%nat || (n =? 10)%nat.

(** [str::parse] and [from_str_radix] with [unwrap], below a bound. *)
Definition unwrap_number (bound base : Z) (n : string) : outcome () Z :=
  if num_of base n <? bound then Ok (num_of base n) else Panic UnwrapFailed.

(** ** The grammar *)

Section Grammar.
Context `{Profile} (ds : DebugSymbol).

(** [_] and [__] *)
Definition ws0 : Parser () := _ ← many is_ws; mret ().
Definition ws1 : Parser () := _ ← many1 is_ws; mret ().

Open Scope peg_scope.

Definition unsigned : Parser Z :=
  n ← many1 is_digit; lift (unwrap_number (2 ^ 32) 10 n).
Definition usize : Parser Z :=
  n ← many1 is_digit; lift (unwrap_number (2 ^ 64) 10 n).

Definition radix : Parser Z :=
  (lit "0" >> (lit "x" / lit "X") >> (n ← many1 is_hex; lift (unwrap_number (2 ^ 64) 16 n)))
  / (lit "0" >> (lit "d" / lit "D") >> (n ← many1 is_digit; lift (unwrap_number (2 ^ 64) 10 n)))
  / (lit "0" >> (n ← many1 is_octal; lift (unwrap_number (2 ^ 64) 8 n))).

(** One letter, then letters, digits and underscores. *)
Definition ident : Parser string := fun s =>
  match s with
  | String c s' =>
      if is_alpha c then let '(t, r) := span is_ident_char s' in (Ok (String c t), r) else (Err (), s)
  | EmptyString => (Err (), s)
  end.

Definition addr : Parser Addr :=
  (r ← radix; mret (mkAddr r))
  / (k ← ident; match get_global ds k with Some d => mret (mkAddr (sym_addr d)) | None => failp end).

Definition reg_name : Parser RegId :=
  (i ← ident; try_into (RegId_try_from_str i))
  / (lit "x" >> notp ws1 >> (n ← unsigned; try_into (RegId_try_from n))).

Definition freg_name : Parser FRegId :=
  (i ← ident; try_into (FRegId_try_from_str i))
  / (lit "f" >> notp ws1 >> (n ← unsigned; try_into (FRegId_try_from n))).

Definition bp : Parser () := lit "bp" / lit "breakpoint".
Definition reg : Parser () := lit "register" / lit "reg".
Definition rm : Parser () := lit "rm" / lit "remove" / lit "-=".
Definition allregs : Parser () := reg >> (optional (lit "s") =>> ()).
Definition iregs : Parser () :=
  (lit "integer" / lit "int" / lit "i") >> ws1 >> reg >> (optional (lit "s") =>> ()).
Definition fregs : Parser () :=
  ((lit "floating" >> ws1 >> lit "point") / lit "float" / lit "f") >> ws1 >> reg
  >> (optional (lit "s") =>> ()).

Definition regfile_kind : Parser ShowRegFileKind :=
  (allregs =>> RegFileAll) / (iregs =>> RegFileI) / (fregs =>> RegFileF).

Definition dyn_command : Parser ExecuteMode :=
  (lit "skip" >> ws1 >> lit "until" >> ws1 >> (pc ← addr; mret (SkipUntil pc)))
  / (lit "run" =>> Run)
  / (lit "step" >> ws1 >> (step ← optional (radix / usize); mret (RunSteps (mkRunStep step)))).

Definition watch_kind : Parser WatchingKind :=
  (r ← reg_name; mret (WatchReg r))
  / (r ← freg_name; mret (WatchFReg r))
  / (a ← addr; mret (WatchMemAddr a))
  / (k ← regfile_kind; mret (WatchRegFileKind k)).

Definition read : Parser () := lit "read" / lit "r".
Definition write : Parser () := lit "write" / lit "w".
Definition mem : Parser () := lit "memory" / lit "mem".

Definition spy_kind : Parser SpyKind :=
  mem >> ws1 >> (a ← addr; mret (SpyMemory (mkSpyUnit (addr_val a) None))).

Definition spy : Parser Spy :=
  r ← optional read;
  w ← optional write;
  _ ← ws1;
  target ← spy_kind;
  mret (mkSpy (mkWatch (match r with Some _ => true | None => false end)
                       (match w with Some _ => true | None => false end)) target).

Definition folded : Parser bool :=
  (lit "fold" >> (optional (lit "ed") =>> true))
  / (((lit "unfold" >> (optional (lit "ed") =>> ())) / lit "full") =>> false)
  / mret true.

Definition show_kind : Parser ShowKind :=
  (lit "pc" =>> ShowPc)
  / (k ← regfile_kind; mret (ShowRegFile k))
  / (bp =>> ShowAllBp)
  / ((lit "definition" / lit "def") >> ws1 >> (fold ← folded; mret (ShowLabelDefNearPc fold)))
  / (mem >> ws1 >> (a ← addr; mret (ShowMemory a)))
  / (lit "stat" =>> ShowStat StatCpu)
  / (r ← reg_name; mret (ShowRegisterI r))
  / (r ← freg_name; mret (ShowRegisterF r)).

Definition static_command : Parser StaticCommand :=
  (lit "trace" >> ws1 >> (lit "off" =>> UpdateWhetherTrace false))
  / (lit "trace" >> (optional (ws1 >> lit "on") =>> UpdateWhetherTrace true))
  / (bp >> ws1 >> (a ← addr; mret (AddBp (breakpoint_new a))))
  / (bp >> ws1 >> rm >> ws1 >> (a ← addr; mret (RemoveBp a)))
  / (lit "watch" >> ws1 >> (wk ← watch_kind; mret (Watch OpAdd wk)))
  / (lit "unwatch" >> ws1 >> (wk ← watch_kind; mret (Watch OpRemove wk)))
  / (lit "spy" >> ws1 >> optional (lit "on" >> ws1) >> (s ← spy; mret (SpyOn OpAdd s)))
  / (lit "spy" >> ws1 >> lit "off" >> ws1 >> (s ← spy; mret (SpyOn OpAdd s)))
  / (lit "show" >> ws1 >> (sk ← show_kind; mret (Show sk))).

Definition command : Parser Command :=
  (ws0 >> (s ← static_command; ws0 =>> Static s))
  / (ws0 >> lit "exit" >> (ws0 =>> ExitCommand))
  / (ws0 >> (d ← optional dyn_command; ws0 =>> Dynamic d)).

(** [command::parse_command] *)
Definition parse_command (s : string) : outcome () Command := parse_all command s.
End Grammar.

(** ** Spelling a command

    The inverse of the grammar: a text for each command that has one. *)

Definition spell_number (n : Z) : string := "0x" +:+ digits 16 n.
Definition spell_reg (r : RegId) : string := match fmt_reg r with Ok s => s | _ => EmptyString end.
Definition spell_freg (r : FRegId) : string := match fmt_freg r with Ok s => s | _ => EmptyString end.
Definition spell_regfile (k : ShowRegFileKind) : string :=
  match k with RegFileAll => "regs" | RegFileI => "int regs" | RegFileF => "float regs" end.

Definition spell_mode (m : ExecuteMode) : string :=
  match m with
  | Run => "run"
  | SkipUntil a => "skip until " +:+ spell_number (addr_val a)
  | RunSteps s => "step " +:+ match step s with Some n => spell_number n | None => EmptyString end
  end.

Definition spell_watch (k : WatchingKind) : string :=
  match k with
  | WatchRegFileKind k => spell_regfile k
  | WatchReg r => spell_reg r
  | WatchFReg r => spell_freg r
  | WatchMemAddr a => spell_number (addr_val a)
  end.

Definition spell_show (k : ShowKind) : string :=
  match k with
  | ShowPc => "pc"
  | ShowLabelDefNearPc fold => if fold then "def fold" else "def full"
  | ShowStat StatCpu => "stat"
  | ShowAllBp => "bp"
  | ShowMemory a => "mem " +:+ spell_number (addr_val a)
  | ShowRegFile k => spell_regfile k
  | ShowRegisterI r => spell_reg r
  | ShowRegisterF r => spell_freg r
  | ShowIsTraceEnabled | ShowWatchings | ShowAddedSpy _ | ShowRemovedSpy _ => EmptyString
  end.

Definition spell_spy (s : Spy) : string :=
  (if contains_read (spy_watch s) then "r" else EmptyString)
  +:+ (if contains_write (spy_watch s) then "w" else EmptyString) +:+ " mem "
  +:+ match spy_target s with SpyMemory u => spell_number (spy_addr u) | _ => EmptyString end.

Definition spell_static (c : StaticCommand) : string :=
  match c with
  | UpdateWhetherTrace b => if b then "trace on" else "trace off"
  | Show k => "show " +:+ spell_show k
  | AddBp bp => "bp " +:+ spell_number (addr_val (bp_addr bp))
  | RemoveBp a => "bp rm " +:+ spell_number (addr_val a)
  | Watch OpAdd k => "watch " +:+ spell_watch k
  | Watch OpRemove k => "unwatch " +:+ spell_watch k
  | SpyOn _ s => "spy on " +:+ spell_spy s
  end.

Definition spell_command (c : Command) : string :=
  match c with
  | Dynamic None => EmptyString
  | Dynamic (Some m) => spell_mode m
  | Static s => spell_static s
  | ExitCommand => "exit"
  end.

(** The commands that have a spelling: numbers fit [usize], registers exist, a
    breakpoint has no condition, a spy watches something in the memory and is
    added; and no global symbol has the name of a keyword that is also tried as
    an address. *)
Definition usize_ok (n : Z) : Prop := 0 <= n < 2 ^ 64.

Definition regfile_free (ds : DebugSymbol) (k : ShowRegFileKind) : Prop :=
  match k with
  | RegFileAll => get_global ds "regs" = None
  | RegFileI => get_global ds "int" = None
  | RegFileF => get_global ds "float" = None
  end.

Definition mode_ok (m : ExecuteMode) : Prop :=
  match m with
  | Run => True
  | SkipUntil a => usize_ok (addr_val a)
  | RunSteps s => match step s with Some n => usize_ok n | None => True end
  end.

Definition watch_ok (ds : DebugSymbol) (k : WatchingKind) : Prop :=
  match k with
  | WatchRegFileKind k => regfile_free ds k
  | WatchReg r => reg_ok r
  | WatchFReg r => freg_ok r
  | WatchMemAddr a => usize_ok (addr_val a)
  end.

Definition show_ok (k : ShowKind) : Prop :=
  match k with
  | ShowMemory a => usize_ok (addr_val a)
  | ShowRegisterI r => reg_ok r
  | ShowRegisterF r => freg_ok r
  | ShowIsTraceEnabled | ShowWatchings | ShowAddedSpy _ | ShowRemovedSpy _ => False
  | _ => True
  end.

Definition spy_ok (s : Spy) : Prop :=
  contains_read (spy_watch s) || contains_write (spy_watch s) = true /\
  match spy_target s with
  | SpyMemory u => usize_ok (spy_addr u) /\ expire_at u = None
  | _ => False
  end.

Definition command_ok (ds : DebugSymbol) (c : Command) : Prop :=
  match c with
  | Dynamic None | ExitCommand | Static (UpdateWhetherTrace _) => True
  | Dynamic (Some m) => mode_ok m
  | Static (Show k) => show_ok k
  | Static (AddBp bp) => usize_ok (addr_val (bp_addr bp)) /\ bp_cond bp = None
  | Static (RemoveBp a) => usize_ok (addr_val a) /\ get_global ds "rm" = None
  | Static (Watch _ k) => watch_ok ds k
  | Static (SpyOn op s) => op = OpAdd /\ spy_ok s
  end.

(** How a line ends: with a line feed, after a carriage return or not, or with
    the input. *)
Definition line_end (r : string) : Prop :=
  r = EmptyString \/ r = String "010"%char EmptyString \/ r = String "013"%char (String "010"%char EmptyString).

(** ** Reading back *)

Section RoundTrip.
Context `{Profile} (ds : DebugSymbol).

Lemma hex_digit d : 0 <= d < 16 -> is_hex (digit_char d) = true.
Proof. revert d. refine (digit_cases _ _). by vm_compute. Qed.

Lemma radix_spelled n r :
  usize_ok n -> line_end r -> radix (spell_number n +:+ r) = (Ok n, r).
Proof.
  intros Hn Hr. assert (stops is_hex r = true) as Hs by (by destruct Hr as [->|[->| ->]]).
  pose proof (digits_nonempty 16 n) as Hne.
  pose proof (digits_chars 16 ltac:(lia) is_hex n hex_digit) as Hc.
  pose proof (num_digits 16 ltac:(lia) n) as Hv. unfold spell_number.
  destruct (digits 16 n) as [|c t]; [done|].
  change (("0x" +:+ String c t) +:+ r) with (String "0" (String "x" (String c t +:+ r))).
  unfold radix, choice at 1, choice at 1, choice at 1, lit. st_run.
  unfold many1. rewrite span_all by done. cbn. unfold unwrap_number. rewrite Hv by (unfold usize_ok in *; lia).
  unfold usize_ok in Hn. by destruct (Z.ltb_spec n (2 ^ 64)); [|lia].
Qed.

Lemma addr_spelled n r :
  usize_ok n -> line_end r -> addr ds (spell_number n +:+ r) = (Ok (mkAddr n), r).
Proof.
  intros Hn Hr. unfold addr, choice. by rewrite (run_ok _ _ _ _ _ (radix_spelled n r Hn Hr)).
Qed.

Lemma ws0_end r : line_end r -> ws0 r = (Ok (), EmptyString).
Proof. by intros [->|[->| ->]]. Qed.

Lemma static_line s c r :
  stops is_ws s = true -> line_end r -> static_command ds s = (Ok c, r) ->
  parse_command ds s = Ok (Static c).
Proof.
  intros Hs Hr Hc. apply parse_all_ok, choice_ok, choice_ok.
  eapply seq_ok; [unfold ws0, many; st_run; by rewrite span_none|]. cbv beta.
  eapply seq_ok; [exact Hc|]. cbv beta. eapply seq_ok; [by apply ws0_end|done].
Qed.

Lemma ws1_one s : stops is_ws s = true -> ws1 (String " " s) = (Ok (), s).
Proof.
  intros Hs. eapply (seq_ok _ _ _ " "); [|done]. unfold many1. cbn [span].
  change (is_ws " ") with true. cbn iota. by rewrite span_none.
Qed.

(** A keyword that no global symbol is named after is not an address. *)
Lemma keyword_not_addr k s s1 s2 e :
  radix s = (Err e, s1) -> ident s = (Ok k, s2) -> get_global ds k = None -> addr ds s = (Err (), s2).
Proof.
  intros Hx Hi Hk. unfold addr. eapply choice_skip; [by apply seq_err|].
  eapply seq_ok; [exact Hi|]. cbv beta. by rewrite Hk.
Qed.

Context (r : string) (Hr : line_end r).

(** Read the spelled number. *)
Ltac number :=
  eapply seq_ok; [by apply addr_spelled|reflexivity].

Lemma bp_spelled n :
  usize_ok n ->
  static_command ds ("bp " +:+ spell_number n +:+ r) = (Ok (AddBp (breakpoint_new (mkAddr n))), r).
Proof. intros Hn. do 6 apply choice_ok. peg_skip. peg_seq. peg_seq. number. Qed.

Lemma rm_spelled n :
  usize_ok n ->
  get_global ds "rm" = None ->
  static_command ds ("bp rm " +:+ spell_number n +:+ r) = (Ok (RemoveBp (mkAddr n)), r).
Proof.
  intros Hn Hrm. do 5 apply choice_ok. eapply choice_skip.
  - peg_skip. do 2 peg_seq. apply seq_err. by eapply (keyword_not_addr "rm").
  - do 4 peg_seq. number.
Qed.

Lemma watch_number_spelled n :
  usize_ok n -> watch_kind ds (spell_number n +:+ r) = (Ok (WatchMemAddr (mkAddr n)), r).
Proof. intros Hn. apply choice_ok. peg_skip. number. Qed.

Lemma mem_spelled n :
  usize_ok n ->
  show_kind ds ("mem " +:+ spell_number n +:+ r) = (Ok (ShowMemory (mkAddr n)), r).
Proof. intros Hn. do 3 apply choice_ok. peg_skip. peg_seq. peg_seq. number. Qed.

Lemma mode_spelled m :
  mode_ok m -> exists r', line_end r' /\ dyn_command ds (spell_mode m +:+ r) = (Ok m, r').
Proof.
  destruct m as [|[a]|[[k|]]]; cbn [mode_ok addr_val step]; intros Hk;
    [exists r; split; [done|]..|exists EmptyString; split; [by left|]].
  - by destruct Hr as [->|[->| ->]].
  - do 2 apply choice_ok. do 4 peg_seq.
    eapply seq_ok; [exact (addr_spelled a r Hk Hr)|reflexivity].
  - peg_skip. do 2 peg_seq. eapply seq_ok; [|reflexivity]. apply choice_ok.
    eapply seq_ok; [apply choice_ok, (radix_spelled k r Hk Hr)|reflexivity].
  - by destruct Hr as [->|[->| ->]].
Qed.

Lemma spy_spelled s :
  spy_ok s -> spy ds (spell_spy s +:+ r) = (Ok s, r).
Proof.
  destruct s as [[rd wr] [[a e]| |]]; intros [Hk Ht]; try done. simpl in Hk. destruct Ht as [Ha He].
  cbn [spy_addr expire_at] in Ha, He. subst e.
  destruct rd, wr; try done; do 3 peg_seq; (eapply seq_ok; [|reflexivity]);
    do 2 peg_seq; (eapply seq_ok; [exact (addr_spelled a r Ha Hr)|reflexivity]).
Qed.

(** The registers, by evaluation on each of them. *)
Lemma reg_cases (P : RegId -> Prop) :
  Forall (fun i => P (mkRegId (Z.of_nat i))) (seq 0 32) -> forall id, reg_ok id -> P id.
Proof.
  rewrite Forall_seq. intros Hall [i] Hi. unfold reg_ok in Hi. simpl in Hi.
  rewrite <- (Z2Nat.id i) by lia. apply Hall. lia.
Qed.

Lemma freg_cases (P : FRegId -> Prop) :
  Forall (fun i => P (mkFRegId (Z.of_nat i))) (seq 0 32) -> forall id, freg_ok id -> P id.
Proof.
  rewrite Forall_seq. intros Hall [i] Hi. unfold freg_ok in Hi. simpl in Hi.
  rewrite <- (Z2Nat.id i) by lia. apply Hall. lia.
Qed.

Lemma regs_spelled id :
  reg_ok id ->
  stops is_ws (spell_reg id +:+ r) = true /\
  watch_kind ds (spell_reg id +:+ r) = (Ok (WatchReg id), r) /\
  show_kind ds (spell_reg id +:+ r) = (Ok (ShowRegisterI id), r).
Proof.
  revert id. apply reg_cases. destruct Hr as [->|[->| ->]]; by repeat constructor.
Qed.

Lemma fregs_spelled id :
  freg_ok id ->
  stops is_ws (spell_freg id +:+ r) = true /\
  watch_kind ds (spell_freg id +:+ r) = (Ok (WatchFReg id), r) /\
  show_kind ds (spell_freg id +:+ r) = (Ok (ShowRegisterF id), r).
Proof.
  revert id. apply freg_cases. destruct Hr as [->|[->| ->]]; by repeat constructor.
Qed.

Lemma regfile_spelled k :
  regfile_free ds k -> watch_kind ds (spell_regfile k +:+ r) = (Ok (WatchRegFileKind k), r).
Proof.
  intros Hk. destruct k; simpl in Hk; destruct Hr as [->|[->| ->]];
    (eapply choice_skip; [peg_skip; apply seq_err; by eapply keyword_not_addr|reflexivity]).
Qed.

(** ** Commands *)

Lemma spell_show_head k : show_ok k -> stops is_ws (spell_show k +:+ r) = true.
Proof. destruct k as [|[]|[]| | | | | | |[]| |]; try done; simpl; intros; [by apply regs_spelled|by apply fregs_spelled]. Qed.

Lemma spell_watch_head k : watch_ok ds k -> stops is_ws (spell_watch k +:+ r) = true.
Proof. destruct k as [[]| | |]; try done; simpl; intros; [by apply regs_spelled|by apply fregs_spelled]. Qed.

Lemma show_spelled k :
  show_ok k -> static_command ds ("show " +:+ spell_show k +:+ r) = (Ok (Show k), r).
Proof.
  intros Hk. peg_skip. peg_seq. eapply seq_ok; [by apply ws1_one, spell_show_head|].
  eapply seq_ok; [|reflexivity].
  destruct k as [|[]|[]| | | | | |[a]|[]|id|id]; try done; simpl in Hk |- *;
    first [by apply regs_spelled | by apply fregs_spelled | by apply mem_spelled
          | by destruct Hr as [->|[->| ->]]].
Qed.

Lemma watch_spelled op k :
  watch_ok ds k -> static_command ds (spell_static (Watch op k) +:+ r) = (Ok (Watch op k), r).
Proof.
  intros Hk. assert (watch_kind ds (spell_watch k +:+ r) = (Ok k, r)) as Hw.
  { destruct k as [k|id|id|[a]]; simpl in Hk |- *;
      [by apply regfile_spelled|by apply regs_spelled|by apply fregs_spelled|by apply watch_number_spelled]. }
  destruct op; [do 4 apply choice_ok|do 3 apply choice_ok]; peg_skip; peg_seq;
    (eapply seq_ok; [by apply ws1_one, spell_watch_head|]); (eapply seq_ok; [exact Hw|done]).
Qed.

Lemma mode_line m : mode_ok m -> parse_command ds (spell_mode m +:+ r) = Ok (Dynamic (Some m)).
Proof.
  intros Hm. destruct (mode_spelled m Hm) as (r' & Hr' & Hd). apply parse_all_ok.
  assert (exists s', ((ws0 >> (s ← static_command ds; (ws0 =>> Static s)))
    / (ws0 >> lit "exit" >> (ws0 =>> ExitCommand)))%peg (spell_mode m +:+ r) = (Err (), s')) as [s' Hs'].
  { clear Hd Hm. by destruct m as [|[]|[[]]], Hr as [->|[->| ->]]; eexists. }
  eapply choice_skip; [exact Hs'|].
  assert (ws0 (spell_mode m +:+ r) = (Ok (), spell_mode m +:+ r)) as Hws.
  { by destruct m as [|[]|[[]]], Hr as [->|[->| ->]]. }
  eapply seq_ok; [exact Hws|]. cbv beta.
  eapply seq_ok; [apply choice_ok; eapply seq_ok; [exact Hd|reflexivity]|]. cbv beta.
  eapply seq_ok; [by apply ws0_end|done].
Qed.

Lemma spell_static_head c : stops is_ws (spell_static c +:+ r) = true.
Proof. by destruct c as [[]| | | |[]|]. Qed.

Lemma static_spelled c :
  command_ok ds (Static c) -> static_command ds (spell_static c +:+ r) = (Ok c, r).
Proof.
  destruct c as [[]|k|[[a] cond]|[a]|op k|op s]; cbn [command_ok]; intros Hc.
  - by destruct Hr as [->|[->| ->]].
  - by destruct Hr as [->|[->| ->]].
  - by apply show_spelled.
  - destruct Hc as [Ha Hcond]. cbn in Ha, Hcond. subst. by apply bp_spelled.
  - destruct Hc. by apply rm_spelled.
  - by apply watch_spelled.
  - destruct Hc as [-> Hs]. do 2 apply choice_ok. peg_skip.
    assert (spy ds (spell_spy s +:+ r) = (Ok s, r)) as Hspy by by apply spy_spelled.
    destruct s as [[[] []] t]; destruct Hs as [Hk _]; try done; clear Hk;
      do 3 peg_seq; (eapply seq_ok; [exact Hspy|done]).
Qed.

Lemma command_spelled c : command_ok ds c -> parse_command ds (spell_command c +:+ r) = Ok c.
Proof.
  destruct c as [[m|]|c|]; intros Hc.
  - by apply mode_line.
  - by destruct Hr as [->|[->| ->]].
  - apply (static_line _ _ r); [apply spell_static_head|done|by apply static_spelled].
  - by destruct Hr as [->|[->| ->]].
Qed.
End RoundTrip.

(** ** What a line can mean *)

(** The commands that the grammar can produce: a spy is added, on the memory,
    for ever; a breakpoint has no condition; only some things are shown. *)
Definition static_shape (c : StaticCommand) : Prop :=
  match c with
  | SpyOn op s => op = OpAdd /\ exists a, spy_target s = SpyMemory (mkSpyUnit a None)
  | AddBp bp => bp_cond bp = None
  | Show (ShowIsTraceEnabled | ShowWatchings | ShowAddedSpy _ | ShowRemovedSpy _) => False
  | _ => True
  end.

Definition command_shape (c : Command) : Prop :=
  match c with Static s => static_shape s | _ => True end.

Section Shape.
Context `{Profile} (ds : DebugSymbol).

Lemma yields_spy : yields (spy ds) (fun s => exists a, spy_target s = SpyMemory (mkSpyUnit a None)).
Proof.
  unfold spy. do 3 yields_step.
  apply (yields_bind _ _ (fun t => exists a, t = SpyMemory (mkSpyUnit a None))).
  - unfold spy_kind. repeat yields_step. by eexists.
  - intros t [x ->]. apply yields_ret. by exists x.
Qed.

Lemma yields_show : yields (show_kind ds) (fun k => static_shape (Show k)).
Proof. unfold show_kind. repeat yields_step; done. Qed.

Lemma yields_static : yields (static_command ds) static_shape.
Proof.
  assert (yields (s ← spy ds; mret (SpyOn OpAdd s)) static_shape) as Hspy.
  { eapply yields_bind; [apply yields_spy|]. intros s Hs. by apply yields_ret. }
  assert (yields (sk ← show_kind ds; mret (Show sk)) static_shape) as Hshow.
  { eapply yields_bind; [apply yields_show|]. intros k Hk. by apply yields_ret. }
  unfold static_command.
  repeat first [apply yields_choice | exact Hspy | exact Hshow | yields_step; try done].
Qed.

Lemma yields_command : yields (command ds) command_shape.
Proof.
  unfold command. repeat apply yields_choice; yields_step;
    [eapply yields_bind; [apply yields_static|intros s Hs]|..]; repeat (yields_step; try done).
Qed.

Lemma parse_command_shape s c : parse_command ds s = Ok c -> command_shape c.
Proof. apply yields_parse_all, yields_command. Qed.
End Shape.

(** ** Properties *)

Section Properties.
Context `{Profile} (ds : DebugSymbol).

(** C22: Every command that has a spelling is read back from it, at the end of any line:
    modes with their numbers, breakpoints, watchings of registers by name, of
    register files and of addresses, everything that can be shown, and spies. *)
Theorem command_round_trip c r :
  command_ok ds c -> line_end r -> parse_command ds (spell_command c +:+ r) = Ok c.
Proof. intros Hc Hr. by apply command_spelled. Qed.

(** No line turns a spy off: whatever the text and the symbols, a command on a spy is
    one that adds it, on the memory and for ever; in particular the line [spy off]
    adds a spy, and the code that removes spies, or that handles spies on
    registers, is never reached. *)
Theorem spy_is_only_added line c :
  parse_command ds line = Ok c ->
  match c with
  | Static (SpyOn op s) => op = OpAdd /\ exists a, spy_target s = SpyMemory (mkSpyUnit a None)
  | _ => True
  end.
Proof. intros Hc. apply parse_command_shape in Hc. by destruct c as [|[]|]. Qed.
End Properties.

Section Demo.
#[local] Existing Instance debug_profile.

Lemma command_round_trip_witness :
  parse_command debugsymbol_default "watch fa0" = Ok (Static (Watch OpAdd (WatchFReg (mkFRegId 10)))) /\
  parse_command debugsymbol_default "skip until 0x1f4" = Ok (Dynamic (Some (SkipUntil (mkAddr 500)))).
Proof.
  split.
  - apply (command_round_trip debugsymbol_default (Static (Watch OpAdd (WatchFReg (mkFRegId 10)))) EmptyString);
      [by apply (bool_decide_unpack _)|by left].
  - apply (command_round_trip debugsymbol_default (Dynamic (Some (SkipUntil (mkAddr 500)))) EmptyString);
      [done|by left].
Defined.

Lemma spy_is_only_added_witness :
  parse_command debugsymbol_default "spy off rw mem 0x20"
  = Ok (Static (SpyOn OpAdd (mkSpy (mkWatch true true) (SpyMemory (mkSpyUnit 32 None))))) /\
  exists a, SpyMemory (mkSpyUnit 32 None) = SpyMemory (mkSpyUnit a None).
Proof.
  assert (parse_command debugsymbol_default "spy off rw mem 0x20"
    = Ok (Static (SpyOn OpAdd (mkSpy (mkWatch true true) (SpyMemory (mkSpyUnit 32 None)))))) as Hp
    by (by vm_compute).
  split; [exact Hp|]. apply (spy_is_only_added debugsymbol_default _ _ Hp).
Defined.
End Demo.
