(* ===== verification/Interactive.v ===== *)
(** * The interactive mode ([execute_interactive] of cli/src/interactive.rs)

    A session: the simulator, the options that the commands set, the lines that
    are still to be read and the text printed so far.  The two nested loops of
    the code are [input_loop], which reads commands up to the next run, and
    [interactive_loop], which runs the program and reports; what the traced
    cycles print is not part of the text. *)
From Stdlib Require Import Ascii.
From S2P Require Import Prelude Word Text Vec Ty Register Common RegFile Memory Io Cpu Isa CpuProps DebugSymbol Display Sim Disassemble Views Peg Command.

(** The terminal: its width in columns ([terminal_size], a [u16]), and the set of
    tokens that the [peg] library expects where a line fails to parse. *)
Class Terminal := { terminal_size : option Z; expected : string -> string }.

Record Session (I O : Type) := mkSession {
  sim : Simulator I O;
  opt : SimulationOption;
  watching_i : bool;
  watching_f : bool;
  stdin : list string;
  stdout : string
}.
Arguments mkSession {I O}.
Arguments sim {I O}.
Arguments opt {I O}.
Arguments watching_i {I O}.
Arguments watching_f {I O}.
Arguments stdin {I O}.
Arguments stdout {I O}.

(** How the input loop goes on after a line, and how it ends. *)
Inductive InputNext :=
  | Again (show : option ShowKind)
  | Break (d : option ExecuteMode)
  | Leave.

(** How the session ends; the last two are not results of the code. *)
Inductive Ending := Finished | OutOfTurns | OutOfCycles.

Section Interactive.
Context `{Profile} `{FloatFmt} `{Terminal} {I O : Type} `{Input I} `{Output O}.

Abbreviation SessM := (ST (Session I O) never) (only parsing).

Definition set_sim (x : Simulator I O) (s : Session I O) : Session I O :=
  mkSession x (opt s) (watching_i s) (watching_f s) (stdin s) (stdout s).
Definition set_opt (o : SimulationOption) (s : Session I O) : Session I O :=
  mkSession (sim s) o (watching_i s) (watching_f s) (stdin s) (stdout s).
Definition set_regfile (i f : bool) (s : Session I O) : Session I O :=
  mkSession (sim s) (opt s) i f (stdin s) (stdout s).

Definition on_sim {A} (m : ST (Simulator I O) never A) : SessM A := zoom sim set_sim m.
Definition print (t : string) : SessM () :=
  modify (fun s => mkSession (sim s) (opt s) (watching_i s) (watching_f s) (stdin s) (stdout s +:+ t)).
Definition println (t : string) : SessM () := print (line t).

(** [read_line]: the empty string at the end of the input. *)
Definition read_line : SessM string := fun s =>
  match stdin s with
  | [] => (Ok EmptyString, s)
  | l :: ls => (Ok l, mkSession (sim s) (opt s) (watching_i s) (watching_f s) ls (stdout s))
  end.

(** [get_terminal_width]: [w.0 - 20] on a [u16]. *)
Definition get_terminal_width : outcome never (option Z) :=
  match terminal_size with
  | None => Ok None
  | Some w =>
      if 20 <=? w then Ok (Some (w - 20))
      else if overflow_checks then Panic ArithOverflow else Ok (Some ((w - 20) mod 2 ^ 16))
  end.

(** ** Showing *)

Definition show_memory (a : Addr) : SessM () := fun s =>
  let '(o, c) := cpu_get_mem a (cpu (sim s)) in
  let s1 := set_sim (set_cpu c (sim s)) s in
  match o with
  | Ok v => println ("M[" +:+ fmt_addr a +:+ "] == " +:+ fmt_typed v) s1
  | Err e => println (fmt_runtime_error e) s1
  | Panic p => (Panic p, s1)
  end.

Definition show_regfile (k : ShowRegFileKind) (chunk : Z) : SessM () :=
  s ← gets (fun s => s);
  println (fmt_regfile k chunk (reg_file (cpu (sim s)))).

(** The breakpoints, sorted by address. *)
Fixpoint insert_bp (b : Addr * BreakPoint) (l : list (Addr * BreakPoint)) : list (Addr * BreakPoint) :=
  match l with
  | [] => [b]
  | c :: l => if addr_val b.1 <=? addr_val c.1 then b :: c :: l else c :: insert_bp b l
  end.
Definition sorted_breakpoints (m : gmap Addr BreakPoint) : list BreakPoint :=
  snd <$> foldr insert_bp [] (map_to_list m).

Definition show_breakpoints : SessM () :=
  s ← gets (fun s => s);
  match sorted_breakpoints (breakpoints (opt s)) with
  | [] => println "no breakpoints set."
  | v => _ ← print "breakpoints: "; println ("[" +:+ join ", " (fmt_breakpoint <$> v) +:+ "]")
  end.

Definition tab : string := String "009"%char EmptyString.
Definition quote : string := String "034"%char EmptyString.

(** One kind of the watched values: nothing if the list is empty. *)
Definition watching_line {A} (name : string) (fmt : A -> outcome never string) (l : list A) (printed : bool)
    : SessM bool :=
  match l with
  | [] => mret printed
  | _ =>
      _ ← (if printed then mret () else println "watching these values:");
      _ ← print (tab +:+ name);
      ss ← lift (traverse fmt l);
      _ ← println (join ", " ss);
      mret true
  end.

Definition show_watchings : SessM () :=
  s ← gets (fun s => s);
  let w := watchings (opt s) in
  printed ← watching_line "registers: " fmt_reg (watch_reg w) false;
  printed ← watching_line "floating pointer registers: " fmt_freg (watch_freg w) printed;
  printed ← watching_line "memory: " (fun a => Ok (fmt_addr a)) (watch_memory w) printed;
  let regfile := if watching_i s && watching_f s then Some "RegFile (All)"%string
                 else if watching_i s then Some "RegFile (Integer)"%string
                 else if watching_f s then Some "RegFile (Float)"%string else None in
  match regfile with
  | Some t =>
      _ ← (if (printed : bool) then mret () else println "watching these values:");
      println (tab +:+ t)
  | None => if (printed : bool) then mret () else println "nothing to watch."
  end.

Definition show_definition (fold : bool) : SessM () :=
  _ ← println "loading assembly near pc...";
  s ← gets (fun s => s);
  match disassemble_near (mkDisOption None fold None) (sim s) with
  | Ok asm =>
      _ ← (if fold && did_omit_output asm
           then println ("some output is omitted; type " +:+ quote +:+ "show def full" +:+ quote
                         +:+ " to full output.")
           else mret ());
      _ ← println EmptyString;
      ls ← lift (fmt_assembly asm);
      println (join EmptyString (line <$> ls))
  | Err e => println (fmt_symbol_error e)
  | Panic p => lift (Panic p)
  end.

(** The statistics of the machine; the search for the columns always ends
    ([chunk_size_spec]). *)
Definition show_stat (width : option Z) : SessM () :=
  s ← gets (fun s => s);
  match cpu_views (default 60 width) (cpu (sim s)) with
  | Some views => t ← lift (fmt_stats views); println t
  | None => mret ()
  end.

Definition show_register (id : RegId) : SessM () :=
  name ← lift (fmt_reg id);
  _ ← print (name +:+ " == ");
  v ← on_sim (sim_get_reg id);
  println (fmt_typed v).

Definition show_fregister (id : FRegId) : SessM () :=
  name ← lift (fmt_freg id);
  _ ← print (name +:+ " == ");
  v ← on_sim (sim_get_freg id);
  println (fmt_f32 v).

Definition show_value (width : option Z) (chunk : Z) (k : ShowKind) : SessM () :=
  match k with
  | ShowPc =>
      s ← gets (fun s => s);
      println ("pc: " +:+ fmt_pc (pc (cpu (sim s))) +:+ ", cycle #" +:+ dec (cycle (sim s)))
  | ShowIsTraceEnabled =>
      s ← gets (fun s => s);
      println ("trace " +:+ if do_trace (opt s) then "enabled" else "disabled")
  | ShowStat StatCpu => show_stat width
  | ShowMemory a => show_memory a
  | ShowRegFile k => show_regfile k chunk
  | ShowRegisterI id => show_register id
  | ShowRegisterF id => show_fregister id
  | ShowAllBp => show_breakpoints
  | ShowWatchings => show_watchings
  | ShowLabelDefNearPc fold => show_definition fold
  | ShowAddedSpy x => t ← lift (fmt_spy x); println ("added spy on " +:+ t)
  | ShowRemovedSpy x => t ← lift (fmt_spy x); println ("removed spy on " +:+ t)
  end.

(** ** Static commands *)

Definition with_watchings (w : Watchings) (o : SimulationOption) : SimulationOption :=
  mkOption (do_trace o) (mode o) (breakpoints o) w.
Definition with_breakpoints (b : gmap Addr BreakPoint) (o : SimulationOption) : SimulationOption :=
  mkOption (do_trace o) (mode o) b (watchings o).
Definition with_trace (b : bool) (o : SimulationOption) : SimulationOption :=
  mkOption b (mode o) (breakpoints o) (watchings o).
Definition with_mode (m : ExecuteMode) (o : SimulationOption) : SimulationOption :=
  mkOption (do_trace o) m (breakpoints o) (watchings o).

(** [push] unless it is there; [remove] at the first position. *)
Definition push_new {A} `{EqDecision A} (x : A) (l : list A) : list A :=
  if bool_decide (x ∈ l) then l else l ++ [x].
Fixpoint remove_first {A} `{EqDecision A} (x : A) (l : list A) : list A :=
  match l with [] => [] | y :: l => if decide (y = x) then l else y :: remove_first x l end.

(** The update of one of the watched lists. *)
Definition watch_list {A} `{EqDecision A} (op : Operation) (x : A) (l : list A) : list A :=
  match op with OpAdd => push_new x l | OpRemove => remove_first x l end.

(** The flags of the watched register files: [|=] adds one, [^=] toggles it. *)
Definition watch_flag (op : Operation) (b : bool) : bool :=
  match op with OpAdd => true | OpRemove => negb b end.

Definition run_watch (op : Operation) (k : WatchingKind) (s : Session I O) : Session I O :=
  let w := watchings (opt s) in
  let put w := set_opt (with_watchings w (opt s)) s in
  match k with
  | WatchReg r => put (mkWatchings (watch_list op r (watch_reg w)) (watch_freg w) (watch_memory w))
  | WatchFReg r => put (mkWatchings (watch_reg w) (watch_list op r (watch_freg w)) (watch_memory w))
  | WatchMemAddr a => put (mkWatchings (watch_reg w) (watch_freg w) (watch_list op a (watch_memory w)))
  | WatchRegFileKind RegFileAll =>
      match op with OpAdd => set_regfile true true s | OpRemove => set_regfile false false s end
  | WatchRegFileKind RegFileI => set_regfile (watch_flag op (watching_i s)) (watching_f s) s
  | WatchRegFileKind RegFileF => set_regfile (watching_i s) (watch_flag op (watching_f s)) s
  end.

Definition run_spy (op : Operation) (x : Common.Spy) : SessM () :=
  match spy_target x with
  | SpyMemory u =>
      modify (fun s =>
        let f := match op with OpAdd => add_mem_spy | OpRemove => remove_mem_spy end in
        set_sim (set_cpu (f (spy_watch x) u (cpu (sim s))) (sim s)) s)
  | SpyRegisterI _ | SpyRegisterF _ => lift (Panic NotImplemented)
  end.

(** A static command, and what is shown after it. *)
Definition run_static (c : StaticCommand) : SessM ShowKind :=
  match c with
  | Show k => mret k
  | SpyOn op x =>
      _ ← run_spy op x;
      mret (match op with OpAdd => ShowAddedSpy x | OpRemove => ShowRemovedSpy x end)
  | UpdateWhetherTrace b => _ ← modify (fun s => set_opt (with_trace b (opt s)) s); mret ShowIsTraceEnabled
  | AddBp bp =>
      _ ← modify (fun s => set_opt (with_breakpoints (<[bp_addr bp := bp]> (breakpoints (opt s))) (opt s)) s);
      mret ShowAllBp
  | RemoveBp a =>
      _ ← modify (fun s => set_opt (with_breakpoints (delete a (breakpoints (opt s))) (opt s)) s);
      mret ShowAllBp
  | Watch op k => _ ← modify (run_watch op k); mret ShowWatchings
  end.

(** ** The input loop *)

Definition prompt : SessM () :=
  s ← gets (fun s => s);
  _ ← print match mode (opt s) with
            | Run => "run "
            | SkipUntil a => "until " +:+ fmt_addr a +:+ " "
            | RunSteps r => "step " +:+ dec (get_step r) +:+ " "
            end;
  _ ← (if do_trace (opt s) then print "[trace] " else mret ());
  print "> ".

(** What a line does. *)
Definition run_line (str : string) : SessM InputNext :=
  s ← gets (fun s => s);
  match parse_command (debug_symbol (sim s)) str with
  | Panic p => lift (Panic p)
  | Err _ => _ ← println ("parse error: expected " +:+ expected str); mret (Again None)
  | Ok (Dynamic d) => mret (Break d)
  | Ok (Static c) => k ← run_static c; mret (Again (Some k))
  | Ok ExitCommand => _ ← modify (fun s => set_sim (exit_sim (sim s)) s); mret Leave
  end.

(** One turn of ['input]. *)
Definition input_turn (width : option Z) (chunk : Z) (show : option ShowKind) : SessM InputNext :=
  _ ← match show with Some k => show_value width chunk k | None => mret () end;
  _ ← prompt;
  str ← read_line;
  run_line str.

(** ['input]: the mode to run in, or [None] to leave; every turn reads a line, and
    an empty input ends the loop. *)
Fixpoint input_loop (fuel : nat) (width : option Z) (chunk : Z) (show : option ShowKind)
    : SessM (option (option (option ExecuteMode))) :=
  match fuel with
  | Datatypes.O => mret None
  | S fuel =>
      next ← input_turn width chunk show;
      match next with
      | Again show => input_loop fuel width chunk show
      | Break d => mret (Some (Some d))
      | Leave => mret (Some None)
      end
  end.

(** ** Reporting a stop *)

Definition print_reason (reason : BreakReason) : SessM () :=
  s ← gets (fun s => s);
  match reason with
  | Reached _ | StepEnded => mret ()
  | AtBreakPoint a => println ("reached " +:+ fmt_addr a)
  | Spied r =>
      t ← lift (fmt_spy_kind (spied_target r));
      match spied_kind r with
      | SpyRead => println ("detect read out of " +:+ t)
      | SpyWrite before after =>
          _ ← println ("detect write to " +:+ t);
          println (tab +:+ "value updated " +:+ fmt_typed before +:+ " -> " +:+ fmt_typed after)
      end
  | CannotRestart =>
      e ← lift (unwrap (fatal_error (sim s)));
      println ("cannot restart simulator due to previous error: " +:+ fmt_runtime_error e)
  | Failed =>
      e ← lift (unwrap (fatal_error (sim s)));
      println ("failed at #" +:+ dec (cycle (sim s)) +:+ ": " +:+ fmt_runtime_error e)
  end.

(** [reg == value], separated by commas; a key that is not in the map panics. *)
Definition watched_value {K} `{Countable K} {V} (name : K -> outcome never string) (fmt : V -> string)
    (values : gmap K V) (k : K) : outcome never string :=
  v ← unwrap (values !! k);
  n ← name k;
  Ok (n +:+ " == " +:+ fmt v).

Definition print_watched {K} `{Countable K} {V} (name : K -> outcome never string) (fmt : V -> string)
    (values : gmap K V) (l : list K) : SessM () :=
  match l with
  | [] => mret ()
  | _ => ts ← lift (traverse (watched_value name fmt values) l); println (join ", " ts)
  end.

Definition print_watchings (chunk : Z) (v : WatchingValues) : SessM () :=
  s ← gets (fun s => s);
  let w := watchings (opt s) in
  _ ← (if watching_i s && watching_f s then show_regfile RegFileAll chunk
       else
         _ ← (if watching_i s then show_regfile RegFileI chunk
              else print_watched fmt_reg fmt_typed (reg_map v) (watch_reg w));
         if watching_f s then show_regfile RegFileF chunk
         else print_watched fmt_freg fmt_f32 (freg_map v) (watch_freg w));
  print_watched (fun a => Ok ("M[" +:+ fmt_addr a +:+ "]")) fmt_typed (memory_map v) (watch_memory w).

(** ** The session *)

(** The run after the input loop, and its report; [None]: the session goes on. *)
Definition run_once (cycles : nat) (chunk : Z) : SessM (option Ending) :=
  s ← gets (fun s => s);
  flow ← on_sim (single_cycle cycles (opt s));
  match flow with
  | None => mret (Some OutOfCycles)
  | Some SimExit => _ ← println "program halts"; mret (Some Finished)
  | Some (SimBreak b) =>
      _ ← print_reason (ob_reason b);
      _ ← print_watchings chunk (ob_watchings b);
      mret None
  end.

(** [if let Some(mode) = update_mode] *)
Definition update_mode (d : option ExecuteMode) : SessM () :=
  match d with
  | Some m =>
      _ ← println ("mode: " +:+ fmt_mode m);
      modify (fun s => set_opt (with_mode m (opt s)) s)
  | None => mret ()
  end.

(** ['interactive]; [cycles] bounds each call of [single_cycle]. *)
Fixpoint interactive_loop (turns cycles : nat) (width : option Z) (chunk : Z) : SessM Ending :=
  match turns with
  | Datatypes.O => mret OutOfTurns
  | S turns =>
      s ← gets (fun s => s);
      update ← input_loop (S (length (stdin s))) width chunk None;
      match update with
      | None => mret OutOfTurns
      | Some None => mret Finished
      | Some (Some d) =>
          _ ← update_mode d;
          e ← run_once cycles chunk;
          match (e : option Ending) with
          | Some e => mret e
          | None => interactive_loop turns cycles width chunk
          end
      end
  end.

(** [execute_interactive]: from the default options. *)
Definition execute_interactive (turns cycles : nat) : SessM Ending :=
  width ← lift get_terminal_width;
  let chunk := Z.max (default 2 ((fun w => w / 30) <$> width)) 2 in
  _ ← println "entering interactive.";
  r ← interactive_loop turns cycles width chunk;
  _ ← match r with Finished => println "exiting interactive." | _ => mret () end;
  mret r.

Definition new_session (s : Simulator I O) (lines : list string) : Session I O :=
  mkSession s default_option false false lines EmptyString.
End Interactive.
