(* ===== verification/InteractiveProps.v ===== *)
(** * What a session guarantees

    Commands leave the program that is debugged alone, every line is read once,
    an [exit] line ends the session when the runs of the program end, and what
    happens when the input ends before that. *)
From Stdlib Require Import Ascii.
From S2P Require Import Prelude Word Text Vec Ty Register Common RegFile Cache BranchPredictor Memory Io Cpu Isa IsaProps CpuInv CpuProps CpuTheorems DebugSymbol Display Sim SimProps Disassemble Views Peg Command Interactive.

(** ** What a command leaves alone *)

Section Facts.
Context `{Profile} `{FloatFmt} `{Terminal} {I O : Type} `{!Input I} `{!Output O}.

(** What a command leaves alone: the program and the rest of the input. *)
Definition untouched (s : Session I O) := (program (sim s), stdin s).

Lemma keeps_on_sim {A} (m : ST (Simulator I O) never A) :
  keeps program m -> keeps untouched (on_sim m).
Proof.
  intros Hm s. unfold on_sim, zoom, untouched. specialize (Hm (sim s)).
  destruct (m (sim s)) as [o x]. simpl in *. by rewrite Hm.
Qed.

Lemma keeps_print t : keeps untouched (print t).
Proof. by apply keeps_modify. Qed.

Ltac keeps_all :=
  repeat match goal with
  | |- keeps _ (print _) => apply keeps_print
  | |- keeps _ (mret _) => apply keeps_ret
  | |- keeps _ (gets _) => apply keeps_gets
  | |- keeps _ (lift _) => apply keeps_lift
  | |- keeps _ (on_sim (sim_get_reg _)) => apply keeps_on_sim, keeps_reg
  | |- keeps _ (on_sim (sim_get_freg _)) => apply keeps_on_sim, keeps_freg
  | |- keeps _ (_ ≫= _) => apply keeps_bind; [|intros ?]
  | |- keeps _ (match ?x with _ => _ end) => destruct x
  end.

Lemma keeps_show_memory a : keeps untouched (show_memory a).
Proof.
  intros s. unfold show_memory. pose proof (keeps_get_mem a (cpu (sim s))) as Hm.
  destruct (cpu_get_mem a (cpu (sim s))) as [o c]. simpl in Hm.
  assert (untouched (set_sim (set_cpu c (sim s)) s) = untouched s) as <- by
    (unfold untouched, program; simpl; congruence).
  by destruct o.
Qed.

Lemma keeps_watching_line {A} name (fmt : A -> outcome never string) l printed :
  keeps untouched (watching_line name fmt l printed).
Proof. unfold watching_line, println. destruct l; keeps_all. Qed.

Lemma keeps_watchings : keeps untouched show_watchings.
Proof.
  unfold show_watchings, println. apply keeps_bind; [apply keeps_gets|intros s].
  do 3 (apply keeps_bind; [apply keeps_watching_line|intros ?]). keeps_all.
Qed.

Lemma keeps_show_regfile k chunk : keeps untouched (show_regfile k chunk).
Proof. unfold show_regfile, println. keeps_all. Qed.

Lemma keeps_show width chunk k : keeps untouched (show_value width chunk k).
Proof.
  destruct k as [|fold|[]| | | |x|x|addr|k|id|id]; cbn [show_value].
  1: unfold println; keeps_all.
  1: unfold show_definition, println; keeps_all.
  1: unfold show_stat, println; keeps_all.
  1: unfold show_breakpoints, println; keeps_all.
  1: unfold println; keeps_all.
  1: apply keeps_watchings.
  1-2: unfold println; keeps_all.
  1: apply keeps_show_memory.
  1: apply keeps_show_regfile.
  1: unfold show_register, println; keeps_all.
  1: unfold show_fregister, println; keeps_all.
Qed.

Lemma keeps_prompt : keeps untouched prompt.
Proof. unfold prompt. keeps_all. Qed.

Lemma keeps_static c : keeps untouched (run_static c).
Proof.
  destruct c as [b|k|bp|a|op k|op x]; cbn [run_static]; unfold run_spy; keeps_all;
    try (by apply keeps_modify).
  - apply keeps_modify. intros s. by destruct k as [[]| | |], op.
  - apply keeps_modify. intros s. unfold untouched, program. by destruct op, (spy_watch x) as [[] []].
Qed.

Lemma keeps_line str : keeps untouched (run_line str).
Proof.
  unfold run_line, println. apply keeps_bind; [apply keeps_gets|intros s].
  destruct (parse_command _ _) as [[d|c|]|e|p]; try (keeps_all; fail).
  - apply keeps_bind; [apply keeps_static|intros ?; apply keeps_ret].
  - apply keeps_bind; [by apply keeps_modify|intros ?; apply keeps_ret].
Qed.

(** The empty line, which is also what the end of the input reads as, is the
    command to run on. *)
Lemma parse_empty ds : parse_command ds EmptyString = Ok (Dynamic None).
Proof. done. Qed.

Lemma untouched_inv (a b : Session I O) :
  untouched a = untouched b -> program (sim a) = program (sim b) /\ stdin a = stdin b.
Proof. intros Hu. split; [exact (f_equal fst Hu)|exact (f_equal snd Hu)]. Qed.

(** A turn of the input loop reads one line, runs it, and changes nothing else of
    the program and of the input. *)
Lemma input_turn_spec width chunk show s o s' :
  input_turn width chunk show s = (o, s') ->
  program (sim s') = program (sim s) /\
  match o with
  | Ok next =>
      stdin s' = tail (stdin s) /\
      exists s1, untouched s1 = (program (sim s), tail (stdin s)) /\
        run_line (default EmptyString (head (stdin s))) s1 = (Ok next, s')
  | _ => True
  end.
Proof.
  unfold input_turn. set (first := match show with Some k => _ | None => _ end).
  assert (keeps untouched first) as Hfirst.
  { unfold first. destruct show; [apply keeps_show|apply keeps_ret]. }
  clearbody first. specialize (Hfirst s). unfold mbind at 1, ST_bind at 1.
  destruct (first s) as [[[]|[]|p] s1]; simpl in Hfirst;
    apply untouched_inv in Hfirst as [Hp1 Hs1].
  2: { intros [= <- <-]. by split. }
  unfold mbind at 1, ST_bind at 1. pose proof (keeps_prompt s1) as Hprompt.
  destruct (prompt s1) as [[[]|[]|p] s2]; simpl in Hprompt;
    apply untouched_inv in Hprompt as [Hp2 Hs2].
  2: { intros [= <- <-]. split; [congruence|done]. }
  unfold mbind, ST_bind. unfold read_line at 1.
  rewrite <- Hs1, <- Hs2. set (s3 := mkSession (sim s2) (opt s2) (watching_i s2) (watching_f s2) (tail (stdin s2)) (stdout s2)).
  assert (match stdin s2 with
    | [] => (Ok EmptyString, s2)
    | l :: ls => (Ok l, mkSession (sim s2) (opt s2) (watching_i s2) (watching_f s2) ls (stdout s2))
    end = (Ok (E:=never) (default EmptyString (head (stdin s2))), s3)) as ->.
  { unfold s3. destruct (stdin s2) eqn:Hin; [|done]. simpl. rewrite <- Hin. by destruct s2. }
  intros Hline. pose proof (keeps_line (default EmptyString (head (stdin s2))) s3) as Hk.
  rewrite Hline in Hk. simpl in Hk. apply untouched_inv in Hk as [Hp3 Hs3].
  assert (program (sim s3) = program (sim s)) as Hp by (unfold s3; simpl; congruence).
  split; [congruence|]. destruct o as [next|e|p]; [|done..]. split; [done|].
  exists s3. split; [|done]. unfold untouched. by rewrite Hp.
Qed.

Lemma keeps_reason r : keeps untouched (print_reason r).
Proof. unfold print_reason, println. keeps_all. Qed.

Lemma keeps_watched {K} `{Countable K} {V} name (fmt : V -> string) (m : gmap K V) l :
  keeps untouched (print_watched name fmt m l).
Proof. unfold print_watched, println. keeps_all. Qed.

Lemma keeps_print_watchings chunk v : keeps untouched (print_watchings chunk v).
Proof.
  unfold print_watchings. apply keeps_bind; [apply keeps_gets|intros s].
  apply keeps_bind; [|intros []; apply keeps_watched].
  destruct (watching_i s && watching_f s); [apply keeps_show_regfile|].
  apply keeps_bind; [destruct (watching_i s); [apply keeps_show_regfile|apply keeps_watched]|intros []].
  destruct (watching_f s); [apply keeps_show_regfile|apply keeps_watched].
Qed.

Lemma keeps_update d : keeps untouched (update_mode d).
Proof.
  destruct d; [|apply keeps_ret]. apply keeps_bind; [apply keeps_print|intros []; by apply keeps_modify].
Qed.

(** The report of a stop goes on with the session, unless it panics. *)
Lemma keeps_report chunk b (s : Session I O) o s' :
  (_ ← print_reason (ob_reason b); _ ← print_watchings chunk (ob_watchings b); mret None) s = (o, s') ->
  ((exists p, o = Panic p) \/ o = Ok (@None Ending)) /\ untouched s' = untouched s.
Proof.
  intros Hr. assert (keeps untouched (_ ← print_reason (ob_reason b);
    _ ← print_watchings chunk (ob_watchings b); mret (M:=ST (Session I O) never) (@None Ending))) as Hk.
  { apply keeps_bind; [apply keeps_reason|intros []]. apply keeps_bind; [apply keeps_print_watchings|intros []; apply keeps_ret]. }
  specialize (Hk s). rewrite Hr in Hk. split; [|done]. revert Hr. unfold mbind, ST_bind.
  destruct (print_reason _ s) as [[a|[]|p] s1]; [|intros [= <- <-]; left; by eexists].
  destruct (print_watchings _ _ s1) as [[a'|[]|p] s2]; intros [= <- <-]; [by right|left; by eexists].
Qed.

(** ** Ending *)

(** Only a line with text goes on with the input loop. *)
Lemma run_line_again str (s : Session I O) k s' : run_line str s = (Ok (Again k), s') -> str <> EmptyString.
Proof. intros Hr ->. unfold run_line in Hr. erewrite run_ok in Hr by done. by rewrite parse_empty in Hr. Qed.

(** A line that is the command [exit], whatever the symbols are. *)
Definition exit_line (l : string) : Prop := forall ds, parse_command ds l = Ok ExitCommand.

Lemma run_line_exit l (s : Session I O) : exit_line l -> exists s', run_line l s = (Ok Leave, s').
Proof. intros Hl. unfold run_line. erewrite run_ok by done. rewrite Hl. by eexists. Qed.

(** The input loop reads a line in every turn, and ends at the latest at the end
    of the input; an [exit] line is not passed. *)
Lemma input_loop_ends fuel width chunk show (s : Session I O) o s' :
  (length (stdin s) < fuel)%nat -> input_loop fuel width chunk show s = (o, s') ->
  o <> Ok None /\ program (sim s') = program (sim s) /\
  forall pre l post d, stdin s = pre ++ l :: post -> exit_line l -> o = Ok (Some (Some d)) ->
    exists pre', stdin s' = pre' ++ l :: post /\ (length pre' < length pre)%nat.
Proof.
  revert show s. induction fuel as [|fuel IH]; intros show s Hf; [lia|]. cbn [input_loop].
  unfold mbind, ST_bind. destruct (input_turn width chunk show s) as [o1 s1] eqn:Ht.
  apply input_turn_spec in Ht as [Hp Ht].
  destruct o1 as [next|[]|p]; [|by intros [= <- <-]].
  destruct Ht as (Hin & s2 & _ & Hrun).
  assert (forall pre l post, stdin s = pre ++ l :: post -> exit_line l ->
    next = Leave \/ exists x pre', pre = x :: pre') as Hexit.
  { intros [|x pre] l post Hs Hl; [|right; by eexists _, _]. left.
    rewrite Hs in Hrun. simpl in Hrun. destruct (run_line_exit l s2 Hl). congruence. }
  destruct next as [show'|d|].
  - intros Hloop. apply run_line_again in Hrun. destruct (stdin s) as [|x xs] eqn:Hs; [done|].
    simpl in Hin, Hf. destruct (IH show' s1) as (Hn & Hp1 & Hrest); [rewrite Hin; lia|done|].
    split; [done|]. split; [congruence|]. intros pre l post d Hpre Hl Ho.
    destruct (Hexit pre l post Hpre Hl) as [|(y & pre' & ->)]; [done|].
    injection Hpre as -> ->. destruct (Hrest pre' l post d) as (pre2 & H1' & H2'); [done..|].
    exists pre2. split; [done|simpl; lia].
  - intros [= <- <-]. split; [done|]. split; [done|]. intros pre l post d' Hpre Hl _.
    destruct (Hexit pre l post Hpre Hl) as [|(y & pre' & ->)]; [done|].
    exists pre'. rewrite Hin, Hpre. split; [done|simpl; lia].
  - by intros [= <- <-].
Qed.

End Facts.

(** ** Runs under any options *)

Section Runs.
Context `{Profile} {RC : RegCount} {I O : Type} `{!Input I} `{!Output O} `{!InputOk I}.
Context `{!Processor I O} {PO : ProcessorOk}.
Implicit Types s : Simulator I O.

(** The program has failed, or is at most [n] instructions from the end [r]. *)
Definition live (n : nat) (r : isa_result I O) s : Prop :=
  fatal_error s <> None \/
  (cpu_ok (cpu s) /\ exists k, (k <= n)%nat /\ runs proc_step k (abs (cpu s)) r).

Lemma live_program n r s s' : program s' = program s -> live n r s -> live n r s'.
Proof.
  intros Hp [Hf|(Hok & k & Hk & Hr)]; [left|right].
  - unfold program in Hp. congruence.
  - split; [by eapply program_ok|]. exists k. split; [done|].
    by rewrite (f_equal (fun x => x.1.1) Hp : abs (cpu s') = abs (cpu s)).
Qed.

Lemma runs_after n (a b : Arch I O) r :
  runs proc_step n a r -> proc_step a ≡ IsaNext b -> exists k, n = S k /\ runs proc_step k b r.
Proof.
  intros Hr Hb. destruct Hr as [a c Hc|a e c Hc|n a c r Hc Hr]; rewrite Hb in Hc; try done.
  exists n. split; [done|]. by apply (runs_equiv proc_step n c b r).
Qed.

Lemma break_live opt reason n r s :
  live n r s ->
  match break_sim opt reason s with
  | (Ok (SimBreak _), s') => live n r s'
  | (Ok SimExit, _) => False
  | _ => True
  end.
Proof.
  intros Hl. destruct (break_sim opt reason s) as [[f|e|p] s'] eqn:Hb; [|done..].
  pose proof (keeps_break opt reason s) as Hp. rewrite Hb in Hp.
  apply break_sim_reason in Hb as [_ [w ->]]. by eapply live_program.
Qed.

(** A turn of the loops goes on one instruction nearer to the end, or stops in a
    state from which the end is still reached. *)
Lemma macro_live e opt n r s :
  cpu_ok (cpu s) -> fatal_error s = None -> runs proc_step n (abs (cpu s)) r ->
  match execute_macro e opt s with
  | (Ok None, s') =>
      fatal_error s' = None /\ cpu_ok (cpu s') /\ exists k, n = S k /\ runs proc_step k (abs (cpu s')) r
  | (Ok (Some (SimBreak _)), s') => live n r s'
  | _ => True
  end.
Proof.
  intros Hok Hf Hr. unfold execute_macro. erewrite run_ok by done.
  destruct (breakpoint_hit e opt s) as [bp|].
  { assert (live n r s) as Hl%(break_live opt (AtBreakPoint (bp_addr bp))) by (right; by eauto).
    unfold mbind, ST_bind. by destruct (break_sim _ _ s) as [[[]|?|?] ?]. }
  unfold run_cycle at 1, mbind at 1, ST_bind at 1.
  pose proof (proc_ok (do_trace opt) (cpu s) Hok) as [Hok' _].
  pose proof (proc_result (do_trace opt) (cpu s) Hok) as Hs.
  unfold result_of in Hs. destruct (proc_cycle (do_trace opt) (cpu s)) as [[res|err|p] c];
    simpl in Hs, Hok'; [| |done].
  - erewrite run_ok by done. set (s2 := mkSim c (elapsed_clocks s + cr_cycles res) (cycle s + 1) (debug_symbol s)
      (fatal_error s) (stat_builder s)).
    destruct (cr_flow res) as [|[sp]|]; simpl in Hs; [| |done];
      destruct (runs_after _ _ _ _ Hr Hs) as (k & -> & Hk).
    + split; [done|]. split; [done|]. by exists k.
    + assert (live (S k) r s2) as Hl%(break_live opt (Spied sp)).
      { right. split; [done|]. exists k. split; [lia|done]. }
      unfold mbind, ST_bind. cbn [reason_of_cpu].
      match goal with |- context [break_sim _ _ ?x] => change x with s2 end.
      by destruct (break_sim _ _ s2) as [[[]|?|?] ?].
  - cbn [level is_fatal]. erewrite run_ok by done. set (s2 := set_fatal err _).
    assert (live n r s2) as Hl%(break_live opt Failed) by by left.
    unfold mbind, ST_bind. by destruct (break_sim _ _ s2) as [[[]|?|?] ?].
Qed.

(** What a loop may return from a state that is [n] instructions from the end. *)
Definition stops_live (n : nat) (r : isa_result I O) (res : outcome never (option SimFlow) * Simulator I O) : Prop :=
  match res with
  | (Ok None, _) => False
  | (Ok (Some (SimBreak _)), s') => live n r s'
  | _ => True
  end.

Lemma stops_live_mono n m r res : (n <= m)%nat -> stops_live n r res -> stops_live m r res.
Proof.
  intros Hle. unfold stops_live. destruct res as [[[[]|]|?|?] s']; try done.
  intros [Hf|(Hok & k & Hk & Hr)]; [by left|right]. split; [done|]. exists k. split; [lia|done].
Qed.

(** One turn, then the rest of a loop. *)
Lemma turn_live e opt n r s (rest : ST (Simulator I O) never (option SimFlow)) :
  cpu_ok (cpu s) -> fatal_error s = None -> runs proc_step n (abs (cpu s)) r ->
  (forall k s', n = S k -> cpu_ok (cpu s') -> fatal_error s' = None -> runs proc_step k (abs (cpu s')) r ->
     stops_live k r (rest s')) ->
  stops_live n r ((f ← execute_macro e opt;
    match f with Some f => mret (Some f) | None => rest end) s).
Proof.
  intros Hok Hf Hr Hrest. pose proof (macro_live e opt n r s Hok Hf Hr) as Hm.
  unfold mbind, ST_bind. destruct (execute_macro e opt s) as [[[f|]|err|p] s1]; try done.
  destruct Hm as (Hf1 & Hok1 & k & -> & Hk). apply (stops_live_mono k); [lia|]. by apply Hrest.
Qed.

Lemma run_loop_live fuel e opt n r s :
  cpu_ok (cpu s) -> fatal_error s = None -> runs proc_step n (abs (cpu s)) r -> (n < fuel)%nat ->
  stops_live n r (run_loop fuel e opt s).
Proof.
  revert e n s. induction fuel as [|fuel IH]; intros e n s Hok Hf Hr Hn; [lia|].
  apply turn_live; [done..|]. intros k s' -> Hok' Hf' Hr'. apply IH; [done..|lia].
Qed.

Lemma skip_loop_live fuel e target opt n r s :
  cpu_ok (cpu s) -> fatal_error s = None -> runs proc_step n (abs (cpu s)) r -> (n < fuel)%nat ->
  stops_live n r (skip_loop fuel e target opt s).
Proof.
  revert e n s. induction fuel as [|fuel IH]; intros e n s Hok Hf Hr Hn; [lia|].
  cbn [skip_loop]. erewrite run_ok by done. destruct (negb e && _).
  - assert (live n r s) as Hl%(break_live opt (Reached target)) by (right; by eauto).
    unfold mbind, ST_bind. by destruct (break_sim _ _ s) as [[[]|?|?] ?].
  - apply turn_live; [done..|]. intros k s' -> Hok' Hf' Hr'. apply IH; [done..|lia].
Qed.

Lemma step_loop_live m e opt n r s :
  cpu_ok (cpu s) -> fatal_error s = None -> runs proc_step n (abs (cpu s)) r ->
  stops_live n r ((f ← step_loop m e opt; mret (Some f)) s).
Proof.
  revert e n s. induction m as [|m IH]; intros e n s Hok Hf Hr; cbn [step_loop].
  - assert (live n r s) as Hl%(break_live opt StepEnded) by (right; by eauto).
    unfold mbind, ST_bind. by destruct (break_sim _ _ s) as [[[]|?|?] ?].
  - pose proof (turn_live e opt n r s (f ← step_loop m false opt; mret (Some f)) Hok Hf Hr) as Ht.
    unfold mbind, ST_bind in Ht |- *. destruct (execute_macro e opt s) as [[[f|]|?|?] s1]; simpl in *;
      apply Ht; intros; subst; by apply IH.
Qed.

(** A call of the simulator returns, whatever the options are. *)
Lemma single_cycle_live cycles opt n r s :
  live n r s -> (n < cycles)%nat -> stops_live n r (single_cycle cycles opt s).
Proof.
  intros Hl Hn. unfold single_cycle. erewrite run_ok by done.
  destruct (fatal_error s) as [e|] eqn:Hf.
  - apply (break_live opt CannotRestart) in Hl. unfold mbind, ST_bind.
    by destruct (break_sim _ _ s) as [[[]|?|?] ?].
  - destruct Hl as [|(Hok & k & Hk & Hr)]; [done|]. apply (stops_live_mono k); [done|].
    destruct (mode opt) as [|target|m];
      [apply run_loop_live|apply skip_loop_live|apply step_loop_live]; try done; lia.
Qed.
End Runs.

(** ** Properties *)

Section Session.
Context `{Profile} `{FloatFmt} `{Terminal} {I O : Type} `{!Input I} `{!Output O} `{!InputOk I}.
Implicit Types s : Session I O.

(** The end of a session of the code: regular, or by a panic. *)
Definition ended (o : outcome never Ending) : Prop := o = Ok Finished \/ exists p, o = Panic p.

Lemma ended_panic p : ended (Panic p).
Proof. right. by exists p. Qed.

(** The message about the mode, and the report of a stop, leave the program and
    the input alone; so a session goes on after them or has panicked. *)
Lemma ended_after {A} (m : ST (Session I O) never A) (k : A -> ST (Session I O) never Ending) s :
  keeps untouched m -> (forall a s', untouched s' = untouched s -> ended (k a s').1) -> ended ((m ≫= k) s).1.
Proof.
  intros Hm Hk. specialize (Hm s). unfold mbind, ST_bind.
  destruct (m s) as [[a|[]|p] s']; [by apply Hk|by apply ended_panic].
Qed.

Lemma loop_ends turns cycles n r width chunk pre l post s :
  live n r (sim s) -> (n < cycles)%nat -> stdin s = pre ++ l :: post -> exit_line l ->
  (length pre < turns)%nat -> ended (interactive_loop turns cycles width chunk s).1.
Proof.
  intros Hl Hn Hs Hexit. revert pre s Hl Hs. induction turns as [|turns IH]; intros pre s Hl Hs Hlen; [lia|].
  cbn [interactive_loop]. erewrite run_ok by done. unfold mbind at 1, ST_bind at 1.
  destruct (input_loop _ width chunk None s) as [o s1] eqn:Hloop.
  apply input_loop_ends in Hloop as (Hsome & Hp1 & Hrest); [|lia].
  destruct o as [[[d|]|]|[]|p]; [|by left|done|by apply ended_panic].
  destruct (Hrest pre l post d Hs Hexit eq_refl) as (pre' & Hs1 & Hlen'). clear Hrest Hsome.
  apply ended_after; [apply keeps_update|]. intros _ s2 [Hp2 Hs2]%untouched_inv.
  pose proof (single_cycle_live cycles (opt s2) n r (sim s2)) as Hc.
  assert (live n r (sim s2)) as Hl2 by (apply (live_program n r (sim s)); [congruence|done]).
  specialize (Hc Hl2 Hn). unfold mbind at 1, ST_bind at 1.
  destruct (run_once cycles chunk s2) as [o3 s3] eqn:Hrun. revert Hrun. unfold run_once.
  erewrite run_ok by done. unfold mbind at 1, ST_bind at 1, on_sim at 1, zoom at 1.
  destruct (single_cycle cycles (opt s2) (sim s2)) as [[[[b|]|]|[]|p] x]; try done;
    [|intros [= <- <-]; by left|intros [= <- <-]; by apply ended_panic].
  intros Hrun. apply keeps_report in Hrun as [[[p ->]| ->] Hx]; [by apply ended_panic|].
  apply untouched_inv in Hx as [Hp3 Hs3]. simpl in *.
  apply (IH pre'); [apply (live_program n r x); [congruence|done]|congruence|lia].
Qed.

(** C20: A session ends: if the specification runs the program from the current state
    to its end [r] in at most [n] instructions (or the program has failed), then
    after an [exit] line that follows [length pre] other lines, whatever they
    are, the session is over, regularly or by a panic; so no command can make a
    run of the program endless. *)
Theorem session_ends turns cycles n r pre l post s :
  live n r (sim s) -> (n < cycles)%nat -> stdin s = pre ++ l :: post -> exit_line l ->
  (length pre < turns)%nat -> ended (execute_interactive turns cycles s).1.
Proof.
  intros Hl Hn Hs Hexit Hlen. unfold execute_interactive.
  apply ended_after; [apply keeps_lift|]. intros w s1 Hs1. apply ended_after; [apply keeps_print|].
  intros _ s2 Hs2. rewrite Hs1 in Hs2. apply untouched_inv in Hs2 as [Hp2 Hin2].
  assert (ended (interactive_loop turns cycles w (Z.max (default 2 ((fun w => w / 30) <$> w)) 2) s2).1)
    as He by (eapply loop_ends; [by eapply live_program|done|by rewrite Hin2|done..]).
  unfold mbind at 1, ST_bind at 1.
  destruct (interactive_loop _ _ _ _ s2) as [[e|[]|p] s3]; destruct He as [He|[? He]]; simplify_eq/=;
    [by left|by apply ended_panic].
Qed.

(** C21: The commands between two runs inspect the program and set options only: the input
    loop returns after at most one turn for every line that is left and one for
    the end of the input, and then registers, memory with its types, program
    counter, devices, caches, pipeline and counters of instructions are what they
    were, even if a command has panicked. *)
Theorem commands_leave_program width chunk s :
  (input_loop (S (length (stdin s))) width chunk None s).1 <> Ok None /\
  program (sim (input_loop (S (length (stdin s))) width chunk None s).2) = program (sim s).
Proof.
  destruct (input_loop _ width chunk None s) as [o s'] eqn:Hl.
  by apply input_loop_ends in Hl as (? & ? & _); [|lia].
Qed.
End Session.

(** ** The end of the input *)

Section Spied.
Context `{Profile} {I O : Type} `{!Input I} `{!Output O}.

(** A spy hit is a hit on the memory. *)
Definition on_memory (r : option SpyResult) : Prop :=
  match r with Some x => exists u, spied_target x = SpyMemory u | None => True end.

Definition reports_memory {A} (m : MemST A) : Prop := forall x, on_memory x.2 -> on_memory (m x).2.2.

Lemma reports_bind {A B} (m : MemST A) (k : A -> MemST B) :
  reports_memory m -> (forall a, reports_memory (k a)) -> reports_memory (m ≫= k).
Proof.
  intros Hm Hk x Hx. specialize (Hm x Hx). unfold mbind, ST_bind.
  destruct (m x) as [[a|e|p] x']; [by apply Hk|done..].
Qed.

Lemma reports_access size region :
  (forall a v, reports_memory (mem_set size region a v)) /\ (forall a v, reports_memory (mem_set_f size region a v)) /\
  (forall a, reports_memory (mem_get_i size region a)) /\ (forall a, reports_memory (mem_get_f size region a)).
Proof.
  assert (forall a, reports_memory (unify_unwrap a)) as Hunify.
  { intros a [m sp] Hx. unfold unify_unwrap, unify. st_run.
    destruct (vget (mem_ty m) a) as [t|e|p]; [|done..]. by destruct t. }
  split_and!; intros;
  unfold mem_set, mem_set_f, mem_get_i, mem_get_f, bounds_check, on_read, on_write, put_word, reset_type,
    raw_word, unify.
  all: repeat first
    [ apply Hunify | apply reports_bind; [|intros ?] | case_match
    | by (intros [? ?] Hx) | by (intros [? ?] Hx; simpl; eexists) ].
Qed.

Lemma spied_run {A} (op : MemST A) :
  reports_memory op -> yields (run_mem (I:=I) (O:=O) op None) (fun r => on_memory r.2).
Proof.
  intros Hop c r c'. unfold run_mem. specialize (Hop (memory c, None) Logic.I).
  destruct (op (memory c, None)) as [[a|e|p] [m sp]]; simpl in *; intros; by simplify_eq/=.
Qed.

Lemma spied_access ma : yields (memory_access (I:=I) (O:=O) ma None) (fun r => on_memory r.2).
Proof.
  unfold memory_access. do 2 yields_skip. eapply (yields_bind _ _ (fun r => on_memory r.2)).
  - destruct (reports_access RAM_BYTE_SIZE (region a0)) as (H1' & H2' & H3' & H4').
    unfold perform_access. by destruct ma; eapply yields_bind; try (apply spied_run; done);
      intros ? ?; apply yields_ret.
  - intros r Hr. yields_skip. by apply yields_ret.
Qed.

(** The control flow of an instruction reports a spy on the memory only. *)
Definition flow_ok (f : Cpu.ControlFlow) : Prop :=
  match f with Cpu.Break (BreakSpy x) => on_memory (Some x) | _ => True end.

Lemma spied_cycle t : yields (proc_cycle (I:=I) (O:=O) t) (fun r => flow_ok (cr_flow r)).
Proof.
  change (yields (cycle_one_full (I:=I) (O:=O) t) (fun r => flow_ok (cr_flow r))). unfold cycle_one_full, cycle_of. do 7 yields_skip. destruct (eo_end _); [by apply yields_ret|].
  yields_skip. eapply (yields_bind _ _ (fun r => flow_ok r.2)).
  - unfold finish_memory. destruct (eo_ma_in _); [|by apply yields_ret].
    eapply yields_bind; [apply spied_access|]. intros [out [x|]] Hr; simpl in *;
      destruct (mo_wb_in out); by apply yields_ret.
  - intros [[[]]] Hr. do 2 yields_skip. by apply yields_ret.
Qed.

(** The same for the reason of a stop. *)
Definition stop_ok (f : SimFlow) : Prop :=
  match f with
  | SimBreak b => match ob_reason b with Spied x => on_memory (Some x) | _ => True end
  | SimExit => True
  end.

Lemma spied_break opt reason :
  match reason with Spied x => on_memory (Some x) | _ => True end ->
  yields (break_sim (I:=I) (O:=O) opt reason) stop_ok.
Proof. intros Hr. unfold break_sim. yields_skip. by apply yields_ret. Qed.

Lemma spied_macro e opt :
  yields (execute_macro (I:=I) (O:=O) e opt) (fun f => match f with Some f => stop_ok f | None => True end).
Proof.
  assert (forall reason, match reason with Spied x => on_memory (Some x) | _ => True end ->
    yields (E:=never) (f ← break_sim (I:=I) (O:=O) opt reason; mret (Some f))
      (fun f => match f with Some f => stop_ok f | None => True end)) as Hb.
  { intros reason Hr. eapply yields_bind; [by apply spied_break|]. intros f Hf. by apply yields_ret. }
  unfold execute_macro. yields_skip. destruct (breakpoint_hit _ _ _); [by apply Hb|].
  eapply (yields_bind _ _ (fun r => match r with inl r => flow_ok (cr_flow r) | inr _ => True end)).
  - intros s r s' Hr. unfold run_cycle in Hr. pose proof (spied_cycle (do_trace opt) (cpu s)) as Hc.
    destruct (proc_cycle (do_trace opt) (cpu s)) as [[res|err|p] c]; simplify_eq/=; [by eapply Hc|done].
  - intros [r|err] Hr; yields_skip; [|by apply Hb].
    destruct (cr_flow r) as [|[x]|]; [by apply yields_ret|by apply Hb|]. yields_skip. by apply yields_ret.
Qed.

Lemma spied_loop fuel e opt :
  yields (run_loop (I:=I) (O:=O) fuel e opt) (fun f => match f with Some f => stop_ok f | None => True end).
Proof.
  revert e. induction fuel as [|fuel IH]; intros e; [by apply yields_ret|].
  eapply yields_bind; [apply spied_macro|]. intros [f|] Hf; [by apply yields_ret|apply IH].
Qed.
End Spied.

Section EndOfInput.
Context `{Profile} `{FloatFmt} `{Terminal} {I O : Type} `{!Input I} `{!Output O} `{!InputOk I}.
Implicit Types s : Session I O.

(** A session in which nothing has been set and nothing is left to read. *)
Definition at_end s : Prop :=
  opt s = default_option /\ watching_i s = false /\ watching_f s = false /\ stdin s = [].

(** The reason of a stop can be printed. *)
Definition printable_reason (reason : BreakReason) (x : Simulator I O) : Prop :=
  match reason with
  | Spied r => on_memory (Some r)
  | CannotRestart | Failed => fatal_error x <> None
  | _ => True
  end.

Lemma print_reason_runs reason s :
  at_end s -> printable_reason reason (sim s) ->
  exists s', print_reason reason s = (Ok (), s') /\ at_end s' /\ sim s' = sim s.
Proof.
  intros Hs Hr. unfold print_reason. st_run.
  destruct reason as [| |a| |a|[kind target]]; simpl in Hr; try by eexists.
  1-2: destruct (fatal_error (sim s)); [|done]; by eexists.
  destruct Hr as [u Hu]. simpl in Hu. rewrite Hu. simpl. destruct kind; by eexists.
Qed.

Lemma print_watchings_runs chunk v s : at_end s -> print_watchings chunk v s = (Ok (), s).
Proof. intros (Ho & Hi & Hf & _). unfold print_watchings. st_run. by rewrite Ho, Hi, Hf. Qed.

(** At the end of the input, the command is to run on. *)
Lemma eof_input width chunk s :
  at_end s ->
  exists s', input_loop (S (length (stdin s))) width chunk None s = (Ok (Some (Some None)), s') /\
    at_end s' /\ sim s' = sim s.
Proof.
  destruct s as [x o wi wf ls out]. intros (Ho & Hi & Hf & Hin). simpl in *. subst.
  by eexists (mkSession x default_option false false [] _).
Qed.

(** One turn of a session whose input has ended. *)
Lemma eof_turn turns cycles width chunk s :
  at_end s ->
  match single_cycle cycles default_option (sim s) with
  | (Ok (Some SimExit), x) =>
      (interactive_loop (S turns) cycles width chunk s).1 = Ok Finished /\
      sim (interactive_loop (S turns) cycles width chunk s).2 = x
  | (Ok (Some (SimBreak b)), x) =>
      printable_reason (ob_reason b) x ->
      exists s', at_end s' /\ sim s' = x /\
        interactive_loop (S turns) cycles width chunk s = interactive_loop turns cycles width chunk s'
  | _ => True
  end.
Proof.
  intros Hs. destruct (eof_input width chunk s Hs) as (s1 & Hin & Hs1 & Hsim).
  assert (interactive_loop (S turns) cycles width chunk s =
    (e ← run_once cycles chunk; match e with Some e => mret e | None => interactive_loop turns cycles width chunk end) s1)
    as -> by (cbn [interactive_loop]; unfold mbind, ST_bind, gets; by rewrite Hin).
  destruct Hs1 as (Ho & Hi & Hf & Hstdin).
  unfold run_once, on_sim, zoom, mbind, ST_bind, gets. rewrite Ho, Hsim.
  destruct (single_cycle cycles default_option (sim s)) as [[[[b|]|]|[]|p] x]; try done.
  intros Hr. destruct (print_reason_runs (ob_reason b) (set_sim x s1)) as (s2 & -> & Hs2 & Hx); [done..|].
  exists s2. split; [done|]. split; [done|]. by rewrite (print_watchings_runs chunk (ob_watchings b) s2 Hs2).
Qed.

Lemma single_cycle_failed cycles (x : Simulator I O) e :
  fatal_error x = Some e ->
  single_cycle cycles default_option x = (Ok (Some (SimBreak (mkOnBreak (mkValues ∅ ∅ ∅) CannotRestart))), x).
Proof. intros Hf. unfold single_cycle. erewrite run_ok by done. by rewrite Hf. Qed.

(** After a failure, every turn reports that the simulator cannot be restarted. *)
Lemma failed_at_end turns cycles width chunk s :
  at_end s -> fatal_error (sim s) <> None ->
  exists s', interactive_loop turns cycles width chunk s = (Ok OutOfTurns, s') /\
    program (sim s') = program (sim s).
Proof.
  revert s. induction turns as [|turns IH]; intros s Hs Hf; [by eexists|].
  pose proof (eof_turn turns cycles width chunk s Hs) as Ht.
  destruct (fatal_error (sim s)) as [e|] eqn:He; [|done].
  rewrite (single_cycle_failed cycles (sim s) e He) in Ht.
  destruct Ht as (s' & Hs' & Hx & ->); [simpl; congruence|].
  destruct (IH s' Hs') as (s2 & Hs2 & Hp); [congruence|]. exists s2. split; [done|].
  by rewrite Hp, Hx.
Qed.

Lemma eof_runs n r turns cycles width chunk s :
  at_end s -> cpu_ok (cpu (sim s)) -> fatal_error (sim s) = None ->
  isa_runs n (abs (cpu (sim s))) r -> (n < cycles)%nat -> (n < turns)%nat ->
  let res := interactive_loop turns cycles width chunk s in
  match r with
  | IsaExit b => res.1 = Ok Finished /\ abs (cpu (sim res.2)) ≡ b
  | IsaFault e b => res.1 = Ok OutOfTurns /\ abs (cpu (sim res.2)) ≡ b /\ fatal_error (sim res.2) = Some e
  | _ => False
  end.
Proof.
  cbv zeta. revert n s. induction turns as [|turns IH]; intros n s Hs Hok Hf Hr Hn Ht; [lia|].
  pose proof (eof_turn turns cycles width chunk s Hs) as Hturn.
  rewrite single_cycle_default in Hturn by done.
  pose proof (run_loop_runs n r cycles true (sim s) Hok Hf Hn Hr) as Hl.
  pose proof (spied_loop cycles true default_option (sim s)) as Hspied.
  destruct (run_loop cycles true default_option (sim s)) as [o x]. simpl in Hl.
  destruct Hl as [Hl|(v & sp & k & -> & Hk & Hrk & Hok' & Hf' & _)].
  - destruct r as [b|b|e b|p]; try done.
    + destruct Hl as (-> & Ha & _). destruct Hturn as [Hfin <-]. by split.
    + destruct Hl as ([v ->] & Ha & He & _).
      destruct Hturn as (s' & Hs' & Hx & ->); [simpl; congruence|].
      destruct (failed_at_end turns cycles width chunk s' Hs') as (s2 & -> & Hp); [congruence|].
      rewrite Hx in Hp. simpl. split; [done|].
      rewrite (f_equal (fun x => x.1.1) Hp : abs (cpu (sim s2)) = abs (cpu x)).
      split; [done|]. unfold program in Hp. congruence.
  - specialize (Hspied _ _ eq_refl). simpl in Hspied.
    destruct Hturn as (s' & Hs' & <- & ->); [done|]. apply (IH k); try done; lia.
Qed.

Lemma width_panics :
  overflow_checks && match terminal_size with Some w => w <? 20 | None => false end = true ->
  get_terminal_width = Panic ArithOverflow.
Proof.
  unfold get_terminal_width. destruct overflow_checks, terminal_size as [w|]; try done. simpl.
  by destruct (Z.ltb_spec w 20), (Z.leb_spec 20 w); try lia.
Qed.

Lemma width_ok :
  overflow_checks && match terminal_size with Some w => w <? 20 | None => false end = false ->
  exists w, get_terminal_width = Ok w.
Proof.
  unfold get_terminal_width. destruct terminal_size as [w|]; [|by eexists].
  destruct (Z.leb_spec 20 w), (Z.ltb_spec w 20); try lia; [by eexists|].
  destruct overflow_checks; [done|by eexists].
Qed.

(** C19: A session whose input ends runs the program on, in every build: if the
    specification ends the program after [n] instructions, the session ends in the
    specified state; but if the program fails, it never ends (whatever number of
    turns it is given, it uses them up, in the state of the failure): every read
    delivers the empty line, which asks to run on, and a failed simulator cannot be
    restarted.  The one exception: on a terminal of less than 20 columns a build with
    overflow checks panics at the start, when it takes 20 from the width. *)
Theorem eof_session n r turns cycles (x : Simulator I O) :
  cpu_ok (cpu x) -> fatal_error x = None -> isa_runs n (abs (cpu x)) r ->
  (n < cycles)%nat -> (n < turns)%nat ->
  let res := execute_interactive turns cycles (new_session x []) in
  if overflow_checks && match terminal_size with Some w => w <? 20 | None => false end
  then res = (Panic ArithOverflow, new_session x [])
  else match r with
       | IsaExit b => res.1 = Ok Finished /\ abs (cpu (sim res.2)) ≡ b
       | IsaFault e b => res.1 = Ok OutOfTurns /\ abs (cpu (sim res.2)) ≡ b /\ fatal_error (sim res.2) = Some e
       | _ => False
       end.
Proof.
  intros Hok Hf Hr Hn Ht. cbv zeta. unfold execute_interactive.
  destruct (overflow_checks && _) eqn:Hwidth; [by rewrite (width_panics Hwidth)|].
  destruct (width_ok Hwidth) as [w Hw]. rewrite Hw.
  set (chunk := Z.max (default 2 ((fun w => w / 30) <$> w)) 2).
  set (s := mkSession x default_option false false [] (line "entering interactive.")).
  pose proof (eof_runs n r turns cycles w chunk s (conj eq_refl (conj eq_refl (conj eq_refl eq_refl)))
    Hok Hf Hr Hn Ht) as He. cbv zeta in He.
  unfold lift, mbind, ST_bind. change (println _ (new_session x [])) with (Ok (E:=never) (), s).
  fold chunk. cbv beta iota. destruct (interactive_loop turns cycles w chunk s) as [o s'].
  simpl in He. destruct r as [b|b|e b|p]; try done; by destruct He as [-> Ha].
Qed.
End EndOfInput.

(** ** Sessions *)

Section Demo.
#[local] Existing Instance release_profile.

(** Some way of printing floats, and no terminal. *)
#[local] Instance demo_floats : FloatFmt := {| fmt_f32 _ := "0"%string; fmt_f64_6 _ := "0.000000"%string |}.
#[local] Instance no_terminal : Terminal := {| terminal_size := None; expected := fun _ => "command"%string |}.

Lemma exit_is_exit : exit_line (line "exit").
Proof. by intros ds. Qed.

(** The command exit after a step and a look at the program counter. *)
Definition demo_session : Session EmptyIO BinaryOutput :=
  new_session demo_sim [line "step 3"; line "show pc"; line "exit"].

Example demo_session_text :
  stdout (execute_interactive 3 9 demo_session).2 =
  join EmptyString (line <$>
    ["entering interactive."; "run > mode: step execution by 3"; "step 3 > pc: 0x0000000c, cycle #3";
     "step 3 > exiting interactive."])%string.
Proof. vm_compute. reflexivity. Qed.

Lemma demo_live : exists b, live 7 (IsaExit b) demo_sim.
Proof.
  destruct (exits_in_runs isa_step 7 (abs demo_machine)) as [b Hb]; [by vm_compute|].
  exists b. right. split; [apply demo_machine_ok|]. by exists 7%nat.
Qed.

Lemma session_ends_witness : ended (execute_interactive 3 9 demo_session).1.
Proof.
  destruct demo_live as [b Hb].
  apply (session_ends 3 9 7 (IsaExit b)
    [line "step 3"; line "show pc"]%string (line "exit") [] demo_session); [done|lia|done|apply exit_is_exit|simpl; lia].
Defined.

Lemma eof_session_witness :
  (execute_interactive 8 9 (new_session demo_sim [])).1 = Ok Finished.
Proof.
  destruct (exits_in_runs isa_step 7 (abs demo_machine)) as [b Hb]; [by vm_compute|].
  pose proof (eof_session 7 (IsaExit b) 8 9 demo_sim demo_machine_ok eq_refl Hb ltac:(lia) ltac:(lia)) as He.
  exact (proj1 He).
Defined.
End Demo.
