(* ===== verification/Main.v ===== *)
(** * The command line ([cli/src/main.rs])

    The two commands, from their parsed arguments: reading the files, running the
    simulator in a batch or in a session, the statistics in the log, and the file
    that is written at the end.  The world is the files, the lines of the standard
    input, the standard output and the messages of the log. *)
From Stdlib Require Import Ascii.
From stdpp Require Import pretty.
From S2P Require Import Prelude Word Text RegFile Io Cpu DebugSymbol Display Sim Views Sld Ppm Interactive.

(** ** Arguments *)

(** A [PathBuf] is the text of the path. *)
Record CommonArgs := mkCommonArgs {
  arg_input : string;
  arg_interactive : bool;
  arg_verbose : bool;
  arg_debug_symbol : option string
}.

Record RtArgs := mkRtArgs { rt_delegate : CommonArgs; rt_sld : string; rt_ppm : string }.
Record ExeArgs := mkExeArgs { exe_delegate : CommonArgs; exe_stdin : option string; exe_stdout : option string }.

Inductive Command := Rt (a : RtArgs) | Exe (a : ExeArgs).

(** ** The world *)

Record World := mkWorld {
  files : gmap string (list Z);
  w_stdin : list string;
  w_stdout : string;
  log : list string
}.

(** What the program meets outside: which files can be opened, created and
    written (a write that fails may have written a part), whether a message of
    level [info] is logged with and without [--verbose], the JSON reader, and the
    time that the run took. *)
Class Host := {
  not_found : string -> string;
  read_error : string -> option string;
  create_error : string -> option string;
  write_error : string -> list Z -> option (nat * string);
  info_enabled : bool -> bool;
  json : list Z -> outcome string DebugSymbolRaw;
  elapsed_ms : Z
}.

(** An [anyhow] error is its message; [NoFuel] is not a result of the code. *)
Inductive MainFail := Anyhow (e : string) | NoFuel.

Abbreviation W A := (ST World MainFail A) (only parsing).

Definition set_files (f : gmap string (list Z)) (w : World) : World :=
  mkWorld f (w_stdin w) (w_stdout w) (log w).

(** ** Text files *)

(** Is a sequence of bytes the UTF-8 encoding of a text? *)
Definition cont (b : Z) : bool := (0x80 <=? b) && (b <=? 0xBF).
Definition within (a lo hi : Z) : bool := (lo <=? a) && (a <=? hi).

Fixpoint utf8 (s : list Z) : bool :=
  match s with
  | [] => true
  | a :: s1 =>
      if a <? 0x80 then utf8 s1
      else match s1 with
      | [] => false
      | b :: s2 =>
          if within a 0xC2 0xDF then cont b && utf8 s2
          else match s2 with
          | [] => false
          | c :: s3 =>
              if within a 0xE0 0xEF then
                cont b && cont c && negb ((a =? 0xE0) && (b <? 0xA0)) && negb ((a =? 0xED) && (0x9F <? b)) && utf8 s3
              else match s3 with
              | [] => false
              | d :: s4 =>
                  within a 0xF0 0xF4 && cont b && cont c && cont d &&
                  negb ((a =? 0xF0) && (b <? 0x90)) && negb ((a =? 0xF4) && (0x8F <? b)) && utf8 s4
              end
          end
      end
  end.

(** The text of a sequence of bytes, and back. *)
Definition text_of (s : list Z) : string :=
  foldr (fun b t => String (ascii_of_N (Z.to_N b)) t) EmptyString s.
Fixpoint bytes_of (t : string) : list Z :=
  match t with EmptyString => [] | String c t => Z.of_N (N_of_ascii c) :: bytes_of t end.

Section Main.
Context `{Profile} `{FloatFmt} `{Terminal} `{Lexer} `{ByteLexer} `{Host}.

(** [log::info!] *)
Definition info (verbose : bool) (m : string) : W () :=
  if info_enabled verbose
  then modify (fun w => mkWorld (files w) (w_stdin w) (w_stdout w) (log w ++ [m]))
  else mret ().

(** ** Files *)

(** [read_input]: [File::open] and [read_to_end] *)
Definition read_input (p : string) : W (list Z) :=
  w ← gets (fun w => w);
  match read_error p with
  | Some e => throw (Anyhow e)
  | None => match files w !! p with Some b => mret b | None => throw (Anyhow (not_found p)) end
  end.

(** [read_to_string] *)
Definition read_text (p : string) : W string :=
  b ← read_input p;
  if utf8 b then mret (text_of b) else throw (Anyhow "stream did not contain valid UTF-8").

Definition read_dbg_symb (p : option string) : W DebugSymbol :=
  match p with
  | Some p => b ← read_input p; r ← lift (map_err Anyhow (json b)); mret (debug_symbol_of_raw r)
  | None => mret debugsymbol_default
  end.

(** [File::create] and [write_all] *)
Definition write_file (p : string) (bytes : list Z) : W () :=
  match create_error p with
  | Some e => throw (Anyhow e)
  | None =>
      _ ← modify (fun w => set_files (<[p := []]> (files w)) w);
      match write_error p bytes with
      | Some (n, e) =>
          _ ← modify (fun w => set_files (<[p := take n bytes]> (files w)) w);
          throw (Anyhow e)
      | None => modify (fun w => set_files (<[p := bytes]> (files w)) w)
      end
  end.

(** ** Running *)

Section Run.
Context {I O : Type} `{Input I} `{Output O}.

(** [Simulator::new], with the messages of [Cpu::new] in between. *)
Definition simulator_new (verbose : bool) (mem : list Z) (i : I) (o : O) : W (Simulator I O) :=
  '(data_len, text_len) ← lift (get_data_and_text_len mem);
  _ ← lift (add_u32 data_len text_len);
  let d := wrap32 (Z.shiftl data_len 2) in
  let t := wrap32 (Z.shiftl text_len 2) in
  _ ← info verbose (".data: " +:+ pretty d +:+ " bytes (" +:+ hex8 d +:+ " as hex)");
  _ ← info verbose (".text: " +:+ pretty t +:+ " bytes (" +:+ hex8 t +:+ " as hex)");
  lift (sim_new mem i o).

(** [provide_dbg_symb], with its message. *)
Definition provide (verbose : bool) (d : DebugSymbol) (s : Simulator I O) : W (Simulator I O) :=
  _ ← (if is_empty d then mret () else info verbose "debug symbol provided.");
  mret (provide_dbg_symb d s).

Definition failure_message (e : RuntimeError) : string :=
  "simulator returns an error: " +:+ fmt_runtime_error e
  +:+ ". try executing process with --interactive to debug.".

(** [execute]; [turns] bounds the loops of the driver and [cycles] those of the simulator. *)
Definition execute (turns cycles : nat) (s : Simulator I O) (interactive : bool) : W (Simulator I O) :=
  if interactive then
    fun w =>
      let '(r, sess) := execute_interactive turns cycles (new_session s (w_stdin w)) in
      let w := mkWorld (files w) (stdin sess) (w_stdout w +:+ stdout sess) (log w) in
      (match r with
       | Ok Finished => Ok (sim sess)
       | Ok _ => Err NoFuel
       | Err e => match e : never with end
       | Panic p => Panic p
       end, w)
  else
    let '(r, s) := execute_batch cycles s in
    match r with
    | Ok (Some (inl _)) => mret s
    | Ok (Some (inr e)) => throw (Anyhow (failure_message e))
    | Ok None => throw NoFuel
    | Err e => match e : never with end
    | Panic p => lift (Panic p)
    end.

(** What both commands do with an image, an input and an output: [Simulator::new],
    the symbols, and [execute]. *)
Definition run_simulator (turns cycles : nat) (a : CommonArgs) (mem : list Z) (dbg : DebugSymbol) (i : I) (o : O)
    : W (Simulator I O) :=
  s ← simulator_new (arg_verbose a) mem i o;
  s ← provide (arg_verbose a) dbg s;
  execute turns cycles s (arg_interactive a).

(** [output_stat]: the views are made only if the message is logged. *)
Definition output_stat (verbose : bool) (s : Simulator I O) : W () :=
  width ← lift (no_err get_terminal_width);
  if info_enabled verbose then
    t ← lift (no_err (fmt_simulator_stats elapsed_ms (default 120 width) s));
    match t with
    | Some t => info verbose ("statistics:" +:+ String "010" t)
    | None => throw NoFuel
    end
  else mret ().
End Run.

(** ** The commands *)

(** The arm of [Command::Exe] for an input and an output: [b_out!] from the
    simulator on. *)
Definition run_exe {I O} `{Input I} `{Output O} (turns cycles : nat) (a : CommonArgs) (mem : list Z)
    (dbg : DebugSymbol) (i : I) (o : O) : W O :=
  s ← run_simulator turns cycles a mem dbg i o;
  _ ← output_stat (arg_verbose a) s;
  mret (into_output s).

Definition main_rt (turns cycles : nat) (a : RtArgs) : W () :=
  let c := rt_delegate a in
  let verbose := arg_verbose c in
  mem ← read_input (arg_input c);
  sld ← read_text (rt_sld a);
  debug_symbol ← read_dbg_symb (arg_debug_symbol c);
  input ← lift (map_err (fun e =>
                   match e with NomError e => Anyhow ("failed to parse: " +:+ e) | OutOfFuel => NoFuel end)
                 (sld_parse sld));
  _ ← info verbose ("finished parsing SLD. # of object: " +:+ pretty (num_objects input));
  s ← run_simulator turns cycles c mem debug_symbol input ppmdata_new;
  _ ← info verbose "finished execution.";
  _ ← output_stat verbose s;
  let sim_output := into_output s in
  h ← lift (map_err Anyhow (verify_header sim_output));
  _ ← info verbose ("PPM generated. " +:+ fmt_header h);
  write_file (rt_ppm a) (into_inner sim_output).

(** [b_in!] and [b_out!] *)
Definition exe_output {O} `{Output O} (turns cycles : nat) (a : ExeArgs) (mem : list Z) (dbg : DebugSymbol)
    (o : O) : W O :=
  match exe_stdin a with
  | Some p =>
      content ← read_input p;
      run_exe turns cycles (exe_delegate a) mem dbg (binaryinput_new content) o
  | None => run_exe turns cycles (exe_delegate a) mem dbg emptyio_new o
  end.

Definition main_exe (turns cycles : nat) (a : ExeArgs) : W () :=
  let c := exe_delegate a in
  mem ← read_input (arg_input c);
  debug_symbol ← read_dbg_symb (arg_debug_symbol c);
  match exe_stdout a with
  | Some p =>
      out ← exe_output turns cycles a mem debug_symbol binaryoutput_new;
      write_file p (bo_content out)
  | None => _ ← exe_output turns cycles a mem debug_symbol emptyio_new; mret ()
  end.

Definition main (turns cycles : nat) (args : Command) : W () :=
  match args with
  | Rt a => main_rt turns cycles a
  | Exe a => main_exe turns cycles a
  end.
End Main.
