(* ===== verification/MainProps.v ===== *)
(** * What a run of the program leaves behind

    From the files to the file: for a program that the instruction set
    specification runs to its end, the commands are, but for the messages of the
    log, short programs over the world that write the specified output or report
    the specified error. *)
From S2P Require Import Prelude Word Text Vec Register Instr Encode RegFile Memory Io Cpu Isa IsaProps CpuInv CpuProps CpuTheorems DebugSymbol Display Sim SimProps Views Sld Ppm Interactive Main.

(** ** Worlds that differ in the log *)

Record same (w w' : World) : Prop := {
  same_files : files w' = files w;
  same_stdin : w_stdin w' = w_stdin w;
  same_stdout : w_stdout w' = w_stdout w
}.

#[export] Instance same_preorder : PreOrder same.
Proof. split; [by split|]. intros w1 w2 w3 [] []. split; congruence. Qed.

(** [m] is, but for the log, what the specification [r] says. *)
Definition ends_as {A} (r m : outcome MainFail A * World) : Prop := m.1 = r.1 /\ same r.2 m.2.

(** [m] returns [x] and only writes to the log. *)
Definition quiet {A} (m : ST World MainFail A) (x : A) (w : World) : Prop :=
  exists w', m w = (Ok x, w') /\ same w w'.

Lemma quiet_bind {A B} (m : ST World MainFail A) x (k : A -> ST World MainFail B) w r :
  quiet m x w -> (forall w', same w w' -> ends_as r (k x w')) -> ends_as r ((m ≫= k) w).
Proof. intros (w' & Hm & Hs) Hk. rewrite (run_ok _ _ _ _ _ Hm). by apply Hk. Qed.

Lemma quiet_ret {A} (x : A) w : quiet (mret x) x w.
Proof. by eexists. Qed.

Lemma quiet_lift {A} (o : outcome MainFail A) x w : o = Ok x -> quiet (lift o) x w.
Proof. intros ->. by eexists. Qed.

Lemma quiet_then {A B} (m : ST World MainFail A) x (k : A -> ST World MainFail B) y w :
  quiet m x w -> (forall w', same w w' -> quiet (k x) y w') -> quiet (m ≫= k) y w.
Proof.
  intros (w1 & Hm & Hs1) Hk. destruct (Hk w1 Hs1) as (w2 & Hr & Hs2). exists w2.
  rewrite (run_ok _ _ _ _ _ Hm). split; [done|by trans w1].
Qed.

(** ** Files *)

(** The file at [p] can be read, and holds [b]. *)
Definition readable `{Host} (w : World) (p : string) (b : list Z) : Prop :=
  read_error p = None /\ files w !! p = Some b.

Section Files.
Context `{Host}.

Lemma info_quiet verbose m w : quiet (info verbose m) () w.
Proof. unfold info. destruct (info_enabled verbose); by eexists. Qed.

Lemma readable_same w w' p b : same w w' -> readable w p b -> readable w' p b.
Proof. intros [Hf _ _] [He Hb]. split; [done|by rewrite Hf]. Qed.

Lemma read_input_quiet p b w : readable w p b -> quiet (read_input p) b w.
Proof.
  intros [He Hb]. exists w. split; [|done]. unfold read_input. st_run. by rewrite He, Hb.
Qed.

Lemma read_text_quiet p b w : readable w p b -> utf8 b = true -> quiet (read_text p) (text_of b) w.
Proof.
  intros Hb Hu. eapply quiet_then; [by apply read_input_quiet|]. intros w' _. rewrite Hu. apply quiet_ret.
Qed.

(** The symbols that an optional path names. *)
Definition symbols_of (w : World) (p : option string) (d : DebugSymbol) : Prop :=
  match p with
  | Some p => exists b r, readable w p b /\ json b = Ok r /\ d = debug_symbol_of_raw r
  | None => d = debugsymbol_default
  end.

Lemma symbols_same w w' p d : same w w' -> symbols_of w p d -> symbols_of w' p d.
Proof.
  intros Hs. destruct p; [|done]. intros (b & r & Hb & Hr). exists b, r.
  split; [by eapply readable_same|done].
Qed.

Lemma read_dbg_symb_quiet p d w : symbols_of w p d -> quiet (read_dbg_symb p) d w.
Proof.
  destruct p as [p|]; simpl.
  - intros (b & r & Hb & Hr & ->). eapply quiet_then; [by apply read_input_quiet|]. intros w' _.
    eapply quiet_then; [by apply quiet_lift; rewrite Hr|]. intros. apply quiet_ret.
  - intros ->. apply quiet_ret.
Qed.

(** Writing looks at the files only. *)
Lemma write_file_ends p b w w' : same w w' -> ends_as (write_file p b w) (write_file p b w').
Proof.
  intros [Hf Hi Ho]. unfold write_file. destruct (create_error p) as [e|]; [by split|].
  unfold ends_as. destruct (write_error p b) as [[n e]|]; st_run; (split; [done|]); split; simpl; congruence.
Qed.
End Files.

(** ** Running a program *)

(** What the specification says of a run of [n] instructions: the output of a
    program that ends, or the fault of one that fails. *)
Definition isa_output `{Profile} {I O : Type} `{Input I} `{Output O} (n : nat) (a : Arch I O)
    (res : O + RuntimeError) : Prop :=
  match res with
  | inl o => exists b, isa_runs n a (IsaExit b) /\ o = a_out b
  | inr e => exists b, isa_runs n a (IsaFault e b)
  end.

Section Running.
Context `{Profile} `{FloatFmt} `{Terminal} `{Host} {I O : Type} `{!Input I} `{!Output O} `{!InputOk I}.
Context (Hchecks : overflow_checks = false).
Implicit Types s : Simulator I O.

(** The simulator is ready to run the program of the image. *)
Record ready (d t : Z) (body : list Z) (i : I) (o : O) s : Prop := {
  rd_ok : cpu_ok (cpu s);
  rd_fatal : fatal_error s = None;
  rd_stat : sb_instr_file_len (stat_builder s) = Some (d + t);
  rd_abs : abs (cpu s) ≡ start_state d t body i o
}.

Lemma simulator_new_quiet verbose d t body (i : I) (o : O) w :
  image_ok d t body -> in_ok i ->
  exists s, quiet (simulator_new verbose (image d t body) i o) s w /\ ready d t body i o s.
Proof.
  intros Hi Hin. pose proof Hi as [Hd Ht Hfit _ _]. unfold RAM_BYTE_SIZE in Hfit.
  destruct (cpu_new_starts (E:=MainFail) d t body i o Hi Hin) as (c & Hnew & Hok & _ & Hst).
  assert (get_data_and_text_len (E:=MainFail) (image d t body) = Ok (d, t)) as Hlens
    by (apply image_lens; unfold u32_ok; lia).
  assert (add_u32 (E:=MainFail) d t = Ok (d + t)) as Hadd
    by (unfold add_u32; by destruct (Z.ltb_spec (d + t) (2 ^ 32)); [|lia]).
  eexists. split.
  - unfold simulator_new. eapply quiet_then; [by apply quiet_lift|]. intros w1 _. cbn beta iota.
    eapply quiet_then; [by apply quiet_lift|]. intros w2 _.
    eapply quiet_then; [apply info_quiet|]. intros w3 _. eapply quiet_then; [apply info_quiet|]. intros w4 _.
    apply quiet_lift. unfold sim_new. rewrite Hlens. cbn [mbind outcome_bind]. rewrite Hadd, Hnew. reflexivity.
  - split; try done. by apply starts_state.
Qed.

Lemma provide_quiet verbose dbg d t body i o s w :
  ready d t body i o s ->
  exists s', quiet (provide verbose dbg s) s' w /\ ready d t body i o s'.
Proof.
  intros [Hok Hfe Hst Habs]. exists (provide_dbg_symb dbg s). split.
  - apply (quiet_then _ ()); [|intros; apply quiet_ret].
    destruct (is_empty dbg); [apply quiet_ret|apply info_quiet].
  - unfold provide_dbg_symb. by destruct (is_empty dbg).
Qed.

(** The batch: the output of the program, or its fault. *)
Lemma execute_runs turns cycles n res d t body i o s w :
  ready d t body i o s -> isa_output n (start_state d t body i o) res -> (S n < cycles)%nat ->
  match res with
  | inl out => exists s', execute turns cycles s false w = (Ok s', w) /\ into_output s' = out /\
      cpu_ok (cpu s') /\ exists k m, stat_builder s' = mkSimStat (Some (d + t)) (Some k) (Some m)
  | inr e => execute turns cycles s false w = (Err (Anyhow (failure_message e)), w)
  end.
Proof.
  intros [Hok Hfe Hst Habs] Hres Hn. symmetry in Habs. unfold execute.
  destruct res as [out|e]; destruct Hres as [b Hb].
  - destruct Hb as [Hb ->]. apply (runs_equiv _ _ _ _ _ Habs) in Hb.
    destruct (default_batch_runs n _ cycles s Hok Hfe Hn Hb) as (Ho & Hf & _ & [Hok' (k & m & Hsb)]).
    destruct (execute_batch cycles s) as [r s']. simpl in *. subst r. exists s'. split_and!; try done.
    + by destruct (equiv_rest _ _ Hf) as (_ & _ & _ & Hout).
    + exists k, m. by rewrite Hsb, Hst.
  - apply (runs_equiv _ _ _ _ _ Habs) in Hb.
    destruct (default_batch_runs n _ cycles s Hok Hfe Hn Hb) as (Ho & _ & _).
    destruct (execute_batch cycles s) as [r s']. simpl in *. by subst r.
Qed.

Lemma output_stat_quiet verbose s len k m w :
  stat_builder s = mkSimStat (Some len) (Some k) (Some m) -> 0 <= len < 2 ^ 28 -> cpu_ok (cpu s) ->
  quiet (output_stat verbose s) () w.
Proof.
  intros Hsb Hlen Hok.
  assert (exists wd, get_terminal_width = Ok wd) as [wd Hw].
  { unfold get_terminal_width. rewrite Hchecks. destruct terminal_size as [x|]; [|by eexists].
    destruct (20 <=? x); by eexists. }
  unfold output_stat. rewrite Hw. eapply quiet_then; [by apply quiet_lift|]. intros w1 _.
  destruct (info_enabled verbose); [|apply quiet_ret].
  pose proof (stats_print elapsed_ms (default 120 wd) s len k m Hsb Hlen (co_istat _ Hok)
    ltac:(by rewrite Hchecks)) as Hp.
  destruct (fmt_simulator_stats _ _ _) as [[txt|]|e|p]; [|done..|].
  - eapply quiet_then; [by apply quiet_lift|]. intros w2 _. apply info_quiet.
  - destruct Hp as (_ & Hp & _). congruence.
Qed.

(** From the image to the output: the simulator that the commands go on with. *)
Lemma run_simulator_ends turns cycles a d t body (i : I) (o : O) dbg n res w :
  arg_interactive a = false -> image_ok d t body -> in_ok i ->
  isa_output n (start_state d t body i o) res -> (S n < cycles)%nat ->
  exists w', same w w' /\
  match res with
  | inl out => exists s, run_simulator turns cycles a (image d t body) dbg i o w = (Ok s, w') /\
      into_output s = out /\ forall w'', quiet (output_stat (arg_verbose a) s) () w''
  | inr e => run_simulator turns cycles a (image d t body) dbg i o w = (Err (Anyhow (failure_message e)), w')
  end.
Proof.
  intros Hint Him Hin Hres Hn. pose proof Him as [Hd Ht Hfit _ _]. unfold RAM_BYTE_SIZE in Hfit.
  destruct (simulator_new_quiet (arg_verbose a) d t body i o w Him Hin) as (s1 & (w1 & Hs1 & Hw1) & Hr1).
  destruct (provide_quiet (arg_verbose a) dbg d t body i o s1 w1 Hr1) as (s2 & (w2 & Hs2 & Hw2) & Hr2).
  pose proof (execute_runs turns cycles n res d t body i o s2 w2 Hr2 Hres Hn) as He.
  exists w2. split; [by trans w1|]. unfold run_simulator. rewrite Hint, (run_ok _ _ _ _ _ Hs1), (run_ok _ _ _ _ _ Hs2).
  destruct res as [out|e]; [|done].
  destruct He as (s3 & He & Hout & Hok & (k' & m & Hsb)). exists s3. split_and!; [done|done|].
  intros. eapply output_stat_quiet; [done|lia|done].
Qed.
End Running.

(** ** The commands *)

Section Commands.
Context `{Profile} `{FloatFmt} `{Terminal} `{Lexer} `{!LexerLaws} `{ByteLexer} `{Host}.

(** A scene that has been parsed holds words only. *)
Lemma parsed_scene_ok text scene : sld_parse text = Ok scene -> in_ok scene.
Proof.
  intros Hs. pose proof (parse_scene text) as Hp. rewrite Hs in Hp.
  destruct Hp as (sc & r & _ & Hl & -> & _). apply lexes_ok in Hl. simpl. apply Forall_fmap.
  revert Hl. apply Forall_impl. intros [v|b] Hb; simpl in *; [apply wrap32_ok|done].
Qed.

(** What [rt] does with the output of the program, or its fault. *)
Definition finish_rt (path : string) (res : PPMData + RuntimeError) : ST World MainFail () :=
  match res with
  | inl picture => _ ← lift (map_err Anyhow (verify_header picture)); write_file path (into_inner picture)
  | inr e => throw (Anyhow (failure_message e))
  end.

(** What the specification says of a program that [exe] runs on its input. *)
Definition exe_result {O} `{Output O} (w : World) (input : option string) (d t : Z) (body : list Z) (o : O)
    (n : nat) (res : O + RuntimeError) : Prop :=
  match input with
  | Some p => exists content, readable w p content /\ Forall u8_ok content /\
      isa_output n (start_state d t body (binaryinput_new content) o) res
  | None => isa_output n (start_state d t body emptyio_new o) res
  end.

Section Unchecked.
Context (Hchecks : overflow_checks = false).

Lemma rt_runs turns cycles a w d t body text scene dbg n res :
  arg_interactive (rt_delegate a) = false ->
  readable w (arg_input (rt_delegate a)) (image d t body) -> image_ok d t body ->
  readable w (rt_sld a) text -> utf8 text = true -> sld_parse (text_of text) = Ok scene ->
  symbols_of w (arg_debug_symbol (rt_delegate a)) dbg ->
  isa_output n (start_state d t body scene ppmdata_new) res -> (S n < cycles)%nat ->
  ends_as (finish_rt (rt_ppm a) res w) (main turns cycles (Rt a) w).
Proof.
  intros Hint Himg Hok Htext Hutf Hscene Hsym Hres Hn. unfold main, main_rt.
  eapply quiet_bind; [by apply read_input_quiet|]. intros w1 Hw1.
  eapply quiet_bind; [eapply read_text_quiet; [by eapply readable_same|done]|]. intros w2 Hw2.
  assert (same w w2) as Hs2 by by trans w1.
  eapply quiet_bind; [eapply read_dbg_symb_quiet; by eapply symbols_same|]. intros w3 Hw3.
  eapply quiet_bind; [by apply quiet_lift; rewrite Hscene|]. intros w4 Hw4.
  eapply quiet_bind; [apply info_quiet|]. intros w5 Hw5.
  assert (same w w5) as Hs5 by (trans w2; [done|]; trans w3; [done|]; by trans w4).
  destruct (run_simulator_ends Hchecks turns cycles (rt_delegate a) d t body scene ppmdata_new dbg n res w5)
    as (w6 & Hw6 & Hrun); [done|done|by eapply parsed_scene_ok|done..|].
  destruct res as [p|e]; [|rewrite (run_err _ _ _ _ _ Hrun); split; [done|by trans w5]].
  destruct Hrun as (s & Hrun & Hout & Hq). rewrite (run_ok _ _ _ _ _ Hrun).
  eapply quiet_bind; [apply info_quiet|]. intros w7 Hw7.
  eapply quiet_bind; [apply Hq|]. intros w8 Hw8. rewrite Hout. unfold finish_rt.
  assert (same w w8) as Hs8 by (trans w5; [done|]; trans w6; [done|]; by trans w7).
  destruct (verify_header p) as [h|e|pa].
  - eapply (quiet_bind _ h); [by apply quiet_lift|]. intros w9 Hw9.
    eapply quiet_bind; [apply info_quiet|]. intros w10 Hw10. apply (write_file_ends (rt_ppm a) (into_inner p) w).
    trans w8; [done|]. by trans w9.
  - by split.
  - by split.
Qed.
Lemma run_exe_runs {I O} `{!Input I} `{!Output O} `{!InputOk I} turns cycles c d t body (i : I) (o : O) dbg n res w :
  arg_interactive c = false -> image_ok d t body -> in_ok i ->
  isa_output n (start_state d t body i o) res -> (S n < cycles)%nat ->
  ends_as (match res with inl out => Ok out | inr e => Err (Anyhow (failure_message e)) end, w)
    (run_exe turns cycles c (image d t body) dbg i o w).
Proof.
  intros Hint Hok Hin Hres Hn. unfold run_exe.
  destruct (run_simulator_ends Hchecks turns cycles c d t body i o dbg n res w) as (w1 & Hw1 & Hrun); [done..|].
  destruct res as [out|e]; [|rewrite (run_err _ _ _ _ _ Hrun); by split].
  destruct Hrun as (s & Hrun & Hout & Hq). rewrite (run_ok _ _ _ _ _ Hrun).
  eapply quiet_bind; [apply Hq|]. intros w2 Hw2. rewrite Hout. split; [done|by trans w1].
Qed.

Lemma exe_output_runs {O} `{!Output O} turns cycles a d t body (o : O) dbg n res w w0 :
  same w0 w -> arg_interactive (exe_delegate a) = false -> image_ok d t body ->
  exe_result w0 (exe_stdin a) d t body o n res -> (S n < cycles)%nat ->
  ends_as (match res with inl out => Ok out | inr e => Err (Anyhow (failure_message e)) end, w0)
    (exe_output turns cycles a (image d t body) dbg o w).
Proof.
  intros Hw0 Hint Hok Hres Hn. unfold exe_result, exe_output in *. destruct (exe_stdin a) as [p|].
  - destruct Hres as (content & Hp & Hb & Hres).
    eapply quiet_bind; [by eapply read_input_quiet, readable_same|]. intros w1 Hw1.
    destruct (run_exe_runs turns cycles (exe_delegate a) d t body (binaryinput_new content) o dbg n res w1)
      as [Ho Hs]; [done..|]. split; [done|]. simpl in *. trans w; [done|]. by trans w1.
  - destruct (run_exe_runs turns cycles (exe_delegate a) d t body emptyio_new o dbg n res w)
      as [Ho Hs]; [done..|]. split; [done|]. simpl in *. by trans w.
Qed.

(** Going on behind a computation that ends as specified. *)
Lemma ends_bind {A B} (o : outcome MainFail A) (m : ST World MainFail A) (k : A -> ST World MainFail B) r w w0 :
  ends_as (o, w0) (m w) ->
  match o with
  | Ok x => forall w', same w0 w' -> ends_as r (k x w')
  | Err e => ends_as r (Err e, w0)
  | Panic p => ends_as r (Panic p, w0)
  end ->
  ends_as r ((m ≫= k) w).
Proof.
  unfold ends_as, mbind, ST_bind. destruct (m w) as [o' w1]. simpl. intros [-> Hs].
  destruct o; [by auto|..]; intros [Ho Hr]; (split; [done|by trans w0]).
Qed.

Lemma exe_runs turns cycles a w d t body dbg n :
  arg_interactive (exe_delegate a) = false ->
  readable w (arg_input (exe_delegate a)) (image d t body) -> image_ok d t body ->
  symbols_of w (arg_debug_symbol (exe_delegate a)) dbg -> (S n < cycles)%nat ->
  match exe_stdout a with
  | Some p => forall res, exe_result w (exe_stdin a) d t body binaryoutput_new n res ->
      ends_as (match res with
               | inl out => write_file p (bo_content out) w
               | inr e => (Err (Anyhow (failure_message e)), w)
               end) (main turns cycles (Exe a) w)
  | None => forall res, exe_result w (exe_stdin a) d t body emptyio_new n res ->
      ends_as (match res with inl _ => Ok () | inr e => Err (Anyhow (failure_message e)) end, w)
        (main turns cycles (Exe a) w)
  end.
Proof.
  intros Hint Himg Hok Hsym Hn. unfold main, main_exe.
  destruct (exe_stdout a) as [p|]; intros res Hres;
    (eapply quiet_bind; [by apply read_input_quiet|]; intros w1 Hw1);
    (eapply quiet_bind; [by eapply read_dbg_symb_quiet, symbols_same|]; intros w2 Hw2);
    (eapply ends_bind; [eapply (exe_output_runs _ _ a d t body _ dbg n res w2 w); [by trans w1|done..]|]);
    destruct res as [out|e]; try (by split); intros w3 Hw3.
  by apply write_file_ends.
Qed.

(** C4: The command [rt], from files to file, in a build without overflow checks: for a
    memory image that fits, a scene description that parses and, if any, a file
    of symbols, if the specification runs the program on the scene to its end in
    [n] instructions, then the command (with enough fuel) is, but for the log,
    the following: when the program has ended, its output is checked, and written
    to the file of the picture if it has a header and reported as an error
    otherwise; when it has failed, the fault is reported and no file is touched. *)
Theorem main_rt_runs turns cycles a w d t body text scene dbg n res :
  arg_interactive (rt_delegate a) = false ->
  readable w (arg_input (rt_delegate a)) (image d t body) -> image_ok d t body ->
  readable w (rt_sld a) text -> utf8 text = true -> sld_parse (text_of text) = Ok scene ->
  symbols_of w (arg_debug_symbol (rt_delegate a)) dbg ->
  isa_output n (start_state d t body scene ppmdata_new) res -> (S n < cycles)%nat ->
  ends_as (finish_rt (rt_ppm a) res w) (main turns cycles (Rt a) w).
Proof. apply rt_runs. Qed.

(** C3: The command [exe], in a build without overflow checks: for a memory image that
    fits, symbols and, if any, an input file, if the specification runs the
    program on that input to its end in [n] instructions, then the command (with
    enough fuel) writes exactly the bytes that the program has put out to the
    output file, if one is given, and nothing else but the log; a fault of the
    program is reported, and no file is touched. *)
Theorem main_exe_runs turns cycles a w d t body dbg n :
  arg_interactive (exe_delegate a) = false ->
  readable w (arg_input (exe_delegate a)) (image d t body) -> image_ok d t body ->
  symbols_of w (arg_debug_symbol (exe_delegate a)) dbg -> (S n < cycles)%nat ->
  match exe_stdout a with
  | Some p => forall res, exe_result w (exe_stdin a) d t body binaryoutput_new n res ->
      ends_as (match res with
               | inl out => write_file p (bo_content out) w
               | inr e => (Err (Anyhow (failure_message e)), w)
               end) (main turns cycles (Exe a) w)
  | None => forall res, exe_result w (exe_stdin a) d t body emptyio_new n res ->
      ends_as (match res with inl _ => Ok () | inr e => Err (Anyhow (failure_message e)) end, w)
        (main turns cycles (Exe a) w)
  end.
Proof. apply exe_runs. Qed.
End Unchecked.

(** ** Files that are not the output *)

(** The file that a command may write. *)
Definition output_path (args : Command) : option string :=
  match args with Rt a => Some (rt_ppm a) | Exe a => exe_stdout a end.

Lemma keeps_info {X} (f : gmap string (list Z) -> X) verbose m :
  keeps (fun w => f (files w)) (info verbose m).
Proof. unfold info. destruct (info_enabled verbose); [by apply keeps_modify|apply keeps_ret]. Qed.

Section Kept.
Context (q : string).
Abbreviation file := (fun w : World => files w !! q).
Abbreviation kept m := (keeps (S:=World) (E:=MainFail) file m).

Lemma keeps_read_input p : kept (read_input p).
Proof. unfold read_input. repeat first [keeps_step|case_match|done]. Qed.

Lemma keeps_read_text p : kept (read_text p).
Proof.
  unfold read_text. apply keeps_bind; [apply keeps_read_input|]. intros b.
  by destruct (utf8 b).
Qed.

Lemma keeps_symbols p : kept (read_dbg_symb p).
Proof.
  unfold read_dbg_symb. destruct p; [|apply keeps_ret].
  apply keeps_bind; [apply keeps_read_input|]. intros b. repeat keeps_step.
Qed.

Lemma keeps_write_file p b : p <> q -> kept (write_file p b).
Proof.
  intros Hp. unfold write_file. destruct (create_error p); [done|].
  apply keeps_bind; [by apply keeps_modify; intros; apply lookup_insert_ne|]. intros _.
  destruct (write_error p b) as [[n e]|]; [|by apply keeps_modify; intros; apply lookup_insert_ne].
  by apply keeps_bind; [apply keeps_modify; intros; apply lookup_insert_ne|].
Qed.

Context {I O : Type} `{!Input I} `{!Output O}.

Lemma keeps_execute turns cycles (s : Simulator I O) interactive : kept (execute turns cycles s interactive).
Proof.
  unfold execute. destruct interactive.
  - intros w. by destruct (execute_interactive _ _ _) as [[[]|[]|] ?].
  - destruct (execute_batch cycles s) as [[[[]|]|[]|] ?]; done.
Qed.

Lemma keeps_run_simulator turns cycles a mem dbg (i : I) (o : O) :
  kept (run_simulator turns cycles a mem dbg i o).
Proof.
  unfold run_simulator, simulator_new, provide.
  repeat first [apply (keeps_info (fun f => f !! q))|apply keeps_execute|keeps_step|case_match].
Qed.

Lemma keeps_output_stat verbose (s : Simulator I O) : kept (output_stat verbose s).
Proof.
  unfold output_stat.
  repeat first [apply (keeps_info (fun f => f !! q))|keeps_step|case_match|done].
Qed.

Lemma keeps_run_exe turns cycles a mem dbg (i : I) (o : O) : kept (run_exe turns cycles a mem dbg i o).
Proof.
  unfold run_exe. apply keeps_bind; [apply keeps_run_simulator|]. intros s.
  apply keeps_bind; [apply keeps_output_stat|]. intros. apply keeps_ret.
Qed.
End Kept.

Lemma keeps_exe_output q {O} `{!Output O} turns cycles a mem dbg (o : O) :
  keeps (fun w => files w !! q) (exe_output turns cycles a mem dbg o).
Proof.
  unfold exe_output. destruct (exe_stdin a); [|apply keeps_run_exe].
  apply keeps_bind; [apply keeps_read_input|]. intros. apply keeps_run_exe.
Qed.

(** C35: Whatever the arguments, the files and the program, in a batch or a session, and
    however the command ends (an error, a panic, a write that fails half-way):
    every file but the one named for the output is as it was. *)
Theorem main_keeps_other_files turns cycles args w q :
  output_path args <> Some q -> files (main turns cycles args w).2 !! q = files w !! q.
Proof.
  intros Hq. enough (keeps (fun w => files w !! q) (main turns cycles args)) as Hk by apply Hk.
  destruct args as [a|a]; simpl in Hq; unfold main.
  - unfold main_rt.
    repeat first [apply keeps_read_input|apply keeps_read_text|apply keeps_symbols|apply (keeps_info (fun f => f !! q))
      |apply keeps_run_simulator|apply keeps_output_stat|apply keeps_write_file; congruence|keeps_step].
  - unfold main_exe. apply keeps_bind; [apply keeps_read_input|]. intros mem.
    apply keeps_bind; [apply keeps_symbols|]. intros dbg.
    destruct (exe_stdout a) as [p|]; (apply keeps_bind; [apply keeps_exe_output|]; intros).
    + apply keeps_write_file. congruence.
    + apply keeps_ret.
Qed.
End Commands.

(** ** Examples *)

Section Demo.
#[local] Existing Instance release_profile.
#[local] Existing Instance demo_lexer.
#[local] Existing Instance demo_laws.
#[local] Existing Instance nom_lexer.
#[local] Instance demo_floats : FloatFmt := {| fmt_f32 _ := "0"%string; fmt_f64_6 _ := "0.000000"%string |}.
#[local] Instance no_terminal : Terminal := {| terminal_size := None; expected := fun _ => "command"%string |}.

(** Every file can be opened and written, and only verbose messages are logged. *)
#[local] Instance demo_host : Host := {|
  not_found := fun _ => "No such file or directory (os error 2)"%string;
  read_error := fun _ => None;
  create_error := fun _ => None;
  write_error := fun _ _ => None;
  info_enabled := fun verbose => verbose;
  json := fun _ => Err "expected value"%string;
  elapsed_ms := 1
|}.

(** The output of a run of exactly [n] instructions. *)
Definition output_of {I O : Type} `{Input I} `{Output O} (n : nat) (a : Arch I O) : option O :=
  a_out <$> exit_state isa_step n a.

Lemma output_of_runs {I O : Type} `{Input I} `{Output O} n (a : Arch I O) o :
  output_of n a = Some o -> isa_output n a (inl o).
Proof. intros (b & Hb & ->)%fmap_Some. exists b. split; [by apply exit_state_runs|done]. Qed.

(** A program that writes the header of a picture. *)
Definition header_bytes : list Z := P6 ++ [32; 49; 32; 49; 32; 49; 32].
Definition header_text : list DecodedInstr :=
  concat (map (fun b => [InstrI Addi (mkRegId 5) (mkRegId 0) b; InstrIO (Outb (mkRegId 5))]) header_bytes)
  ++ [InstrMisc MiscEnd].
Definition header_body : list Z := concat (map (fun i => to_le_bytes (encode i)) header_text).

Lemma header_image : image_ok 0 19 header_body.
Proof. split; [done..|by vm_compute|apply (bool_decide_unpack _); by vm_compute]. Qed.

Definition demo_world : World :=
  mkWorld (<["a.sld" := bytes_of demo_sld]> (<["rt.bin" := image 0 19 header_body]> (<["a.bin" := image 0 8 demo_body]> ∅)))%string
    [] EmptyString [].

Definition demo_rt : RtArgs := mkRtArgs (mkCommonArgs "rt.bin" false true None) "a.sld" "a.ppm".
Definition demo_exe : ExeArgs := mkExeArgs (mkCommonArgs "a.bin" false true None) None (Some "a.out"%string).

Lemma main_rt_runs_witness :
  (main 0 20 (Rt demo_rt) demo_world).1 = Ok () /\
  files (main 0 20 (Rt demo_rt) demo_world).2 !! "a.ppm"%string = Some header_bytes.
Proof.
  destruct (sld_parse demo_sld) as [scene|e|p] eqn:Hs; [|exfalso; revert Hs; vm_compute; discriminate..].
  assert (ends_as (finish_rt (rt_ppm demo_rt) (inl (mkPPM header_bytes)) demo_world)
    (main 0 20 (Rt demo_rt) demo_world)) as [Hr [Hf _ _]].
  { apply (main_rt_runs (H:=release_profile) (eq_refl false) 0 20 demo_rt demo_world 0 19 header_body (bytes_of demo_sld) scene
      debugsymbol_default 18); try done.
    - apply header_image.
    - apply output_of_runs. by vm_compute.
    - lia. }
  rewrite Hr, Hf. split; vm_compute; reflexivity.
Defined.

Lemma main_exe_runs_witness :
  (main 0 9 (Exe demo_exe) demo_world).1 = Ok () /\
  files (main 0 9 (Exe demo_exe) demo_world).2 !! "a.out"%string = Some [5].
Proof.
  assert (ends_as (write_file "a.out"%string [5] demo_world) (main 0 9 (Exe demo_exe) demo_world)) as [Hr [Hf _ _]].
  { apply (main_exe_runs (H:=release_profile) (eq_refl false) 0 9 demo_exe demo_world 0 8 demo_body
      debugsymbol_default 7) with (res := inl (mkBinaryOutput [5])); try done.
    - apply demo_image.
    - lia.
    - apply output_of_runs. by vm_compute. }
  rewrite Hr, Hf. split; vm_compute; reflexivity.
Defined.

Lemma main_keeps_other_files_witness :
  files (main 0 9 (Exe demo_exe) demo_world).2 !! "a.bin"%string = Some (image 0 8 demo_body).
Proof.
  rewrite (main_keeps_other_files 0 9 (Exe demo_exe) demo_world "a.bin"%string); [done|].
  by vm_compute.
Defined.
(** A session that is left before the program has run: the statistics are those of
    no cycles, and the output that is written is empty. *)
Example early_exit :
  let w := mkWorld (files demo_world) [line "exit"] EmptyString [] in
  let r := main 1 9 (Exe (mkExeArgs (mkCommonArgs "a.bin" true true None) None (Some "a.out")))%string w in
  r.1 = Ok () /\ files r.2 !! "a.out"%string = Some [] /\ length (log r.2) = 3%nat.
Proof. vm_compute. by split_and!. Qed.

(** A program whose output is no picture is reported, and no file is written. *)
Example no_picture :
  let r := main 0 9 (Rt (mkRtArgs (mkCommonArgs "a.bin" false false None) "a.sld" "a.ppm"))%string demo_world in
  r = (Err (Anyhow (header_message "Tag")), demo_world).
Proof. vm_compute. reflexivity. Qed.
End Demo.
