(* ===== verification/Instr2.v ===== *)
(** * Instructions of the second set ([core_sim/src/instr.rs] and register.rs,
    feature [isa_2nd])

    The formats are those of the first set; the operations of five of them
    differ, the formats [P] (compare with an immediate and branch) and [G] (fused
    multiply and add) have instructions, and there are 64 registers of each kind.
    What the two sets share is taken from Instr.v and Register.v. *)
From S2P Require Import Prelude Word Register Instr.

(** ** Operations *)

Inductive RInstr := Add | Xor | Min | Max.
Inductive IInstr := Addi | Xori | Slli | Lw | Jalr.
Inductive BInstr := Beq | Bne | Blt | Bge | Bxor | Bxnor.
Inductive PInstr := Beqi | Bnei | Blti | Bgei | Bgti | Blei.
Inductive GInstr := Fmadd | Fmsub | Fnmadd | Fnmsub.
Inductive HInstr := Fsqrt | Fhalf | Ffloor | Ffrac | Finv.

Section Instr.
Context (IR IW FR FW : Type).

Inductive FInstr :=
  | FE (instr : EInstr) (rd : FW) (rs1 rs2 : FR)
  | FG (instr : GInstr) (rd : FW) (rs1 rs2 rs3 : FR)
  | FH (instr : HInstr) (rd : FW) (rs1 : FR)
  | FK (instr : KInstr) (rd : IW) (rs1 rs2 : FR)
  | FX (instr : XInstr) (rd : FW) (rs1 : IR)
  | FY (instr : YInstr) (rd : IW) (rs1 : FR)
  | FWb (instr : WInstr) (rs1 rs2 : FR) (imm : Z)
  | FV (instr : VInstr) (rs1 : FR) (imm : Z)
  | Flw (rd : FW) (rs1 : IR) (imm : Z)
  | Fsw (rs2 : FR) (rs1 : IR) (imm : Z).

Inductive Instr :=
  | InstrR (instr : RInstr) (rd : IW) (rs1 rs2 : IR)
  | InstrI (instr : IInstr) (rd : IW) (rs1 : IR) (imm : Z)
  | InstrS (instr : SInstr) (rs1 rs2 : IR) (imm : Z)
  | InstrB (instr : BInstr) (rs1 rs2 : IR) (imm : Z)
  | InstrP (instr : PInstr) (rs1 : IR) (imm imm2 : Z)
  | InstrJ (instr : JInstr) (rd : IW) (imm : Z)
  | InstrIO (io : IOInstr IR IW FW)
  | InstrF (f : FInstr)
  | InstrMisc (m : MiscInstr).
End Instr.
Arguments FE {IR IW FR FW} _ _ _ _.
Arguments FG {IR IW FR FW} _ _ _ _ _.
Arguments FH {IR IW FR FW} _ _ _.
Arguments FK {IR IW FR FW} _ _ _ _.
Arguments FX {IR IW FR FW} _ _ _.
Arguments FY {IR IW FR FW} _ _ _.
Arguments FWb {IR IW FR FW} _ _ _ _.
Arguments FV {IR IW FR FW} _ _ _.
Arguments Flw {IR IW FR FW} _ _ _.
Arguments Fsw {IR IW FR FW} _ _ _.
Arguments InstrR {IR IW FR FW} _ _ _ _.
Arguments InstrI {IR IW FR FW} _ _ _ _.
Arguments InstrS {IR IW FR FW} _ _ _ _.
Arguments InstrB {IR IW FR FW} _ _ _ _.
Arguments InstrP {IR IW FR FW} _ _ _ _.
Arguments InstrJ {IR IW FR FW} _ _ _.
Arguments InstrIO {IR IW FR FW} _.
Arguments InstrF {IR IW FR FW} _.
Arguments InstrMisc {IR IW FR FW} _.

Definition DecodedInstr : Type := Instr RegId RegId FRegId FRegId.

(** ** Instruction numbers *)

(** [RInstr as u8] and so on: the position of the variant. *)
Definition RInstr_as_u8 (i : RInstr) : Z := match i with Add => 0 | Xor => 1 | Min => 2 | Max => 3 end.
Definition IInstr_as_u8 (i : IInstr) : Z :=
  match i with Addi => 0 | Xori => 1 | Slli => 2 | Lw => 3 | Jalr => 4 end.
Definition BInstr_as_u8 (i : BInstr) : Z :=
  match i with Beq => 0 | Bne => 1 | Blt => 2 | Bge => 3 | Bxor => 4 | Bxnor => 5 end.
Definition PInstr_as_u8 (i : PInstr) : Z :=
  match i with Beqi => 0 | Bnei => 1 | Blti => 2 | Bgei => 3 | Bgti => 4 | Blei => 5 end.
Definition GInstr_as_u8 (i : GInstr) : Z :=
  match i with Fmadd => 0 | Fmsub => 1 | Fnmadd => 2 | Fnmsub => 3 end.
Definition HInstr_as_u8 (i : HInstr) : Z :=
  match i with Fsqrt => 0 | Fhalf => 1 | Ffloor => 2 | Ffrac => 3 | Finv => 4 end.

(** [Instr::id] *)
Definition id {IR IW FR FW} (self : Instr IR IW FR FW) : InstrId :=
  match self with
  | InstrR instr _ _ _ => id_of 0 (RInstr_as_u8 instr)
  | InstrI instr _ _ _ => id_of 1 (IInstr_as_u8 instr)
  | InstrS instr _ _ _ => id_of 2 (SInstr_as_u8 instr)
  | InstrB instr _ _ _ => id_of 3 (BInstr_as_u8 instr)
  | InstrP instr _ _ _ => id_of 4 (PInstr_as_u8 instr)
  | InstrJ instr _ _ => id_of 5 (JInstr_as_u8 instr)
  | InstrIO io => id_of 6 (match io with Outb _ => 0 | Inw _ => 1 | Finw _ => 2 end)
  | InstrF f =>
      match f with
      | FE instr _ _ _ => id_of 7 (EInstr_as_u8 instr)
      | FG instr _ _ _ _ => id_of 8 (GInstr_as_u8 instr)
      | FH instr _ _ => id_of 9 (HInstr_as_u8 instr)
      | FK instr _ _ _ => id_of 10 (KInstr_as_u8 instr)
      | FX instr _ _ => id_of 11 (XInstr_as_u8 instr)
      | FY instr _ _ => id_of 12 (YInstr_as_u8 instr)
      | FWb instr _ _ _ => id_of 13 (WInstr_as_u8 instr)
      | FV instr _ _ => id_of 14 (VInstr_as_u8 instr)
      | Flw _ _ _ => id_of 15 0
      | Fsw _ _ _ => id_of 15 1
      end
  | InstrMisc MiscEnd => id_of 15 2
  end.

(** ** Printing *)

Open Scope string_scope.

Definition fmt_RInstr (i : RInstr) : string :=
  match i with Add => "add" | Xor => "xor" | Min => "min" | Max => "max" end.
Definition fmt_IInstr (i : IInstr) : string :=
  match i with Addi => "addi" | Xori => "xori" | Slli => "slli" | Lw => "lw" | Jalr => "jalr" end.
Definition fmt_BInstr (i : BInstr) : string :=
  match i with
  | Beq => "beq" | Bne => "bne" | Blt => "blt" | Bge => "bge" | Bxor => "bxor" | Bxnor => "bxnor"
  end.
Definition fmt_PInstr (i : PInstr) : string :=
  match i with
  | Beqi => "beqi" | Bnei => "bnei" | Blti => "blti" | Bgei => "bgei" | Bgti => "bgti" | Blei => "blei"
  end.
Definition fmt_GInstr (i : GInstr) : string :=
  match i with Fmadd => "fmadd" | Fmsub => "fmsub" | Fnmadd => "fnmadd" | Fnmsub => "fnmsub" end.
Definition fmt_HInstr (i : HInstr) : string :=
  match i with
  | Fsqrt => "fsqrt" | Fhalf => "fhalf" | Ffloor => "ffloor" | Ffrac => "ffrac" | Finv => "finv"
  end.

(** The names of the variants of each format, for [InstrId]'s [Display]. *)
Definition id_names (upper : Z) : list string :=
  match upper with
  | 0 => fmt_RInstr <$> [Add; Xor; Min; Max]
  | 1 => fmt_IInstr <$> [Addi; Xori; Slli; Lw; Jalr]
  | 3 => fmt_BInstr <$> [Beq; Bne; Blt; Bge; Bxor; Bxnor]
  | 4 => fmt_PInstr <$> [Beqi; Bnei; Blti; Bgei; Bgti; Blei]
  | 8 => fmt_GInstr <$> [Fmadd; Fmsub; Fnmadd; Fnmsub]
  | 9 => fmt_HInstr <$> [Fsqrt; Fhalf; Ffloor; Ffrac; Finv]
  | _ => Instr.id_names upper
  end.

(** [Display for InstrId] *)
Definition fmt_id (i : InstrId) : outcome never string :=
  match nth_name (id_names (Z.shiftr (instr_id_inner i) 3)) (Z.land (instr_id_inner i) 7) with
  | Some s => Ok s
  | None => Panic Unreachable
  end.

(** ** Registers *)

Definition REG_BIT_WIDTH : Z := 6.

(** The names of the further registers. *)
Definition ABINAME_TABLE : list string :=
  (Register.ABINAME_TABLE ++
   ["x32"; "x33"; "x34"; "x35"; "x36"; "x37"; "x38"; "x39"; "x40"; "x41"; "x42"; "x43"; "x44"; "x45";
    "x46"; "x47"; "x48"; "x49"; "x50"; "x51"; "x52"; "x53"; "x54"; "x55"; "x56"; "x57"; "x58"; "x59";
    "x60"; "x61"; "x62"; "x63"])%list.
Definition F_ABINAME_TABLE : list string :=
  (Register.F_ABINAME_TABLE ++
   ["f32"; "f33"; "f34"; "f35"; "f36"; "f37"; "f38"; "f39"; "f40"; "f41"; "f42"; "f43"; "f44"; "f45";
    "f46"; "f47"; "f48"; "f49"; "f50"; "f51"; "f52"; "f53"; "f54"; "f55"; "f56"; "f57"; "f58"; "f59";
    "f60"; "f61"; "f62"; "f63"])%list.

Close Scope string_scope.

Definition fmt_reg (r : RegId) : outcome never string := table_name ABINAME_TABLE (reg_no r).
Definition fmt_freg (r : FRegId) : outcome never string := table_name F_ABINAME_TABLE (freg_no r).

Open Scope string_scope.

(** [Display] of the floating-point formats. *)
Definition fmt_FInstr (f : FInstr RegId RegId FRegId FRegId) : outcome never string :=
  match f with
  | FE i rd rs1 rs2 =>
      d ← fmt_freg rd; a ← fmt_freg rs1; b ← fmt_freg rs2; mret (words (fmt_EInstr i) [d; a; b])
  | FG i rd rs1 rs2 rs3 =>
      d ← fmt_freg rd; a ← fmt_freg rs1; b ← fmt_freg rs2; c ← fmt_freg rs3;
      mret (words (fmt_GInstr i) [d; a; b; c])
  | FH i rd rs1 => d ← fmt_freg rd; a ← fmt_freg rs1; mret (words (fmt_HInstr i) [d; a])
  | FK i rd rs1 rs2 =>
      d ← fmt_reg rd; a ← fmt_freg rs1; b ← fmt_freg rs2; mret (words (fmt_KInstr i) [d; a; b])
  | FX i rd rs1 => d ← fmt_freg rd; a ← fmt_reg rs1; mret (words (fmt_XInstr i) [d; a])
  | FY i rd rs1 => d ← fmt_reg rd; a ← fmt_freg rs1; mret (words (fmt_YInstr i) [d; a])
  | FWb i rs1 rs2 imm =>
      a ← fmt_freg rs1; b ← fmt_freg rs2; mret (words (fmt_WInstr i) [a; b; fmt_u32 imm])
  | FV i rs1 imm => a ← fmt_freg rs1; mret (words (fmt_VInstr i) [a; fmt_u32 imm])
  | Flw rd rs1 imm =>
      d ← fmt_freg rd; a ← fmt_reg rs1; mret (words "flw" [d; fmt_u32 imm +:+ "(" +:+ a +:+ ")"])
  | Fsw rs2 rs1 imm =>
      b ← fmt_freg rs2; a ← fmt_reg rs1; mret (words "fsw" [b; fmt_u32 imm +:+ "(" +:+ a +:+ ")"])
  end.

(** [Display for Instr] *)
Definition fmt_instr (self : DecodedInstr) : outcome never string :=
  match self with
  | InstrR i rd rs1 rs2 =>
      d ← fmt_reg rd; a ← fmt_reg rs1; b ← fmt_reg rs2; mret (words (fmt_RInstr i) [d; a; b])
  | InstrI Lw rd rs1 imm =>
      d ← fmt_reg rd; a ← fmt_reg rs1;
      mret (words (fmt_IInstr Lw) [d; fmt_i32 imm +:+ "(" +:+ a +:+ ")"])
  | InstrI i rd rs1 imm =>
      d ← fmt_reg rd; a ← fmt_reg rs1; mret (words (fmt_IInstr i) [d; a; fmt_i32 imm])
  | InstrS i rs1 rs2 imm =>
      b ← fmt_reg rs2; a ← fmt_reg rs1;
      mret (words (fmt_SInstr i) [b; fmt_i32 imm +:+ "(" +:+ a +:+ ")"])
  | InstrB i rs1 rs2 imm =>
      a ← fmt_reg rs1; b ← fmt_reg rs2; mret (words (fmt_BInstr i) [a; b; fmt_i32 imm])
  | InstrP i rs1 imm imm2 =>
      a ← fmt_reg rs1; mret (words (fmt_PInstr i) [a; fmt_i32 imm2; fmt_i32 imm])
  | InstrJ i rd imm => d ← fmt_reg rd; mret (words (fmt_JInstr i) [d; fmt_i32 imm])
  | InstrIO (Outb rs) => a ← fmt_reg rs; mret (words "outb" [a])
  | InstrIO (Inw rd) => d ← fmt_reg rd; mret (words "inw" [d])
  | InstrIO (Finw rd) => d ← fmt_freg rd; mret (words "finw" [d])
  | InstrF f => fmt_FInstr f
  | InstrMisc MiscEnd => mret "end"
  end.

(** The operation name of an instruction. *)
Definition mnemonic {IR IW FR FW} (self : Instr IR IW FR FW) : string :=
  match self with
  | InstrR i _ _ _ => fmt_RInstr i
  | InstrI i _ _ _ => fmt_IInstr i
  | InstrS i _ _ _ => fmt_SInstr i
  | InstrB i _ _ _ => fmt_BInstr i
  | InstrP i _ _ _ => fmt_PInstr i
  | InstrJ i _ _ => fmt_JInstr i
  | InstrIO (Outb _) => "outb"
  | InstrIO (Inw _) => "inw"
  | InstrIO (Finw _) => "finw"
  | InstrF (FE i _ _ _) => fmt_EInstr i
  | InstrF (FG i _ _ _ _) => fmt_GInstr i
  | InstrF (FH i _ _) => fmt_HInstr i
  | InstrF (FK i _ _ _) => fmt_KInstr i
  | InstrF (FX i _ _) => fmt_XInstr i
  | InstrF (FY i _ _) => fmt_YInstr i
  | InstrF (FWb i _ _ _) => fmt_WInstr i
  | InstrF (FV i _ _) => fmt_VInstr i
  | InstrF (Flw _ _ _) => "flw"
  | InstrF (Fsw _ _ _) => "fsw"
  | InstrMisc MiscEnd => "end"
  end.

Close Scope string_scope.

Section TryFrom.
Context `{Profile}.

(** [TryFrom<u32>] *)
Definition RegId_try_from (rs : Z) : outcome RegisterError RegId :=
  if debug_assertions && (Z.shiftl 1 (REG_BIT_WIDTH + 1) <=? rs) then Err (RegisterTooWide rs)
  else Ok (mkRegId (as_u8 rs)).
Definition FRegId_try_from (rs : Z) : outcome RegisterError FRegId :=
  if debug_assertions && (Z.shiftl 1 (REG_BIT_WIDTH + 1) <=? rs) then Err (FRegisterTooWide rs)
  else Ok (mkFRegId (as_u8 rs)).

(** A six-bit field converts to the register of that number. *)
Lemma RegId2_try_from_field rs : 0 <= rs < 64 -> RegId_try_from rs = Ok (mkRegId rs).
Proof.
  intros. unfold RegId_try_from. change (Z.shiftl 1 (REG_BIT_WIDTH + 1)) with 128.
  destruct (Z.leb_spec 128 rs); [lia|]. rewrite andb_false_r. unfold as_u8. by rewrite Z.mod_small by lia.
Qed.

Lemma FRegId2_try_from_field rs : 0 <= rs < 64 -> FRegId_try_from rs = Ok (mkFRegId rs).
Proof.
  intros. unfold FRegId_try_from. change (Z.shiftl 1 (REG_BIT_WIDTH + 1)) with 128.
  destruct (Z.leb_spec 128 rs); [lia|]. rewrite andb_false_r. unfold as_u8. by rewrite Z.mod_small by lia.
Qed.
End TryFrom.

(** A register number that exists. *)
Definition reg_ok (r : RegId) : Prop := 0 <= reg_no r < 64.
Definition freg_ok (r : FRegId) : Prop := 0 <= freg_no r < 64.

(** ** The table of the instruction numbers *)

(** [mem::variant_count] of the formats, by the upper bits of a number. *)
Definition variant_counts : list Z := [4; 5; 1; 6; 6; 1; 3; 7; 4; 5; 1; 1; 4; 2; 2; 3].

(** [TryFrom<u8> for InstrId] *)
Definition InstrId_try_from (v : Z) : outcome () InstrId :=
  let upper := Z.shiftr v 3 in
  let lower := Z.land v 7 in
  let b := match variant_counts !! Z.to_nat upper with
           | Some n => lower <? n
           | None => false
           end in
  if b then Ok (mkInstrId v) else Err ().

(** The number of an instruction indexes the statistics, is accepted, and prints
    as the operation. *)
Lemma id_round_trip {IR IW FR FW} (i : Instr IR IW FR FW) :
  0 <= instr_id_inner (id i) < INSTR_ID_MAX /\
  InstrId_try_from (instr_id_inner (id i)) = Ok (id i) /\
  fmt_id (id i) = Ok (mnemonic i).
Proof.
  destruct i as [[]|[]|[]|[]|[]|[]|[]|[[]|[]|[]|[]|[]|[]|[]|[]|?|?]|[]];
    (split; [vm_compute; intuition congruence|done]).
Qed.
