(* ===== verification/Decode2.v ===== *)
(** * The decoder of the second instruction set ([core_sim/src/decode_instr_2nd.rs])

    [decode_from] is split by opcode: one definition per arm of the source's
    [match opcode].  Encode2.v has the reference encoder and the proof that
    the decoder is its inverse, up to the fields that the instructions ignore. *)
From S2P Require Import Prelude Word Bin Register Instr Decode Instr2.

(** ** Immediates *)

Definition compose_3 (sign imm_11_6 imm_5_0 : Z) : Z :=
  let imm := Z.lor (Z.shiftl imm_11_6 6) imm_5_0 in
  sign_extend 12 sign imm.

Definition compose_4 (sign imm_11_6 imm_5_2_13_12 : Z) : Z :=
  let imm_13_12 := mask imm_5_2_13_12 0 1 in
  let imm := Z.lor (Z.lor (Z.shiftl imm_13_12 12) (Z.shiftl imm_11_6 6)) (mask imm_5_2_13_12 2 5) in
  sign_extend 14 sign imm.

Definition compose_6 (sign imm_11_6 imm_5_2_13_12 imm_22_17 imm_16_14 : Z) : Z :=
  let imm_13_12 := mask imm_5_2_13_12 0 1 in
  let imm := Z.lor (Z.lor (Z.lor (Z.lor (Z.shiftl imm_22_17 17) (Z.shiftl imm_16_14 14))
                                 (Z.shiftl imm_13_12 12)) (Z.shiftl imm_11_6 6))
                   (mask imm_5_2_13_12 2 5) in
  sign_extend 23 sign imm.

Section Decode.
Context `{Profile}.

(** [x.try_into()?] *)
Definition to_reg (rs : Z) : outcome DecodeFail RegId := map_err DecodeRegister (RegId_try_from rs).
Definition to_freg (rs : Z) : outcome DecodeFail FRegId := map_err DecodeRegister (FRegId_try_from rs).

(** 0b0000: R format *)
Definition decode_r (bin rd funct3 rs1 rs2 : Z) : outcome DecodeFail DecodedInstr :=
  instr ← match funct3 with
          | 0x0 => Ok Add
          | 0x4 => Ok Xor
          | 0x1 => Ok Min
          | 0x3 => Ok Max
          | _ => invalid bin
          end;
  rd ← to_reg rd;
  rs1 ← to_reg rs1;
  rs2 ← to_reg rs2;
  mret (InstrR instr rd rs1 rs2).

(** 0b0010, 0b0110 and 0b1010: I format *)
Definition decode_i (bin rd funct3 rs1 rs2 imm_11_6 sign : Z) : outcome DecodeFail DecodedInstr :=
  instr ← match funct3 with
          | 0x0 => Ok Addi
          | 0x4 => Ok Xori
          | 0x2 => Ok Slli
          | _ => invalid bin
          end;
  rd ← to_reg rd;
  rs1 ← to_reg rs1;
  mret (InstrI instr rd rs1 (compose_3 sign imm_11_6 rs2)).
Definition decode_lw (rd rs1 rs2 imm_11_6 sign : Z) : outcome DecodeFail DecodedInstr :=
  rd ← to_reg rd;
  rs1 ← to_reg rs1;
  mret (InstrI Lw rd rs1 (compose_3 sign imm_11_6 rs2)).
Definition decode_jalr (bin rd funct3 rs1 rs2 imm_11_6 sign : Z) : outcome DecodeFail DecodedInstr :=
  instr ← match funct3 with 0x0 => Ok Jalr | _ => invalid bin end;
  rd ← to_reg rd;
  rs1 ← to_reg rs1;
  mret (InstrI instr rd rs1 (compose_3 sign imm_11_6 rs2)).

(** 0b0100: S format *)
Definition decode_s (rd rs1 rs2 imm_11_6 sign : Z) : outcome DecodeFail DecodedInstr :=
  rs1 ← to_reg rs1;
  rs2 ← to_reg rs2;
  mret (InstrS Sw rs1 rs2 (compose_3 sign imm_11_6 rd)).

(** 0b1000: B format *)
Definition decode_b (bin rd funct3 rs1 rs2 imm_11_6 sign : Z) : outcome DecodeFail DecodedInstr :=
  instr ← match funct3 with
          | 0x0 => Ok Beq
          | 0x1 => Ok Bne
          | 0x4 => Ok Blt
          | 0x5 => Ok Bge
          | 0x2 => Ok Bxor
          | 0x3 => Ok Bxnor
          | _ => invalid bin
          end;
  rs1 ← to_reg rs1;
  rs2 ← to_reg rs2;
  mret (InstrB instr rs1 rs2 (compose_4 sign imm_11_6 rd)).

(** 0b1100: P format; the immediate operand is in the place of [rs2] *)
Definition decode_p (bin rd funct3 rs1 rs2 imm_11_6 sign : Z) : outcome DecodeFail DecodedInstr :=
  instr ← match funct3 with
          | 0x0 => Ok Beqi
          | 0x1 => Ok Bnei
          | 0x4 => Ok Blti
          | 0x5 => Ok Bgei
          | 0x6 => Ok Bgti
          | 0x7 => Ok Blei
          | _ => invalid bin
          end;
  rs1 ← to_reg rs1;
  let imm2 := sign_extend 5 (at_ rs2 5) rs2 in
  let imm := compose_4 sign imm_11_6 rd in
  mret (InstrP instr rs1 imm imm2).

(** 0b1110 *)
Definition decode_jal (rd funct3 rs1 rs2 imm_11_6 sign : Z) : outcome DecodeFail DecodedInstr :=
  let imm := compose_6 sign imm_11_6 rs2 rs1 funct3 in
  rd ← to_reg rd;
  mret (InstrJ Jal rd imm).

(** 0b0011: input and output *)
Definition decode_io (bin rd funct3 rs1 : Z) : outcome DecodeFail DecodedInstr :=
  match funct3 with
  | 1 => rd ← to_reg rd; mret (InstrIO (Inw rd))
  | 2 => rs ← to_reg rs1; mret (InstrIO (Outb rs))
  | 4 => rd ← to_freg rd; mret (InstrIO (Finw rd))
  | _ => invalid bin
  end.

(** 0b0001 with [funct3 = 0]: the operation is in the upper bits of [funct7] *)
Definition decode_f_arith (bin rd rs1 rs2 funct7 : Z) : outcome DecodeFail DecodedInstr :=
  let e instr := rd ← to_freg rd; rs1 ← to_freg rs1; rs2 ← to_freg rs2;
                 mret (InstrF (FE instr rd rs1 rs2)) in
  let h instr := rd ← to_freg rd; rs1 ← to_freg rs1; mret (InstrF (FH instr rd rs1)) in
  match Z.shiftr funct7 2 with
  | 0x00 => e Fadd
  | 0x01 => e Fsub
  | 0x02 => e Fmul
  | 0x03 => e Fdiv
  | 0x06 => e Fsgnj
  | 0x07 => e Fsgnjn
  | 0x08 => e Fsgnjx
  | 0x04 => h Fsqrt
  | 0x05 => h Fhalf
  | 0x0c => h Ffrac
  | 0x0b => h Finv
  | 0x09 => h Ffloor
  | 0x11 => rd ← to_reg rd; rs1 ← to_freg rs1; mret (InstrF (FY Fftoi rd rs1))
  | 0x19 => rd ← to_freg rd; rs1 ← to_reg rs1; mret (InstrF (FX Fitof rd rs1))
  | _ => invalid bin
  end.

(** 0b0001 with another [funct3] and the sign bit clear: [imm_11_6] is the third
    operand *)
Definition decode_g (bin rd funct3 rs1 rs2 imm_11_6 : Z) : outcome DecodeFail DecodedInstr :=
  rd ← to_freg rd;
  rs1 ← to_freg rs1;
  rs2 ← to_freg rs2;
  rs3 ← to_freg imm_11_6;
  instr ← match funct3 with
          | 1 => Ok Fmadd
          | 2 => Ok Fmsub
          | 5 => Ok Fnmadd
          | 6 => Ok Fnmsub
          | _ => invalid bin
          end;
  mret (InstrF (FG instr rd rs1 rs2 rs3)).

(** 0b0001 with another [funct3] and the sign bit set: the comparisons *)
Definition decode_f_cmp (bin rd funct3 rs1 rs2 : Z) : outcome DecodeFail DecodedInstr :=
  if funct3 =? 1 then
    rd ← to_reg rd;
    rs1 ← to_freg rs1;
    rs2 ← to_freg rs2;
    mret (InstrF (FK Flt rd rs1 rs2))
  else
    rd ← to_reg rd;
    rs1 ← to_freg rs1;
    instr ← match funct3 with
            | 4 => Ok Fiszero
            | 5 => Ok Fispos
            | 6 => Ok Fisneg
            | _ => invalid bin
            end;
    mret (InstrF (FY instr rd rs1)).

(** 0b1001: float branches, against a register or against zero *)
Definition decode_vw (bin rd funct3 rs1 rs2 imm_11_6 sign : Z) : outcome DecodeFail DecodedInstr :=
  if Z.land funct3 4 =? 0 then
    rs1 ← to_freg rs1;
    rs2 ← to_freg rs2;
    let imm := compose_4 sign imm_11_6 rd in
    instr ← match funct3 with 1 => Ok Fblt | 2 => Ok Fbge | _ => invalid bin end;
    mret (InstrF (FWb instr rs1 rs2 imm))
  else
    rs1 ← to_freg rs1;
    let imm := compose_4 sign imm_11_6 rd in
    instr ← match funct3 with 4 => Ok Fbeqz | 7 => Ok Fbnez | _ => invalid bin end;
    mret (InstrF (FV instr rs1 imm)).

(** 0b0111 and 0b0101 *)
Definition decode_flw (rd rs1 rs2 imm_11_6 sign : Z) : outcome DecodeFail DecodedInstr :=
  rd ← to_freg rd;
  rs1 ← to_reg rs1;
  mret (InstrF (Flw rd rs1 (compose_3 sign imm_11_6 rs2))).
Definition decode_fsw (rd rs1 rs2 imm_11_6 sign : Z) : outcome DecodeFail DecodedInstr :=
  rs1 ← to_reg rs1;
  rs2 ← to_freg rs2;
  mret (InstrF (Fsw rs2 rs1 (compose_3 sign imm_11_6 rd))).

(** The [match opcode]. *)
Definition decode_opcode (bin opcode rd funct3 rs1 rs2 funct7 imm_11_6 sign : Z)
    : outcome DecodeFail DecodedInstr :=
  match opcode with
  | 0x0 => decode_r bin rd funct3 rs1 rs2
  | 0x2 => decode_i bin rd funct3 rs1 rs2 imm_11_6 sign
  | 0x6 => decode_lw rd rs1 rs2 imm_11_6 sign
  | 0xa => decode_jalr bin rd funct3 rs1 rs2 imm_11_6 sign
  | 0x4 => decode_s rd rs1 rs2 imm_11_6 sign
  | 0x8 => decode_b bin rd funct3 rs1 rs2 imm_11_6 sign
  | 0xc => decode_p bin rd funct3 rs1 rs2 imm_11_6 sign
  | 0xe => decode_jal rd funct3 rs1 rs2 imm_11_6 sign
  | 0x3 => decode_io bin rd funct3 rs1
  | 0x1 => if funct3 =? 0 then decode_f_arith bin rd rs1 rs2 funct7
           else if sign =? 0 then decode_g bin rd funct3 rs1 rs2 imm_11_6
           else decode_f_cmp bin rd funct3 rs1 rs2
  | 0x9 => decode_vw bin rd funct3 rs1 rs2 imm_11_6 sign
  | 0x7 => decode_flw rd rs1 rs2 imm_11_6 sign
  | 0x5 => decode_fsw rd rs1 rs2 imm_11_6 sign
  | _ => invalid bin
  end.

Definition END : Z := Z.shiftl 1 31.

Definition decode_from (bin : Z) : outcome DecodeFail DecodedInstr :=
  if bin =? END then Ok (InstrMisc MiscEnd) else
  let opcode := mask_lower bin 3 in
  let rd := extract bin 4 9 in
  let funct3 := extract bin 10 12 in
  let rs1 := extract bin 13 18 in
  let rs2 := extract bin 19 24 in
  let funct7 := extract bin 25 31 in
  let imm_11_6 := extract bin 25 30 in
  let sign := at_ bin 31 in
  decode_opcode bin opcode rd funct3 rs1 rs2 funct7 imm_11_6 sign.
End Decode.
