(* ===== verification/Encode2.v ===== *)
(** * The decoder of the second set inverts a reference encoder

    The encoder is the layout that the decoder's field positions describe.  The
    six fields of a word are independent, so the decoder is compared with the
    encoder on fields: an instruction fixes some of them and ignores the rest. *)
From S2P Require Import Prelude Word Bin Register Instr Decode Encode Instr2 Decode2.

(** ** Words and immediates *)

Definition word_of (opcode rd funct3 rs1 rs2 funct7 : Z) : Z :=
  opcode + rd * 2 ^ 4 + funct3 * 2 ^ 10 + rs1 * 2 ^ 13 + rs2 * 2 ^ 19 + funct7 * 2 ^ 25.

(** The two parts of an immediate of 13 bits, of a displacement of 15, and the
    four parts of one of 24; the field [funct7] holds the first. *)
Definition hi_3 (imm : Z) : Z := imm mod 2 ^ 13 / 2 ^ 6.
Definition lo_3 (imm : Z) : Z := imm mod 2 ^ 6.
Definition hi_4 (imm : Z) : Z := (imm / 2 ^ 6) mod 2 ^ 6 + imm mod 2 ^ 15 / 2 ^ 14 * 2 ^ 6.
Definition lo_4 (imm : Z) : Z := (imm / 2 ^ 12) mod 2 ^ 2 + (imm / 2 ^ 2) mod 2 ^ 4 * 2 ^ 2.
Definition hi_6 (imm : Z) : Z := (imm / 2 ^ 6) mod 2 ^ 6 + imm mod 2 ^ 24 / 2 ^ 23 * 2 ^ 6.
Definition mid_6 (imm : Z) : Z := (imm / 2 ^ 17) mod 2 ^ 6.
Definition f3_6 (imm : Z) : Z := (imm / 2 ^ 14) mod 2 ^ 3.

#[global] Arguments word_of : simpl never.

Lemma word2_of_inj op rd f3 rs1 rs2 f7 op' rd' f3' rs1' rs2' f7' :
  0 <= op < 2 ^ 4 -> 0 <= rd < 2 ^ 6 -> 0 <= f3 < 2 ^ 3 -> 0 <= rs1 < 2 ^ 6 -> 0 <= rs2 < 2 ^ 6 ->
  0 <= op' < 2 ^ 4 -> 0 <= rd' < 2 ^ 6 -> 0 <= f3' < 2 ^ 3 -> 0 <= rs1' < 2 ^ 6 -> 0 <= rs2' < 2 ^ 6 ->
  word_of op rd f3 rs1 rs2 f7 = word_of op' rd' f3' rs1' rs2' f7' ->
  op = op' /\ rd = rd' /\ f3 = f3' /\ rs1 = rs1' /\ rs2 = rs2' /\ f7 = f7'.
Proof. unfold word_of. intros. lia. Qed.

Lemma word2_of_fields bin :
  u32_ok bin ->
  word_of (mask_lower bin 3) (extract bin 4 9) (extract bin 10 12) (extract bin 13 18)
    (extract bin 19 24) (extract bin 25 31) = bin.
Proof. unfold u32_ok. intros. rewrite mask_lower_eq, !extract_eq by lia. unfold word_of. simpl. dlia. Qed.

Lemma field2_bounds bin :
  0 <= mask_lower bin 3 < 2 ^ 4 /\ 0 <= extract bin 4 9 < 2 ^ 6 /\ 0 <= extract bin 10 12 < 2 ^ 3 /\
  0 <= extract bin 13 18 < 2 ^ 6 /\ 0 <= extract bin 19 24 < 2 ^ 6 /\ 0 <= extract bin 25 31 < 2 ^ 7.
Proof.
  rewrite mask_lower_eq by lia. split; [by apply Z.mod_pos_bound|].
  split_and!; match goal with |- context [extract bin ?a ?b] => apply (extract_bound bin a b) end; lia.
Qed.

(** The two parts of [funct7]. *)
Lemma funct7_parts bin :
  u32_ok bin -> extract bin 25 30 = extract bin 25 31 mod 2 ^ 6 /\ at_ bin 31 = extract bin 25 31 / 2 ^ 6.
Proof. unfold u32_ok. intros. rewrite !extract_eq, at_eq by lia. eval_widths. dlia. Qed.

Lemma sign_extend_add BIT s imm :
  1 <= BIT <= 31 -> 0 <= imm < 2 ^ BIT -> 0 <= s <= 1 ->
  sign_extend BIT s imm = imm + s * (2 ^ 32 - 2 ^ BIT).
Proof.
  intros HB Hi Hs. unfold sign_extend. destruct (Z.eqb_spec s 0) as [->|]; [simpl; lia|].
  replace s with 1 by lia. simpl negb. cbn iota. rewrite bit_range_eq by lia. change (31 + 1) with 32.
  replace (2 ^ 32 - 2 ^ BIT) with ((2 ^ (32 - BIT) - 1) * 2 ^ BIT).
  - rewrite lor_add by lia. lia.
  - rewrite Z.mul_sub_distr_r, <- Z.pow_add_r by lia. do 2 f_equal; lia.
Qed.

Lemma mask_2_5 x : 0 <= x < 64 -> mask x 2 5 = x / 4 * 4.
Proof. revert x. refine (forall_below 64 _ _). by vm_compute. Qed.

(** ** What the compositions compute *)

Section Compose.
Context (f7 x : Z) (Hf7 : 0 <= f7 < 2 ^ 7) (Hx : 0 <= x < 2 ^ 6).

Lemma compose_3_eq :
  compose_3 (f7 / 2 ^ 6) (f7 mod 2 ^ 6) x
  = f7 mod 2 ^ 6 * 2 ^ 6 + x + f7 / 2 ^ 6 * (2 ^ 32 - 2 ^ 12).
Proof.
  unfold compose_3. rewrite Z.shiftl_mul_pow2, lor_add by lia. apply sign_extend_add; [done|dlia..].
Qed.

Lemma compose_4_eq :
  compose_4 (f7 / 2 ^ 6) (f7 mod 2 ^ 6) x
  = x mod 4 * 2 ^ 12 + f7 mod 2 ^ 6 * 2 ^ 6 + x / 4 * 4 + f7 / 2 ^ 6 * (2 ^ 32 - 2 ^ 14).
Proof.
  unfold compose_4. rewrite mask_0_eq, mask_2_5 by lia. change (2 ^ (1 + 1)) with 4.
  rewrite !Z.shiftl_mul_pow2 by lia. rewrite (lor_add _ _ 12) by dlia.
  replace (x mod 4 * 2 ^ 12 + f7 mod 2 ^ 6 * 2 ^ 6) with ((x mod 4 * 2 ^ 6 + f7 mod 2 ^ 6) * 2 ^ 6) by lia.
  rewrite (lor_add _ _ 6) by dlia. rewrite sign_extend_add by dlia. lia.
Qed.

Lemma compose_6_eq m g :
  0 <= m < 2 ^ 6 -> 0 <= g < 2 ^ 3 ->
  compose_6 (f7 / 2 ^ 6) (f7 mod 2 ^ 6) x m g
  = m * 2 ^ 17 + g * 2 ^ 14 + x mod 4 * 2 ^ 12 + f7 mod 2 ^ 6 * 2 ^ 6 + x / 4 * 4
    + f7 / 2 ^ 6 * (2 ^ 32 - 2 ^ 23).
Proof.
  intros Hm Hg. unfold compose_6. rewrite mask_0_eq, mask_2_5 by lia. change (2 ^ (1 + 1)) with 4.
  rewrite !Z.shiftl_mul_pow2 by lia. rewrite (lor_add _ _ 17) by dlia.
  replace (m * 2 ^ 17 + g * 2 ^ 14) with ((m * 2 ^ 3 + g) * 2 ^ 14) by lia.
  rewrite (lor_add _ _ 14) by dlia.
  replace ((m * 2 ^ 3 + g) * 2 ^ 14 + x mod 4 * 2 ^ 12)
    with (((m * 2 ^ 3 + g) * 2 ^ 2 + x mod 4) * 2 ^ 12) by lia.
  rewrite (lor_add _ _ 12) by dlia.
  replace (((m * 2 ^ 3 + g) * 2 ^ 2 + x mod 4) * 2 ^ 12 + f7 mod 2 ^ 6 * 2 ^ 6)
    with ((((m * 2 ^ 3 + g) * 2 ^ 2 + x mod 4) * 2 ^ 6 + f7 mod 2 ^ 6) * 2 ^ 6) by lia.
  rewrite (lor_add _ _ 6) by dlia. rewrite sign_extend_add by dlia. lia.
Qed.
End Compose.

(** The operand of the [P] format. *)
Lemma imm2_eq x : 0 <= x < 64 -> sign_extend 5 (at_ x 5) x = if x <? 32 then x else x + (2 ^ 32 - 64).
Proof. revert x. refine (forall_below 64 _ _). by vm_compute. Qed.

(** ** Round trips of the immediates *)

(** A displacement: a multiple of four that fits. *)
Definition disp4_ok (bits imm : Z) : Prop := imm_ok bits imm /\ imm mod 4 = 0.

Ltac imm_open :=
  unfold disp4_ok, imm_ok, u32_ok, as_i32, hi_3, lo_3, hi_4, lo_4, hi_6, mid_6, f3_6 in *;
  repeat match goal with
  | H : context [?a <? ?b] |- _ => destruct (Z.ltb_spec a b)
  | |- context [?a <? ?b] => destruct (Z.ltb_spec a b)
  end; destruct_and?; split_and?.
Ltac imm_solve := imm_open; dlia.

(** A seven-bit field is a sign and six bits. *)
Lemma split_f7 f7 : 0 <= f7 < 2 ^ 7 ->
  exists s a, (s = 0 \/ s = 1) /\ 0 <= a < 2 ^ 6 /\ f7 = s * 2 ^ 6 + a /\ f7 / 2 ^ 6 = s /\ f7 mod 2 ^ 6 = a.
Proof. intros Hf. exists (f7 / 2 ^ 6), (f7 mod 2 ^ 6). dlia. Qed.

Lemma split_x x : 0 <= x < 2 ^ 6 ->
  exists b c, 0 <= b < 4 /\ 0 <= c < 2 ^ 4 /\ x = b + c * 4 /\ x mod 4 = b /\ x / 4 = c.
Proof. intros Hx. exists (x mod 4), (x / 4). dlia. Qed.

(** Quotients and remainders by giving them. *)
Lemma div_is a b q : 0 <= a - b * q < b -> a / b = q.
Proof. intros Hr. symmetry. apply (Z.div_unique a b q (a - b * q)); lia. Qed.
Lemma mod_is a b q r : 0 <= r < b -> a = b * q + r -> a mod b = r.
Proof. intros Hr Ha. symmetry. apply (Z.mod_unique a b q r); lia. Qed.

Section Decoded.
Context (f7 x : Z) (Hf7 : 0 <= f7 < 2 ^ 7) (Hx : 0 <= x < 2 ^ 6).

Ltac split_fields :=
  destruct (split_f7 f7 Hf7) as (s & a & Hs & Ha & -> & -> & ->);
  destruct (split_x x Hx) as (b & c & Hb & Hc & Hbc & Hb' & Hc'); rewrite ?Hb', ?Hc', ?Hbc in *; clear Hb' Hc';
  destruct Hs as [-> | ->].

Lemma compose_3_field :
  let imm := compose_3 (f7 / 2 ^ 6) (f7 mod 2 ^ 6) x in
  imm_ok 13 imm /\ hi_3 imm = f7 /\ lo_3 imm = x.
Proof. cbv zeta. rewrite compose_3_eq by done. split_fields; imm_solve. Qed.

Lemma compose_4_field :
  let imm := compose_4 (f7 / 2 ^ 6) (f7 mod 2 ^ 6) x in
  disp4_ok 15 imm /\ hi_4 imm = f7 /\ lo_4 imm = x.
Proof. cbv zeta. rewrite compose_4_eq by done. split_fields; imm_solve. Qed.

Lemma compose_6_field m g :
  0 <= m < 2 ^ 6 -> 0 <= g < 2 ^ 3 ->
  let imm := compose_6 (f7 / 2 ^ 6) (f7 mod 2 ^ 6) x m g in
  disp4_ok 24 imm /\ hi_6 imm = f7 /\ lo_4 imm = x /\ mid_6 imm = m /\ f3_6 imm = g.
Proof.
  intros Hm Hg. cbv zeta. rewrite compose_6_eq by done.
  destruct (split_f7 f7 Hf7) as (s & a & Hs & Ha & -> & -> & ->).
  destruct (split_x x Hx) as (b & c & Hb & Hc & Hbc & -> & ->). subst x.
  assert (0 <= s <= 1) as Hs' by lia.
  set (imm := m * 2 ^ 17 + g * 2 ^ 14 + b * 2 ^ 12 + a * 2 ^ 6 + c * 4 + s * (2 ^ 32 - 2 ^ 23)).
  assert (imm / 2 ^ 2 = s * (2 ^ 30 - 2 ^ 21) + m * 2 ^ 15 + g * 2 ^ 12 + b * 2 ^ 10 + a * 2 ^ 4 + c) as E2
    by (apply div_is; unfold imm; lia).
  assert (imm / 2 ^ 6 = s * (2 ^ 26 - 2 ^ 17) + m * 2 ^ 11 + g * 2 ^ 8 + b * 2 ^ 6 + a) as E6
    by (apply div_is; unfold imm; lia).
  assert (imm / 2 ^ 12 = s * (2 ^ 20 - 2 ^ 11) + m * 2 ^ 5 + g * 2 ^ 2 + b) as E12
    by (apply div_is; unfold imm; lia).
  assert (imm / 2 ^ 14 = s * (2 ^ 18 - 2 ^ 9) + m * 2 ^ 3 + g) as E14 by (apply div_is; unfold imm; lia).
  assert (imm / 2 ^ 17 = s * (2 ^ 15 - 2 ^ 6) + m) as E17 by (apply div_is; unfold imm; lia).
  assert (imm mod 2 ^ 24 = imm - s * (2 ^ 32 - 2 ^ 24)) as E24
    by (apply (mod_is _ _ (s * (2 ^ 8 - 1))); unfold imm; lia).
  unfold disp4_ok, hi_6, lo_4, mid_6, f3_6. rewrite E2, E6, E12, E14, E17, E24. split_and!.
  - unfold imm_ok, u32_ok, as_i32. destruct (Z.ltb_spec imm (2 ^ 31)); unfold imm in *; lia.
  - apply (mod_is _ _ (imm / 2 ^ 2)); [lia|]. rewrite E2. unfold imm. lia.
  - rewrite (mod_is _ _ (s * (2 ^ 20 - 2 ^ 11) + m * 2 ^ 5 + g * 2 ^ 2 + b) a) by lia.
    rewrite (div_is _ _ s) by (unfold imm; lia). lia.
  - rewrite (mod_is _ _ (s * (2 ^ 18 - 2 ^ 9) + m * 2 ^ 3 + g) b) by lia.
    rewrite (mod_is _ _ (s * (2 ^ 26 - 2 ^ 17) + m * 2 ^ 11 + g * 2 ^ 8 + b * 2 ^ 6 + a) c) by lia. lia.
  - apply (mod_is _ _ (s * (2 ^ 9 - 1))); lia.
  - apply (mod_is _ _ (s * (2 ^ 15 - 2 ^ 6) + m)); lia.
Qed.

End Decoded.

Lemma imm2_field x :
  0 <= x < 64 -> let imm := sign_extend 5 (at_ x 5) x in imm_ok 6 imm /\ lo_3 imm = x.
Proof.
  cbv zeta. unfold imm_ok, u32_ok. revert x. refine (forall_below 64 _ _). by vm_compute.
Qed.

(** An immediate is a sign and the bits below it. *)
Lemma imm_split n imm :
  0 <= n <= 31 -> imm_ok (n + 1) imm ->
  exists s u, 0 <= s <= 1 /\ 0 <= u < 2 ^ n /\ imm = u + s * (2 ^ 32 - 2 ^ n).
Proof.
  intros Hn [Hu Hi]. replace (n + 1 - 1) with n in Hi by lia. unfold u32_ok, as_i32 in *.
  destruct (Z.ltb_spec imm (2 ^ 31)); [exists 0, imm; lia|].
  exists 1, (imm - (2 ^ 32 - 2 ^ n)). lia.
Qed.

(** The low part of a number. *)
Lemma split_low n u b : 0 < b -> 0 <= u < n * b -> exists q r, 0 <= q < n /\ 0 <= r < b /\ u = q * b + r.
Proof.
  intros Hb Hu. exists (u / b), (u mod b). pose proof (Z.mod_pos_bound u b Hb).
  pose proof (Z.div_mod u b ltac:(lia)). split; [|lia]. split; [apply Z.div_pos; lia|].
  apply Z.div_lt_upper_bound; lia.
Qed.

Lemma f7_parts s a : 0 <= s <= 1 -> 0 <= a < 2 ^ 6 ->
  0 <= s * 2 ^ 6 + a < 2 ^ 7 /\ (s * 2 ^ 6 + a) / 2 ^ 6 = s /\ (s * 2 ^ 6 + a) mod 2 ^ 6 = a.
Proof. intros. dlia. Qed.

Section Encoded.
Context (imm : Z).

Lemma compose_3_enc : imm_ok 13 imm -> compose_3 (hi_3 imm / 2 ^ 6) (hi_3 imm mod 2 ^ 6) (lo_3 imm) = imm.
Proof.
  intros (s & u & Hs & Hu & He)%(imm_split 12); [|done].
  destruct (split_low (2 ^ 6) u (2 ^ 6)) as (a & x & Ha & Hx & ->); [done|exact Hu|].
  destruct (f7_parts s a Hs Ha) as (H7 & Hd & Hm).
  assert (compose_3 s a x = imm) as Hc.
  { pose proof (compose_3_eq (s * 2 ^ 6 + a) x H7 Hx) as Hc. rewrite Hd, Hm in Hc. lia. }
  destruct (compose_3_field (s * 2 ^ 6 + a) x H7 Hx) as (_ & Hhi & Hlo).
  rewrite Hd, Hm, Hc in Hhi, Hlo. by rewrite Hhi, Hlo, Hd, Hm.
Qed.

Lemma low_bits_of b c : 0 <= b < 4 -> 0 <= c < 2 ^ 4 ->
  0 <= b + c * 4 < 2 ^ 6 /\ (b + c * 4) mod 4 = b /\ (b + c * 4) / 4 = c.
Proof. intros. dlia. Qed.

Lemma compose_4_enc : disp4_ok 15 imm -> compose_4 (hi_4 imm / 2 ^ 6) (hi_4 imm mod 2 ^ 6) (lo_4 imm) = imm.
Proof.
  intros [(s & u & Hs & Hu & He)%(imm_split 14) H4]; [|done].
  destruct (split_low (2 ^ 12) u 4) as (u1 & z & Hu1 & Hz & ->); [done|exact Hu|].
  destruct (split_low (2 ^ 8) u1 (2 ^ 4)) as (u2 & c & Hu2 & Hc & ->); [done|exact Hu1|].
  destruct (split_low 4 u2 (2 ^ 6)) as (b & a & Hb & Ha & ->); [done|exact Hu2|].
  assert (z = 0) as -> by (clear -Hz H4 He Hs; dlia).
  destruct (f7_parts s a Hs Ha) as (H7 & Hd & Hm). destruct (low_bits_of b c Hb Hc) as (Hx & Hxm & Hxd).
  assert (compose_4 s a (b + c * 4) = imm) as Hcomp.
  { pose proof (compose_4_eq (s * 2 ^ 6 + a) (b + c * 4) H7 Hx) as Hcomp.
    rewrite Hd, Hm, Hxm, Hxd in Hcomp. lia. }
  destruct (compose_4_field (s * 2 ^ 6 + a) (b + c * 4) H7 Hx) as (_ & Hhi & Hlo).
  rewrite Hd, Hm, Hcomp in Hhi, Hlo. by rewrite Hhi, Hlo, Hd, Hm.
Qed.

Lemma compose_6_enc :
  disp4_ok 24 imm ->
  compose_6 (hi_6 imm / 2 ^ 6) (hi_6 imm mod 2 ^ 6) (lo_4 imm) (mid_6 imm) (f3_6 imm) = imm.
Proof.
  intros [(s & u & Hs & Hu & He)%(imm_split 23) H4]; [|done].
  destruct (split_low (2 ^ 21) u 4) as (u1 & z & Hu1 & Hz & ->); [done|exact Hu|].
  destruct (split_low (2 ^ 17) u1 (2 ^ 4)) as (u2 & c & Hu2 & Hc & ->); [done|exact Hu1|].
  destruct (split_low (2 ^ 11) u2 (2 ^ 6)) as (u3 & a & Hu3 & Ha & ->); [done|exact Hu2|].
  destruct (split_low (2 ^ 9) u3 4) as (u4 & b & Hu4 & Hb & ->); [done|exact Hu3|].
  destruct (split_low (2 ^ 6) u4 (2 ^ 3)) as (m & g & Hmm & Hg & ->); [done|exact Hu4|].
  assert (z = 0) as -> by (clear -Hz H4 He Hs; dlia).
  destruct (f7_parts s a Hs Ha) as (H7 & Hd & Hm). destruct (low_bits_of b c Hb Hc) as (Hx & Hxm & Hxd).
  assert (compose_6 s a (b + c * 4) m g = imm) as Hcomp.
  { pose proof (compose_6_eq (s * 2 ^ 6 + a) (b + c * 4) H7 Hx m g Hmm Hg) as Hcomp.
    rewrite Hd, Hm, Hxm, Hxd in Hcomp. lia. }
  destruct (compose_6_field (s * 2 ^ 6 + a) (b + c * 4) H7 Hx m g Hmm Hg) as (_ & Hhi & Hlo & Hmid & Hf3).
  rewrite Hd, Hm, Hcomp in Hhi, Hlo, Hmid, Hf3. by rewrite Hhi, Hlo, Hmid, Hf3, Hd, Hm.
Qed.

Lemma imm2_enc : imm_ok 6 imm -> sign_extend 5 (at_ (lo_3 imm) 5) (lo_3 imm) = imm.
Proof.
  intros (s & u & Hs & Hu & He)%(imm_split 5); [|done].
  assert (0 <= s * 32 + u < 2 ^ 6) as Hx by lia.
  assert (sign_extend 5 (at_ (s * 32 + u) 5) (s * 32 + u) = imm) as Hc.
  { rewrite imm2_eq by done. destruct (Z.ltb_spec (s * 32 + u) 32); lia. }
  destruct (imm2_field (s * 32 + u) Hx) as (_ & Hlo). rewrite Hc in Hlo. by rewrite Hlo.
Qed.

Lemma lo_3_bound : 0 <= lo_3 imm < 2 ^ 6.
Proof. imm_solve. Qed.
Lemma lo_4_bound : 0 <= lo_4 imm < 2 ^ 6.
Proof. imm_solve. Qed.
Lemma mid_6_bound : 0 <= mid_6 imm < 2 ^ 6.
Proof. imm_solve. Qed.
Lemma f3_6_bound : 0 <= f3_6 imm < 2 ^ 3.
Proof. imm_solve. Qed.
End Encoded.
#[export] Hint Resolve lo_3_bound lo_4_bound mid_6_bound f3_6_bound : sim.

(** ** The encoder *)

Definition enc_i (opcode rd funct3 rs1 imm : Z) : Z := word_of opcode rd funct3 rs1 (lo_3 imm) (hi_3 imm).
Definition enc_s (opcode funct3 rs1 rs2 imm : Z) : Z := word_of opcode (lo_3 imm) funct3 rs1 rs2 (hi_3 imm).
Definition enc_b (opcode funct3 rs1 rs2 imm : Z) : Z := word_of opcode (lo_4 imm) funct3 rs1 rs2 (hi_4 imm).

Definition r_funct (i : RInstr) : Z := match i with Add => 0 | Xor => 4 | Min => 1 | Max => 3 end.
Definition b_funct (i : BInstr) : Z :=
  match i with Beq => 0 | Bne => 1 | Blt => 4 | Bge => 5 | Bxor => 2 | Bxnor => 3 end.
Definition p_funct (i : PInstr) : Z :=
  match i with Beqi => 0 | Bnei => 1 | Blti => 4 | Bgei => 5 | Bgti => 6 | Blei => 7 end.
Definition e_funct (i : EInstr) : Z :=
  match i with Fadd => 0 | Fsub => 1 | Fmul => 2 | Fdiv => 3 | Fsgnj => 6 | Fsgnjn => 7 | Fsgnjx => 8 end.
Definition g_funct (i : GInstr) : Z := match i with Fmadd => 1 | Fmsub => 2 | Fnmadd => 5 | Fnmsub => 6 end.
Definition h_funct (i : HInstr) : Z :=
  match i with Fsqrt => 4 | Fhalf => 5 | Ffloor => 9 | Ffrac => 0xc | Finv => 0xb end.

Definition encode_f (f : FInstr RegId RegId FRegId FRegId) : Z :=
  match f with
  | FE i rd rs1 rs2 => word_of 1 (freg_no rd) 0 (freg_no rs1) (freg_no rs2) (e_funct i * 4)
  | FG i rd rs1 rs2 rs3 =>
      word_of 1 (freg_no rd) (g_funct i) (freg_no rs1) (freg_no rs2) (freg_no rs3)
  | FH i rd rs1 => word_of 1 (freg_no rd) 0 (freg_no rs1) 0 (h_funct i * 4)
  | FK Flt rd rs1 rs2 => word_of 1 (reg_no rd) 1 (freg_no rs1) (freg_no rs2) 64
  | FX Fitof rd rs1 => word_of 1 (freg_no rd) 0 (reg_no rs1) 0 (0x19 * 4)
  | FY Fftoi rd rs1 => word_of 1 (reg_no rd) 0 (freg_no rs1) 0 (0x11 * 4)
  | FY Fiszero rd rs1 => word_of 1 (reg_no rd) 4 (freg_no rs1) 0 64
  | FY Fispos rd rs1 => word_of 1 (reg_no rd) 5 (freg_no rs1) 0 64
  | FY Fisneg rd rs1 => word_of 1 (reg_no rd) 6 (freg_no rs1) 0 64
  | FWb Fblt rs1 rs2 imm => enc_b 9 1 (freg_no rs1) (freg_no rs2) imm
  | FWb Fbge rs1 rs2 imm => enc_b 9 2 (freg_no rs1) (freg_no rs2) imm
  | FV Fbeqz rs1 imm => enc_b 9 4 (freg_no rs1) 0 imm
  | FV Fbnez rs1 imm => enc_b 9 7 (freg_no rs1) 0 imm
  | Flw rd rs1 imm => enc_i 7 (freg_no rd) 0 (reg_no rs1) imm
  | Fsw rs2 rs1 imm => enc_s 5 0 (reg_no rs1) (freg_no rs2) imm
  end.

Definition encode (i : DecodedInstr) : Z :=
  match i with
  | InstrR i rd rs1 rs2 => word_of 0 (reg_no rd) (r_funct i) (reg_no rs1) (reg_no rs2) 0
  | InstrI Addi rd rs1 imm => enc_i 2 (reg_no rd) 0 (reg_no rs1) imm
  | InstrI Xori rd rs1 imm => enc_i 2 (reg_no rd) 4 (reg_no rs1) imm
  | InstrI Slli rd rs1 imm => enc_i 2 (reg_no rd) 2 (reg_no rs1) imm
  | InstrI Lw rd rs1 imm => enc_i 6 (reg_no rd) 0 (reg_no rs1) imm
  | InstrI Jalr rd rs1 imm => enc_i 0xa (reg_no rd) 0 (reg_no rs1) imm
  | InstrS Sw rs1 rs2 imm => enc_s 4 0 (reg_no rs1) (reg_no rs2) imm
  | InstrB i rs1 rs2 imm => enc_b 8 (b_funct i) (reg_no rs1) (reg_no rs2) imm
  | InstrP i rs1 imm imm2 => enc_b 0xc (p_funct i) (reg_no rs1) (lo_3 imm2) imm
  | InstrJ Jal rd imm => word_of 0xe (reg_no rd) (f3_6 imm) (mid_6 imm) (lo_4 imm) (hi_6 imm)
  | InstrIO (Inw rd) => word_of 3 (reg_no rd) 1 0 0 0
  | InstrIO (Outb rs) => word_of 3 0 2 (reg_no rs) 0 0
  | InstrIO (Finw rd) => word_of 3 (freg_no rd) 4 0 0 0
  | InstrF f => encode_f f
  | InstrMisc MiscEnd => END
  end.

(** Well-formed instructions. *)
Definition finstr_ok (f : FInstr RegId RegId FRegId FRegId) : Prop :=
  match f with
  | FE _ rd rs1 rs2 => freg_ok rd /\ freg_ok rs1 /\ freg_ok rs2
  | FG _ rd rs1 rs2 rs3 => freg_ok rd /\ freg_ok rs1 /\ freg_ok rs2 /\ freg_ok rs3
  | FH _ rd rs1 => freg_ok rd /\ freg_ok rs1
  | FK _ rd rs1 rs2 => reg_ok rd /\ freg_ok rs1 /\ freg_ok rs2
  | FX _ rd rs1 => freg_ok rd /\ reg_ok rs1
  | FY _ rd rs1 => reg_ok rd /\ freg_ok rs1
  | FWb _ rs1 rs2 imm => freg_ok rs1 /\ freg_ok rs2 /\ disp4_ok 15 imm
  | FV _ rs1 imm => freg_ok rs1 /\ disp4_ok 15 imm
  | Flw rd rs1 imm => freg_ok rd /\ reg_ok rs1 /\ imm_ok 13 imm
  | Fsw rs2 rs1 imm => freg_ok rs2 /\ reg_ok rs1 /\ imm_ok 13 imm
  end.

Definition instr_ok (i : DecodedInstr) : Prop :=
  match i with
  | InstrR _ rd rs1 rs2 => reg_ok rd /\ reg_ok rs1 /\ reg_ok rs2
  | InstrI _ rd rs1 imm => reg_ok rd /\ reg_ok rs1 /\ imm_ok 13 imm
  | InstrS _ rs1 rs2 imm => reg_ok rs1 /\ reg_ok rs2 /\ imm_ok 13 imm
  | InstrB _ rs1 rs2 imm => reg_ok rs1 /\ reg_ok rs2 /\ disp4_ok 15 imm
  | InstrP _ rs1 imm imm2 => reg_ok rs1 /\ disp4_ok 15 imm /\ imm_ok 6 imm2
  | InstrJ _ rd imm => reg_ok rd /\ disp4_ok 24 imm
  | InstrIO (Inw rd) => reg_ok rd
  | InstrIO (Outb rs) => reg_ok rs
  | InstrIO (Finw rd) => freg_ok rd
  | InstrF f => finstr_ok f
  | InstrMisc MiscEnd => True
  end.

(** The word of the fields, with those that the instruction ignores cleared: the
    register format looks at no bit of [funct7], the arithmetic of the floats at
    five, the comparisons at the sign. *)
Definition canonical_fields (i : DecodedInstr) (opcode rd funct3 rs1 rs2 funct7 : Z) : Z :=
  match i with
  | InstrR _ _ _ _ => word_of opcode rd funct3 rs1 rs2 0
  | InstrI Lw _ _ _ | InstrS _ _ _ _ => word_of opcode rd 0 rs1 rs2 funct7
  | InstrIO (Inw _) | InstrIO (Finw _) => word_of opcode rd funct3 0 0 0
  | InstrIO (Outb _) => word_of opcode 0 funct3 rs1 0 0
  | InstrF (FE _ _ _ _) => word_of opcode rd funct3 rs1 rs2 (funct7 / 4 * 4)
  | InstrF (FH _ _ _) | InstrF (FX _ _ _) | InstrF (FY Fftoi _ _) =>
      word_of opcode rd funct3 rs1 0 (funct7 / 4 * 4)
  | InstrF (FK _ _ _ _) => word_of opcode rd funct3 rs1 rs2 (funct7 / 64 * 64)
  | InstrF (FY _ _ _) => word_of opcode rd funct3 rs1 0 (funct7 / 64 * 64)
  | InstrF (FV _ _ _) => word_of opcode rd funct3 rs1 0 funct7
  | InstrF (Flw _ _ _) | InstrF (Fsw _ _ _) => word_of opcode rd 0 rs1 rs2 funct7
  | _ => word_of opcode rd funct3 rs1 rs2 funct7
  end.

Definition canonical (i : DecodedInstr) (bin : Z) : Z :=
  canonical_fields i (mask_lower bin 3) (extract bin 4 9) (extract bin 10 12) (extract bin 13 18)
    (extract bin 19 24) (extract bin 25 31).

#[global] Arguments compose_3 : simpl never.
#[global] Arguments compose_4 : simpl never.
#[global] Arguments compose_6 : simpl never.
#[global] Arguments sign_extend : simpl never.

(** ** Exactness *)

Section Exact.
Context `{Profile}.

Lemma to_reg2_field n : 0 <= n < 2 ^ 6 -> to_reg n = Ok (mkRegId n).
Proof. intros. unfold to_reg. by rewrite RegId2_try_from_field. Qed.
Lemma to_freg2_field n : 0 <= n < 2 ^ 6 -> to_freg n = Ok (mkFRegId n).
Proof. intros. unfold to_freg. by rewrite FRegId2_try_from_field. Qed.

Section Arms.
Context (bin rd funct3 rs1 rs2 funct7 : Z).
Context (Hrd : 0 <= rd < 2 ^ 6) (Hf3 : 0 <= funct3 < 2 ^ 3) (Hrs1 : 0 <= rs1 < 2 ^ 6).
Context (Hrs2 : 0 <= rs2 < 2 ^ 6) (Hf7 : 0 <= funct7 < 2 ^ 7).

(** What an arm returns is well-formed and encodes to the fields. *)
Definition arm_exact (opcode : Z) (o : outcome DecodeFail DecodedInstr) : Prop :=
  match o with
  | Ok i => instr_ok i /\ encode i = canonical_fields i opcode rd funct3 rs1 rs2 funct7 /\ i <> InstrMisc MiscEnd
  | Err e => e = DecodeInvalid bin
  | Panic _ => False
  end.

Lemma opcode_exact op :
  0 <= op < 2 ^ 4 ->
  arm_exact op (decode_opcode bin op rd funct3 rs1 rs2 funct7 (funct7 mod 2 ^ 6) (funct7 / 2 ^ 6)).
Proof.
  intros Hop.
  pose proof (compose_3_field funct7 rs2 Hf7 Hrs2) as (Hi & Hi1 & Hi2).
  pose proof (compose_3_field funct7 rd Hf7 Hrd) as (Hs & Hs1 & Hs2).
  pose proof (compose_4_field funct7 rd Hf7 Hrd) as (Hb & Hb1 & Hb2).
  pose proof (compose_6_field funct7 rs2 Hf7 Hrs2 rs1 funct3 Hrs1 Hf3) as (Hj & Hj1 & Hj2 & Hj3 & Hj4).
  pose proof (imm2_field rs2 Hrs2) as (H2 & H21).
  assert (0 <= funct7 mod 2 ^ 6 < 2 ^ 6) as H6 by (by apply Z.mod_pos_bound).
  unfold decode_opcode, decode_r, decode_i, decode_lw, decode_jalr, decode_s, decode_b, decode_p, decode_jal,
    decode_io, decode_f_arith, decode_g, decode_f_cmp, decode_vw, decode_flw, decode_fsw, invalid.
  rewrite !to_reg2_field, !to_freg2_field by done. rewrite Z.shiftr_div_pow2 by done. change (2 ^ 2) with 4.
  unfold mret, mbind, outcome_ret, outcome_bind. cbn beta iota.
  assert (op = 0 \/ op = 1 \/ op = 2 \/ op = 3 \/ op = 4 \/ op = 5 \/ op = 6 \/ op = 7 \/ op = 8
    \/ op = 9 \/ op = 10 \/ op = 11 \/ op = 12 \/ op = 13 \/ op = 14 \/ op = 15) as Hcases by lia.
  unfold arm_exact.
  destruct_or! Hcases; subst op; cbn beta iota.
  all: repeat case_match; simplify_eq/=; try done.
  all: (split; [unfold reg_ok, freg_ok; simpl; try done; by split_and?|split; [|done]]).
  all: unfold enc_i, enc_s, enc_b;
    try (by rewrite ?Hi1, ?Hi2, ?Hs1, ?Hs2, ?Hb1, ?Hb2, ?Hj1, ?Hj2, ?Hj3, ?Hj4, ?H21).
  all: clear Hi Hi1 Hi2 Hs Hs1 Hs2 Hb Hb1 Hb2 Hj Hj1 Hj2 Hj3 Hj4 H2 H21; rewrite ?Z.eqb_eq, ?Z.eqb_neq in *; f_equal; dlia.
Qed.
End Arms.

(** The fields of a word. *)
Lemma decode2_by_fields bin :
  u32_ok bin -> bin <> END ->
  decode_from bin =
  decode_opcode bin (mask_lower bin 3) (extract bin 4 9) (extract bin 10 12) (extract bin 13 18)
    (extract bin 19 24) (extract bin 25 31) (extract bin 25 31 mod 2 ^ 6) (extract bin 25 31 / 2 ^ 6).
Proof.
  intros Hu Hne. unfold decode_from. destruct (Z.eqb_spec bin END); [done|].
  by destruct (funct7_parts bin Hu) as [-> ->].
Qed.

Lemma decode_forward bin :
  u32_ok bin -> bin <> END ->
  match decode_from bin with
  | Ok i => instr_ok i /\ encode i = canonical i bin /\ i <> InstrMisc MiscEnd
  | Err e => e = DecodeInvalid bin
  | Panic _ => False
  end.
Proof.
  intros Hu Hne. rewrite decode2_by_fields by done.
  destruct (field2_bounds bin) as (Hop & Hrd & Hf3 & Hrs1 & Hrs2 & Hf7). by apply opcode_exact.
Qed.
(** What the partial fields fix. *)
Lemma arith_bits f7 k : k * 4 = f7 / 4 * 4 -> Z.shiftr f7 2 = k.
Proof. intros Hk. rewrite Z.shiftr_div_pow2 by done. change (2 ^ 2) with 4. lia. Qed.
Lemma cmp_bits f7 : 64 = f7 / 64 * 64 -> f7 / 2 ^ 6 = 1.
Proof. change (2 ^ 6) with 64. lia. Qed.
Lemma third_bits n : 0 <= n < 64 -> n / 2 ^ 6 = 0 /\ n mod 2 ^ 6 = n.
Proof. intros. dlia. Qed.

(** The converse: the instruction that the fields encode is what the arm returns. *)
Ltac fields_open Hi He :=
  cbn [encode encode_f canonical_fields r_funct b_funct p_funct e_funct g_funct h_funct] in He; unfold enc_i, enc_s, enc_b in He;
  cbn [instr_ok finstr_ok] in Hi; unfold reg_ok, freg_ok in Hi; cbn [reg_no freg_no] in Hi, He;
  destruct_and? Hi;
  apply word2_of_inj in He;
    [destruct He as (? & ? & ? & ? & ? & ?)
    |first [assumption|apply lo_3_bound|apply lo_4_bound|apply mid_6_bound|apply f3_6_bound|lia]..]; subst.
Ltac fields_run :=
  cbn [decode_opcode]; cbn -[Z.div Z.modulo];
  unfold decode_r, decode_i, decode_lw, decode_jalr, decode_s, decode_b, decode_p, decode_jal,
    decode_io, decode_f_arith, decode_g, decode_f_cmp, decode_vw, decode_flw, decode_fsw;
  try match goal with Hk : _ * 4 = ?f7 / 4 * 4 |- _ => rewrite (arith_bits f7 _ Hk) end;
  try match goal with Hk : 64 = ?f7 / 64 * 64 |- _ => rewrite (cmp_bits f7 Hk) end;
  try match goal with |- context [?n mod 2 ^ 6] => destruct (third_bits n ltac:(lia)) as [-> ->] end;
  cbn -[Z.div Z.modulo];
  rewrite ?to_reg2_field, ?to_freg2_field by (lia || auto with sim); cbn -[Z.div Z.modulo];
  rewrite ?compose_3_enc, ?compose_4_enc, ?compose_6_enc, ?imm2_enc by done.

(** The float formats. *)
Lemma float_backward bin op rd funct3 rs1 rs2 funct7 f :
  0 <= op < 2 ^ 4 -> 0 <= rd < 2 ^ 6 -> 0 <= funct3 < 2 ^ 3 -> 0 <= rs1 < 2 ^ 6 -> 0 <= rs2 < 2 ^ 6 ->
  0 <= funct7 < 2 ^ 7 -> finstr_ok f ->
  encode_f f = canonical_fields (InstrF f) op rd funct3 rs1 rs2 funct7 ->
  decode_opcode bin op rd funct3 rs1 rs2 funct7 (funct7 mod 2 ^ 6) (funct7 / 2 ^ 6) = Ok (InstrF f).
Proof.
  intros Hop Hrd Hf3 Hrs1 Hrs2 Hf7 Hi He.
  destruct f as [o [d] [s] [t]|o [d] [s] [t] [u]|o [d] [s]|[] [d] [s] [t]|[] [d] [s]|o [d] [s]|o [s] [t] imm
    |o [s] imm|[d] [s] imm|[t] [s] imm].
  - destruct o; fields_open Hi He; fields_run; done.
  - destruct o; fields_open Hi He; fields_run; done.
  - destruct o; fields_open Hi He; fields_run; done.
  - fields_open Hi He; fields_run; done.
  - fields_open Hi He; fields_run; done.
  - destruct o; fields_open Hi He; fields_run; done.
  - destruct o; fields_open Hi He; fields_run; done.
  - destruct o; fields_open Hi He; fields_run; done.
  - fields_open Hi He; fields_run; done.
  - fields_open Hi He; fields_run; done.
Qed.

Lemma opcode_backward bin op rd funct3 rs1 rs2 funct7 i :
  0 <= op < 2 ^ 4 -> 0 <= rd < 2 ^ 6 -> 0 <= funct3 < 2 ^ 3 -> 0 <= rs1 < 2 ^ 6 -> 0 <= rs2 < 2 ^ 6 ->
  0 <= funct7 < 2 ^ 7 -> instr_ok i -> i <> InstrMisc MiscEnd ->
  encode i = canonical_fields i op rd funct3 rs1 rs2 funct7 ->
  decode_opcode bin op rd funct3 rs1 rs2 funct7 (funct7 mod 2 ^ 6) (funct7 / 2 ^ 6) = Ok i.
Proof.
  intros Hop Hrd Hf3 Hrs1 Hrs2 Hf7 Hi Hne He.
  destruct i as [o [d] [s] [t]|o [d] [s] imm|[] [s] [t] imm|o [s] [t] imm|o [s] imm imm2|[] [d] imm
    |[[s]|[d]|[d]]|f|[]]; [| | | | | | | | |by apply float_backward|done].
  - destruct o; fields_open Hi He; fields_run; done.
  - destruct o; fields_open Hi He; fields_run; done.
  - fields_open Hi He; fields_run; done.
  - destruct o; fields_open Hi He; fields_run; done.
  - destruct o; fields_open Hi He; fields_run; done.
  - fields_open Hi He; fields_run; done.
  - fields_open Hi He; fields_run; done.
  - fields_open Hi He; fields_run; done.
  - fields_open Hi He; fields_run; done.
Qed.

Lemma decode_backward bin i :
  u32_ok bin -> bin <> END -> instr_ok i -> encode i = canonical i bin -> decode_from bin = Ok i.
Proof.
  intros Hu Hne Hi He. rewrite decode2_by_fields by done.
  destruct (field2_bounds bin) as (Hop & Hrd & Hf3 & Hrs1 & Hrs2 & Hf7).
  apply opcode_backward; try done. intros ->. apply Hne.
  unfold canonical, canonical_fields in He. by rewrite word2_of_fields in He.
Qed.

Lemma decode2_ok bin i : u32_ok bin -> decode_from bin = Ok i -> instr_ok i.
Proof.
  intros Hu Hd. destruct (Z.eq_dec bin END) as [->|Hne].
  - by replace i with (InstrMisc (IR:=RegId) (IW:=RegId) (FR:=FRegId) (FW:=FRegId) MiscEnd) by (vm_compute in Hd; congruence).
  - pose proof (decode_forward bin Hu Hne) as Hf. rewrite Hd in Hf. by destruct Hf.
Qed.

Lemma decode2_total bin p : u32_ok bin -> decode_from bin <> Panic p.
Proof.
  intros Hu Hd. destruct (Z.eq_dec bin END) as [->|Hne]; [by vm_compute in Hd|].
  pose proof (decode_forward bin Hu Hne) as Hf. by rewrite Hd in Hf.
Qed.

(** C40: The decoder of the second instruction set is exact on every 32-bit word: a word
    decodes to an instruction if and only if the instruction is well-formed and
    its encoding is the word, up to the fields that the instruction ignores (the
    word of [end] decodes to [end] only, although [add zero, zero, zero] ignores
    the bit that makes it); every other word is reported as invalid, with the
    word, and no word panics. *)
Theorem decode2_exact bin i :
  u32_ok bin ->
  (decode_from bin = Ok i <->
     instr_ok i /\ encode i = canonical i bin /\ (bin = END -> i = InstrMisc MiscEnd)) /\
  (is_ok (decode_from bin) \/ decode_from bin = Err (DecodeInvalid bin)).
Proof.
  intros Hu. destruct (Z.eq_dec bin END) as [->|Hne].
  - assert (decode_from END = Ok (InstrMisc MiscEnd)) as -> by done. split; [|by left]. split.
    + by intros [= <-].
    + intros (_ & _ & Hi). by rewrite Hi.
  - pose proof (decode_forward bin Hu Hne) as Hd. split; [split|].
    + intros Ho. rewrite Ho in Hd. by destruct Hd as (? & ? & _).
    + intros (Hi & He & _). by apply decode_backward.
    + destruct (decode_from bin) as [j|e|p]; [by left|right; by subst|done].
Qed.
End Exact.

Section Witness.
#[local] Existing Instance debug_profile.

(** [beqi t0, -1, 8], whose immediate operand has all bits set. *)
Lemma decode2_exact_witness :
  decode_from (encode (InstrP Beqi (mkRegId 5) 8 0xFFFFFFFF)) = Ok (InstrP Beqi (mkRegId 5) 8 0xFFFFFFFF).
Proof.
  set (i := InstrP Beqi (mkRegId 5) 8 0xFFFFFFFF).
  assert (u32_ok (encode i)) as Hu by (by apply (bool_decide_unpack _)).
  destruct (decode2_exact (encode i) i Hu) as [[_ Hd] _]. apply Hd.
  split; [|split; [by vm_compute|by intros E]].
  split; [done|]. split; [split; [split; [done|by apply (bool_decide_unpack _)]|done]|].
  split; [done|by apply (bool_decide_unpack _)].
Defined.
End Witness.
