(* ===== verification/Execute2.v ===== *)
(** * The processor with the second instruction set ([core_sim/src/cpu.rs], feature [isa_2nd])

    The stages that look at the instruction: the decoder, the register fetch, the
    execute stage and the tests of the pipeline model on source registers.  They
    act on the machine of Cpu.v, whose other stages do not depend on the set, and
    make an [InstrSet] of it; the register files have 64 registers. *)
From S2P Require Import Prelude Word Register Instr Decode Float32 Fpu RegFile Io BranchPredictor Cpu Instr2 Decode2.

Definition FetchedInstr : Type := Instr Z RegId Z FRegId.

Record ExecuteInput := mkExecuteInput { ei_instr : FetchedInstr; ei_old_pc : Z; ei_pc_plus4 : Z }.

(** ** Pure parts of the execute stage *)

Section Alu.
Context `{Profile}.

Definition r_alu (instr : RInstr) (rs1 rs2 : Z) : Z :=
  match instr with
  | Add => wrapping_add rs1 rs2
  | Xor => Z.lxor rs1 rs2
  | Min => i32_as_u32 (Z.min (as_i32 rs1) (as_i32 rs2))
  | Max => i32_as_u32 (Z.max (as_i32 rs1) (as_i32 rs2))
  end.

Definition b_cond (instr : BInstr) (rs1 rs2 : Z) : bool :=
  match instr with
  | Beq => rs1 =? rs2
  | Bne => negb (rs1 =? rs2)
  | Blt => as_i32 rs1 <? as_i32 rs2
  | Bge => as_i32 rs2 <=? as_i32 rs1
  | Bxor => negb (Z.lxor rs1 rs2 =? 0)
  | Bxnor => Z.lxor rs1 rs2 =? 0
  end.

Definition p_cond (instr : PInstr) (rs1 imm2 : Z) : bool :=
  match instr with
  | Beqi => rs1 =? imm2
  | Bnei => negb (rs1 =? imm2)
  | Blti => as_i32 rs1 <? as_i32 imm2
  | Bgei => as_i32 imm2 <=? as_i32 rs1
  | Bgti => as_i32 imm2 <? as_i32 rs1
  | Blei => as_i32 rs1 <=? as_i32 imm2
  end.

(** The product and the sum are two roundings, of the host's floats; the sign of
    [-rs1 * rs2] is changed before the product. *)
Definition g_alu (instr : GInstr) (rs1 rs2 rs3 : Z) : Z :=
  match instr with
  | Fmadd => f32_add (f32_mul rs1 rs2) rs3
  | Fmsub => f32_sub (f32_mul rs1 rs2) rs3
  | Fnmadd => f32_add (f32_mul (f32_neg rs1) rs2) rs3
  | Fnmsub => f32_sub (f32_mul (f32_neg rs1) rs2) rs3
  end.

Definition h_alu (instr : HInstr) (rs1 : Z) : Z :=
  match instr with
  | Fsqrt => fsqrt rs1
  | Fhalf => fhalf rs1
  | Ffloor => ffloor rs1
  | Ffrac => ffrac rs1
  | Finv => finv rs1
  end.

(** There is no count for [ffrac], which the hardware does not have. *)
Definition h_cycles {E} (instr : HInstr) : outcome E Z :=
  match instr with
  | Fsqrt => Ok 8
  | Fhalf => Ok 1
  | Ffloor => Ok 8
  | Ffrac => Panic Unreachable
  | Finv => Ok 8
  end.
End Alu.

(** ** Hazards *)

Definition regid_is_included_in_srcs (instr : DecodedInstr) (regid : RegId) : bool :=
  let eq r := bool_decide (r = regid) in
  match instr with
  | InstrR _ _ rs1 rs2 => eq rs1 || eq rs2
  | InstrI _ _ rs1 _ => eq rs1
  | InstrS _ rs1 rs2 _ => eq rs1 || eq rs2
  | InstrB _ rs1 rs2 _ => eq rs1 || eq rs2
  | InstrP _ rs1 _ _ => eq rs1
  | InstrJ _ _ _ => false
  | InstrIO io => match io with Outb rs => eq rs | Inw _ => false | Finw _ => false end
  | InstrF f =>
      match f with
      | FX _ _ rs1 => eq rs1
      | Flw _ rs1 _ => eq rs1
      | Fsw _ rs1 _ => eq rs1
      | _ => false
      end
  | InstrMisc _ => false
  end.

Definition fregid_is_included_in_srcs (instr : DecodedInstr) (fregid : FRegId) : bool :=
  let eq r := bool_decide (r = fregid) in
  match instr with
  | InstrF f =>
      match f with
      | FE _ _ rs1 rs2 => eq rs1 || eq rs2
      | FG _ _ rs1 rs2 rs3 => eq rs1 || eq rs2 || eq rs3
      | FH _ _ rs1 => eq rs1
      | FK _ _ rs1 rs2 => eq rs1 || eq rs2
      | FX _ _ _ => false
      | FY _ _ rs1 => eq rs1
      | FWb _ rs1 rs2 _ => eq rs1 || eq rs2
      | FV _ rs1 _ => eq rs1
      | Flw _ _ _ => false
      | Fsw rs2 _ _ => eq rs2
      end
  | _ => false
  end.

(** ** The stages *)

Section Stages.
Context `{Profile} {I O : Type} `{Input I} `{Output O}.
Abbreviation M := (Cpu.M (I:=I) (O:=O)).

Definition reg_fetch_f (f : FInstr RegId RegId FRegId FRegId) : M (FInstr Z RegId Z FRegId) :=
  match f with
  | FE i rd rs1 rs2 => v1 ← fget rs1; v2 ← fget rs2; mret (FE i rd v1 v2)
  | FG i rd rs1 rs2 rs3 =>
      v1 ← fget rs1; v2 ← fget rs2; v3 ← fget rs3; mret (FG i rd v1 v2 v3)
  | FH i rd rs1 => v1 ← fget rs1; mret (FH i rd v1)
  | FK i rd rs1 rs2 => v1 ← fget rs1; v2 ← fget rs2; mret (FK i rd v1 v2)
  | FX i rd rs1 => v1 ← rget rs1; mret (FX i rd v1)
  | FY i rd rs1 => v1 ← fget rs1; mret (FY i rd v1)
  | FWb i rs1 rs2 imm => v1 ← fget rs1; v2 ← fget rs2; mret (FWb i v1 v2 imm)
  | FV i rs1 imm => v1 ← fget rs1; mret (FV i v1 imm)
  | Flw rd rs1 imm => v1 ← rget rs1; mret (Flw rd v1 imm)
  | Fsw rs2 rs1 imm => v2 ← fget rs2; v1 ← rget rs1; mret (Fsw v2 v1 imm)
  end.

Definition reg_fetch (instr : DecodedInstr) : M FetchedInstr :=
  match instr with
  | InstrR i rd rs1 rs2 => v1 ← rget rs1; v2 ← rget rs2; mret (InstrR i rd v1 v2)
  | InstrI i rd rs1 imm => v1 ← rget rs1; mret (InstrI i rd v1 imm)
  | InstrS i rs1 rs2 imm => v1 ← rget rs1; v2 ← rget rs2; mret (InstrS i v1 v2 imm)
  | InstrB i rs1 rs2 imm => v1 ← rget rs1; v2 ← rget rs2; mret (InstrB i v1 v2 imm)
  | InstrP i rs1 imm imm2 => v1 ← rget rs1; mret (InstrP i v1 imm imm2)
  | InstrJ i rd imm => mret (InstrJ i rd imm)
  | InstrIO io => io ← reg_fetch_io io; mret (InstrIO io)
  | InstrF f => f ← reg_fetch_f f; mret (InstrF f)
  | InstrMisc m => mret (InstrMisc m)
  end.

Definition execute_i (instr : IInstr) (rd : RegId) (rs1 imm pc_plus4 : Z) : M ExecuteOutput :=
  let ret val := mret (mkExecuteOutput None (Some (WbI rd val)) None false false 0 false) in
  match instr with
  | Addi => ret (wrapping_add rs1 imm)
  | Xori => ret (Z.lxor rs1 imm)
  | Slli => v ← lift (shl_u32 rs1 imm); ret v
  | Lw =>
      mret (mkExecuteOutput (Some (MaIMem rd (wrapping_add rs1 imm))) None None false false 0 false)
  | Jalr =>
      mret (mkExecuteOutput None (Some (WbI rd pc_plus4)) (Some (wrapping_add rs1 imm))
              false true 0 false)
  end.

Definition execute_f (f : FInstr Z RegId Z FRegId) (old_pc : Z) : M ExecuteOutput :=
  match f with
  | FE instr rd rs1 rs2 =>
      mret (mkExecuteOutput None (Some (WbF rd (e_alu instr rs1 rs2))) None true false
              (e_cycles instr) false)
  | FG instr rd rs1 rs2 rs3 =>
      mret (mkExecuteOutput None (Some (WbF rd (g_alu instr rs1 rs2 rs3))) None true false 7 false)
  | FH instr rd rs1 =>
      cycles ← lift (h_cycles instr);
      mret (mkExecuteOutput None (Some (WbF rd (h_alu instr rs1))) None true false cycles false)
  | FK instr rd rs1 rs2 => mret (write_int rd (k_alu instr rs1 rs2))
  | FX instr rd rs1 =>
      mret (mkExecuteOutput None (Some (WbF rd (x_alu instr rs1))) None true false 4 false)
  | FY instr rd rs1 =>
      mret (mkExecuteOutput None (Some (WbI rd (y_alu instr rs1))) None true false
              (y_cycles instr) false)
  | FWb instr rs1 rs2 imm => execute_w instr rs1 rs2 imm old_pc
  | FV instr rs1 imm => execute_v instr rs1 imm old_pc
  | Flw rd rs1 imm => execute_flw rd rs1 imm
  | Fsw rs2 rs1 imm => execute_fsw rs2 rs1 imm
  end.

Definition execute_p (instr : PInstr) (rs1 imm imm2 old_pc : Z) : M ExecuteOutput :=
  branch (p_cond instr rs1 imm2) old_pc imm.

Definition execute (ex_in : ExecuteInput) : M ExecuteOutput :=
  let '(mkExecuteInput instr old_pc pc_plus4) := ex_in in
  match instr with
  | InstrR instr rd rs1 rs2 => mret (write_int rd (r_alu instr rs1 rs2))
  | InstrI instr rd rs1 imm => execute_i instr rd rs1 imm pc_plus4
  | InstrS _ rs1 rs2 imm =>
      mret (mkExecuteOutput (Some (MaI (wrapping_add rs1 imm) rs2)) None None false false 1 false)
  | InstrB instr rs1 rs2 imm => branch (b_cond instr rs1 rs2) old_pc imm
  | InstrP instr rs1 imm imm2 => execute_p instr rs1 imm imm2 old_pc
  | InstrJ instr rd imm => execute_j instr rd imm old_pc pc_plus4
  | InstrIO io => execute_io io
  | InstrF f => execute_f f old_pc
  | InstrMisc m => execute_misc m
  end.
End Stages.

(** ** The processor *)

#[export] Instance second_sources : Sources DecodedInstr := {|
  reads_reg := regid_is_included_in_srcs;
  reads_freg := fregid_is_included_in_srcs
|}.

(** [MAX_REG_ID] *)
Definition MAX_REG_ID : Z := Z.shiftl 1 REG_BIT_WIDTH.
Definition second_reg_count : RegCount := {| reg_count := MAX_REG_ID; reg_count_min := eq_refl |}.

Section Processor.
Context `{Profile} {I O : Type} `{Input I} `{Output O}.
Abbreviation M := (Cpu.M (I:=I) (O:=O)).

Definition instr_decode (bin : Z) : M DecodedInstr := lift (map_err DecodeError (decode_from bin)).

#[export] Instance second_set : InstrSet (I:=I) (O:=O) DecodedInstr FetchedInstr := {|
  set_decode := instr_decode;
  set_id := id;
  set_reg_fetch := reg_fetch;
  set_execute := fun instr old_pc pc_plus4 => execute (mkExecuteInput instr old_pc pc_plus4)
|}.

(** [Cpu::cycle_one_full] *)
Definition cycle_one_full : bool -> M (CycleResult DecodedInstr) := cycle_of.

Definition second_processor : Processor I O := {| proc_cycle := cycle_one_full |}.

(** [Cpu::new] *)
Definition cpu_new {E} : list Z -> I -> O -> outcome E (Cpu I O) :=
  Cpu.cpu_new (RC:=second_reg_count).
End Processor.

(** ** The instructions that both sets have *)

Section First.
Context {IR IW FR FW : Type}.

Definition first_r (i : RInstr) : option Instr.RInstr :=
  match i with Add => Some Instr.Add | Xor => Some Instr.Xor | Min | Max => None end.
Definition first_i (i : IInstr) : Instr.IInstr :=
  match i with
  | Addi => Instr.Addi | Xori => Instr.Xori | Slli => Instr.Slli | Lw => Instr.Lw | Jalr => Instr.Jalr
  end.

(** [bxor] and [bxnor] are [bne] and [beq] under another name. *)
Definition first_b (i : BInstr) : Instr.BInstr :=
  match i with
  | Beq | Bxnor => Instr.Beq
  | Bne | Bxor => Instr.Bne
  | Blt => Instr.Blt
  | Bge => Instr.Bge
  end.
Definition first_h (i : HInstr) : option Instr.HInstr :=
  match i with
  | Fsqrt => Some Instr.Fsqrt | Fhalf => Some Instr.Fhalf | Ffloor => Some Instr.Ffloor
  | Ffrac | Finv => None
  end.

Definition first_f (f : FInstr IR IW FR FW) : option (Instr.FInstr IR IW FR FW) :=
  match f with
  | FE i rd rs1 rs2 => Some (Instr.FE i rd rs1 rs2)
  | FG _ _ _ _ _ => None
  | FH i rd rs1 => i ← first_h i; Some (Instr.FH i rd rs1)
  | FK i rd rs1 rs2 => Some (Instr.FK i rd rs1 rs2)
  | FX i rd rs1 => Some (Instr.FX i rd rs1)
  | FY i rd rs1 => Some (Instr.FY i rd rs1)
  | FWb i rs1 rs2 imm => Some (Instr.FWb i rs1 rs2 imm)
  | FV i rs1 imm => Some (Instr.FV i rs1 imm)
  | Flw rd rs1 imm => Some (Instr.Flw rd rs1 imm)
  | Fsw rs2 rs1 imm => Some (Instr.Fsw rs2 rs1 imm)
  end.

(** The instruction of the first set that does the same. *)
Definition first (i : Instr IR IW FR FW) : option (Instr.Instr IR IW FR FW) :=
  match i with
  | InstrR i rd rs1 rs2 => i ← first_r i; Some (Instr.InstrR i rd rs1 rs2)
  | InstrI i rd rs1 imm => Some (Instr.InstrI (first_i i) rd rs1 imm)
  | InstrS i rs1 rs2 imm => Some (Instr.InstrS i rs1 rs2 imm)
  | InstrB i rs1 rs2 imm => Some (Instr.InstrB (first_b i) rs1 rs2 imm)
  | InstrP _ _ _ _ => None
  | InstrJ i rd imm => Some (Instr.InstrJ i rd imm)
  | InstrIO io => Some (Instr.InstrIO io)
  | InstrF f => f ← first_f f; Some (Instr.InstrF f)
  | InstrMisc m => Some (Instr.InstrMisc m)
  end.
End First.

Section Laws.
Context `{Profile} {I O : Type} `{Input I} `{Output O}.
Implicit Types c : Cpu I O.

Lemma lxor_zero a b : (Z.lxor a b =? 0) = (a =? b).
Proof.
  destruct (Z.eqb_spec a b) as [->|Hne]; [by rewrite Z.lxor_nilpotent|].
  apply Z.eqb_neq. by rewrite Z.lxor_eq_0_iff.
Qed.

Lemma b_cond_first i a b : b_cond i a b = Cpu.b_cond (first_b i) a b.
Proof. destruct i; cbn; by rewrite ?lxor_zero. Qed.

(** What both sets have executes alike, from every machine. *)
Lemma execute_first i j old_pc pc_plus4 c :
  first i = Some j ->
  execute (mkExecuteInput i old_pc pc_plus4) c = Cpu.execute (Cpu.mkExecuteInput j old_pc pc_plus4) c.
Proof.
  destruct i as [[]|[]|[]|o s t imm|o|[]|[]|[| |[]|[]|[]|[]|[]|[]| |]|[]]; intros [= <-]; try done.
  cbn [execute Cpu.execute]. by rewrite b_cond_first.
Qed.

(** The comparisons with an immediate come in pairs. *)
Lemma p_cond_pairs a b :
  p_cond Bnei a b = negb (p_cond Beqi a b) /\ p_cond Bgei a b = negb (p_cond Blti a b) /\
  p_cond Blei a b = negb (p_cond Bgti a b).
Proof. split_and!; cbn; [done|apply Z.leb_antisym..]. Qed.

(** The smaller and the larger of two signed words. *)
Lemma min_max a b :
  u32_ok a -> u32_ok b ->
  (r_alu Min a b = a /\ r_alu Max a b = b) \/ (r_alu Min a b = b /\ r_alu Max a b = a).
Proof.
  intros Ha Hb. cbn. destruct (Z.le_ge_cases (as_i32 a) (as_i32 b)).
  - left. rewrite Z.min_l, Z.max_r by lia. by rewrite !as_i32_as_u32.
  - right. rewrite Z.min_r, Z.max_l by lia. by rewrite !as_i32_as_u32.
Qed.

(** The only instructions of the new ones that stop the simulator are [ffrac]s. *)
Lemma ffrac_panics rd rs1 old_pc pc_plus4 c :
  (execute (mkExecuteInput (InstrF (FH Ffrac rd rs1)) old_pc pc_plus4) c).1 = Panic Unreachable.
Proof. done. Qed.
End Laws.
