(* ===== verification/Isa2.v ===== *)
(** * The architecture of the second instruction set

    The specification of the processor with the feature [isa_2nd]: the state, the
    memory and the devices are those of Isa.v, with 64 registers of each kind.  The
    operations are written here, or shared with the specification of the first set
    where the sets share them; none is taken from the execute stage (Execute2.v). *)
From S2P Require Import Prelude Word Ty Register Instr Decode Common Memory Float32 Fpu Io Cpu Isa IsaProps Instr2 Decode2 Execute2.

Section Isa2.
Context `{Profile} {I O : Type} `{Input I} `{Output O}.
Abbreviation arch := (Arch I O).
Abbreviation result := (isa_result I O).

(** ** Operations *)

Definition isa_r (op : RInstr) (x y : Z) : Z :=
  match op with
  | Add => add32 x y
  | Xor => Z.lxor x y
  | Min => if i32 y <? i32 x then y else x
  | Max => if i32 x <? i32 y then y else x
  end.

(** The last two compare too: words with a difference, and equal ones. *)
Definition isa_b (op : BInstr) (x y : Z) : bool :=
  match op with
  | Beq | Bxnor => x =? y
  | Bne | Bxor => negb (x =? y)
  | Blt => i32 x <? i32 y
  | Bge => negb (i32 x <? i32 y)
  end.

Definition isa_p (op : PInstr) (x imm : Z) : bool :=
  match op with
  | Beqi => x =? imm
  | Bnei => negb (x =? imm)
  | Blti => i32 x <? i32 imm
  | Bgei => negb (i32 x <? i32 imm)
  | Bgti => i32 imm <? i32 x
  | Blei => negb (i32 imm <? i32 x)
  end.

(** [x * y + z], [x * y - z], [- x * y + z] and [- x * y - z], rounded twice. *)
Definition isa_g (op : GInstr) (x y z : Z) : Z :=
  match op with
  | Fmadd => f32_add (f32_mul x y) z
  | Fmsub => f32_sub (f32_mul x y) z
  | Fnmadd => f32_add (f32_mul (flip_sign x) y) z
  | Fnmsub => f32_sub (f32_mul (flip_sign x) y) z
  end.

(** [ffrac] is not an instruction of the core. *)
Definition isa_h (op : HInstr) (x : Z) : option Z :=
  match op with
  | Fsqrt => Some (fsqrt x)
  | Fhalf => Some (fhalf x)
  | Ffloor => Some (ffloor x)
  | Ffrac => None
  | Finv => Some (fdiv f32_one x)
  end.

(** ** One instruction *)

Definition isa_exec_i (op : IInstr) (rd : Z) (v imm : Z) (a : arch) : result :=
  let wr x := IsaNext (a_set rd x a) in
  match op with
  | Addi => wr (add32 v imm)
  | Xori => wr (Z.lxor v imm)
  | Slli => and_then a (isa_sll v imm) wr
  | Lw => and_then a (a_load (add32 v imm) I32OrUsize a) (fun x => IsaNext (a_set rd x.1 x.2))
  | Jalr => IsaNext (a_set rd (a_pc a) (a_jump (add32 v imm) a))
  end.

Definition isa_exec_f (here : Z) (f : FInstr RegId RegId FRegId FRegId) (a : arch) : result :=
  let x r := a_reg a (inner r) in
  let y r := a_freg a (f_inner r) in
  match f with
  | FE op rd rs1 rs2 => IsaNext (a_set_f (f_inner rd) (isa_e op (y rs1) (y rs2)) a)
  | FG op rd rs1 rs2 rs3 => IsaNext (a_set_f (f_inner rd) (isa_g op (y rs1) (y rs2) (y rs3)) a)
  | FH op rd rs1 =>
      match isa_h op (y rs1) with
      | Some v => IsaNext (a_set_f (f_inner rd) v a)
      | None => IsaPanic Unreachable
      end
  | FK op rd rs1 rs2 => IsaNext (a_set (inner rd) (isa_k op (y rs1) (y rs2)) a)
  | FX op rd rs1 => IsaNext (a_set_f (f_inner rd) (isa_x op (x rs1)) a)
  | FY op rd rs1 => IsaNext (a_set (inner rd) (isa_y op (y rs1)) a)
  | FWb op rs1 rs2 imm => a_branch here (isa_w op (y rs1) (y rs2)) imm a
  | FV op rs1 imm => a_branch here (isa_v op (y rs1)) imm a
  | Flw rd rs1 imm =>
      and_then a (a_load (add32 (x rs1) imm) F32 a)
        (fun v => IsaNext (a_set_f (f_inner rd) v.1 v.2))
  | Fsw rs2 rs1 imm => and_then a (a_store (add32 (x rs1) imm) (y rs2) F32 a) IsaNext
  end.

Definition isa_exec (here : Z) (i : DecodedInstr) (a : arch) : result :=
  let x r := a_reg a (inner r) in
  match i with
  | InstrR op rd rs1 rs2 => IsaNext (a_set (inner rd) (isa_r op (x rs1) (x rs2)) a)
  | InstrI op rd rs1 imm => isa_exec_i op (inner rd) (x rs1) imm a
  | InstrS _ rs1 rs2 imm =>
      and_then a (a_store (add32 (x rs1) imm) (x rs2) I32OrUsize a) IsaNext
  | InstrB op rs1 rs2 imm => a_branch here (isa_b op (x rs1) (x rs2)) imm a
  | InstrP op rs1 imm imm2 => a_branch here (isa_p op (x rs1) imm2) imm a
  | InstrJ _ rd imm => IsaNext (a_set (inner rd) (a_pc a) (a_jump (add32 here imm) a))
  | InstrIO io => isa_exec_io io a
  | InstrF f => isa_exec_f here f a
  | InstrMisc MiscEnd => IsaExit a
  end.

Definition isa_step : arch -> result := isa_step_with decode_from isa_exec.

(** What both sets have means the same. *)
Lemma isa_exec_first here i j a :
  first i = Some j -> isa_exec here i a = Isa.isa_exec here j a.
Proof.
  destruct i as [[]|[]|[]|[] s t imm|o|[]|[]|[| |[]|[]|[]|[]|[]|[]| |]|[]]; intros [= <-]; done.
Qed.

(** The instructions that only this set has, but for [ffrac]: results and branches. *)
Lemma isa_exec_new i :
  first i = None ->
  (exists rd rs, i = InstrF (FH Ffrac rd rs)) \/
  (exists rd f, (forall a b, a ≡ b -> f a = f b) /\ forall here a, isa_exec here i a = IsaNext (a_set rd (f a) a)) \/
  (exists rd f, (forall a b, a ≡ b -> f a = f b) /\ forall here a, isa_exec here i a = IsaNext (a_set_f rd (f a) a)) \/
  (exists f imm, (forall a b, a ≡ b -> f a = f b) /\ forall here a, isa_exec here i a = a_branch here (f a) imm a).
Proof.
  destruct i as [[] rd rs1 rs2|[]|[]|o s t imm|op rs1 imm imm2|[]|[]|[| [] rd rs1 rs2 rs3|[] rd rs1|[]|[]|[]|[]|[]| |]|[]];
    intros [=]; try (left; by do 2 eexists); right.
  all: first
    [ left; do 2 eexists; split; [|intros; reflexivity]; intros a b Hab; cbv beta; by rewrite !(equiv_reg _ _ _ Hab)
    | right; left; do 2 eexists; split; [|intros; reflexivity]; intros a b Hab; cbv beta; by rewrite !(equiv_freg _ _ _ Hab)
    | right; right; do 2 eexists; split; [|intros; reflexivity]; intros a b Hab; cbv beta; by rewrite !(equiv_reg _ _ _ Hab) ].
Qed.

Lemma isa2_exec_equiv here i a b : a ≡ b -> isa_exec here i a ≡ isa_exec here i b.
Proof.
  intros Hab. destruct (first i) as [j|] eqn:Hj.
  { rewrite !(isa_exec_first here i j) by done. by apply exec_equiv. }
  destruct (isa_exec_new i Hj) as [(rd & rs & ->)|[(rd & f & Hf & He)|[(rd & f & Hf & He)|(f & imm & Hf & He)]]];
    [done|rewrite !He, (Hf _ _ Hab)..]; [| |by apply branch_equiv]; apply equiv_next; by rewrite Hab.
Qed.

Lemma isa2_exec_text here i a : text_aligned a -> keeps_text a (isa_exec here i a).
Proof.
  intros Ha. destruct (first i) as [j|] eqn:Hj.
  { rewrite (isa_exec_first here i j) by done. by apply exec_keeps_text. }
  destruct (isa_exec_new i Hj) as [(rd & rs & ->)|[(rd & f & _ & He)|[(rd & f & _ & He)|(f & imm & _ & He)]]];
    [exact (keeps_panic a Unreachable)|rewrite He; unfold a_branch..].
  - by eapply (keeps_same _ (a_set rd (f a) a)).
  - by eapply (keeps_same _ (a_set_f rd (f a) a)).
  - destruct (f a); by eapply keeps_same; [..|reflexivity].
Qed.

End Isa2.
