(* ===== verification/Cpu2Props.v ===== *)
(** * The processor implements the second instruction set

    The register fetch and the execute stage of the second set against its
    specification, and what CpuInv.v and SimProps.v make of them: with the feature
    [isa_2nd], a cycle is one step, a batch runs the program, and only [ffrac] stops
    the simulator. *)
From S2P Require Import Prelude Word Vec Ty Register Instr Decode Encode Common RegFile Cache BranchPredictor Memory Float32 Fpu Io Cpu Isa IsaProps CpuInv CpuProps CpuTheorems DebugSymbol Sim SimProps Instr2 Decode2 Encode2 Execute2 Isa2.

#[local] Existing Instance second_reg_count.
#[global] Arguments Decode2.decode_from : simpl never.

Section Cpu2Props.
Context `{Profile} {I O : Type} `{!Input I} `{!Output O} `{!InputOk I}.
Implicit Types c : Cpu I O.

(** ** Register fetch *)

Definition f_values (a : Arch I O) (f : FInstr RegId RegId FRegId FRegId) : FInstr Z RegId Z FRegId :=
  let x r := a_reg a (inner r) in
  let y r := a_freg a (f_inner r) in
  match f with
  | FE i rd rs1 rs2 => FE i rd (y rs1) (y rs2)
  | FG i rd rs1 rs2 rs3 => FG i rd (y rs1) (y rs2) (y rs3)
  | FH i rd rs1 => FH i rd (y rs1)
  | FK i rd rs1 rs2 => FK i rd (y rs1) (y rs2)
  | FX i rd rs1 => FX i rd (x rs1)
  | FY i rd rs1 => FY i rd (y rs1)
  | FWb i rs1 rs2 imm => FWb i (y rs1) (y rs2) imm
  | FV i rs1 imm => FV i (y rs1) imm
  | Flw rd rs1 imm => Flw rd (x rs1) imm
  | Fsw rs2 rs1 imm => Fsw (y rs2) (x rs1) imm
  end.

(** The instruction with the values of its sources. *)
Definition values (a : Arch I O) (i : DecodedInstr) : FetchedInstr :=
  let x r := a_reg a (inner r) in
  match i with
  | InstrR i rd rs1 rs2 => InstrR i rd (x rs1) (x rs2)
  | InstrI i rd rs1 imm => InstrI i rd (x rs1) imm
  | InstrS i rs1 rs2 imm => InstrS i (x rs1) (x rs2) imm
  | InstrB i rs1 rs2 imm => InstrB i (x rs1) (x rs2) imm
  | InstrP i rs1 imm imm2 => InstrP i (x rs1) imm imm2
  | InstrJ i rd imm => InstrJ i rd imm
  | InstrIO io => InstrIO (io_values a io)
  | InstrF f => InstrF (f_values a f)
  | InstrMisc m => InstrMisc m
  end.

Lemma reg_fetch2_f_reads f c :
  cpu_ok c -> finstr_ok f -> wp (reg_fetch_f f) (reads c (f_values (abs c) f)) c.
Proof.
  intros Hc Hf. assert (same_arch c c) as Hs by reflexivity.
  destruct f as [| | | | | | | | |]; simpl in Hf; destruct_and?; unfold reg_fetch_f; fetch_regs.
Qed.

Lemma reg_fetch2_reads i c :
  cpu_ok c -> instr_ok i -> wp (reg_fetch i) (reads c (values (abs c) i)) c.
Proof.
  intros Hc Hi. assert (same_arch c c) as Hs by reflexivity.
  destruct i as [| | | | | |[rs|rd|rd]|f|m]; unfold reg_fetch; simpl in Hi; destruct_and?;
    try by fetch_regs.
  - apply wp_bind. unfold reg_fetch_io. apply wp_bind, rget_wp; [done..|]. intros c' Hc' Hs'.
    by apply wp_ret, wp_ret.
  - apply wp_bind. eapply reads_wp; [by apply reg_fetch2_f_reads|]. intros c' Hc' Hs'. by apply wp_ret.
Qed.

(** ** The execute stage *)

Lemma r_alu2_ok op x y : u32_ok x -> u32_ok y -> u32_ok (r_alu op x y).
Proof. intros. destruct op; cbn [r_alu]; auto with sim. Qed.

Lemma g_alu_ok op x y z : u32_ok (g_alu op x y z).
Proof. destruct op; cbn [g_alu]; auto with sim. Qed.

Lemma h_alu2_ok op x : u32_ok x -> u32_ok (h_alu op x).
Proof. intros. destruct op; cbn [h_alu]; unfold fhalf, ffrac, finv; auto with sim. Qed.
Hint Resolve e_alu_ok k_alu_ok x_alu_ok y_alu_ok r_alu2_ok g_alu_ok h_alu2_ok : sim.

(** The tables of the execute stage compute the operations of the specification. *)
Lemma r_alu2_isa op x y : u32_ok x -> u32_ok y -> r_alu op x y = isa_r op x y.
Proof.
  intros. destruct op; cbn [r_alu isa_r]; try done; rewrite !i32_signed by done;
    destruct (Z.ltb_spec (as_i32 x) (as_i32 y)), (Z.ltb_spec (as_i32 y) (as_i32 x));
    rewrite ?Z.min_l, ?Z.min_r, ?Z.max_l, ?Z.max_r by lia; try lia; rewrite as_i32_as_u32 by done; try done.
Qed.

Lemma b_cond2_isa op x y : u32_ok x -> u32_ok y -> b_cond op x y = isa_b op x y.
Proof.
  intros. destruct op; cbn; rewrite ?lxor_zero, ?i32_signed by done; try done. apply Z.leb_antisym.
Qed.

Lemma p_cond_isa op x y : u32_ok x -> u32_ok y -> p_cond op x y = isa_p op x y.
Proof. intros. destruct op; cbn; rewrite ?i32_signed by done; try done; apply Z.leb_antisym. Qed.

Lemma g_alu_isa op x y z : u32_ok x -> g_alu op x y z = isa_g op x y z.
Proof. intros. destruct op; cbn; by rewrite ?flip_sign_isa. Qed.

(** From the operations of the specification to the tables of the execute stage. *)
Ltac of_isa2 :=
  cbn [isa_exec isa_exec_f isa_exec_i];
  rewrite <- ?r_alu2_isa, <- ?b_cond2_isa, <- ?p_cond_isa, <- ?e_alu_isa, <- ?g_alu_isa, <- ?k_alu_isa,
    <- ?x_alu_isa, <- ?y_alu_isa, <- ?w_cond_isa, <- ?v_cond_isa by auto with sim.

Lemma execute_f2_post here f c :
  cpu_ok c -> finstr_ok f ->
  wp (execute_f (f_values (abs c) f) here) (exec_post (isa_exec here (InstrF f) (abs c)) c) c.
Proof.
  intros Hc Hf. destruct f as [op rd rs1 rs2|op rd rs1 rs2 rs3|op rd rs1|op rd rs1 rs2|op rd rs1|op rd rs1
    |op rs1 rs2 imm|op rs1 imm|rd rs1 imm|rs2 rs1 imm]; simpl in Hf; destruct_and?;
    unfold f_values, execute_f, execute_w, execute_v, execute_flw, execute_fsw; of_isa2.
  - exec_pure. by destruct op.
  - exec_pure.
  - destruct op; cbn [h_cycles]; apply wp_bind, wp_lift; try (exec_pure; fail).
    split_and!; [done|done|reflexivity].
  - exec_pure.
  - exec_pure.
  - exec_pure. by destruct op.
  - by apply branch_post.
  - by apply branch_post.
  - exec_mem.
  - exec_mem.
Qed.

Lemma execute_i2_post here op rd rs1 imm c :
  cpu_ok c -> instr_ok (InstrI op rd rs1 imm) ->
  wp (execute_i op rd (a_reg (abs c) (inner rs1)) imm (a_pc (abs c)))
    (exec_post (isa_exec here (InstrI op rd rs1 imm) (abs c)) c) c.
Proof.
  intros Hc (Hrd & Hrs1 & [Hu _]). destruct op; unfold execute_i.
  - exec_pure.
  - exec_pure.
  - unfold exec_post. apply wp_bind, wp_lift. cbn [isa_exec isa_exec_i].
    rewrite <- shl_isa by apply Hu. unfold shl_u32.
    destruct (imm <? 32); [|destruct overflow_checks; [by split_and!|]];
      (apply wp_ret, exec_ret; [done|reflexivity| |done|done]); split;
      cbn [eo_ma_in eo_wb_in eo_new_pc eo_cycles wb_ok]; try done; auto with sim.
  - exec_mem.
  - exec_pure. split; [done|]. apply (co_pc _ Hc).
Qed.

Lemma execute2_post here i c :
  cpu_ok c -> instr_ok i ->
  wp (execute (mkExecuteInput (values (abs c) i) here (a_pc (abs c))))
    (exec_post (isa_exec here i (abs c)) c) c.
Proof.
  intros Hc Hi. destruct i as [op rd rs1 rs2|op rd rs1 imm|[] rs1 rs2 imm|op rs1 rs2 imm|op rs1 imm imm2
    |[] rd imm|io|f|[]]; unfold execute, values, execute_j, execute_misc.
  - simpl in Hi. destruct_and?. of_isa2. exec_pure.
  - by apply execute_i2_post.
  - simpl in Hi. destruct_and?. exec_mem.
  - of_isa2. by apply branch_post.
  - destruct Hi as (_ & _ & [Hu _]). of_isa2. by apply branch_post.
  - simpl in Hi. destruct_and?. exec_pure. split; [done|]. apply (co_pc _ Hc).
  - by apply execute_io_post.
  - by apply execute_f2_post.
  - apply wp_ret. split_and!; [done|done|by split|reflexivity].
Qed.
#[export] Program Instance second_set_ok : InstrSetOk (I:=I) (O:=O) (D:=DecodedInstr) (F:=FetchedInstr) := {|
  spec_decode := decode_from;
  spec_exec := isa_exec;
  spec_ok := instr_ok
|}.
Next Obligation. done. Qed.
Next Obligation. intros bin i Hu Hd. by apply (decode2_ok bin i Hu). Qed.
Next Obligation. intros. by apply isa2_exec_equiv. Qed.
Next Obligation. intros. by apply isa2_exec_text. Qed.
Next Obligation. apply id_round_trip. Qed.
Next Obligation.
  intros i here c Hc Hi. apply (fetch_execute_post (reg_fetch i) (values (abs c) i)); [by apply reg_fetch2_reads|].
  intros c' Hc' Hs. rewrite <- (same_arch_abs _ _ Hs). rewrite <- (sa_pc _ _ Hs).
  by apply execute2_post.
Qed.

#[export] Program Instance second_processor_ok :
    ProcessorOk (I:=I) (O:=O) (Processor0:=second_processor) := {| proc_step := isa_step |}.
Next Obligation. intros a b Hab. by apply step_with_equiv; [apply isa2_exec_equiv|]. Qed.
Next Obligation. intros. by apply step_with_keeps_text; [apply isa2_exec_text|]. Qed.
Next Obligation. intros t c Hc. exact (cycle_of_post (D:=DecodedInstr) (F:=FetchedInstr) t c Hc). Qed.

Lemma cycle2_run t c :
  cpu_ok c ->
  cpu_ok (cycle_one_full t c).2 /\
  cycle_sim (isa_step (abs c)) (cycle_one_full t c).1 (cycle_one_full t c).2.
Proof. intros Hc. exact (proc_ok (Processor0:=second_processor) t c Hc). Qed.

(** C2: Refinement, for the second instruction set: from a well-formed machine with 64
    registers of each kind, one call of [cycle_one_full] ends in a well-formed
    machine, and it is one step of the specification of this set: it continues in
    the specified state, exits in it, or reports the specified fault in it, and
    panics exactly where the specification does, with the same panic: at [ffrac], in
    a device, and, in a build with overflow checks, at a shift by 32 or more and at
    an access to the heap or the stack after the stack pointer was below 1000. *)
Theorem cycle2_refines_isa t c :
  cpu_ok c ->
  cpu_ok (cycle_one_full t c).2 /\
  cycle_sim (isa_step (abs c)) (cycle_one_full t c).1 (cycle_one_full t c).2.
Proof. apply cycle2_run. Qed.

(** ** Panics *)

Section NoPanic.
Context (Hchecks : overflow_checks = false).
Context (Hin : forall i p, (inw (I:=I) i).1 <> Panic p) (Hfin : forall i p, (finw (I:=I) i).1 <> Panic p).
Context (Hout : forall v o p, (outb (O:=O) v o).1 <> Panic p).

Lemma exec2_panic here i a p :
  a_marks a = None ->
  isa_exec here i a = IsaPanic p -> p = Unreachable /\ exists rd rs, i = InstrF (FH Ffrac rd rs).
Proof.
  intros Hm He. destruct (first i) as [j|] eqn:Hj.
  - rewrite (isa_exec_first here i j a Hj) in He. by apply (IsaProps.exec_no_panic Hchecks Hin Hfin Hout _ _ _ _ Hm) in He.
  - destruct i as [[]|[]|[]|o s t imm|o|[]|[]|[| |[]|[]|[]|[]|[]|[]| |]|[]]; simpl in Hj; try done;
      cbn in He; try done; simplify_eq; eauto.
Qed.
End NoPanic.

(** C14: With the second instruction set, in a build without overflow checks and with
    devices that do not panic, the only panic of a cycle is the instruction
    [ffrac], which the decoder accepts and the cycle count does not know. *)
Theorem only_ffrac_panics t c p :
  overflow_checks = false ->
  (forall i q, (inw (I:=I) i).1 <> Panic q) -> (forall i q, (finw (I:=I) i).1 <> Panic q) ->
  (forall v o q, (outb (O:=O) v o).1 <> Panic q) ->
  cpu_ok c ->
  (cycle_one_full t c).1 = Panic p <->
  p = Unreachable /\ exists bin rd rs,
    a_fetch (abs c) = Ok bin /\ decode_from bin = Ok (InstrF (FH Ffrac rd rs)).
Proof.
  intros Hch Hin Hfin Hout Hc.
  pose proof (sim_result _ _ (proj2 (cycle2_run t c Hc))) as Hs. unfold result_of in Hs.
  pose proof (fetch_word_ok c Hc) as Hu. unfold isa_step, isa_step_with in Hs. split.
  - intros Hp. rewrite Hp in Hs.
    destruct (a_fetch (abs c)) as [bin|e|q]; [|done..]. cbn [and_then] in Hs.
    destruct (decode_from bin) as [i|e|q] eqn:Hd; cbn [map_err and_then] in Hs; [|done|by apply decode2_total in Hd].
    destruct (isa_exec _ _ _) eqn:He; try done. simpl in Hs. simplify_eq.
    apply (exec2_panic Hch Hin Hfin Hout) in He; [|simpl; unfold marks_of; by rewrite Hch]. destruct He as (-> & rd & rs & ->).
    split; [done|]. by exists bin, rd, rs.
  - intros (-> & bin & rd & rs & Hf & Hd). rewrite Hf in Hs. cbn [and_then] in Hs. rewrite Hd in Hs.
    cbn in Hs. destruct (cycle_one_full t c) as [[res|e|q] c']; simpl in *; [by destruct (is_exit _)|done|by subst].
Qed.

(** ** Whole runs *)

(** C6: The batch simulation of a build with the second instruction set, with overflow
    checks or without, is correct and terminates: if the specification of this set ends the program after [n]
    instructions, the driver, with any fuel above [n + 1], reports success for the
    end instruction or the specified fault, in the specified final state, and has
    counted every instruction. *)
Theorem batch2_runs_program n r fuel (s : Simulator I O) :
  cpu_ok (cpu s) -> fatal_error s = None -> (S n < fuel)%nat -> runs isa_step n (abs (cpu s)) r ->
  let res := execute_batch (Processor0:=second_processor) fuel s in
  res.1 = Ok (report r) /\ final_state r (abs (cpu res.2)) /\
  cycle res.2 = cycle s + Z.of_nat n + match r with IsaExit _ => 1 | _ => 0 end.
Proof.
  intros Hc Hf Hn Hr. cbv zeta.
  destruct (execute_batch_runs (PO:=second_processor_ok) n r fuel s Hc Hf Hn Hr) as (? & ? & ? & _).
  by split_and!.
Qed.
End Cpu2Props.

(** ** A program *)

Section Demo.
#[local] Existing Instance release_profile.

(** Registers above 31, a minimum, a fused operation and a comparison with an
    immediate; then the fraction of a float. *)
Definition demo2_text : list DecodedInstr :=
  [ InstrI Addi (mkRegId 40) (mkRegId 0) 7;
    InstrI Addi (mkRegId 41) (mkRegId 0) 0xFFFFFFFE;
    InstrR Min (mkRegId 42) (mkRegId 40) (mkRegId 41);
    InstrP Blti (mkRegId 42) 8 0xFFFFFFFF;
    InstrMisc MiscEnd;
    InstrF (FG Fmadd (mkFRegId 50) (mkFRegId 1) (mkFRegId 1) (mkFRegId 1));
    InstrF (FH Ffrac (mkFRegId 51) (mkFRegId 50)) ].

Definition demo2_body (text : list DecodedInstr) : list Z := concat (map (fun i => to_le_bytes (encode i)) text).

Definition demo2_image (text : list DecodedInstr) : list Z :=
  image 0 (Z.of_nat (length text)) (demo2_body text).

Definition run2 (n : nat) (c : Cpu EmptyIO BinaryOutput) : Cpu EmptyIO BinaryOutput :=
  Nat.iter n (fun c => (cycle_one_full false c).2) c.

Definition demo2_cpu (text : list DecodedInstr) : Cpu EmptyIO BinaryOutput :=
  match cpu_new (E:=never) (demo2_image text) emptyio_new binaryoutput_new with
  | Ok c => c
  | _ => mkCpu regfile_new region_default (memory_new 0) (cache_new 0) (mkPc 0) emptyio_new
           binaryoutput_new (predictor_new 0) [] (vnew 0 0) cachestat_default branchstat_default
  end.

(** Six instructions, with the branch taken; the seventh stops the simulator. *)
Example demo2_run :
  let c := run2 5 (demo2_cpu demo2_text) in
  as_i32 (a_reg (abs c) 42) = -2 /\ a_freg (abs c) 50 = 0x40000000 /\
  (cycle_one_full false c).1 = Panic Unreachable.
Proof. vm_compute. by split_and!. Qed.

Lemma demo2_ok text :
  image_ok 0 (Z.of_nat (length text)) (demo2_body text) ->
  cpu_ok (demo2_cpu text).
Proof.
  intros Hi. destruct (cpu_new_starts (E:=never) 0 _ _ emptyio_new binaryoutput_new Hi)
    as (c & Hnew & Hok & _); [done|].
  unfold demo2_cpu, demo2_image, cpu_new. by rewrite Hnew.
Qed.

Ltac solve_image := split; [done..|by vm_compute|apply (bool_decide_unpack _); by vm_compute].

Lemma cycle2_refines_isa_witness :
  cpu_ok (cycle_one_full true (demo2_cpu demo2_text)).2 /\
  cycle_sim (isa_step (abs (demo2_cpu demo2_text))) (cycle_one_full true (demo2_cpu demo2_text)).1
    (cycle_one_full true (demo2_cpu demo2_text)).2.
Proof.
  pose proof (demo2_ok demo2_text ltac:(solve_image)) as Hc.
  exact (cycle2_refines_isa true (demo2_cpu demo2_text) Hc).
Defined.

(** The same program with its end, in a batch. *)
Definition exit_text : list DecodedInstr := firstn 6 demo2_text ++ [InstrMisc MiscEnd].

Definition demo2_sim : Simulator EmptyIO BinaryOutput :=
  mkSim (demo2_cpu exit_text) 0 0 debugsymbol_default None (mkSimStat None None None).

Lemma batch2_runs_program_witness :
  (execute_batch (Processor0:=second_processor) 7 demo2_sim).1 = Ok (Some (inl ())) /\
  cycle (execute_batch (Processor0:=second_processor) 7 demo2_sim).2 = 6.
Proof.
  destruct (exits_in_runs isa_step 5 (abs (demo2_cpu exit_text))) as [b Hb]; [by vm_compute|].
  pose proof (demo2_ok exit_text ltac:(solve_image)) as Hc.
  destruct (batch2_runs_program 5 (IsaExit b) 7 demo2_sim) as (H1 & _ & H3); [exact Hc|done|lia|exact Hb|].
  split; [exact H1|exact H3].
Defined.

Definition ffrac_text : list DecodedInstr := [InstrF (FH Ffrac (mkFRegId 1) (mkFRegId 1))].

Lemma only_ffrac_panics_witness :
  (cycle_one_full false (demo2_cpu ffrac_text)).1 = Panic Unreachable.
Proof.
  apply (only_ffrac_panics (H:=release_profile)); try done.
  - apply (demo2_ok ffrac_text). solve_image.
  - split; [done|]. exists (encode (InstrF (FH Ffrac (mkFRegId 1) (mkFRegId 1)))), (mkFRegId 1), (mkFRegId 1).
    by split; vm_compute.
Defined.
End Demo.
